(** * The two free-list allocators of [src/mm], embedded in Rocq

    [src/mm/mm_heap_kr2.c] and [src/mm/mm_heap_dll.c] implement the same
    interface ([mm_init], [mm_malloc], [mm_free], [mm_realloc],
    [mm_getfree]) over the arena of [memlib].  Each file is embedded in a
    module of its own ([KR2], [DLL]): a [Header]-sized unit of memory is a
    record, the memory is a finite map from the address of a unit to its
    contents, the globals [freep] and [errno] and the arena are fields of
    an explicit state, and every function threads that state through an
    error monad.  Loops take fuel.

    Conventions.
    - [size_t] is 64 bits wide; its arithmetic wraps ([wrap]).
    - A pointer is the byte address it holds (a [Z]); [NULL] is [0];
      arithmetic on a [Header *] is scaled by [sizeof_Header].
    - Dereferencing a pointer that is neither the static sentinel nor a
      unit of the arena's buffer is undefined behaviour: [Fault].
    - The sentinel [base] is a static object; its address is part of the
      state and does not change. *)

From Stdlib Require Import ZArith Lia Bool List.
From stdpp Require Import base option list gmap.

Open Scope Z_scope.

(** ** Machine integers, results *)

Definition SIZE_MAX : Z := 2 ^ 64 - 1.

(** Arithmetic on [size_t] is modulo [2^64]. *)
Definition wrap (x : Z) : Z := x mod 2 ^ 64.

Definition NULL : Z := 0.

Definition ENOMEM : Z := 12.

(** The outcome of running a function: a value, undefined behaviour or a
    failed assertion ([Fault]), or a loop that used up its fuel. *)
Inductive result (A : Type) : Type :=
| Ok (a : A)
| Fault
| OutOfFuel.

Arguments Ok {A} a.
Arguments Fault {A}.
Arguments OutOfFuel {A}.

#[global] Instance result_ret : MRet result := fun A a => Ok a.

#[global] Instance result_bind : MBind result := fun A B f r =>
  match r with
  | Ok a => f a
  | Fault => Fault
  | OutOfFuel => OutOfFuel
  end.

(** Little-endian bytes of an object, for [memcpy]. *)
Fixpoint le_bytes (n : nat) (v : Z) : list Z :=
  match n with
  | O => []
  | S n' => v mod 256 :: le_bytes n' (v / 256)
  end.

Fixpoint le_value (l : list Z) : Z :=
  match l with
  | [] => 0
  | b :: l' => b + 256 * le_value l'
  end.

(** ** The arena *)

(** Modelled from the spec: the arena of [memlib.h] ([mem_init],
    [mem_sbrk], [mem_reset_brk], [mem_deinit], [mem_heapsize],
    [mem_heap_lo], [mem_heap_hi], [mem_pagesize]) is not in the
    repository.  The spec describes it as a linear growable byte buffer
    that hands back contiguous memory: "extend by N bytes, return start
    pointer or failure", "current size", "low/high bounds", "page size",
    "reset", "teardown".  The model is a buffer from [mem_start_brk] to
    [mem_max_addr] of which the bytes below [mem_brk] are in use;
    extension fails when it would pass the end of the buffer. *)
Record Arena : Type := mkArena {
  mem_start_brk : Z;
  mem_brk : Z;
  mem_max_addr : Z;
  pagesize : Z
}.

Definition mem_init (a : Arena) : Arena :=
  mkArena (mem_start_brk a) (mem_start_brk a) (mem_max_addr a) (pagesize a).

Definition mem_reset_brk (a : Arena) : Arena :=
  mkArena (mem_start_brk a) (mem_start_brk a) (mem_max_addr a) (pagesize a).

Definition mem_deinit (a : Arena) : Arena :=
  mkArena (mem_start_brk a) (mem_start_brk a) (mem_max_addr a) (pagesize a).

(** [None] stands for the failure value [(void * ) -1]. *)
Definition mem_sbrk (a : Arena) (incr : Z) : option (Z * Arena) :=
  if mem_brk a + incr <=? mem_max_addr a
  then Some (mem_brk a,
             mkArena (mem_start_brk a) (mem_brk a + incr) (mem_max_addr a) (pagesize a))
  else None.

Definition mem_heapsize (a : Arena) : Z := mem_brk a - mem_start_brk a.

Definition mem_heap_lo (a : Arena) : Z := mem_start_brk a.

Definition mem_heap_hi (a : Arena) : Z := mem_brk a - 1.

Definition mem_pagesize (a : Arena) : Z := pagesize a.

(** ** [mm_heap_kr2.c]: one circular doubly-linked list through all blocks *)

Module KR2.

(** [sizeof(Header)] on an LP64 platform: two pointers, a [bool] padded to
    eight bytes and a [size_t]. *)
Definition sizeof_Header : Z := 32.

(** One unit of memory, seen through [union Header].  [isFree] is the byte
    that holds the [bool], [pad] the seven bytes of padding after it. *)
Record Header : Type := mkHeader {
  prev : Z;
  next : Z;
  isFree : Z;
  pad : Z;
  size : Z
}.

Definition zero_Header : Header := mkHeader 0 0 0 0 0.

Definition is_free (h : Header) : bool := negb (isFree h =? 0).

Definition set_prev (v : Z) (h : Header) : Header :=
  mkHeader v (next h) (isFree h) (pad h) (size h).
Definition set_next (v : Z) (h : Header) : Header :=
  mkHeader (prev h) v (isFree h) (pad h) (size h).
Definition set_isFree (b : bool) (h : Header) : Header :=
  mkHeader (prev h) (next h) (if b then 1 else 0) (pad h) (size h).
Definition set_size (v : Z) (h : Header) : Header :=
  mkHeader (prev h) (next h) (isFree h) (pad h) v.

Definition Header_bytes (h : Header) : list Z :=
  le_bytes 8 (prev h) ++ le_bytes 8 (next h) ++ le_bytes 1 (isFree h)
  ++ le_bytes 7 (pad h) ++ le_bytes 8 (size h).

Definition Header_of_bytes (l : list Z) : Header :=
  mkHeader (le_value (take 8 l)) (le_value (take 8 (drop 8 l)))
           (le_value (take 1 (drop 16 l))) (le_value (take 7 (drop 17 l)))
           (le_value (take 8 (drop 24 l))).

(** The globals of the file, the memory and the arena. *)
Record state : Type := mkState {
  heap : gmap Z Header;
  freep : Z;
  errno : Z;
  arena : Arena;
  base : Z
}.

Definition with_heap (h : gmap Z Header) (s : state) : state :=
  mkState h (freep s) (errno s) (arena s) (base s).
Definition with_freep (p : Z) (s : state) : state :=
  mkState (heap s) p (errno s) (arena s) (base s).
Definition with_errno (e : Z) (s : state) : state :=
  mkState (heap s) (freep s) e (arena s) (base s).
Definition with_arena (a : Arena) (s : state) : state :=
  mkState (heap s) (freep s) (errno s) a (base s).

(** The units a [Header *] may be dereferenced at: the sentinel and the
    units of the arena's buffer. *)
Definition valid_ptr (s : state) (p : Z) : bool :=
  (p =? base s)
  || ((mem_start_brk (arena s) <=? p)
      && (p + sizeof_Header <=? mem_max_addr (arena s))
      && ((p - mem_start_brk (arena s)) mod sizeof_Header =? 0)).

Definition rd (h : gmap Z Header) (p : Z) : Header := default zero_Header (h !! p).

Definition load (s : state) (p : Z) : result Header :=
  if valid_ptr s p then Ok (rd (heap s) p) else Fault.

(** [p->s.field = v] *)
Definition upd (s : state) (p : Z) (f : Header → Header) : result state :=
  if valid_ptr s p then Ok (with_heap (<[p := f (rd (heap s) p)]> (heap s)) s) else Fault.

Definition init_base (s : state) : state :=
  with_freep (base s)
    (with_heap (<[base s := set_size 0 (set_isFree false
                   (set_prev (base s) (set_next (base s) (rd (heap s) (base s)))))]> (heap s)) s).

Definition mm_init (s : state) : state := init_base (with_arena (mem_init (arena s)) s).

Definition mm_reset (s : state) : state := init_base (with_arena (mem_reset_brk (arena s)) s).

Definition mm_deinit (s : state) : state := init_base (with_arena (mem_deinit (arena s)) s).

Definition mm_units (nbytes : Z) : Z :=
  wrap (wrap (wrap (nbytes + sizeof_Header) - 1) / sizeof_Header + 1).

Definition mm_bytes (nunits : Z) : Z := wrap (nunits * sizeof_Header).

Definition mm_payload (bp : Z) : Z := bp + 1 * sizeof_Header.

Definition mm_block (ap : Z) : Z := ap - 1 * sizeof_Header.

Definition connect_dlinkedlist (s : state) (p n : Z) : result state :=
  s1 ← upd s p (set_next n);
  upd s1 n (set_prev p).

(** [while (p->s.next > p) p = p->s.next;] *)
Fixpoint last_block (fuel : nat) (s : state) (p : Z) : result Z :=
  match fuel with
  | O => OutOfFuel
  | S fuel' =>
      hp ← load s p;
      if p <? next hp then last_block fuel' s (next hp) else Ok p
  end.

(** The body of [mm_free] in its four parts.  First part: a block that is
    not on the list yet ([bp->s.next == NULL], a block fresh from
    [morecore]) is linked in after the block of highest address. *)
Definition link_new_block (fuel : nat) (s : state) (bp : Z) : result state :=
  hb ← load s bp;
  if next hb =? NULL then
    p ← last_block fuel s (freep s);
    hp ← load s p;
    let n := next hp in
    s' ← connect_dlinkedlist s p bp;
    connect_dlinkedlist s' bp n
  else Ok s.

(** Second part: [if (bp->s.next->s.isFree && bp + bp->s.size == bp->s.next)]. *)
Definition merge_next (s : state) (bp : Z) : result state :=
  hb ← load s bp;
  hn ← load s (next hb);
  if is_free hn && (bp + size hb * sizeof_Header =? next hb) then
    s' ← upd s bp (set_size (wrap (size hb + size hn)));
    hb' ← load s' bp;
    hn' ← load s' (next hb');
    connect_dlinkedlist s' bp (next hn')
  else Ok s.

(** Third part: [if (bp->s.prev->s.isFree && bp->s.prev + bp->s.prev->s.size == bp)];
    the result carries the new value of [bp]. *)
Definition merge_prev (s : state) (bp : Z) : result (state * Z) :=
  hb ← load s bp;
  hp ← load s (prev hb);
  if is_free hp && (prev hb + size hp * sizeof_Header =? bp) then
    s' ← upd s (prev hb) (set_size (wrap (size hp + size hb)));
    hb' ← load s' bp;
    s'' ← connect_dlinkedlist s' (prev hb') (next hb');
    hb'' ← load s'' bp;
    Ok (s'', prev hb'')
  else Ok (s, bp).

(** The unused locals [prev] and [next] of the source are left out. *)
Definition mm_free (fuel : nat) (s : state) (ap : Z) : result state :=
  if ap =? NULL then Ok s else
  let bp := mm_block ap in
  hb ← load s bp;
  if negb ((0 <? size hb) && (mm_bytes (size hb) <=? mem_heapsize (arena s)))
  then Fault
  else
    s1 ← link_new_block fuel s bp;
    s2 ← upd s1 bp (set_isFree true);
    s3 ← merge_next s2 bp;
    '(s4, bp) ← merge_prev s3 bp;
    hb4 ← load s4 bp;
    Ok (with_freep (prev hb4) s4).

(** The [printf] of the failure branch is not modelled. *)
Definition morecore (fuel : nat) (s : state) (nu : Z) : result (Z * state) :=
  let nalloc := mem_pagesize (arena s) / sizeof_Header in
  let nu := if nu <? nalloc then nalloc else nu in
  let nbytes := mm_bytes nu in
  match mem_sbrk (arena s) nbytes with
  | None => Ok (NULL, s)
  | Some (p, a) =>
      let bp := p in
      s1 ← upd (with_arena a s) bp (set_size nu);
      s2 ← upd s1 bp (set_prev NULL);
      s3 ← upd s2 bp (set_next NULL);
      s4 ← mm_free fuel s3 (bp + 1 * sizeof_Header);
      Ok (freep s4, s4)
  end.

(** [p->s.size >= nunits && p->s.isFree] *)
Definition fits (nunits : Z) (hp : Header) : bool :=
  (nunits <=? size hp) && is_free hp.

(** The body of the [for] loop of [mm_malloc], from the test of the block
    [p] on.  [fuel] bounds the number of blocks visited; the walk inside
    [mm_free] gets the same amount. *)
Fixpoint malloc_loop (fuel : nat) (s : state) (nunits prev_p p : Z) : result (Z * state) :=
  match fuel with
  | O => OutOfFuel
  | S fuel' =>
      hp ← load s p;
      if fits nunits hp then
        if size hp =? nunits then
          s1 ← upd s p (set_isFree false);
          Ok (mm_payload p, with_freep prev_p s1)
        else
          s1 ← upd s p (set_size (wrap (size hp - nunits)));
          let old_p := p in
          hp1 ← load s1 p;
          let next := next hp1 in
          let p := p + size hp1 * sizeof_Header in
          s2 ← upd s1 p (set_size nunits);
          s3 ← connect_dlinkedlist s2 old_p p;
          s4 ← connect_dlinkedlist s3 p next;
          s5 ← upd s4 p (set_isFree false);
          Ok (mm_payload p, with_freep prev_p s5)
      else if p =? freep s then
        '(p, s1) ← morecore (S fuel') s nunits;
        if p =? NULL then Ok (NULL, with_errno ENOMEM s1)
        else
          hp' ← load s1 p;
          malloc_loop fuel' s1 nunits p (next hp')
      else malloc_loop fuel' s nunits p (next hp)
  end.

Definition mm_malloc (fuel : nat) (s : state) (nbytes : Z) : result (Z * state) :=
  let s := if freep s =? NULL then mm_init s else s in
  let prev_p := freep s in
  let nunits := mm_units nbytes in
  hp ← load s prev_p;
  malloc_loop fuel s nunits prev_p (next hp).

(** [memcpy(dst, src, n)] for two payload pointers: whole units, then the
    first bytes of one more. *)
Fixpoint memcpy (units : nat) (s : state) (dst src n : Z) : result state :=
  match units with
  | O => Ok s
  | S units' =>
      if n <=? 0 then Ok s else
      hs ← load s src;
      hd ← load s dst;
      let k := Z.to_nat (Z.min n sizeof_Header) in
      s1 ← upd s dst (fun _ => Header_of_bytes (take k (Header_bytes hs) ++ drop k (Header_bytes hd)));
      memcpy units' s1 (dst + sizeof_Header) (src + sizeof_Header) (n - sizeof_Header)
  end.

Definition mm_realloc (fuel : nat) (s : state) (ap newsize : Z) : result (Z * state) :=
  if ap =? NULL then mm_malloc fuel s newsize else
  let bp := mm_block ap in
  hb ← load s bp;
  if (0 <? newsize) && (mm_units newsize <=? size hb) then Ok (ap, s) else
  '(newap, s1) ← mm_malloc fuel s newsize;
  if newap =? NULL then Ok (NULL, s1) else
  hb1 ← load s1 bp;
  let oldsize := mm_bytes (wrap (size hb1 - 1)) in
  let n := if oldsize <? newsize then oldsize else newsize in
  s2 ← memcpy (Z.to_nat (n / sizeof_Header) + 1) s1 newap ap n;
  s3 ← mm_free fuel s2 ap;
  Ok (newap, s3).

(** [while (tmp->s.next > tmp) { tmp = tmp->s.next; res += tmp->s.size; }] *)
Fixpoint getfree_loop (fuel : nat) (s : state) (tmp res : Z) : result Z :=
  match fuel with
  | O => OutOfFuel
  | S fuel' =>
      ht ← load s tmp;
      if tmp <? next ht then
        hn ← load s (next ht);
        getfree_loop fuel' s (next ht) (wrap (res + size hn))
      else Ok res
  end.

Definition mm_getfree (fuel : nat) (s : state) : result Z :=
  if freep s =? NULL then Ok 0 else
  ht ← load s (freep s);
  res ← getfree_loop fuel s (freep s) (size ht);
  Ok (mm_bytes res).

(** The state of a program that has not called the allocator yet: nothing
    written, [freep == NULL], an arena of [max] bytes at [lo] with pages of
    [page] bytes, the sentinel at address [b]. *)
Definition fresh (b lo max page : Z) : state :=
  mkState ∅ NULL 0 (mkArena lo lo (lo + max) page) b.

(** No block fits on the way from [p] round to [freep]: the walk of
    [mm_malloc] meets [n] blocks after [p] and is back at [freep]. *)
Inductive no_fit (s : state) (nunits : Z) : nat → Z → Prop :=
| no_fit_wrapped (p : Z) (hp : Header) :
    load s p = Ok hp → fits nunits hp = false → p = freep s →
    no_fit s nunits 0 p
| no_fit_next (n : nat) (p : Z) (hp : Header) :
    load s p = Ok hp → fits nunits hp = false → p ≠ freep s →
    no_fit s nunits n (next hp) →
    no_fit s nunits (S n) p.

(** [validate_header]; the comparisons of pointers are comparisons of
    addresses.  The source does not call it (the [assert]s that did are
    commented out). *)
Definition validate_header (s : state) (bp : Z) : result bool :=
  hb ← load s bp;
  let prev := prev hb in
  let next := next hb in
  hp ← load s prev;
  if negb (KR2.next hp =? bp) then Ok false else
  hn ← load s next;
  if negb (KR2.prev hn =? bp) then Ok false else
  if (prev <? bp) && negb (prev =? base s)
     && negb (prev + size hp * sizeof_Header =? bp) then Ok false else
  if (bp <? next) && negb (bp + size hb * sizeof_Header =? next) then Ok false else
  Ok true.

(** The walk of [mm_malloc] that starts at [p], with [prev_p] before it,
    meets [n] blocks that do not fit, none of them [freep], and then the
    block [q], which fits; [q'] is the block met before [q]. *)
Inductive first_fit (s : state) (nunits : Z) : nat → Z → Z → Z → Z → Prop :=
| first_fit_here (prev_p p : Z) (hp : Header) :
    load s p = Ok hp → fits nunits hp = true →
    first_fit s nunits 0 prev_p p prev_p p
| first_fit_next (n : nat) (prev_p p q' q : Z) (hp : Header) :
    load s p = Ok hp → fits nunits hp = false → p ≠ freep s →
    first_fit s nunits n p (KR2.next hp) q' q →
    first_fit s nunits (S n) prev_p p q' q.

End KR2.

(** ** [mm_heap_dll.c]: a circular free list with a mirror of the header at
    the end of every block *)

Module DLL.

(** [sizeof(Header)]: a pointer and a [size_t] (LP64, [max_align_t] of
    sixteen bytes). *)
Definition sizeof_Header : Z := 16.

Record Header : Type := mkHeader {
  ptr : Z;
  size : Z
}.

Definition zero_Header : Header := mkHeader 0 0.

Definition set_ptr (v : Z) (h : Header) : Header := mkHeader v (size h).
Definition set_size (v : Z) (h : Header) : Header := mkHeader (ptr h) v.

Definition Header_bytes (h : Header) : list Z :=
  le_bytes 8 (ptr h) ++ le_bytes 8 (size h).

Definition Header_of_bytes (l : list Z) : Header :=
  mkHeader (le_value (take 8 l)) (le_value (take 8 (drop 8 l))).

(** The globals of the file, the memory and the arena.  [base] is the
    address of [base[0]]; [base[1]] follows it. *)
Record state : Type := mkState {
  heap : gmap Z Header;
  freep : Z;
  errno : Z;
  arena : Arena;
  base : Z
}.

Definition with_heap (h : gmap Z Header) (s : state) : state :=
  mkState h (freep s) (errno s) (arena s) (base s).
Definition with_freep (p : Z) (s : state) : state :=
  mkState (heap s) p (errno s) (arena s) (base s).
Definition with_errno (e : Z) (s : state) : state :=
  mkState (heap s) (freep s) e (arena s) (base s).
Definition with_arena (a : Arena) (s : state) : state :=
  mkState (heap s) (freep s) (errno s) a (base s).

Definition valid_ptr (s : state) (p : Z) : bool :=
  (p =? base s) || (p =? base s + 1 * sizeof_Header)
  || ((mem_start_brk (arena s) <=? p)
      && (p + sizeof_Header <=? mem_max_addr (arena s))
      && ((p - mem_start_brk (arena s)) mod sizeof_Header =? 0)).

Definition rd (h : gmap Z Header) (p : Z) : Header := default zero_Header (h !! p).

Definition load (s : state) (p : Z) : result Header :=
  if valid_ptr s p then Ok (rd (heap s) p) else Fault.

Definition upd (s : state) (p : Z) (f : Header → Header) : result state :=
  if valid_ptr s p then Ok (with_heap (<[p := f (rd (heap s) p)]> (heap s)) s) else Fault.

(** [base[0].s.ptr = base[1].s.ptr = freep = &base[0];
     base[0].s.size = base[1].s.size = 2;] *)
Definition init_base (s : state) : state :=
  let b0 := base s in
  let b1 := base s + 1 * sizeof_Header in
  let h1 := <[b1 := set_ptr b0 (rd (heap s) b1)]> (heap s) in
  let h2 := <[b0 := set_ptr b0 (rd h1 b0)]> h1 in
  let h3 := <[b1 := set_size 2 (rd h2 b1)]> h2 in
  let h4 := <[b0 := set_size 2 (rd h3 b0)]> h3 in
  with_freep b0 (with_heap h4 s).

Definition mm_init (s : state) : state := init_base (with_arena (mem_init (arena s)) s).

Definition mm_reset (s : state) : state := init_base (with_arena (mem_reset_brk (arena s)) s).

Definition mm_deinit (s : state) : state := init_base (with_arena (mem_deinit (arena s)) s).

Definition mm_units (nbytes : Z) : Z :=
  wrap (wrap (wrap (nbytes + sizeof_Header) - 1) / sizeof_Header + 2).

Definition mm_bytes (nunits : Z) : Z := wrap (nunits * sizeof_Header).

Definition mm_payload (bp : Z) : Z := bp + 1 * sizeof_Header.

Definition mm_block (ap : Z) : Z := ap - 1 * sizeof_Header.

Definition mm_tail (s : state) (bp : Z) : result Z :=
  hb ← load s bp;
  Ok (bp + size hb * sizeof_Header - 1 * sizeof_Header).

Definition link_header (s : state) (a b : Z) : result state :=
  s1 ← upd s a (set_ptr b);
  t ← mm_tail s1 b;
  upd s1 t (set_ptr a).

Definition unlink_header (s : state) (a : Z) : result state :=
  t ← mm_tail s a;
  ht ← load s t;
  let prev := ptr ht in
  ha ← load s a;
  let next := ptr ha in
  link_header s prev next.

Definition coalesce (s : state) (lower upper : Z) : result state :=
  s1 ← unlink_header s upper;
  t ← mm_tail s1 lower;
  ht ← load s1 t;
  let prev := ptr ht in
  hl ← load s1 lower;
  hu ← load s1 upper;
  s2 ← upd s1 lower (set_size (wrap (size hl + size hu)));
  t2 ← mm_tail s2 lower;
  hl2 ← load s2 lower;
  s3 ← upd s2 t2 (set_size (size hl2));
  t3 ← mm_tail s3 lower;
  upd s3 t3 (set_ptr prev).

(** The two [if] blocks that end [mm_free].  First block: the upper
    neighbour, tested by [next_neighbor_header < mem_heap_hi() &&
    next_neighbor_header->s.ptr != NULL]. *)
Definition coalesce_upper (s : state) (bp : Z) : result state :=
  hb2 ← load s bp;
  let next_neighbor_header := bp + size hb2 * sizeof_Header in
  if next_neighbor_header <? mem_heap_hi (arena s) then
    hn ← load s next_neighbor_header;
    if negb (ptr hn =? NULL) then
      s' ← coalesce s bp next_neighbor_header;
      t ← mm_tail s' bp;
      ht ← load s' t;
      Ok (with_freep (ptr ht) s')
    else Ok s
  else Ok s.

(** Second block: the lower neighbour, tested by [prev_neighbor_tail >
    mem_heap_lo() && prev_neighbor_tail->s.ptr != NULL]. *)
Definition coalesce_lower (s : state) (bp : Z) : result state :=
  let prev_neighbor_tail := bp - 1 * sizeof_Header in
  if mem_heap_lo (arena s) <? prev_neighbor_tail then
    hpt ← load s prev_neighbor_tail;
    if negb (ptr hpt =? NULL) then
      hpp ← load s (ptr hpt);
      let prev_neighbor_header := ptr hpp in
      s' ← coalesce s prev_neighbor_header bp;
      t ← mm_tail s' prev_neighbor_header;
      ht ← load s' t;
      Ok (with_freep (ptr ht) s')
    else Ok s
  else Ok s.

Definition mm_free (s : state) (ap : Z) : result state :=
  if ap =? NULL then Ok s else
  let bp := mm_block ap in
  hb ← load s bp;
  if negb ((0 <? size hb) && (mm_bytes (size hb) <=? mem_heapsize (arena s)))
  then Fault
  else
    let p := freep s in
    hp ← load s p;
    s1 ← link_header s bp (ptr hp);
    s2 ← link_header s1 p bp;
    s3 ← coalesce_upper s2 bp;
    coalesce_lower s3 bp.

Definition morecore (s : state) (nu : Z) : result (Z * state) :=
  let nalloc := mem_pagesize (arena s) / sizeof_Header in
  let nu := if nu <? nalloc then nalloc else nu in
  let nbytes := mm_bytes nu in
  match mem_sbrk (arena s) nbytes with
  | None => Ok (NULL, s)
  | Some (p, a) =>
      let bp := p in
      s1 ← upd (with_arena a s) bp (set_size nu);
      s2 ← mm_free s1 (bp + 1 * sizeof_Header);
      Ok (freep s2, s2)
  end.

(** [p->s.size == nunits || p->s.size >= nunits + 2] *)
Definition fits (nunits : Z) (hp : Header) : bool :=
  (size hp =? nunits) || (wrap (nunits + 2) <=? size hp).

(** The body of the [for] loop of [mm_malloc], from the test of the block
    [p] on; [fuel] bounds the number of blocks visited. *)
Fixpoint malloc_loop (fuel : nat) (s : state) (nunits prevp p : Z) : result (Z * state) :=
  match fuel with
  | O => OutOfFuel
  | S fuel' =>
      hp ← load s p;
      if fits nunits hp then
        '(s2, p2) ← (if size hp =? nunits then
                       s1 ← link_header s prevp (ptr hp);
                       Ok (s1, p)
                     else
                       s1 ← upd s p (set_size (wrap (size hp - nunits)));
                       t ← mm_tail s1 p;
                       hp1 ← load s1 p;
                       s2 ← upd s1 t (set_size (size hp1));
                       t2 ← mm_tail s2 p;
                       s3 ← upd s2 t2 (set_ptr prevp);
                       hp3 ← load s3 p;
                       let p := p + size hp3 * sizeof_Header in
                       s4 ← upd s3 p (set_size nunits);
                       Ok (s4, p));
        s3 ← upd s2 p2 (set_ptr NULL);
        t ← mm_tail s3 p2;
        s4 ← upd s3 t (set_ptr NULL);
        Ok (mm_payload p2, with_freep prevp s4)
      else if p =? freep s then
        '(p, s1) ← morecore s nunits;
        if p =? NULL then Ok (NULL, with_errno ENOMEM s1)
        else
          hp' ← load s1 p;
          malloc_loop fuel' s1 nunits p (ptr hp')
      else malloc_loop fuel' s nunits p (ptr hp)
  end.

Definition mm_malloc (fuel : nat) (s : state) (nbytes : Z) : result (Z * state) :=
  let s := if freep s =? NULL then mm_init s else s in
  let prevp := freep s in
  let nunits := mm_units nbytes in
  hp ← load s prevp;
  malloc_loop fuel s nunits prevp (ptr hp).

(** [memcpy(dst, src, n)] for two payload pointers: whole units, then the
    first bytes of one more. *)
Fixpoint memcpy (units : nat) (s : state) (dst src n : Z) : result state :=
  match units with
  | O => Ok s
  | S units' =>
      if n <=? 0 then Ok s else
      hs ← load s src;
      hd ← load s dst;
      let k := Z.to_nat (Z.min n sizeof_Header) in
      s1 ← upd s dst (fun _ => Header_of_bytes (take k (Header_bytes hs) ++ drop k (Header_bytes hd)));
      memcpy units' s1 (dst + sizeof_Header) (src + sizeof_Header) (n - sizeof_Header)
  end.

Definition mm_realloc (fuel : nat) (s : state) (ap newsize : Z) : result (Z * state) :=
  if ap =? NULL then mm_malloc fuel s newsize else
  let bp := mm_block ap in
  hb ← load s bp;
  if (0 <? newsize) && (mm_units newsize <=? size hb) then Ok (ap, s) else
  '(newap, s1) ← mm_malloc fuel s newsize;
  if newap =? NULL then Ok (NULL, s1) else
  hb1 ← load s1 bp;
  let oldsize := mm_bytes (wrap (size hb1 - 1)) in
  let n := if oldsize <? newsize then oldsize else newsize in
  s2 ← memcpy (Z.to_nat (n / sizeof_Header) + 1) s1 newap ap n;
  s3 ← mm_free s2 ap;
  Ok (newap, s3).

(** [while (tmp->s.ptr > tmp) { tmp = tmp->s.ptr; res += tmp->s.size; }] *)
Fixpoint getfree_loop (fuel : nat) (s : state) (tmp res : Z) : result Z :=
  match fuel with
  | O => OutOfFuel
  | S fuel' =>
      ht ← load s tmp;
      if tmp <? ptr ht then
        hn ← load s (ptr ht);
        getfree_loop fuel' s (ptr ht) (wrap (res + size hn))
      else Ok res
  end.

Definition mm_getfree (fuel : nat) (s : state) : result Z :=
  if freep s =? NULL then Ok 0 else
  ht ← load s (freep s);
  res ← getfree_loop fuel s (freep s) (size ht);
  Ok (mm_bytes res).

(** The state of a program that has not called the allocator yet. *)
Definition fresh (b lo max page : Z) : state :=
  mkState ∅ NULL 0 (mkArena lo lo (lo + max) page) b.

(** No block fits on the way from [p] round to [freep]: the walk of
    [mm_malloc] meets [n] blocks after [p] and is back at [freep]. *)
Inductive no_fit (s : state) (nunits : Z) : nat → Z → Prop :=
| no_fit_wrapped (p : Z) (hp : Header) :
    load s p = Ok hp → fits nunits hp = false → p = freep s →
    no_fit s nunits 0 p
| no_fit_next (n : nat) (p : Z) (hp : Header) :
    load s p = Ok hp → fits nunits hp = false → p ≠ freep s →
    no_fit s nunits n (ptr hp) →
    no_fit s nunits (S n) p.

(** The walk of [mm_malloc] that starts at [p], with [prevp] before it,
    meets [n] blocks that do not fit, none of them [freep], and then the
    block [q], which fits; [q'] is the block met before [q]. *)
Inductive first_fit (s : state) (nunits : Z) : nat → Z → Z → Z → Z → Prop :=
| first_fit_here (prevp p : Z) (hp : Header) :
    load s p = Ok hp → fits nunits hp = true →
    first_fit s nunits 0 prevp p prevp p
| first_fit_next (n : nat) (prevp p q' q : Z) (hp : Header) :
    load s p = Ok hp → fits nunits hp = false → p ≠ freep s →
    first_fit s nunits n p (ptr hp) q' q →
    first_fit s nunits (S n) prevp p q' q.

End DLL.

(** * Scenarios

    Concrete runs used as witnesses and as inputs on which a statement
    fails: an arena of one megabyte at address [65536] with pages of 4096
    bytes, the sentinel at address [4096] (static data below the arena), and
    one allocation of sixteen bytes. *)

Definition value_of {A S : Type} (r : result (A * S)) : option A :=
  match r with
  | Ok (a, _) => Some a
  | _ => None
  end.

Definition kr2_fresh : KR2.state := Eval vm_compute in KR2.fresh 4096 65536 1048576 4096.

Definition kr2_p1 : Z := Eval vm_compute in default 0 (value_of (KR2.mm_malloc 8 kr2_fresh 16)).

Definition kr2_s1 : KR2.state :=
  Eval vm_compute in
    match KR2.mm_malloc 8 kr2_fresh 16 with
    | Ok (_, s) => s
    | _ => kr2_fresh
    end.

(** The same with an arena that cannot grow beyond one page. *)
Definition kr2_small : KR2.state :=
  Eval vm_compute in
    match KR2.mm_malloc 8 (KR2.fresh 4096 65536 4096 4096) 16 with
    | Ok (_, s) => s
    | _ => kr2_fresh
    end.

Definition dll_fresh : DLL.state := Eval vm_compute in DLL.fresh 4096 65536 1048576 4096.

Definition dll_p1 : Z := Eval vm_compute in default 0 (value_of (DLL.mm_malloc 8 dll_fresh 16)).

Definition dll_s1 : DLL.state :=
  Eval vm_compute in
    match DLL.mm_malloc 8 dll_fresh 16 with
    | Ok (_, s) => s
    | _ => dll_fresh
    end.

Definition dll_small : DLL.state :=
  Eval vm_compute in
    match DLL.mm_malloc 8 (DLL.fresh 4096 65536 4096 4096) 16 with
    | Ok (_, s) => s
    | _ => dll_fresh
    end.

(** The states after a second request, of 1000 bytes, which splits the free
    block at the start of the arena. *)
Definition kr2_split : KR2.state :=
  Eval vm_compute in
    match KR2.malloc_loop 1 kr2_s1 (KR2.mm_units 1000) 4096 65536 with
    | Ok (_, s) => s
    | _ => kr2_s1
    end.

Definition dll_split : DLL.state :=
  Eval vm_compute in
    match DLL.malloc_loop 1 dll_s1 (DLL.mm_units 1000) 4096 65536 with
    | Ok (_, s) => s
    | _ => dll_s1
    end.

(** The states in which the third of three blocks of sixteen bytes lies
    between two free blocks: the second block was freed, the first one is
    still in use above it. *)
Definition kr2_gap : KR2.state :=
  Eval vm_compute in
    match ('(a, s1) ← KR2.mm_malloc 8 kr2_fresh 16;
           '(b, s2) ← KR2.mm_malloc 8 s1 16;
           '(c, s3) ← KR2.mm_malloc 8 s2 16;
           KR2.mm_free 8 s3 b) with
    | Ok s => s
    | _ => kr2_fresh
    end.

Definition dll_gap : DLL.state :=
  Eval vm_compute in
    match ('(a, s1) ← DLL.mm_malloc 8 dll_fresh 16;
           '(b, s2) ← DLL.mm_malloc 8 s1 16;
           '(c, s3) ← DLL.mm_malloc 8 s2 16;
           DLL.mm_free s3 b) with
    | Ok s => s
    | _ => dll_fresh
    end.

(** * Vocabulary of the statements *)

(** A set of headers that the scan of [mm_getfree] cannot leave: each of
    them can be read, and a link to a higher address leads to one of
    them. *)
Definition kr2_closed (s : KR2.state) (nodes : list Z) : Prop :=
  ∀ a, a ∈ nodes →
    ∃ h, KR2.load s a = Ok h ∧ (a < KR2.next h → KR2.next h ∈ nodes).

Definition dll_closed (s : DLL.state) (nodes : list Z) : Prop :=
  ∀ a, a ∈ nodes →
    ∃ h, DLL.load s a = Ok h ∧ (a < DLL.ptr h → DLL.ptr h ∈ nodes).

(** The number of [Header]-sized units in the buffer of the arena. *)
Definition buffer_units (a : Arena) (hsz : Z) : nat :=
  Z.to_nat ((mem_max_addr a - mem_start_brk a) / hsz).

(** ** Well-formed heaps

    The statements about coalescing speak of a heap through the list of
    its blocks, from the lowest address to the highest.  [kr2_wf] and
    [dll_wf] say that the memory of a state holds this list: the blocks
    tile the arena and the links of the headers are those the two files
    keep. *)

(** A block of the arena: address of its header, size in units, free? *)
Definition Block : Type := Z * Z * bool.

(** The blocks [bs] tile the addresses from [a] to [e], in this order;
    every block has at least [m] units of [hsz] bytes. *)
Fixpoint tiled (hsz m a : Z) (bs : list Block) (e : Z) : Prop :=
  match bs with
  | [] => a = e
  | (x, sx, _) :: bs' => x = a ∧ m <= sx ∧ tiled hsz m (a + sx * hsz) bs' e
  end.

(** Some block of the list and the block that follows it are both free. *)
Fixpoint adjacent_free (bs : list Block) : bool :=
  match bs with
  | [] => false
  | (_, _, fa) :: r =>
      match r with
      | (_, _, fb) :: _ => fa && fb
      | [] => false
      end || adjacent_free r
  end.

(** [mm_heap_kr2.c] threads its list through all blocks in address order:
    the successor of the block of [sx] units at [x] is the block that
    starts where it ends, and the sentinel [base] after the last one. *)
Definition kr2_next_of (s : KR2.state) (x sx : Z) : Z :=
  if x + sx * KR2.sizeof_Header =? mem_brk (KR2.arena s) then KR2.base s
  else x + sx * KR2.sizeof_Header.

(** The heap of [mm_heap_kr2.c] holds the blocks [bs]: every header has
    the size and the [isFree] mark of its block and links to its
    successor, whose [prev] links back; the sentinel has size zero, is not
    free and links to the first block. *)
Record kr2_wf (s : KR2.state) (bs : list Block) : Prop := {
  kr2_wf_layout :
    0 < KR2.base s ∧ KR2.base s + KR2.sizeof_Header <= mem_start_brk (KR2.arena s)
    ∧ mem_brk (KR2.arena s) <= mem_max_addr (KR2.arena s)
    ∧ mem_max_addr (KR2.arena s) <= 2 ^ 64;
  kr2_wf_tiled :
    tiled KR2.sizeof_Header 1 (mem_start_brk (KR2.arena s)) bs (mem_brk (KR2.arena s));
  kr2_wf_blocks :
    ∀ x sx fx, (x, sx, fx) ∈ bs →
      KR2.size (KR2.rd (KR2.heap s) x) = sx
      ∧ KR2.is_free (KR2.rd (KR2.heap s) x) = fx
      ∧ KR2.next (KR2.rd (KR2.heap s) x) = kr2_next_of s x sx
      ∧ KR2.prev (KR2.rd (KR2.heap s) (kr2_next_of s x sx)) = x;
  kr2_wf_base :
    KR2.size (KR2.rd (KR2.heap s) (KR2.base s)) = 0
    ∧ KR2.is_free (KR2.rd (KR2.heap s) (KR2.base s)) = false
    ∧ KR2.next (KR2.rd (KR2.heap s) (KR2.base s))
      = kr2_next_of s (mem_start_brk (KR2.arena s)) 0
    ∧ KR2.prev (KR2.rd (KR2.heap s) (kr2_next_of s (mem_start_brk (KR2.arena s)) 0))
      = KR2.base s;
}.

(** The headers on the list of [mm_heap_kr2.c]. *)
Definition kr2_node (s : KR2.state) (bs : list Block) (p : Z) : Prop :=
  p = KR2.base s ∨ ∃ sx fx, (p, sx, fx) ∈ bs.

(** The block list after the block of [sx] units at [x], followed by the
    blocks [l2], was freed and merged with a free upper neighbour. *)
Definition merge_upper (x sx : Z) (l2 : list Block) : list Block :=
  match l2 with
  | (_, sn, true) :: r => (x, sx + sn, true) :: r
  | _ => (x, sx, true) :: l2
  end.

(** The block list after the first block of [rest] was merged into the
    last block of [l1], if that one is free. *)
Fixpoint merge_lower (l1 : list Block) (rest : list Block) : list Block :=
  match l1, rest with
  | [(p, sp, true)], (_, sm, _) :: r => (p, sp + sm, true) :: r
  | b :: l1', _ => b :: merge_lower l1' rest
  | [], _ => rest
  end.

(** What [mm_free] is to make of the block list [l1 ++ (x, sx, false) :: l2]. *)
Definition free_block (l1 : list Block) (x sx : Z) (l2 : list Block) : list Block :=
  merge_lower l1 (merge_upper x sx l2).

(** The first block of the list is free. *)
Definition head_free (bs : list Block) : bool :=
  match bs with
  | (_, _, f) :: _ => f
  | [] => false
  end.

(** The address of the last unit of a block of [sx] units at [x]. *)
Definition dll_tail (x sx : Z) : Z := x + sx * DLL.sizeof_Header - 1 * DLL.sizeof_Header.

(** The members of the free list: the sentinel and the free blocks. *)
Definition dll_node (s : DLL.state) (bs : list Block) (n sn : Z) : Prop :=
  (n = DLL.base s ∧ sn = 2) ∨ (n, sn, true) ∈ bs.

(** The heap of [mm_heap_dll.c] holds the blocks [bs]: every header has
    the size of its block; a block in use, other than [ex], has null links
    in its header and in its last unit; the sentinel has size two; and every
    member of the free list links to a next member through its header and
    to a previous member through its last unit, each of which links back.
    [ex] is the block that [morecore] is about to hand to [mm_free], whose
    links are not set yet ([0] for none). *)
Record dll_wf (ex : Z) (s : DLL.state) (bs : list Block) : Prop := {
  dll_wf_layout :
    0 < DLL.base s ∧ DLL.base s + 2 * DLL.sizeof_Header <= mem_start_brk (DLL.arena s)
    ∧ mem_brk (DLL.arena s) <= mem_max_addr (DLL.arena s)
    ∧ mem_max_addr (DLL.arena s) <= 2 ^ 64;
  dll_wf_tiled :
    tiled DLL.sizeof_Header 2 (mem_start_brk (DLL.arena s)) bs (mem_brk (DLL.arena s));
  dll_wf_sizes :
    ∀ x sx fx, (x, sx, fx) ∈ bs → DLL.size (DLL.rd (DLL.heap s) x) = sx;
  dll_wf_busy :
    ∀ x sx, (x, sx, false) ∈ bs → x ≠ ex →
      DLL.ptr (DLL.rd (DLL.heap s) x) = NULL
      ∧ DLL.ptr (DLL.rd (DLL.heap s) (dll_tail x sx)) = NULL;
  dll_wf_base : DLL.size (DLL.rd (DLL.heap s) (DLL.base s)) = 2;
  dll_wf_links :
    ∀ x sx, dll_node s bs x sx →
      (∃ n sn, dll_node s bs n sn
               ∧ DLL.ptr (DLL.rd (DLL.heap s) x) = n
               ∧ DLL.ptr (DLL.rd (DLL.heap s) (dll_tail n sn)) = x)
      ∧ (∃ p sp, dll_node s bs p sp
                 ∧ DLL.ptr (DLL.rd (DLL.heap s) (dll_tail x sx)) = p
                 ∧ DLL.ptr (DLL.rd (DLL.heap s) p) = x)
}.

(** A chunk is the sentinel or any block of the arena. *)
Definition dll_chunk (s : DLL.state) (bs : list Block) (a sa : Z) : Prop :=
  (a = DLL.base s ∧ sa = 2) ∨ ∃ fa, (a, sa, fa) ∈ bs.

(** The heap [coalesce] leaves, written out store by store. *)
Definition coalesce_heap (h : gmap Z DLL.Header) (a sa b sb : Z) : gmap Z DLL.Header :=
  let P := DLL.ptr (DLL.rd h (b + sb * 16 - 1 * 16)) in
  let N := DLL.ptr (DLL.rd h b) in
  let h1 := <[P := DLL.set_ptr N (DLL.rd h P)]> h in
  let tN := N + DLL.size (DLL.rd h N) * 16 - 1 * 16 in
  let h2 := <[tN := DLL.set_ptr P (DLL.rd h1 tN)]> h1 in
  let prev := DLL.ptr (DLL.rd h2 (a + sa * 16 - 1 * 16)) in
  let h3 := <[a := DLL.set_size (sa + sb) (DLL.rd h2 a)]> h2 in
  let h4 := <[b + sb * 16 - 1 * 16 := DLL.set_size (sa + sb) (DLL.rd h3 (b + sb * 16 - 1 * 16))]> h3 in
  <[b + sb * 16 - 1 * 16 := DLL.set_ptr prev (DLL.rd h4 (b + sb * 16 - 1 * 16))]> h4.

(** [s'] has the sentinel and the arena of [s], and the header at [q] has
    the same size and the same [isFree] mark in both. *)
Definition kr2_same (q : Z) (s s' : KR2.state) : Prop :=
  KR2.base s' = KR2.base s ∧ KR2.arena s' = KR2.arena s
  ∧ KR2.is_free (KR2.rd (KR2.heap s') q) = KR2.is_free (KR2.rd (KR2.heap s) q)
  ∧ KR2.size (KR2.rd (KR2.heap s') q) = KR2.size (KR2.rd (KR2.heap s) q).

(** ** Vocabulary of the further properties *)

(** The number of units of the blocks of a list. *)
Fixpoint units_of (bs : list Block) : Z :=
  match bs with
  | [] => 0
  | (_, sx, _) :: r => sx + units_of r
  end.


(** The number of units that [morecore] asks [mem_sbrk] for: [nu], or a
    page if that is more. *)
Definition kr2_morecore_units (s : KR2.state) (nu : Z) : Z :=
  let nalloc := mem_pagesize (KR2.arena s) / KR2.sizeof_Header in
  if nu <? nalloc then nalloc else nu.


(** The state in which [morecore] of [mm_heap_kr2.c] calls [mm_free]: the
    arena was extended by [nu] units and the header of the new block has
    its size and two null links; its [isFree] mark is what the memory
    held. *)
Definition kr2_fresh_state (s : KR2.state) (nu : Z) : KR2.state :=
  let bp := mem_brk (KR2.arena s) in
  let a := mkArena (mem_start_brk (KR2.arena s)) (bp + nu * 32)
             (mem_max_addr (KR2.arena s)) (pagesize (KR2.arena s)) in
  let h1 := <[bp := KR2.set_size nu (KR2.rd (KR2.heap s) bp)]> (KR2.heap s) in
  let h2 := <[bp := KR2.set_prev NULL (KR2.rd h1 bp)]> h1 in
  let h3 := <[bp := KR2.set_next NULL (KR2.rd h2 bp)]> h2 in
  KR2.with_heap h3 (KR2.with_arena a s).

(** The address [a] lies inside a block in use of the list, above its
    header. *)
Definition kr2_in_payload (bs : list Block) (a : Z) : Prop :=
  ∃ y sy, (y, sy, false) ∈ bs ∧ y < a < y + sy * 32.

(** The address [a] is the first or the last unit of the sentinel or of a
    block of [mm_heap_dll.c]: the units that hold its sizes and links. *)
Definition dll_edge (s : DLL.state) (bs : list Block) (a : Z) : Prop :=
  ∃ c sc, dll_chunk s bs c sc ∧ (a = c ∨ a = dll_tail c sc).

(** The address [a] lies inside a block in use of the list, between its
    first and its last unit. *)
Definition dll_in_payload (bs : list Block) (a : Z) : Prop :=
  ∃ y sy, (y, sy, false) ∈ bs ∧ y < a < dll_tail y sy.

(** * Properties *)

(** ** Tools *)

Lemma pow_2_64 : 2 ^ 64 = 18446744073709551616.
Proof. reflexivity. Qed.

Lemma pow_2_60 : 2 ^ 60 = 1152921504606846976.
Proof. reflexivity. Qed.

Lemma pow_2_59 : 2 ^ 59 = 576460752303423488.
Proof. reflexivity. Qed.

(** Replaces the powers of two by their values, for [lia]. *)
Ltac pow2 := rewrite ?pow_2_64, ?pow_2_60, ?pow_2_59 in *.

Lemma wrap_small (x : Z) : 0 <= x < 2 ^ 64 → wrap x = x.
Proof. intros H. unfold wrap. apply Z.mod_small. exact H. Qed.

Lemma wrap_range (x : Z) : 0 <= wrap x < 2 ^ 64.
Proof. unfold wrap. apply Z.mod_pos_bound. lia. Qed.

Lemma wrap_sub_l (a b : Z) : wrap (wrap a - b) = wrap (a - b).
Proof. unfold wrap. apply Zminus_mod_idemp_l. Qed.

Lemma bind_Ok {A B : Type} (m : result A) (f : A → result B) (b : B) :
  m ≫= f = Ok b → ∃ a, m = Ok a ∧ f a = Ok b.
Proof. destruct m as [a| |]; simpl; intros H; try discriminate. exists a. split; [reflexivity | exact H]. Qed.

(** Turns [H : (x ← m; k) = Ok r] into [m = Ok x] and [k = Ok r]. *)
Ltac inv_bind H :=
  let a := fresh "x" in
  let Ha := fresh "E" in
  apply bind_Ok in H; destruct H as (a & Ha & H).

(** ** [mm_units] *)

Lemma kr2_mm_units_exact (n : Z) :
  0 <= n <= SIZE_MAX - KR2.sizeof_Header + 1 →
  KR2.mm_units n = (n + 31) / 32 + 1.
Proof.
  unfold KR2.mm_units, SIZE_MAX, KR2.sizeof_Header. intros H. pow2.
  assert (H0 : 0 <= (n + 31) / 32 < 2 ^ 59).
  { split; [apply Z.div_pos; lia | apply Z.div_lt_upper_bound; lia]. }
  rewrite wrap_sub_l.
  replace (n + 32 - 1) with (n + 31) by lia.
  rewrite (wrap_small (n + 31)) by (pow2; lia).
  apply wrap_small. pow2. lia.
Qed.

Lemma dll_mm_units_exact (n : Z) :
  0 <= n <= SIZE_MAX - DLL.sizeof_Header + 1 →
  DLL.mm_units n = (n + 15) / 16 + 2.
Proof.
  unfold DLL.mm_units, SIZE_MAX, DLL.sizeof_Header. intros H. pow2.
  assert (H0 : 0 <= (n + 15) / 16 < 2 ^ 60).
  { split; [apply Z.div_pos; lia | apply Z.div_lt_upper_bound; lia]. }
  rewrite wrap_sub_l.
  replace (n + 16 - 1) with (n + 15) by lia.
  rewrite (wrap_small (n + 15)) by (pow2; lia).
  apply wrap_small. pow2. lia.
Qed.

(** ** Freeing the null pointer *)

(** C9. [mm_free(NULL)] returns at once in both files: the state after the
    call (every header, the list links, [freep], the arena) is the state
    before it. *)
Theorem C9_free_null_is_noop :
  (∀ (fuel : nat) (s : KR2.state), KR2.mm_free fuel s NULL = Ok s)
  ∧ (∀ s : DLL.state, DLL.mm_free s NULL = Ok s).
Proof. split; reflexivity. Qed.

(** ** Resizing within the capacity of the block *)


(** ** The size of the block that [mm_malloc] hands out *)

Lemma kr2_load_Ok (s : KR2.state) (p : Z) (h : KR2.Header) :
  KR2.load s p = Ok h → KR2.valid_ptr s p = true ∧ h = KR2.rd (KR2.heap s) p.
Proof.
  unfold KR2.load. destruct (KR2.valid_ptr s p); intros H; [|discriminate].
  inversion H. split; reflexivity.
Qed.

Lemma kr2_upd_Ok (s s' : KR2.state) (p : Z) (f : KR2.Header → KR2.Header) :
  KR2.upd s p f = Ok s' →
  KR2.valid_ptr s p = true
  ∧ s' = KR2.with_heap (<[p := f (KR2.rd (KR2.heap s) p)]> (KR2.heap s)) s.
Proof.
  unfold KR2.upd. destruct (KR2.valid_ptr s p); intros H; [|discriminate].
  inversion H. split; reflexivity.
Qed.

Lemma kr2_rd_insert (h : gmap Z KR2.Header) (p a : Z) (c : KR2.Header) :
  KR2.rd (<[p := c]> h) a = if decide (p = a) then c else KR2.rd h a.
Proof.
  unfold KR2.rd. rewrite lookup_insert. destruct (decide (p = a)); reflexivity.
Qed.

Lemma kr2_upd_size_frame (s s' : KR2.state) (p : Z) (f : KR2.Header → KR2.Header) :
  KR2.upd s p f = Ok s' →
  (∀ h, KR2.size (f h) = KR2.size h) →
  ∀ a, KR2.size (KR2.rd (KR2.heap s') a) = KR2.size (KR2.rd (KR2.heap s) a).
Proof.
  intros H Hf a. apply kr2_upd_Ok in H as [_ ->]. simpl.
  rewrite kr2_rd_insert. destruct (decide (p = a)) as [->|]; [apply Hf | reflexivity].
Qed.

Lemma kr2_upd_set_size (s s' : KR2.state) (p v : Z) :
  KR2.upd s p (KR2.set_size v) = Ok s' → KR2.size (KR2.rd (KR2.heap s') p) = v.
Proof.
  intros H. apply kr2_upd_Ok in H as [_ ->]. simpl.
  rewrite kr2_rd_insert. destruct (decide (p = p)); [reflexivity | congruence].
Qed.

Lemma kr2_connect_size_frame (s s' : KR2.state) (p n : Z) :
  KR2.connect_dlinkedlist s p n = Ok s' →
  ∀ a, KR2.size (KR2.rd (KR2.heap s') a) = KR2.size (KR2.rd (KR2.heap s) a).
Proof.
  unfold KR2.connect_dlinkedlist. intros H a. inv_bind H.
  rewrite (kr2_upd_size_frame _ _ _ _ H) by reflexivity.
  apply (kr2_upd_size_frame _ _ _ _ E). reflexivity.
Qed.

Lemma kr2_malloc_loop_size (fuel : nat) :
  ∀ (s : KR2.state) (nunits prev_p p ap : Z) (s' : KR2.state),
    KR2.malloc_loop fuel s nunits prev_p p = Ok (ap, s') →
    ap ≠ NULL →
    KR2.size (KR2.rd (KR2.heap s') (KR2.mm_block ap)) = nunits.
Proof.
  induction fuel as [|fuel IH]; intros s nunits prev_p p ap s' H Hap; [discriminate|].
  simpl in H. inv_bind H. rename x into hp.
  apply kr2_load_Ok in E as [_ ->].
  destruct (KR2.fits nunits (KR2.rd (KR2.heap s) p)) eqn:Hfit.
  - destruct (Z.eqb_spec (KR2.size (KR2.rd (KR2.heap s) p)) nunits) as [Heq|Hne].
    + inv_bind H. inversion H; subst ap s'. simpl.
      unfold KR2.mm_block, KR2.mm_payload.
      replace (p + 1 * KR2.sizeof_Header - 1 * KR2.sizeof_Header) with p by lia.
      rewrite (kr2_upd_size_frame _ _ _ _ E) by reflexivity. exact Heq.
    + inv_bind H. rename x into s1. inv_bind H. rename x into hp1.
      inv_bind H. rename x into s2. inv_bind H. rename x into s3.
      inv_bind H. rename x into s4. inv_bind H. rename x into s5.
      inversion H; subst ap s'. simpl.
      unfold KR2.mm_block, KR2.mm_payload.
      match goal with |- context [?q + 1 * KR2.sizeof_Header - 1 * KR2.sizeof_Header] =>
        replace (q + 1 * KR2.sizeof_Header - 1 * KR2.sizeof_Header) with q by lia end.
      rewrite (kr2_upd_size_frame _ _ _ _ E4) by reflexivity.
      rewrite (kr2_connect_size_frame _ _ _ _ E3).
      rewrite (kr2_connect_size_frame _ _ _ _ E2).
      apply (kr2_upd_set_size _ _ _ _ E1).
  - destruct (p =? KR2.freep s).
    + inv_bind H. destruct x as [q s1].
      destruct (Z.eqb_spec q NULL) as [->|Hq].
      * inversion H. congruence.
      * inv_bind H. eapply IH; eassumption.
    + eapply IH; eassumption.
Qed.

Lemma dll_load_Ok (s : DLL.state) (p : Z) (h : DLL.Header) :
  DLL.load s p = Ok h → DLL.valid_ptr s p = true ∧ h = DLL.rd (DLL.heap s) p.
Proof.
  unfold DLL.load. destruct (DLL.valid_ptr s p); intros H; [|discriminate].
  inversion H. split; reflexivity.
Qed.

Lemma dll_upd_Ok (s s' : DLL.state) (p : Z) (f : DLL.Header → DLL.Header) :
  DLL.upd s p f = Ok s' →
  DLL.valid_ptr s p = true
  ∧ s' = DLL.with_heap (<[p := f (DLL.rd (DLL.heap s) p)]> (DLL.heap s)) s.
Proof.
  unfold DLL.upd. destruct (DLL.valid_ptr s p); intros H; [|discriminate].
  inversion H. split; reflexivity.
Qed.

Lemma dll_rd_insert (h : gmap Z DLL.Header) (p a : Z) (c : DLL.Header) :
  DLL.rd (<[p := c]> h) a = if decide (p = a) then c else DLL.rd h a.
Proof.
  unfold DLL.rd. rewrite lookup_insert. destruct (decide (p = a)); reflexivity.
Qed.

Lemma dll_upd_size_frame (s s' : DLL.state) (p : Z) (f : DLL.Header → DLL.Header) :
  DLL.upd s p f = Ok s' →
  (∀ h, DLL.size (f h) = DLL.size h) →
  ∀ a, DLL.size (DLL.rd (DLL.heap s') a) = DLL.size (DLL.rd (DLL.heap s) a).
Proof.
  intros H Hf a. apply dll_upd_Ok in H as [_ ->]. simpl.
  rewrite dll_rd_insert. destruct (decide (p = a)) as [->|]; [apply Hf | reflexivity].
Qed.

Lemma dll_upd_set_size (s s' : DLL.state) (p v : Z) :
  DLL.upd s p (DLL.set_size v) = Ok s' → DLL.size (DLL.rd (DLL.heap s') p) = v.
Proof.
  intros H. apply dll_upd_Ok in H as [_ ->]. simpl.
  rewrite dll_rd_insert. destruct (decide (p = p)); [reflexivity | congruence].
Qed.

Lemma dll_link_size_frame (s s' : DLL.state) (a b : Z) :
  DLL.link_header s a b = Ok s' →
  ∀ x, DLL.size (DLL.rd (DLL.heap s') x) = DLL.size (DLL.rd (DLL.heap s) x).
Proof.
  unfold DLL.link_header. intros H x. inv_bind H. inv_bind H.
  rewrite (dll_upd_size_frame _ _ _ _ H) by reflexivity.
  apply (dll_upd_size_frame _ _ _ _ E). reflexivity.
Qed.

Lemma dll_malloc_loop_size (fuel : nat) :
  ∀ (s : DLL.state) (nunits prevp p ap : Z) (s' : DLL.state),
    DLL.malloc_loop fuel s nunits prevp p = Ok (ap, s') →
    ap ≠ NULL →
    DLL.size (DLL.rd (DLL.heap s') (DLL.mm_block ap)) = nunits.
Proof.
  induction fuel as [|fuel IH]; intros s nunits prevp p ap s' H Hap; [discriminate|].
  simpl in H. inv_bind H. rename x into hp.
  apply dll_load_Ok in E as [_ ->].
  destruct (DLL.fits nunits (DLL.rd (DLL.heap s) p)) eqn:Hfit.
  - inv_bind H. destruct x as [s2 p2].
    inv_bind H. rename x into s3. inv_bind H. rename x into t.
    inv_bind H. rename x into s4. inversion H; subst ap s'. simpl.
    unfold DLL.mm_block, DLL.mm_payload.
    replace (p2 + 1 * DLL.sizeof_Header - 1 * DLL.sizeof_Header) with p2 by lia.
    rewrite (dll_upd_size_frame _ _ _ _ E2) by reflexivity.
    rewrite (dll_upd_size_frame _ _ _ _ E0) by reflexivity.
    destruct (Z.eqb_spec (DLL.size (DLL.rd (DLL.heap s) p)) nunits) as [Heq|Hne].
    + inv_bind E. inversion E; subst s2 p2.
      rewrite (dll_link_size_frame _ _ _ _ E3). exact Heq.
    + inv_bind E. inv_bind E. inv_bind E. inv_bind E. inv_bind E. inv_bind E.
      inv_bind E. inv_bind E. inversion E; subst s2 p2.
      match goal with H : DLL.upd _ _ (DLL.set_size nunits) = Ok _ |- _ =>
        apply (dll_upd_set_size _ _ _ _ H) end.
  - destruct (p =? DLL.freep s).
    + inv_bind H. destruct x as [q s1].
      destruct (Z.eqb_spec q NULL) as [->|Hq].
      * inversion H. congruence.
      * inv_bind H. eapply IH; eassumption.
    + eapply IH; eassumption.
Qed.

(** C2, as amended.  For a request of [nbytes] bytes with
    [1 <= nbytes <= SIZE_MAX - sizeof(Header) + 1], the block behind the
    pointer that [mm_malloc] returns has [mm_units nbytes] units; that is
    more than the header overhead (one unit in [mm_heap_kr2.c], two in
    [mm_heap_dll.c]) and its payload covers the request. *)
Theorem C2_malloc_block_has_payload :
  (∀ (fuel : nat) (s s' : KR2.state) (nbytes ap : Z),
      1 <= nbytes <= SIZE_MAX - KR2.sizeof_Header + 1 →
      KR2.mm_malloc fuel s nbytes = Ok (ap, s') →
      ap ≠ NULL →
      KR2.size (KR2.rd (KR2.heap s') (KR2.mm_block ap)) = KR2.mm_units nbytes
      ∧ 1 < KR2.mm_units nbytes
      ∧ nbytes <= (KR2.mm_units nbytes - 1) * KR2.sizeof_Header)
  ∧ (∀ (fuel : nat) (s s' : DLL.state) (nbytes ap : Z),
      1 <= nbytes <= SIZE_MAX - DLL.sizeof_Header + 1 →
      DLL.mm_malloc fuel s nbytes = Ok (ap, s') →
      ap ≠ NULL →
      DLL.size (DLL.rd (DLL.heap s') (DLL.mm_block ap)) = DLL.mm_units nbytes
      ∧ 2 < DLL.mm_units nbytes
      ∧ nbytes <= (DLL.mm_units nbytes - 2) * DLL.sizeof_Header).
Proof.
  split.
  - intros fuel s s' nbytes ap Hn H Hap. split.
    + unfold KR2.mm_malloc in H. inv_bind H.
      eapply kr2_malloc_loop_size; eassumption.
    + rewrite kr2_mm_units_exact by lia.
      unfold SIZE_MAX, KR2.sizeof_Header in *.
      pose proof (Z.div_mod (nbytes + 31) 32 ltac:(lia)) as Hd.
      pose proof (Z.mod_pos_bound (nbytes + 31) 32 ltac:(lia)) as Hm.
      lia.
  - intros fuel s s' nbytes ap Hn H Hap. split.
    + unfold DLL.mm_malloc in H. inv_bind H.
      eapply dll_malloc_loop_size; eassumption.
    + rewrite dll_mm_units_exact by lia.
      unfold SIZE_MAX, DLL.sizeof_Header in *.
      pose proof (Z.div_mod (nbytes + 15) 16 ltac:(lia)) as Hd.
      pose proof (Z.mod_pos_bound (nbytes + 15) 16 ltac:(lia)) as Hm.
      lia.
Qed.

Lemma C2_malloc_block_has_payload_witness :
  KR2.size (KR2.rd (KR2.heap kr2_s1) (KR2.mm_block kr2_p1)) = KR2.mm_units 16
  ∧ 1 < KR2.mm_units 16
  ∧ 16 <= (KR2.mm_units 16 - 1) * KR2.sizeof_Header.
Proof.
  apply (proj1 C2_malloc_block_has_payload 8%nat kr2_fresh kr2_s1 16 kr2_p1).
  - unfold SIZE_MAX, KR2.sizeof_Header. lia.
  - vm_compute. reflexivity.
  - vm_compute. discriminate.
Defined.

(** C2 fails at [nbytes = 0]: the block that [mm_malloc(0)] hands out has
    exactly the header overhead, one unit in [mm_heap_kr2.c] and two in
    [mm_heap_dll.c], and no payload unit. *)
Lemma C2_malloc_zero_has_no_payload_unit :
  (∃ (ap : Z) (s' : KR2.state),
      KR2.mm_malloc 8 kr2_fresh 0 = Ok (ap, s') ∧ ap ≠ NULL
      ∧ KR2.size (KR2.rd (KR2.heap s') (KR2.mm_block ap)) = 1)
  ∧ (∃ (ap : Z) (s' : DLL.state),
      DLL.mm_malloc 8 dll_fresh 0 = Ok (ap, s') ∧ ap ≠ NULL
      ∧ DLL.size (DLL.rd (DLL.heap s') (DLL.mm_block ap)) = 2).
Proof.
  split.
  - eexists _, _. split; [vm_compute; reflexivity|]. split; [discriminate|reflexivity].
  - eexists _, _. split; [vm_compute; reflexivity|]. split; [discriminate|reflexivity].
Qed.



(** ** Running out of memory *)

Lemma kr2_malloc_loop_no_fit (s : KR2.state) (nunits : Z) (n : nat) (p : Z) :
  KR2.no_fit s nunits n p →
  mem_sbrk (KR2.arena s)
    (KR2.mm_bytes (if nunits <? mem_pagesize (KR2.arena s) / KR2.sizeof_Header
                   then mem_pagesize (KR2.arena s) / KR2.sizeof_Header
                   else nunits)) = None →
  ∀ (fuel : nat) (prev_p : Z), (n < fuel)%nat →
    KR2.malloc_loop fuel s nunits prev_p p = Ok (NULL, KR2.with_errno ENOMEM s).
Proof.
  intros Hnf Hsbrk. induction Hnf as [p hp Hld Hfit Hp | n p hp Hld Hfit Hp _ IH];
    intros fuel prev_p Hfuel; (destruct fuel as [|fuel]; [lia|]); simpl;
    rewrite Hld; simpl; rewrite Hfit.
  - subst p. rewrite Z.eqb_refl. unfold KR2.morecore. rewrite Hsbrk. reflexivity.
  - destruct (Z.eqb_spec p (KR2.freep s)); [contradiction|].
    apply IH. lia.
Qed.




(** ** Which blocks [mm_malloc] accepts, and what a split leaves *)

(** Replaces the state after a store by its definition, and the header that
    a load returns by the contents of the memory. *)
Ltac kr2_inv :=
  repeat match goal with
  | H : KR2.connect_dlinkedlist _ _ _ = Ok _ |- _ => unfold KR2.connect_dlinkedlist in H
  | H : _ ≫= _ = Ok _ |- _ => inv_bind H
  | x : (_ * _)%type |- _ => destruct x
  | H : KR2.load _ _ = Ok ?h |- _ => is_var h; apply kr2_load_Ok in H as [_ ->]
  | H : KR2.upd _ _ _ = Ok ?s |- _ => is_var s; apply kr2_upd_Ok in H as [_ ->]
  | H : Ok _ = Ok _ |- _ => inversion H; clear H; subst
  end.

Ltac dll_inv :=
  repeat match goal with
  | H : DLL.link_header _ _ _ = Ok _ |- _ => unfold DLL.link_header in H
  | H : DLL.mm_tail _ _ = Ok _ |- _ => unfold DLL.mm_tail in H
  | H : _ ≫= _ = Ok _ |- _ => inv_bind H
  | x : (_ * _)%type |- _ => destruct x
  | H : DLL.load _ _ = Ok ?h |- _ => is_var h; apply dll_load_Ok in H as [_ ->]
  | H : DLL.upd _ _ _ = Ok ?s |- _ => is_var s; apply dll_upd_Ok in H as [_ ->]
  | H : Ok _ = Ok _ |- _ => inversion H; clear H; subst
  end.

Lemma kr2_rd_insert_eq (h : gmap Z KR2.Header) (a x : Z) (c : KR2.Header) :
  a = x → KR2.rd (<[a := c]> h) x = c.
Proof. intros ->. unfold KR2.rd. rewrite lookup_insert_eq. reflexivity. Qed.

Lemma kr2_rd_insert_ne (h : gmap Z KR2.Header) (a x : Z) (c : KR2.Header) :
  a ≠ x → KR2.rd (<[a := c]> h) x = KR2.rd h x.
Proof. intros H. unfold KR2.rd. rewrite lookup_insert_ne by exact H. reflexivity. Qed.

Lemma dll_rd_insert_eq (h : gmap Z DLL.Header) (a x : Z) (c : DLL.Header) :
  a = x → DLL.rd (<[a := c]> h) x = c.
Proof. intros ->. unfold DLL.rd. rewrite lookup_insert_eq. reflexivity. Qed.

Lemma dll_rd_insert_ne (h : gmap Z DLL.Header) (a x : Z) (c : DLL.Header) :
  a ≠ x → DLL.rd (<[a := c]> h) x = DLL.rd h x.
Proof. intros H. unfold DLL.rd. rewrite lookup_insert_ne by exact H. reflexivity. Qed.

(** Reads through the stores in the goal: every [rd (<[a := c]> h) x] is
    resolved by comparing [a] and [x] with [lia]. *)
Ltac kr2_rd :=
  repeat (cbn [KR2.prev KR2.next KR2.isFree KR2.pad KR2.size KR2.set_prev KR2.set_next
               KR2.set_isFree KR2.set_size KR2.heap KR2.freep KR2.errno KR2.arena KR2.base
               KR2.with_heap KR2.with_freep KR2.with_errno KR2.with_arena];
          try match goal with
          | |- context [KR2.rd (<[?a := ?c]> ?h) ?x] =>
              first [ rewrite (kr2_rd_insert_eq h a x c) by lia
                    | rewrite (kr2_rd_insert_ne h a x c) by lia ]
          end).

(** The same, with a case distinction where [lia] cannot compare. *)
Ltac kr2_rd_cases :=
  repeat (kr2_rd;
          try match goal with
          | |- context [KR2.rd (<[?a := ?c]> ?h) ?x] =>
              destruct (decide (a = x));
              [ rewrite (kr2_rd_insert_eq h a x c) by assumption
              | rewrite (kr2_rd_insert_ne h a x c) by assumption ]
          end).

Ltac dll_rd :=
  repeat (cbn [DLL.ptr DLL.size DLL.set_ptr DLL.set_size DLL.heap DLL.freep DLL.errno
               DLL.arena DLL.base DLL.with_heap DLL.with_freep DLL.with_errno DLL.with_arena];
          try match goal with
          | |- context [DLL.rd (<[?a := ?c]> ?h) ?x] =>
              first [ rewrite (dll_rd_insert_eq h a x c) by lia
                    | rewrite (dll_rd_insert_ne h a x c) by lia ]
          end).

Lemma kr2_malloc_rejects (s s' : KR2.state) (nunits prev_p p ap : Z) (hp : KR2.Header) :
  KR2.load s p = Ok hp →
  KR2.fits nunits hp = false →
  KR2.malloc_loop 1 s nunits prev_p p = Ok (ap, s') →
  ap = NULL.
Proof.
  intros Hld Hfit H. simpl in H. rewrite Hld in H. simpl in H. rewrite Hfit in H.
  destruct (p =? KR2.freep s); [|discriminate].
  inv_bind H. destruct x as [q s1]. destruct (Z.eqb_spec q NULL) as [->|_].
  - inversion H. reflexivity.
  - inv_bind H. discriminate.
Qed.

Lemma kr2_malloc_accepts (fuel : nat) (s s' : KR2.state) (nunits prev_p p ap : Z)
    (hp : KR2.Header) :
  KR2.load s p = Ok hp →
  KR2.fits nunits hp = true →
  0 <= nunits → KR2.size hp < 2 ^ 64 →
  KR2.malloc_loop (S fuel) s nunits prev_p p = Ok (ap, s') →
  KR2.is_free hp = true ∧ nunits <= KR2.size hp
  ∧ ((KR2.size hp = nunits ∧ ap = KR2.mm_payload p)
     ∨ (1 <= KR2.size hp - nunits
        ∧ ap = KR2.mm_payload (p + (KR2.size hp - nunits) * KR2.sizeof_Header)
        ∧ KR2.size (KR2.rd (KR2.heap s') p) = KR2.size hp - nunits
        ∧ KR2.is_free (KR2.rd (KR2.heap s') p) = true)).
Proof.
  intros Hld Hfit Hn Hsz H. simpl in H. rewrite Hld in H. simpl in H. rewrite Hfit in H.
  unfold KR2.fits in Hfit. apply andb_prop in Hfit as [Hle Hfree].
  apply Z.leb_le in Hle. split; [exact Hfree|]. split; [exact Hle|].
  apply kr2_load_Ok in Hld as [Hv ->].
  destruct (Z.eqb_spec (KR2.size (KR2.rd (KR2.heap s) p)) nunits) as [Heq|Hne].
  - left. kr2_inv. split; reflexivity.
  - right.
    assert (Hr : wrap (KR2.size (KR2.rd (KR2.heap s) p) - nunits)
                 = KR2.size (KR2.rd (KR2.heap s) p) - nunits) by (apply wrap_small; lia).
    set (sz := KR2.size (KR2.rd (KR2.heap s) p)) in *.
    kr2_inv. unfold KR2.sizeof_Header in *. rewrite Hr.
    split; [lia|]. split; [kr2_rd; reflexivity|].
    split; kr2_rd_cases; first [reflexivity | exact Hfree].
Qed.

Lemma dll_malloc_rejects (s s' : DLL.state) (nunits prevp p ap : Z) (hp : DLL.Header) :
  DLL.load s p = Ok hp →
  DLL.fits nunits hp = false →
  DLL.malloc_loop 1 s nunits prevp p = Ok (ap, s') →
  ap = NULL.
Proof.
  intros Hld Hfit H. simpl in H. rewrite Hld in H. simpl in H. rewrite Hfit in H.
  destruct (p =? DLL.freep s); [|discriminate].
  inv_bind H. destruct x as [q s1]. destruct (Z.eqb_spec q NULL) as [->|_].
  - inversion H. reflexivity.
  - inv_bind H. discriminate.
Qed.

Lemma dll_malloc_accepts (fuel : nat) (s s' : DLL.state) (nunits prevp p ap : Z)
    (hp : DLL.Header) :
  DLL.load s p = Ok hp →
  DLL.fits nunits hp = true →
  1 <= nunits → nunits + 2 < 2 ^ 64 → DLL.size hp < 2 ^ 64 →
  DLL.malloc_loop (S fuel) s nunits prevp p = Ok (ap, s') →
  (DLL.size hp = nunits ∧ ap = DLL.mm_payload p)
  ∨ (2 <= DLL.size hp - nunits
     ∧ ap = DLL.mm_payload (p + (DLL.size hp - nunits) * DLL.sizeof_Header)
     ∧ DLL.size (DLL.rd (DLL.heap s') p) = DLL.size hp - nunits
     ∧ DLL.ptr (DLL.rd (DLL.heap s') p) = DLL.ptr hp
     ∧ DLL.size (DLL.rd (DLL.heap s')
                   (p + (DLL.size hp - nunits) * DLL.sizeof_Header - 1 * DLL.sizeof_Header))
       = DLL.size hp - nunits
     ∧ DLL.ptr (DLL.rd (DLL.heap s')
                  (p + (DLL.size hp - nunits) * DLL.sizeof_Header - 1 * DLL.sizeof_Header))
       = prevp).
Proof.
  intros Hld Hfit Hn Hn2 Hsz H. simpl in H. rewrite Hld in H. simpl in H. rewrite Hfit in H.
  unfold DLL.fits in Hfit. rewrite (wrap_small (nunits + 2)) in Hfit by lia.
  apply dll_load_Ok in Hld as [Hv ->].
  destruct (Z.eqb_spec (DLL.size (DLL.rd (DLL.heap s) p)) nunits) as [Heq|Hne].
  - left. dll_inv. split; reflexivity.
  - right. simpl in Hfit. apply Z.leb_le in Hfit.
    assert (Hr : wrap (DLL.size (DLL.rd (DLL.heap s) p) - nunits)
                 = DLL.size (DLL.rd (DLL.heap s) p) - nunits) by (apply wrap_small; lia).
    set (sz := DLL.size (DLL.rd (DLL.heap s) p)) in *.
    dll_inv. unfold DLL.sizeof_Header in *. rewrite Hr. dll_rd.
    repeat split; lia.
Qed.

Lemma kr2_mm_units_range (n : Z) : 1 <= KR2.mm_units n <= 2 ^ 59.
Proof.
  unfold KR2.mm_units, KR2.sizeof_Header.
  pose proof (wrap_range (wrap (n + 32) - 1)) as Hw.
  assert (H0 : 0 <= wrap (wrap (n + 32) - 1) / 32 < 2 ^ 59).
  { split; [apply Z.div_pos; lia | apply Z.div_lt_upper_bound; pow2; lia]. }
  rewrite wrap_small; pow2; lia.
Qed.

Lemma dll_mm_units_range (n : Z) : 2 <= DLL.mm_units n <= 2 ^ 60 + 1.
Proof.
  unfold DLL.mm_units, DLL.sizeof_Header.
  pose proof (wrap_range (wrap (n + 16) - 1)) as Hw.
  assert (H0 : 0 <= wrap (wrap (n + 16) - 1) / 16 < 2 ^ 60).
  { split; [apply Z.div_pos; lia | apply Z.div_lt_upper_bound; pow2; lia]. }
  rewrite wrap_small; pow2; lia.
Qed.

(** C5, as amended.  At a block [p] with header [hp], for the unit count of
    any request and a size field in the range of [size_t]:
    - an iteration of the search that hands out a pointer has found the
      acceptance test true at [p] (with fuel for one iteration, a block that
      fails the test yields no pointer);
    - [mm_heap_kr2.c] accepts a block that is free and has at least
      [nunits] units; it hands out the whole block when the size is
      [nunits], and otherwise the upper [nunits] units, leaving at [p] a
      free block of [size - nunits >= 1] units: the remainder holds its
      header and may have no payload unit;
    - [mm_heap_dll.c] accepts a block of [nunits] units or of at least
      [nunits + 2]; a split leaves at [p] a block of [size - nunits >= 2]
      units, still linked ([ptr] unchanged), whose last unit mirrors the
      size and points back to the predecessor [prevp]: the remainder holds
      its header and its tail and may have no payload unit. *)
Theorem C5_accepted_blocks_and_split_remainder :
  (∀ (fuel : nat) (s s' : KR2.state) (nbytes prev_p p ap : Z) (hp : KR2.Header),
      KR2.load s p = Ok hp →
      KR2.size hp < 2 ^ 64 →
      (KR2.fits (KR2.mm_units nbytes) hp = false →
       KR2.malloc_loop 1 s (KR2.mm_units nbytes) prev_p p = Ok (ap, s') → ap = NULL)
      ∧ (KR2.fits (KR2.mm_units nbytes) hp = true →
         KR2.malloc_loop (S fuel) s (KR2.mm_units nbytes) prev_p p = Ok (ap, s') →
         KR2.is_free hp = true ∧ KR2.mm_units nbytes <= KR2.size hp
         ∧ ((KR2.size hp = KR2.mm_units nbytes ∧ ap = KR2.mm_payload p)
            ∨ (1 <= KR2.size hp - KR2.mm_units nbytes
               ∧ ap = KR2.mm_payload
                        (p + (KR2.size hp - KR2.mm_units nbytes) * KR2.sizeof_Header)
               ∧ KR2.size (KR2.rd (KR2.heap s') p) = KR2.size hp - KR2.mm_units nbytes
               ∧ KR2.is_free (KR2.rd (KR2.heap s') p) = true))))
  ∧ (∀ (fuel : nat) (s s' : DLL.state) (nbytes prevp p ap : Z) (hp : DLL.Header),
      DLL.load s p = Ok hp →
      DLL.size hp < 2 ^ 64 →
      (DLL.fits (DLL.mm_units nbytes) hp = false →
       DLL.malloc_loop 1 s (DLL.mm_units nbytes) prevp p = Ok (ap, s') → ap = NULL)
      ∧ (DLL.fits (DLL.mm_units nbytes) hp = true →
         DLL.malloc_loop (S fuel) s (DLL.mm_units nbytes) prevp p = Ok (ap, s') →
         (DLL.size hp = DLL.mm_units nbytes ∧ ap = DLL.mm_payload p)
         ∨ (2 <= DLL.size hp - DLL.mm_units nbytes
            ∧ ap = DLL.mm_payload
                     (p + (DLL.size hp - DLL.mm_units nbytes) * DLL.sizeof_Header)
            ∧ DLL.size (DLL.rd (DLL.heap s') p) = DLL.size hp - DLL.mm_units nbytes
            ∧ DLL.ptr (DLL.rd (DLL.heap s') p) = DLL.ptr hp
            ∧ DLL.size (DLL.rd (DLL.heap s')
                          (p + (DLL.size hp - DLL.mm_units nbytes) * DLL.sizeof_Header
                           - 1 * DLL.sizeof_Header))
              = DLL.size hp - DLL.mm_units nbytes
            ∧ DLL.ptr (DLL.rd (DLL.heap s')
                         (p + (DLL.size hp - DLL.mm_units nbytes) * DLL.sizeof_Header
                          - 1 * DLL.sizeof_Header))
              = prevp))).
Proof.
  split.
  - intros fuel s s' nbytes prev_p p ap hp Hld Hsz.
    pose proof (kr2_mm_units_range nbytes) as Hu. split.
    + intros Hfit H. eapply kr2_malloc_rejects; eassumption.
    + intros Hfit H. eapply kr2_malloc_accepts; try eassumption. lia.
  - intros fuel s s' nbytes prevp p ap hp Hld Hsz.
    pose proof (dll_mm_units_range nbytes) as Hu. split.
    + intros Hfit H. eapply dll_malloc_rejects; eassumption.
    + intros Hfit H. eapply dll_malloc_accepts; try eassumption; pow2; lia.
Qed.

Lemma C5_accepted_blocks_and_split_remainder_witness :
  (KR2.is_free (KR2.rd (KR2.heap kr2_s1) 65536) = true
   ∧ KR2.mm_units 1000 <= 126
   ∧ ((126 = KR2.mm_units 1000 ∧ 68544 = KR2.mm_payload 65536)
      ∨ (1 <= 126 - KR2.mm_units 1000
         ∧ 68544 = KR2.mm_payload (65536 + (126 - KR2.mm_units 1000) * KR2.sizeof_Header)
         ∧ KR2.size (KR2.rd (KR2.heap kr2_split) 65536) = 126 - KR2.mm_units 1000
         ∧ KR2.is_free (KR2.rd (KR2.heap kr2_split) 65536) = true)))
  ∧ ((253 = DLL.mm_units 1000 ∧ 68560 = DLL.mm_payload 65536)
     ∨ (2 <= 253 - DLL.mm_units 1000
        ∧ 68560 = DLL.mm_payload (65536 + (253 - DLL.mm_units 1000) * DLL.sizeof_Header)
        ∧ DLL.size (DLL.rd (DLL.heap dll_split) 65536) = 253 - DLL.mm_units 1000
        ∧ DLL.ptr (DLL.rd (DLL.heap dll_split) 65536) = 4096
        ∧ DLL.size (DLL.rd (DLL.heap dll_split)
                      (65536 + (253 - DLL.mm_units 1000) * DLL.sizeof_Header
                       - 1 * DLL.sizeof_Header))
          = 253 - DLL.mm_units 1000
        ∧ DLL.ptr (DLL.rd (DLL.heap dll_split)
                     (65536 + (253 - DLL.mm_units 1000) * DLL.sizeof_Header
                      - 1 * DLL.sizeof_Header))
          = 4096)).
Proof.
  split.
  - eapply (proj1 C5_accepted_blocks_and_split_remainder
              0%nat kr2_s1 kr2_split 1000 4096 65536 68544
              (KR2.mkHeader 4096 69568 1 0 126)).
    + vm_compute. reflexivity.
    + simpl. reflexivity.
    + reflexivity.
    + vm_compute. reflexivity.
  - eapply (proj2 C5_accepted_blocks_and_split_remainder
              0%nat dll_s1 dll_split 1000 4096 65536 68560
              (DLL.mkHeader 4096 253)).
    + vm_compute. reflexivity.
    + simpl. reflexivity.
    + reflexivity.
    + vm_compute. reflexivity.
Defined.

(** C5 fails as stated: a split can leave a free remainder that has no
    payload unit.  On a fresh heap a request of 4032 bytes splits the page
    that [morecore] obtains; what stays free is one unit, the header alone,
    in [mm_heap_kr2.c], and two units, header and tail, in
    [mm_heap_dll.c]. *)
Lemma C5_split_leaves_remainder_without_payload :
  (∃ (ap : Z) (s' : KR2.state),
      KR2.mm_malloc 8 kr2_fresh 4032 = Ok (ap, s')
      ∧ KR2.is_free (KR2.rd (KR2.heap s') 65536) = true
      ∧ KR2.size (KR2.rd (KR2.heap s') 65536) = 1
      ∧ KR2.mm_block ap = 65536 + 1 * KR2.sizeof_Header)
  ∧ (∃ (ap : Z) (s' : DLL.state),
      DLL.mm_malloc 8 dll_fresh 4032 = Ok (ap, s')
      ∧ DLL.ptr (DLL.rd (DLL.heap s') 65536) ≠ NULL
      ∧ DLL.size (DLL.rd (DLL.heap s') 65536) = 2
      ∧ DLL.mm_block ap = 65536 + 2 * DLL.sizeof_Header).
Proof.
  split.
  - eexists _, _. split; [vm_compute; reflexivity|]. repeat split.
  - eexists _, _. split; [vm_compute; reflexivity|].
    split; [vm_compute; discriminate|]. split; reflexivity.
Qed.

(** ** Free-space accounting *)

(** C1 fails on the code.  After one allocation of sixteen bytes on a fresh
    heap the arena holds one page of 4096 bytes, and a block is live (two
    units in [mm_heap_kr2.c], three in [mm_heap_dll.c]).
    [mm_heap_kr2.c]: [mm_getfree] walks the list of all blocks without
    looking at [isFree] and reports the whole page, 4096 bytes.
    [mm_heap_dll.c]: [mm_getfree] adds the two units of the sentinel
    [base]: it reports 32 bytes right after [mm_init], when the arena is
    empty, and 4080 bytes after the allocation, when 253 units (4048
    bytes) are free. *)
Theorem C1_getfree_does_not_count_the_free_bytes :
  (KR2.mm_getfree 8 kr2_s1 = Ok 4096
   ∧ mem_heapsize (KR2.arena kr2_s1) = 4096
   ∧ KR2.is_free (KR2.rd (KR2.heap kr2_s1) (KR2.mm_block kr2_p1)) = false
   ∧ KR2.mm_bytes (KR2.size (KR2.rd (KR2.heap kr2_s1) (KR2.mm_block kr2_p1))) = 64)
  ∧ (DLL.mm_getfree 8 (DLL.mm_init dll_fresh) = Ok 32
     ∧ mem_heapsize (DLL.arena (DLL.mm_init dll_fresh)) = 0)
  ∧ (DLL.mm_getfree 8 dll_s1 = Ok 4080
     ∧ mem_heapsize (DLL.arena dll_s1) = 4096
     ∧ DLL.ptr (DLL.rd (DLL.heap dll_s1) (DLL.mm_block dll_p1)) = NULL
     ∧ DLL.mm_bytes (DLL.size (DLL.rd (DLL.heap dll_s1) (DLL.mm_block dll_p1))) = 48).
Proof. repeat split; vm_compute; reflexivity. Qed.

(** ** Resizing beyond the capacity of the block *)

(** C8 fails on the code for sizes near [SIZE_MAX]: [mm_units] wraps
    around, the block of [p] seems large enough, and [mm_realloc] returns
    [p] itself with the state as it was.  The block of [p] has a payload of
    32 bytes ([mm_heap_kr2.c]) and 16 bytes ([mm_heap_dll.c]). *)
Theorem C8_realloc_huge_size_returns_old_block :
  (KR2.mm_units SIZE_MAX = 1
   ∧ KR2.mm_bytes (KR2.size (KR2.rd (KR2.heap kr2_s1) (KR2.mm_block kr2_p1)) - 1) = 32
   ∧ KR2.mm_realloc 8 kr2_s1 kr2_p1 SIZE_MAX = Ok (kr2_p1, kr2_s1))
  ∧ (DLL.mm_units SIZE_MAX = 2
     ∧ DLL.mm_bytes (DLL.size (DLL.rd (DLL.heap dll_s1) (DLL.mm_block dll_p1)) - 2) = 16
     ∧ DLL.mm_realloc 8 dll_s1 dll_p1 SIZE_MAX = Ok (dll_p1, dll_s1)).
Proof. repeat split; vm_compute; reflexivity. Qed.

(** ** Termination of [mm_getfree] *)

Lemma above_shrinks (l : list Z) (t n : Z) :
  t < n → n ∈ l →
  (length (filter (λ a : Z, (n < a)%Z) l) < length (filter (λ a : Z, (t < a)%Z) l))%nat.
Proof.
  intros Htn Hin. induction l as [|x l IH]; [inversion Hin|].
  assert (Hmono : (length (filter (λ a : Z, (n < a)%Z) l)
                   <= length (filter (λ a : Z, (t < a)%Z) l))%nat).
  { clear -Htn. induction l as [|y l IHl]; [reflexivity|].
    rewrite !filter_cons. repeat case_decide; simpl; lia. }
  rewrite !filter_cons. apply elem_of_cons in Hin as [<-|Hin].
  - repeat case_decide; simpl; lia.
  - specialize (IH Hin). repeat case_decide; simpl; lia.
Qed.

Lemma above_lt_length (l : list Z) (t : Z) :
  t ∈ l → (length (filter (λ a : Z, (t < a)%Z) l) < length l)%nat.
Proof.
  intros Hin. induction l as [|x l IH]; [inversion Hin|].
  pose proof (length_filter (λ a : Z, (t < a)%Z) l) as Hle.
  rewrite filter_cons. apply elem_of_cons in Hin as [<-|Hin].
  - case_decide; simpl; lia.
  - specialize (IH Hin). case_decide; simpl; lia.
Qed.

(** The number of dereferenceable addresses above [x] (units of the buffer
    and the two static addresses [b0], [b1]) drops at every step of a scan
    that moves to a higher dereferenceable address. *)
Lemma units_above_step (start max hsz b0 b1 t n : Z) :
  0 < hsz →
  (n = b0 ∨ n = b1 ∨ (start <= n ∧ n + hsz <= max ∧ (n - start) mod hsz = 0)) →
  t < n →
  let N := Z.max 0 ((max - start) / hsz) in
  let M := λ x, N - Z.max 0 (Z.min N ((x - start) / hsz + 1))
                + (if x <? b0 then 1 else 0) + (if x <? b1 then 1 else 0) in
  0 <= M n < M t ∧ M t <= N + 2.
Proof.
  intros Hh Hv Hlt N M. subst M N. cbv beta.
  destruct (Z.ltb_spec n b0), (Z.ltb_spec t b0), (Z.ltb_spec n b1), (Z.ltb_spec t b1);
  destruct Hv as [->|[->|(Hv1 & Hv2 & Hv3)]]; Z.div_mod_to_equations; nia.
Qed.

Lemma kr2_valid_ptr_spec (s : KR2.state) (p : Z) :
  KR2.valid_ptr s p = true →
  p = KR2.base s ∨ p = KR2.base s
  ∨ (mem_start_brk (KR2.arena s) <= p
     ∧ p + KR2.sizeof_Header <= mem_max_addr (KR2.arena s)
     ∧ (p - mem_start_brk (KR2.arena s)) mod KR2.sizeof_Header = 0).
Proof.
  unfold KR2.valid_ptr. intros H. apply orb_prop in H as [H|H].
  - left. apply Z.eqb_eq. exact H.
  - right. right. apply andb_prop in H as [H H3]. apply andb_prop in H as [H1 H2].
    apply Z.leb_le in H1, H2. apply Z.eqb_eq in H3. auto.
Qed.

Lemma dll_valid_ptr_spec (s : DLL.state) (p : Z) :
  DLL.valid_ptr s p = true →
  p = DLL.base s ∨ p = DLL.base s + 1 * DLL.sizeof_Header
  ∨ (mem_start_brk (DLL.arena s) <= p
     ∧ p + DLL.sizeof_Header <= mem_max_addr (DLL.arena s)
     ∧ (p - mem_start_brk (DLL.arena s)) mod DLL.sizeof_Header = 0).
Proof.
  unfold DLL.valid_ptr. intros H. apply orb_prop in H as [H|H].
  - apply orb_prop in H as [H|H]; [left | right; left]; apply Z.eqb_eq; exact H.
  - right. right. apply andb_prop in H as [H H3]. apply andb_prop in H as [H1 H2].
    apply Z.leb_le in H1, H2. apply Z.eqb_eq in H3. auto.
Qed.

Lemma kr2_getfree_loop_closed (s : KR2.state) (nodes : list Z) :
  kr2_closed s nodes →
  ∀ (k fuel : nat) (tmp res : Z),
    tmp ∈ nodes →
    (length (filter (λ a : Z, (tmp < a)%Z) nodes) <= k)%nat → (k < fuel)%nat →
    ∃ v, KR2.getfree_loop fuel s tmp res = Ok v.
Proof.
  intros Hcl k. induction k as [|k IH]; intros fuel tmp res Hin Hk Hfuel;
    (destruct fuel as [|fuel]; [lia|]); simpl;
    destruct (Hcl tmp Hin) as (ht & Hld & Hnx); rewrite Hld; simpl;
    destruct (Z.ltb_spec tmp (KR2.next ht)) as [Hlt|Hge]; try (eexists; reflexivity).
  - pose proof (above_shrinks nodes tmp _ Hlt (Hnx Hlt)). lia.
  - destruct (Hcl _ (Hnx Hlt)) as (hn & Hldn & _). rewrite Hldn. simpl.
    apply IH; [exact (Hnx Hlt) | | lia].
    pose proof (above_shrinks nodes tmp _ Hlt (Hnx Hlt)). lia.
Qed.

Lemma dll_getfree_loop_closed (s : DLL.state) (nodes : list Z) :
  dll_closed s nodes →
  ∀ (k fuel : nat) (tmp res : Z),
    tmp ∈ nodes →
    (length (filter (λ a : Z, (tmp < a)%Z) nodes) <= k)%nat → (k < fuel)%nat →
    ∃ v, DLL.getfree_loop fuel s tmp res = Ok v.
Proof.
  intros Hcl k. induction k as [|k IH]; intros fuel tmp res Hin Hk Hfuel;
    (destruct fuel as [|fuel]; [lia|]); simpl;
    destruct (Hcl tmp Hin) as (ht & Hld & Hnx); rewrite Hld; simpl;
    destruct (Z.ltb_spec tmp (DLL.ptr ht)) as [Hlt|Hge]; try (eexists; reflexivity).
  - pose proof (above_shrinks nodes tmp _ Hlt (Hnx Hlt)). lia.
  - destruct (Hcl _ (Hnx Hlt)) as (hn & Hldn & _). rewrite Hldn. simpl.
    apply IH; [exact (Hnx Hlt) | | lia].
    pose proof (above_shrinks nodes tmp _ Hlt (Hnx Hlt)). lia.
Qed.

Lemma kr2_getfree_loop_fuel (s : KR2.state) :
  ∀ (k fuel : nat) (tmp res : Z),
    let start := mem_start_brk (KR2.arena s) in
    let N := Z.max 0 ((mem_max_addr (KR2.arena s) - start) / KR2.sizeof_Header) in
    N - Z.max 0 (Z.min N ((tmp - start) / KR2.sizeof_Header + 1))
      + (if tmp <? KR2.base s then 1 else 0) + (if tmp <? KR2.base s then 1 else 0)
      <= Z.of_nat k →
    (k < fuel)%nat →
    KR2.getfree_loop fuel s tmp res ≠ OutOfFuel.
Proof.
  intros k. induction k as [|k IH]; intros fuel tmp res start N Hk Hfuel;
    (destruct fuel as [|fuel]; [lia|]); simpl;
    (destruct (KR2.load s tmp) as [ht| |] eqn:Hld; simpl; [|discriminate|
       unfold KR2.load in Hld; destruct (KR2.valid_ptr s tmp); discriminate]);
    (destruct (Z.ltb_spec tmp (KR2.next ht)) as [Hlt|Hge]; [|discriminate]);
    (destruct (KR2.load s (KR2.next ht)) as [hn| |] eqn:Hldn; simpl; [|discriminate|
       unfold KR2.load in Hldn; destruct (KR2.valid_ptr s (KR2.next ht)); discriminate]);
    apply kr2_load_Ok in Hldn as [Hv _]; apply kr2_valid_ptr_spec in Hv;
    pose proof (units_above_step start (mem_max_addr (KR2.arena s)) KR2.sizeof_Header
                  (KR2.base s) (KR2.base s) tmp (KR2.next ht) ltac:(reflexivity) Hv Hlt) as Hstep;
    cbv zeta in Hstep; fold start in Hstep; fold N in Hstep.
  - lia.
  - apply IH; [fold start; fold N; lia | lia].
Qed.

Lemma dll_getfree_loop_fuel (s : DLL.state) :
  ∀ (k fuel : nat) (tmp res : Z),
    let start := mem_start_brk (DLL.arena s) in
    let N := Z.max 0 ((mem_max_addr (DLL.arena s) - start) / DLL.sizeof_Header) in
    N - Z.max 0 (Z.min N ((tmp - start) / DLL.sizeof_Header + 1))
      + (if tmp <? DLL.base s then 1 else 0)
      + (if tmp <? DLL.base s + 1 * DLL.sizeof_Header then 1 else 0)
      <= Z.of_nat k →
    (k < fuel)%nat →
    DLL.getfree_loop fuel s tmp res ≠ OutOfFuel.
Proof.
  intros k. induction k as [|k IH]; intros fuel tmp res start N Hk Hfuel;
    (destruct fuel as [|fuel]; [lia|]); simpl;
    (destruct (DLL.load s tmp) as [ht| |] eqn:Hld; simpl; [|discriminate|
       unfold DLL.load in Hld; destruct (DLL.valid_ptr s tmp); discriminate]);
    (destruct (Z.ltb_spec tmp (DLL.ptr ht)) as [Hlt|Hge]; [|discriminate]);
    (destruct (DLL.load s (DLL.ptr ht)) as [hn| |] eqn:Hldn; simpl; [|discriminate|
       unfold DLL.load in Hldn; destruct (DLL.valid_ptr s (DLL.ptr ht)); discriminate]);
    apply dll_load_Ok in Hldn as [Hv _]; apply dll_valid_ptr_spec in Hv;
    pose proof (units_above_step start (mem_max_addr (DLL.arena s)) DLL.sizeof_Header
                  (DLL.base s) (DLL.base s + 1 * DLL.sizeof_Header) tmp (DLL.ptr ht)
                  ltac:(reflexivity) Hv Hlt) as Hstep;
    cbv zeta in Hstep; fold start in Hstep; fold N in Hstep.
  - lia.
  - apply IH; [fold start; fold N; lia | lia].
Qed.

(** C10.  In both files, for every state [s]:
    - before the first initialisation ([freep == NULL]) [mm_getfree]
      returns 0 without entering the loop;
    - the scan moves on only to a strictly higher address, so with more
      fuel than there are dereferenceable units (the units of the buffer
      and the sentinel) it never runs out of fuel: [mm_getfree] ends on
      every state, reachable or not;
    - when the headers reachable from [freep] by links to higher addresses
      lie in a list [nodes] (the sentinel and the blocks of the arena),
      [mm_getfree] returns a value after at most [length nodes] tests of
      the loop condition, that is after at most as many steps as there are
      blocks. *)
Theorem C10_getfree_terminates :
  (∀ s : KR2.state,
      (KR2.freep s = NULL → ∀ fuel : nat, KR2.mm_getfree fuel s = Ok 0)
      ∧ (∀ fuel : nat,
           (buffer_units (KR2.arena s) KR2.sizeof_Header + 2 < fuel)%nat →
           KR2.mm_getfree fuel s ≠ OutOfFuel)
      ∧ (∀ (nodes : list Z) (fuel : nat),
           KR2.freep s ∈ nodes → kr2_closed s nodes →
           (length nodes <= fuel)%nat →
           ∃ v, KR2.mm_getfree fuel s = Ok v))
  ∧ (∀ s : DLL.state,
      (DLL.freep s = NULL → ∀ fuel : nat, DLL.mm_getfree fuel s = Ok 0)
      ∧ (∀ fuel : nat,
           (buffer_units (DLL.arena s) DLL.sizeof_Header + 2 < fuel)%nat →
           DLL.mm_getfree fuel s ≠ OutOfFuel)
      ∧ (∀ (nodes : list Z) (fuel : nat),
           DLL.freep s ∈ nodes → dll_closed s nodes →
           (length nodes <= fuel)%nat →
           ∃ v, DLL.mm_getfree fuel s = Ok v)).
Proof.
  split; intros s; (split; [|split]).
  - intros H fuel. unfold KR2.mm_getfree. rewrite H. reflexivity.
  - intros fuel Hfuel. unfold KR2.mm_getfree.
    destruct (KR2.freep s =? NULL); [discriminate|].
    destruct (KR2.load s (KR2.freep s)) as [ht| |] eqn:Hld; simpl; [|discriminate|
      unfold KR2.load in Hld; destruct (KR2.valid_ptr s (KR2.freep s)); discriminate].
    destruct (KR2.getfree_loop fuel s (KR2.freep s) (KR2.size ht)) as [v| |] eqn:Hloop;
      simpl; [discriminate|discriminate|].
    exfalso. revert Hloop.
    apply (kr2_getfree_loop_fuel s (buffer_units (KR2.arena s) KR2.sizeof_Header + 2));
      [|exact Hfuel].
    unfold buffer_units.
    destruct (Z.ltb_spec (KR2.freep s) (KR2.base s)); lia.
  - intros nodes fuel Hin Hcl Hfuel. unfold KR2.mm_getfree.
    destruct (KR2.freep s =? NULL); [eexists; reflexivity|].
    destruct (Hcl _ Hin) as (ht & Hld & _). rewrite Hld. simpl.
    pose proof (above_lt_length nodes _ Hin) as Hlt.
    destruct (kr2_getfree_loop_closed s nodes Hcl (length nodes - 1) fuel
                (KR2.freep s) (KR2.size ht) Hin ltac:(lia) ltac:(lia)) as (v & ->).
    eexists. reflexivity.
  - intros H fuel. unfold DLL.mm_getfree. rewrite H. reflexivity.
  - intros fuel Hfuel. unfold DLL.mm_getfree.
    destruct (DLL.freep s =? NULL); [discriminate|].
    destruct (DLL.load s (DLL.freep s)) as [ht| |] eqn:Hld; simpl; [|discriminate|
      unfold DLL.load in Hld; destruct (DLL.valid_ptr s (DLL.freep s)); discriminate].
    destruct (DLL.getfree_loop fuel s (DLL.freep s) (DLL.size ht)) as [v| |] eqn:Hloop;
      simpl; [discriminate|discriminate|].
    exfalso. revert Hloop.
    apply (dll_getfree_loop_fuel s (buffer_units (DLL.arena s) DLL.sizeof_Header + 2));
      [|exact Hfuel].
    unfold buffer_units.
    destruct (Z.ltb_spec (DLL.freep s) (DLL.base s)),
             (Z.ltb_spec (DLL.freep s) (DLL.base s + 1 * DLL.sizeof_Header)); lia.
  - intros nodes fuel Hin Hcl Hfuel. unfold DLL.mm_getfree.
    destruct (DLL.freep s =? NULL); [eexists; reflexivity|].
    destruct (Hcl _ Hin) as (ht & Hld & _). rewrite Hld. simpl.
    pose proof (above_lt_length nodes _ Hin) as Hlt.
    destruct (dll_getfree_loop_closed s nodes Hcl (length nodes - 1) fuel
                (DLL.freep s) (DLL.size ht) Hin ltac:(lia) ltac:(lia)) as (v & ->).
    eexists. reflexivity.
Qed.

Lemma C10_getfree_terminates_witness :
  KR2.mm_getfree 3 kr2_fresh = Ok 0
  ∧ (∃ v, KR2.mm_getfree 3 kr2_s1 = Ok v)
  ∧ (∃ v, DLL.mm_getfree 2 dll_s1 = Ok v).
Proof.
  split; [|split].
  - apply (proj1 (proj1 C10_getfree_terminates kr2_fresh)). reflexivity.
  - apply (proj2 (proj2 (proj1 C10_getfree_terminates kr2_s1)) [4096; 65536; 69568]).
    + vm_compute. repeat constructor.
    + intros a Ha. repeat (apply elem_of_cons in Ha as [->|Ha]); [| | |inversion Ha];
        (eexists; split; [vm_compute; reflexivity|]); simpl; intros Hlt;
        try lia; repeat constructor.
    + simpl. lia.
  - apply (proj2 (proj2 (proj2 C10_getfree_terminates dll_s1)) [4096; 65536]).
    + vm_compute. repeat constructor.
    + intros a Ha. repeat (apply elem_of_cons in Ha as [->|Ha]); [| |inversion Ha];
        (eexists; split; [vm_compute; reflexivity|]); simpl; intros Hlt;
        try lia; repeat constructor.
    + simpl. lia.
Defined.

(** ** Coalescing in [mm_free] *)

Lemma tiled_app hsz m a l1 l2 e :
  tiled hsz m a (l1 ++ l2) e ↔ ∃ c, tiled hsz m a l1 c ∧ tiled hsz m c l2 e.
Proof.
  revert a. induction l1 as [|[[x sx] fx] l1 IH]; intros a; simpl.
  - split; [intros H; exists a; auto | intros (c & -> & H); exact H].
  - rewrite IH. split.
    + intros (Hx & Hs & c & H1 & H2). exists c. auto.
    + intros (c & (Hx & Hs & H1) & H2). eauto.
Qed.

Lemma tiled_bounds hsz m a bs e :
  0 < hsz → 0 <= m →
  tiled hsz m a bs e →
  a <= e ∧ (e - a) mod hsz = 0
  ∧ ∀ x sx fx, (x, sx, fx) ∈ bs →
      a <= x ∧ x + sx * hsz <= e ∧ m <= sx ∧ (x - a) mod hsz = 0.
Proof.
  intros Hh Hm. revert a. induction bs as [|[[y sy] fy] bs IH]; intros a; simpl.
  - intros ->. split; [lia|]. split; [rewrite Z.sub_diag; reflexivity|].
    intros x sx fx H. inversion H.
  - intros (-> & Hs & Ht). destruct (IH _ Ht) as (Hle & Hmod & Hall). split; [nia|]. split.
    + replace (e - a) with (e - (a + sy * hsz) + sy * hsz) by lia.
      rewrite Z.mod_add by lia. exact Hmod.
    + intros x sx fx Hin. apply elem_of_cons in Hin as [Heq|Hin].
      * inversion Heq; subst. repeat split; try nia. rewrite Z.sub_diag. reflexivity.
      * destruct (Hall _ _ _ Hin) as (H1 & H2 & H3 & H4). repeat split; try nia.
        replace (x - a) with (x - (a + sy * hsz) + sy * hsz) by lia.
        rewrite Z.mod_add by lia. exact H4.
Qed.

Lemma kr2_load_valid s p :
  KR2.valid_ptr s p = true → KR2.load s p = Ok (KR2.rd (KR2.heap s) p).
Proof. unfold KR2.load. intros ->. reflexivity. Qed.

Lemma kr2_upd_valid s p f :
  KR2.valid_ptr s p = true →
  KR2.upd s p f = Ok (KR2.with_heap (<[p := f (KR2.rd (KR2.heap s) p)]> (KR2.heap s)) s).
Proof. unfold KR2.upd. intros ->. reflexivity. Qed.

Lemma kr2_valid_base s : KR2.valid_ptr s (KR2.base s) = true.
Proof. unfold KR2.valid_ptr. rewrite Z.eqb_refl. reflexivity. Qed.

Lemma kr2_valid_arena s p :
  mem_start_brk (KR2.arena s) <= p →
  p + KR2.sizeof_Header <= mem_max_addr (KR2.arena s) →
  (p - mem_start_brk (KR2.arena s)) mod KR2.sizeof_Header = 0 →
  KR2.valid_ptr s p = true.
Proof.
  intros H1 H2 H3. unfold KR2.valid_ptr.
  apply orb_true_intro. right.
  rewrite !andb_true_iff. repeat split; [apply Z.leb_le | apply Z.leb_le | apply Z.eqb_eq]; assumption.
Qed.

Lemma kr2_wf_block_valid s bs x sx fx :
  kr2_wf s bs → (x, sx, fx) ∈ bs →
  KR2.valid_ptr s x = true
  ∧ mem_start_brk (KR2.arena s) <= x
  ∧ x + sx * 32 <= mem_brk (KR2.arena s)
  ∧ 1 <= sx
  ∧ KR2.valid_ptr s (kr2_next_of s x sx) = true.
Proof.
  intros [Hl Ht _ _] Hin.
  destruct (tiled_bounds KR2.sizeof_Header 1 _ _ _ ltac:(reflexivity) ltac:(lia) Ht)
    as (_ & Hmod & Hb).
  destruct (Hb _ _ _ Hin) as (H1 & H2 & H3 & H4).
  unfold kr2_next_of. unfold KR2.sizeof_Header in *.
  repeat split; try assumption.
  - apply kr2_valid_arena; unfold KR2.sizeof_Header; try assumption; lia.
  - destruct (Z.eqb_spec (x + sx * 32) (mem_brk (KR2.arena s))); [apply kr2_valid_base|].
    apply kr2_valid_arena; unfold KR2.sizeof_Header; [lia| |].
    + revert Hmod H4. Z.div_mod_to_equations. lia.
    + replace (x + sx * 32 - mem_start_brk (KR2.arena s))
        with (x - mem_start_brk (KR2.arena s) + sx * 32) by lia.
      rewrite Z.mod_add by lia. exact H4.
Qed.

Lemma kr2_next_of_eq s' s x sx :
  KR2.arena s' = KR2.arena s → KR2.base s' = KR2.base s →
  kr2_next_of s' x sx = kr2_next_of s x sx.
Proof. unfold kr2_next_of. intros -> ->. reflexivity. Qed.

Ltac kr2_next_of_norm :=
  repeat match goal with
  | |- context [kr2_next_of (KR2.with_heap ?h ?s0) ?x ?sx] =>
      change (kr2_next_of (KR2.with_heap h s0) x sx) with (kr2_next_of s0 x sx)
  | |- context [kr2_next_of (KR2.with_freep ?h ?s0) ?x ?sx] =>
      change (kr2_next_of (KR2.with_freep h s0) x sx) with (kr2_next_of s0 x sx)
  end.

Lemma kr2_is_free_set_prev v h : KR2.is_free (KR2.set_prev v h) = KR2.is_free h.
Proof. reflexivity. Qed.
Lemma kr2_is_free_set_next v h : KR2.is_free (KR2.set_next v h) = KR2.is_free h.
Proof. reflexivity. Qed.
Lemma kr2_is_free_set_size v h : KR2.is_free (KR2.set_size v h) = KR2.is_free h.
Proof. reflexivity. Qed.
Lemma kr2_is_free_set_isFree b h : KR2.is_free (KR2.set_isFree b h) = b.
Proof. destruct b; reflexivity. Qed.

(** Closes a goal about the fields of the cells after the reads have been
    resolved. *)
Ltac kr2_fields :=
  rewrite ?kr2_is_free_set_prev, ?kr2_is_free_set_next, ?kr2_is_free_set_size,
    ?kr2_is_free_set_isFree;
  cbn [KR2.prev KR2.next KR2.size KR2.set_prev KR2.set_next KR2.set_size KR2.set_isFree];
  try first [assumption | reflexivity | lia | congruence].

Lemma elem_of_middle {A} (l1 l2 : list A) (x : A) : x ∈ l1 ++ x :: l2.
Proof. apply elem_of_app. right. left. Qed.

Lemma elem_of_middle2 {A} (l1 l2 : list A) (x y : A) : y ∈ l1 ++ x :: y :: l2.
Proof. apply elem_of_app. right. right. left. Qed.

(** *** [mm_heap_kr2.c]

    The stores shared by the two merges: the block at [a] takes over the
    units of its upper neighbour [b] and links to the successor of [b]. *)
Lemma kr2_absorb s l1 a sa fa b sb fb l2 :
  kr2_wf s (l1 ++ (a, sa, fa) :: (b, sb, fb) :: l2) →
  ∃ s1 s',
    KR2.upd s a (KR2.set_size (wrap (sa + sb))) = Ok s1
    ∧ KR2.connect_dlinkedlist s1 a (kr2_next_of s b sb) = Ok s'
    ∧ kr2_wf s' (l1 ++ (a, sa + sb, fa) :: l2)
    ∧ KR2.freep s' = KR2.freep s.
Proof.
  intros Hwf.
  pose proof (kr2_wf_block_valid s _ a sa fa Hwf (elem_of_middle _ _ _)) as (Hva & Ha1 & Ha2 & Ha3 & _).
  pose proof (kr2_wf_block_valid s _ b sb fb Hwf (elem_of_middle2 _ _ _ _)) as (Hvb & Hb1 & Hb2 & Hb3 & Hvn).
  destruct Hwf as [Hl Ht Hb Hbase].
  pose proof (Hb a sa fa (elem_of_middle _ _ _)) as (Hca1 & Hca2 & Hca3 & Hca4).
  pose proof (Hb b sb fb (elem_of_middle2 _ _ _ _)) as (Hcb1 & Hcb2 & Hcb3 & Hcb4).
  pose proof Ht as Ht0.
  apply tiled_app in Ht as (c & Ht1 & Ht2). simpl in Ht2.
  destruct Ht2 as (<- & _ & Hab & _ & Ht2).
  pose proof (tiled_bounds KR2.sizeof_Header 1 _ _ _ ltac:(reflexivity) ltac:(lia) Ht1) as (Hle1 & _ & Hb1').
  pose proof (tiled_bounds KR2.sizeof_Header 1 _ _ _ ltac:(reflexivity) ltac:(lia) Ht2) as (Hle2 & _ & Hb2').
  unfold KR2.sizeof_Header in *.
  rewrite wrap_small by (pow2; lia).
  eexists _, _. split; [apply kr2_upd_valid; exact Hva|].
  unfold KR2.connect_dlinkedlist.
  rewrite kr2_upd_valid by exact Hva. cbn [mbind result_bind].
  rewrite kr2_upd_valid by exact Hvn. kr2_rd.
  split; [reflexivity|]. split; [|reflexivity].
  assert (Hn : kr2_next_of s b sb = KR2.base s ∧ l2 = []
               ∨ kr2_next_of s b sb = b + sb * 32 ∧ b + sb * 32 < mem_brk (KR2.arena s)).
  { unfold kr2_next_of, KR2.sizeof_Header.
    destruct (Z.eqb_spec (b + sb * 32) (mem_brk (KR2.arena s))) as [He|Hne]; [left|right; lia].
    split; [reflexivity|]. destruct l2 as [|[[y sy] fy] l2]; [reflexivity|].
    destruct (Hb2' y sy fy ltac:(left)) as (? & ? & ? & ?). lia. }
  constructor; cbn [KR2.heap KR2.arena KR2.base KR2.with_heap].
  - exact Hl.
  - apply tiled_app. exists a. split; [exact Ht1|]. simpl.
    split; [reflexivity|]. split; [lia|].
    unfold KR2.sizeof_Header. replace (a + (sa + sb) * 32) with (a + sa * 32 + sb * 32) by lia. exact Ht2.
  - intros y sy fy Hin. kr2_next_of_norm.
    apply elem_of_app in Hin as [Hin|Hin]; [|apply elem_of_cons in Hin as [Heq|Hin]].
    + destruct (Hb1' _ _ _ Hin) as (Hy1 & Hy2 & Hy3 & Hy4).
      destruct (Hb y sy fy ltac:(apply elem_of_app; left; exact Hin)) as (Hc1 & Hc2 & Hc3 & Hc4).
      assert (Hny : kr2_next_of s y sy = y + sy * 32).
      { unfold kr2_next_of, KR2.sizeof_Header. destruct (Z.eqb_spec (y + sy * 32) (mem_brk (KR2.arena s))); lia. }
      rewrite Hny in *.
      destruct Hn as [[Hn ->]|[Hn Hlt]]; rewrite Hn; repeat split; kr2_rd_cases; kr2_fields.
    + inversion Heq; subst y sy fy; clear Heq.
      assert (Hna : kr2_next_of s a (sa + sb) = kr2_next_of s b sb).
      { unfold kr2_next_of, KR2.sizeof_Header. replace (a + (sa + sb) * 32) with (b + sb * 32) by lia. reflexivity. }
      rewrite Hna.
      destruct Hn as [[Hn ->]|[Hn Hlt]]; rewrite Hn; repeat split; kr2_rd_cases; kr2_fields.
    + destruct (Hb2' _ _ _ Hin) as (Hy1 & Hy2 & Hy3 & Hy4).
      destruct (Hb y sy fy ltac:(apply elem_of_app; right; right; right; exact Hin)) as (Hc1 & Hc2 & Hc3 & Hc4).
      destruct Hn as [[Hn ->]|[Hn Hlt]]; [inversion Hin|]. rewrite Hn.
      unfold kr2_next_of, KR2.sizeof_Header in *.
      destruct (Z.eqb_spec (y + sy * 32) (mem_brk (KR2.arena s))); repeat split; kr2_rd_cases; kr2_fields.
  - destruct Hbase as (Hs1 & Hs2 & Hs3 & Hs4). kr2_next_of_norm.
    assert (Hfirst : kr2_next_of s (mem_start_brk (KR2.arena s)) 0 = mem_start_brk (KR2.arena s)).
    { unfold kr2_next_of, KR2.sizeof_Header.
      destruct (Z.eqb_spec (mem_start_brk (KR2.arena s) + 0 * 32) (mem_brk (KR2.arena s))); lia. }
    rewrite Hfirst in *.
    destruct Hn as [[Hn ->]|[Hn Hlt]]; rewrite Hn; repeat split; kr2_rd_cases; kr2_fields.
Qed.

(** [bp->s.isFree = true] on a block of the list. *)
Lemma kr2_set_free s l1 x sx fx l2 :
  kr2_wf s (l1 ++ (x, sx, fx) :: l2) →
  ∃ s', KR2.upd s x (KR2.set_isFree true) = Ok s'
        ∧ kr2_wf s' (l1 ++ (x, sx, true) :: l2)
        ∧ KR2.freep s' = KR2.freep s.
Proof.
  intros Hwf.
  pose proof (kr2_wf_block_valid s _ x sx fx Hwf (elem_of_middle _ _ _)) as (Hvx & Hx1 & Hx2 & Hx3 & _).
  destruct Hwf as [Hl Ht Hb Hbase].
  eexists. split; [apply kr2_upd_valid; exact Hvx|]. split; [|reflexivity].
  assert (Ht' : tiled KR2.sizeof_Header 1 (mem_start_brk (KR2.arena s))
                  (l1 ++ (x, sx, true) :: l2) (mem_brk (KR2.arena s))).
  { apply tiled_app in Ht as (c & Ht1 & Ht2). apply tiled_app. exists c. split; [exact Ht1|exact Ht2]. }
  constructor; cbn [KR2.heap KR2.arena KR2.base KR2.with_heap].
  - exact Hl.
  - exact Ht'.
  - intros y sy fy Hin. kr2_next_of_norm.
    apply elem_of_app in Hin as [Hin|Hin]; [|apply elem_of_cons in Hin as [Heq|Hin]].
    + destruct (Hb y sy fy ltac:(apply elem_of_app; left; exact Hin)) as (Hc1 & Hc2 & Hc3 & Hc4).
      apply tiled_app in Ht as (c & Ht1 & Ht2). simpl in Ht2. destruct Ht2 as (<- & _).
      destruct (tiled_bounds KR2.sizeof_Header 1 _ _ _ ltac:(reflexivity) ltac:(lia) Ht1) as (_ & _ & Hb1).
      destruct (Hb1 _ _ _ Hin) as (? & ? & ? & ?). unfold KR2.sizeof_Header in *.
      repeat split; kr2_rd_cases; kr2_fields.
    + inversion Heq; subst y sy fy; clear Heq.
      destruct (Hb x sx fx (elem_of_middle _ _ _)) as (Hc1 & Hc2 & Hc3 & Hc4).
      repeat split; kr2_rd_cases; kr2_fields.
    + destruct (Hb y sy fy ltac:(apply elem_of_app; right; right; exact Hin)) as (Hc1 & Hc2 & Hc3 & Hc4).
      apply tiled_app in Ht as (c & Ht1 & Ht2). simpl in Ht2. destruct Ht2 as (<- & ? & Ht2).
      destruct (tiled_bounds KR2.sizeof_Header 1 _ _ _ ltac:(reflexivity) ltac:(lia) Ht2) as (_ & _ & Hb2).
      destruct (Hb2 _ _ _ Hin) as (? & ? & ? & ?). unfold KR2.sizeof_Header in *.
      repeat split; kr2_rd_cases; kr2_fields.
  - destruct Hbase as (Hs1 & Hs2 & Hs3 & Hs4). kr2_next_of_norm.
    unfold KR2.sizeof_Header in *.
    repeat split; kr2_rd_cases; kr2_fields.
Qed.

Lemma kr2_next_of_cases s bs l1 x sx fx l2 :
  kr2_wf s bs → bs = l1 ++ (x, sx, fx) :: l2 →
  match l2 with
  | [] => kr2_next_of s x sx = KR2.base s
  | (n, sn, fn) :: _ => kr2_next_of s x sx = n ∧ n = x + sx * 32
  end.
Proof.
  intros [Hl Ht _ _] ->. apply tiled_app in Ht as (c & Ht1 & Ht2). simpl in Ht2.
  destruct Ht2 as (<- & _ & Ht2). unfold kr2_next_of, KR2.sizeof_Header in *.
  destruct l2 as [|[[n sn] fn] l2]; simpl in Ht2.
  - rewrite Ht2, Z.eqb_refl. reflexivity.
  - destruct Ht2 as (-> & Hsn & Ht2).
    destruct (tiled_bounds 32 1 _ _ _ ltac:(reflexivity) ltac:(lia) Ht2) as (? & _).
    destruct (Z.eqb_spec (x + sx * 32) (mem_brk (KR2.arena s))); [lia|]. split; reflexivity.
Qed.

Lemma kr2_prev_cases s l1 x sx fx l2 :
  kr2_wf s (l1 ++ (x, sx, fx) :: l2) →
  (l1 = [] ∧ KR2.prev (KR2.rd (KR2.heap s) x) = KR2.base s)
  ∨ (∃ l p sp fp, l1 = l ++ [(p, sp, fp)]
       ∧ KR2.prev (KR2.rd (KR2.heap s) x) = p ∧ p + sp * 32 = x).
Proof.
  intros Hwf. destruct l1 as [|b0 l0] using rev_ind; [left|right].
  - split; [reflexivity|]. destruct Hwf as [Hl Ht Hb Hbase]. simpl in Ht.
    destruct Ht as (-> & Hs & Ht).
    destruct (tiled_bounds KR2.sizeof_Header 1 _ _ _ ltac:(reflexivity) ltac:(lia) Ht) as (? & _).
    destruct Hbase as (_ & _ & _ & Hp). unfold kr2_next_of, KR2.sizeof_Header in *.
    destruct (Z.eqb_spec (mem_start_brk (KR2.arena s) + 0 * 32) (mem_brk (KR2.arena s))); [lia|].
    rewrite Z.add_0_r in Hp. exact Hp.
  - clear IHl0. destruct b0 as [[p sp] fp]. exists l0, p, sp, fp. split; [reflexivity|].
    rewrite <- app_assoc in Hwf. simpl in Hwf.
    pose proof (kr2_next_of_cases s _ l0 p sp fp ((x, sx, fx) :: l2) Hwf eq_refl) as [Hn Hx].
    destruct Hwf as [Hl Ht Hb Hbase].
    destruct (Hb p sp fp (elem_of_middle _ _ _)) as (_ & _ & _ & Hp).
    rewrite Hn in Hp. split; [exact Hp | lia].
Qed.

(** The second part of [mm_free] merges the freed block with a free upper
    neighbour, and with nothing else. *)
Lemma kr2_merge_next_spec s l1 x sx l2 :
  kr2_wf s (l1 ++ (x, sx, true) :: l2) →
  ∃ s', KR2.merge_next s x = Ok s'
        ∧ kr2_wf s' (l1 ++ merge_upper x sx l2)
        ∧ KR2.freep s' = KR2.freep s.
Proof.
  intros Hwf.
  pose proof (kr2_wf_block_valid s _ x sx true Hwf (elem_of_middle _ _ _)) as (Hvx & Hx1 & Hx2 & Hx3 & Hvn).
  pose proof (kr2_next_of_cases s _ l1 x sx true l2 Hwf eq_refl) as Hn.
  pose proof Hwf as [Hl Ht Hb Hbase].
  destruct (Hb x sx true (elem_of_middle _ _ _)) as (Hc1 & Hc2 & Hc3 & Hc4).
  unfold KR2.merge_next. rewrite kr2_load_valid by exact Hvx. cbn [mbind result_bind].
  rewrite Hc3, Hc1. rewrite kr2_load_valid by exact Hvn. cbn [mbind result_bind].
  destruct l2 as [|[[n sn] [|]] l2]; cbn [merge_upper].
  - rewrite Hn. destruct Hbase as (_ & -> & _). cbn [andb].
    exists s. auto.
  - destruct Hn as [Hn Hnx]. rewrite Hn. rewrite Hn in Hvn.
    destruct (Hb n sn true (elem_of_middle2 _ _ _ _)) as (Hn1 & Hn2 & Hn3 & Hn4).
    rewrite Hn2, Hn1. unfold KR2.sizeof_Header.
    destruct (Z.eqb_spec (x + sx * 32) n) as [_|]; [|lia]. cbn [andb].
    destruct (kr2_absorb s l1 x sx true n sn true l2 Hwf) as (s1 & s' & E1 & E2 & Hwf' & Hfp).
    rewrite E1. cbn [mbind result_bind].
    pose proof E1 as E1'. apply kr2_upd_Ok in E1' as [_ ->].
    rewrite kr2_load_valid by exact Hvx. cbn [mbind result_bind].
    assert (Hxn : x ≠ n) by lia.
    kr2_rd. rewrite Hc3, Hn. rewrite kr2_load_valid by exact Hvn. cbn [mbind result_bind].
    kr2_rd. rewrite Hn3.
    exists s'. auto.
  - destruct Hn as [Hn Hnx]. rewrite Hn.
    destruct (Hb n sn false (elem_of_middle2 _ _ _ _)) as (Hn1 & Hn2 & Hn3 & Hn4).
    rewrite Hn2. cbn [andb]. exists s. auto.
Qed.

Lemma merge_lower_nil rest : merge_lower [] rest = rest.
Proof. destruct rest; reflexivity. Qed.

Lemma merge_lower_snoc_busy l p sp rest :
  merge_lower (l ++ [(p, sp, false)]) rest = l ++ (p, sp, false) :: rest.
Proof.
  induction l as [|b l IH]; simpl.
  - destruct rest as [|[[? ?] ?] ?]; reflexivity.
  - rewrite <- IH. destruct b as [[? ?] [|]]; destruct (l ++ [(p, sp, false)]) eqn:E;
      try reflexivity; destruct l; discriminate.
Qed.

Lemma merge_lower_snoc_free l p sp x sx fx r :
  merge_lower (l ++ [(p, sp, true)]) ((x, sx, fx) :: r) = l ++ (p, sp + sx, true) :: r.
Proof.
  induction l as [|b l IH]; simpl; [reflexivity|].
  rewrite <- IH. destruct b as [[? ?] [|]]; destruct (l ++ [(p, sp, true)]) eqn:E;
    try reflexivity; destruct l; discriminate.
Qed.

(** The third part of [mm_free] merges the freed block into a free lower
    neighbour, and into nothing else. *)
Lemma kr2_merge_prev_spec s l1 x sx r :
  kr2_wf s (l1 ++ (x, sx, true) :: r) →
  ∃ s' bp sb,
    KR2.merge_prev s x = Ok (s', bp)
    ∧ kr2_wf s' (merge_lower l1 ((x, sx, true) :: r))
    ∧ (bp, sb, true) ∈ merge_lower l1 ((x, sx, true) :: r)
    ∧ KR2.freep s' = KR2.freep s.
Proof.
  intros Hwf.
  pose proof (kr2_wf_block_valid s _ x sx true Hwf (elem_of_middle _ _ _)) as (Hvx & Hx1 & Hx2 & Hx3 & Hvn).
  pose proof Hwf as [Hl Ht Hb Hbase].
  destruct (Hb x sx true (elem_of_middle _ _ _)) as (Hc1 & Hc2 & Hc3 & Hc4).
  unfold KR2.merge_prev. rewrite kr2_load_valid by exact Hvx. cbn [mbind result_bind].
  destruct (kr2_prev_cases s l1 x sx true r Hwf) as [[-> Hp]|(l & p & sp & fp & -> & Hp & Hpx)];
    rewrite Hp.
  - rewrite kr2_load_valid by apply kr2_valid_base. cbn [mbind result_bind].
    destruct Hbase as (_ & -> & _). cbn [andb]. rewrite merge_lower_nil.
    exists s, x, sx. split; [reflexivity|]. split; [exact Hwf|]. split; [left|reflexivity].
  - rewrite <- app_assoc in Hwf, Hb. simpl in Hwf, Hb.
    pose proof (kr2_wf_block_valid s _ p sp fp Hwf (elem_of_middle _ _ _)) as (Hvp & Hp1 & Hp2 & Hp3 & _).
    destruct (Hb p sp fp (elem_of_middle _ _ _)) as (Hq1 & Hq2 & Hq3 & Hq4).
    rewrite kr2_load_valid by exact Hvp. cbn [mbind result_bind]. rewrite Hq2, Hq1.
    destruct fp.
    + unfold KR2.sizeof_Header at 1.
      destruct (Z.eqb_spec (p + sp * 32) x) as [_|]; [|lia]. cbn [andb].
      rewrite Hc1.
      destruct (kr2_absorb s l p sp true x sx true r Hwf) as (s1 & s' & E1 & E2 & Hwf' & Hfp).
      rewrite E1. cbn [mbind result_bind].
      pose proof E1 as E1'. apply kr2_upd_Ok in E1' as [_ ->].
      rewrite kr2_load_valid by exact Hvx. cbn [mbind result_bind].
      assert (Hxp : p ≠ x) by lia. kr2_rd. rewrite Hp, Hc3. rewrite E2. cbn [mbind result_bind].
      assert (Hvx' : KR2.valid_ptr s' x = true).
      { unfold KR2.connect_dlinkedlist in E2. kr2_inv. exact Hvx. }
      rewrite kr2_load_valid by exact Hvx'. cbn [mbind result_bind].
      rewrite merge_lower_snoc_free.
      assert (Hpx' : KR2.prev (KR2.rd (KR2.heap s') x) = p).
      { unfold KR2.connect_dlinkedlist in E2. kr2_inv. cbn [KR2.heap KR2.with_heap].
        pose proof (kr2_next_of_cases s ((l ++ [(p, sp, true)]) ++ (x, sx, true) :: r)
                      (l ++ [(p, sp, true)]) x sx true r
                      ltac:(rewrite <- app_assoc; exact Hwf) eq_refl) as Hn.
        destruct r as [|[[n sn] fn] r]; [|destruct Hn as [Hn Hnx]]; rewrite Hn;
          destruct Hl as (? & ? & ?); unfold KR2.sizeof_Header in *; kr2_rd; exact Hp. }
      rewrite Hpx'. exists s', p, (sp + sx). split; [reflexivity|]. split; [exact Hwf'|].
      split; [apply elem_of_middle | exact Hfp].
    + cbn [andb]. rewrite merge_lower_snoc_busy.
      exists s, x, sx. split; [reflexivity|]. split; [exact Hwf|].
      split; [apply elem_of_middle2 | reflexivity].
Qed.

Lemma kr2_prev_node s bs x sx fx :
  kr2_wf s bs → (x, sx, fx) ∈ bs →
  KR2.valid_ptr s x = true ∧ kr2_node s bs (KR2.prev (KR2.rd (KR2.heap s) x)).
Proof.
  intros Hwf Hin.
  pose proof (kr2_wf_block_valid s _ x sx fx Hwf Hin) as (Hvx & _).
  split; [exact Hvx|].
  apply list_elem_of_split in Hin as (l1 & l2 & ->).
  destruct (kr2_prev_cases s l1 x sx fx l2 Hwf) as [[-> Hp]|(l & p & sp & fp & -> & Hp & Hpx)];
    rewrite Hp; [left; reflexivity|].
  right. exists sp, fp. rewrite <- app_assoc. apply elem_of_middle.
Qed.

Lemma kr2_wf_with_freep s bs p : kr2_wf s bs → kr2_wf (KR2.with_freep p s) bs.
Proof. intros [H1 H2 H3 H4]. constructor; assumption. Qed.

(** [mm_free] on a block in use of a well-formed heap: it returns, and
    the heap is well formed for the list in which the block is free and
    merged with its free neighbours. *)
Lemma kr2_free_wf fuel s l1 x sx l2 :
  kr2_wf s (l1 ++ (x, sx, false) :: l2) →
  ∃ s', KR2.mm_free fuel s (KR2.mm_payload x) = Ok s'
        ∧ kr2_wf s' (free_block l1 x sx l2)
        ∧ kr2_node s' (free_block l1 x sx l2) (KR2.freep s').
Proof.
  intros Hwf.
  pose proof (kr2_wf_block_valid s _ x sx false Hwf (elem_of_middle _ _ _)) as (Hvx & Hx1 & Hx2 & Hx3 & Hvn).
  pose proof Hwf as [Hl Ht Hb Hbase].
  destruct (Hb x sx false (elem_of_middle _ _ _)) as (Hc1 & Hc2 & Hc3 & Hc4).
  destruct Hl as (Hl1 & Hl2 & Hl3 & Hl4).
  unfold KR2.mm_free, KR2.mm_payload, KR2.mm_block, KR2.sizeof_Header in *.
  destruct (Z.eqb_spec (x + 1 * 32) NULL) as [He|_]; [unfold NULL in He; lia|].
  replace (x + 1 * 32 - 1 * 32) with x by lia.
  rewrite kr2_load_valid by exact Hvx. cbn [mbind result_bind]. rewrite Hc1.
  unfold KR2.mm_bytes, KR2.sizeof_Header, mem_heapsize.
  rewrite wrap_small by (pow2; lia).
  destruct (Z.ltb_spec 0 sx); [|lia].
  destruct (Z.leb_spec (sx * 32) (mem_brk (KR2.arena s) - mem_start_brk (KR2.arena s))); [|lia].
  cbn [andb negb].
  unfold KR2.link_new_block. rewrite kr2_load_valid by exact Hvx. cbn [mbind result_bind].
  rewrite Hc3.
  assert (Hnz : kr2_next_of s x sx ≠ NULL).
  { unfold kr2_next_of, NULL, KR2.sizeof_Header.
    destruct (Z.eqb_spec (x + sx * 32) (mem_brk (KR2.arena s))); lia. }
  destruct (Z.eqb_spec (kr2_next_of s x sx) NULL); [contradiction|]. cbn [mbind result_bind].
  destruct (kr2_set_free s l1 x sx false l2 Hwf) as (s2 & E2 & Hwf2 & Hfp2).
  rewrite E2. cbn [mbind result_bind].
  destruct (kr2_merge_next_spec s2 l1 x sx l2 Hwf2) as (s3 & E3 & Hwf3 & Hfp3).
  rewrite E3. cbn [mbind result_bind].
  assert (Hmu : ∃ sx' r, merge_upper x sx l2 = (x, sx', true) :: r).
  { destruct l2 as [|[[n' sn'] [|]] l2]; simpl; eauto. }
  destruct Hmu as (sx' & r & Hmu). unfold free_block. rewrite Hmu in *.
  destruct (kr2_merge_prev_spec s3 l1 x sx' r Hwf3) as (s4 & bp & sb & E4 & Hwf4 & Hin4 & Hfp4).
  rewrite E4. cbn [mbind result_bind].
  destruct (kr2_prev_node s4 _ bp sb true Hwf4 Hin4) as [Hvb Hnode].
  rewrite kr2_load_valid by exact Hvb. cbn [mbind result_bind].
  eexists. split; [reflexivity|]. split; [apply kr2_wf_with_freep; exact Hwf4|].
  exact Hnode.
Qed.

(** *** Block lists without two free blocks in a row *)

Lemma adjacent_free_cons b bs :
  adjacent_free (b :: bs) = (snd b && head_free bs) || adjacent_free bs.
Proof. destruct b as [[x sx] fx]. destruct bs as [|[[y sy] fy] bs]; simpl; [rewrite andb_false_r|]; reflexivity. Qed.

Lemma head_free_merge_lower l1 rest :
  rest ≠ [] →
  head_free (merge_lower l1 rest) = head_free (l1 ++ rest).
Proof.
  intros Hr. destruct l1 as [|[[p sp] fp] l1]; [rewrite merge_lower_nil; reflexivity|].
  destruct rest as [|[[x sx] fx] r]; [congruence|].
  destruct l1 as [|b l1]; simpl; destruct fp; reflexivity.
Qed.

Lemma merge_upper_shape x sx l2 :
  adjacent_free ((x, sx, false) :: l2) = false →
  ∃ sx' r, merge_upper x sx l2 = (x, sx', true) :: r
           ∧ head_free r = false ∧ adjacent_free r = false.
Proof.
  rewrite adjacent_free_cons. simpl. intros H.
  destruct l2 as [|[[n sn] [|]] l2]; simpl.
  - exists sx, []. auto.
  - rewrite adjacent_free_cons in H. simpl in H. apply orb_false_iff in H as [H1 H2].
    exists (sx + sn), l2. auto.
  - exists sx, ((n, sn, false) :: l2). rewrite adjacent_free_cons in *. simpl in *. auto.
Qed.

Lemma adjacent_free_merge_lower l1 x sx r :
  head_free r = false → adjacent_free r = false →
  ∀ y sy, adjacent_free (l1 ++ (y, sy, false) :: []) = false →
  adjacent_free (merge_lower l1 ((x, sx, true) :: r)) = false.
Proof.
  intros Hh Ha. induction l1 as [|[[p sp] fp] l1 IH]; intros y sy H.
  - rewrite merge_lower_nil, adjacent_free_cons. simpl. rewrite Hh, Ha. reflexivity.
  - simpl app in H. rewrite adjacent_free_cons in H. apply orb_false_iff in H as [H1 H2].
    simpl in H1. specialize (IH _ _ H2).
    destruct l1 as [|b l1].
    + destruct fp; simpl merge_lower.
      * rewrite adjacent_free_cons. simpl. rewrite Hh, Ha. reflexivity.
      * rewrite !adjacent_free_cons. simpl. rewrite Hh, Ha. reflexivity.
    + assert (merge_lower ((p, sp, fp) :: b :: l1) ((x, sx, true) :: r)
              = (p, sp, fp) :: merge_lower (b :: l1) ((x, sx, true) :: r)) as ->
        by (destruct fp; reflexivity).
      rewrite adjacent_free_cons, IH. rewrite head_free_merge_lower by discriminate.
      simpl in *. rewrite orb_false_r. destruct b as [[? ?] ?]. exact H1.
Qed.

Lemma adjacent_free_app_inv l1 b l2 :
  adjacent_free (l1 ++ b :: l2) = false →
  adjacent_free (l1 ++ [b]) = false ∧ adjacent_free (b :: l2) = false.
Proof.
  induction l1 as [|c l1 IH]; simpl app; intros H.
  - split; [destruct b as [[? ?] ?]; reflexivity | exact H].
  - rewrite (adjacent_free_cons c) in H. apply orb_false_iff in H as [H1 H2].
    destruct (IH H2) as [H3 H4]. split; [|exact H4].
    rewrite (adjacent_free_cons c), H3, orb_false_r.
    destruct l1; simpl in *; exact H1.
Qed.

(** Freeing a block does not leave two free blocks in a row. *)
Lemma adjacent_free_free_block l1 x sx l2 :
  adjacent_free (l1 ++ (x, sx, false) :: l2) = false →
  adjacent_free (free_block l1 x sx l2) = false.
Proof.
  intros H. apply adjacent_free_app_inv in H as [H1 H2].
  destruct (merge_upper_shape x sx l2 H2) as (sx' & r & Hmu & Hh & Ha).
  unfold free_block. rewrite Hmu. eapply adjacent_free_merge_lower; eassumption.
Qed.

(** In a tiling without two free blocks in a row no free block ends where
    a free block starts. *)
Lemma tiled_adjacent_distinct hsz m a bs e :
  0 < hsz → 1 <= m →
  tiled hsz m a bs e → adjacent_free bs = false →
  ∀ b sb n sn, (b, sb, true) ∈ bs → (n, sn, true) ∈ bs → b + sb * hsz ≠ n.
Proof.
  intros Hh Hm. revert a. induction bs as [|[[y sy] fy] bs IH]; intros a Ht Ha b sb n sn Hb Hn.
  - inversion Hb.
  - simpl in Ht. destruct Ht as (-> & Hsy & Ht).
    rewrite adjacent_free_cons in Ha. apply orb_false_iff in Ha as [Ha1 Ha2]. simpl in Ha1.
    destruct (tiled_bounds hsz m _ _ _ Hh ltac:(lia) Ht) as (Hle & _ & Hbd).
    apply elem_of_cons in Hb as [Hb|Hb], Hn as [Hn|Hn].
    + inversion Hb; inversion Hn; subst. nia.
    + inversion Hb; subst b sb fy; clear Hb.
      destruct bs as [|[[z sz] fz] bs]; [inversion Hn|].
      simpl in Ht. destruct Ht as (-> & Hsz & Ht). simpl in Ha1.
      apply elem_of_cons in Hn as [Hn|Hn].
      * inversion Hn; subst. discriminate.
      * destruct (tiled_bounds hsz m _ _ _ Hh ltac:(lia) Ht) as (_ & _ & Hbd').
        destruct (Hbd' _ _ _ Hn) as (? & ? & ? & ?). nia.
    + inversion Hn; subst n sn fy; clear Hn.
      destruct (Hbd _ _ _ Hb) as (? & ? & ? & ?). nia.
    + eapply IH; eassumption.
Qed.

(** *** [mm_heap_dll.c] *)

Lemma tiled_disjoint hsz m a bs e :
  0 < hsz → 1 <= m →
  tiled hsz m a bs e →
  ∀ x sx fx y sy fy, (x, sx, fx) ∈ bs → (y, sy, fy) ∈ bs →
    (x = y ∧ sx = sy ∧ fx = fy) ∨ x + sx * hsz <= y ∨ y + sy * hsz <= x.
Proof.
  intros Hh Hm. revert a. induction bs as [|[[z sz] fz] bs IH]; intros a Ht x sx fx y sy fy Hx Hy.
  - inversion Hx.
  - simpl in Ht. destruct Ht as (-> & Hsz & Ht).
    destruct (tiled_bounds hsz m _ _ _ Hh ltac:(lia) Ht) as (Hle & _ & Hbd).
    apply elem_of_cons in Hx as [Hx|Hx], Hy as [Hy|Hy].
    + inversion Hx; inversion Hy; subst. left. auto.
    + inversion Hx; subst. destruct (Hbd _ _ _ Hy) as (? & ? & ? & ?). right. left. lia.
    + inversion Hy; subst. destruct (Hbd _ _ _ Hx) as (? & ? & ? & ?). right. right. lia.
    + eapply IH; eassumption.
Qed.

Lemma dll_valid_base s : DLL.valid_ptr s (DLL.base s) = true.
Proof. unfold DLL.valid_ptr. rewrite Z.eqb_refl. reflexivity. Qed.

Lemma dll_valid_base1 s : DLL.valid_ptr s (DLL.base s + 1 * DLL.sizeof_Header) = true.
Proof. unfold DLL.valid_ptr. rewrite Z.eqb_refl, orb_true_r. reflexivity. Qed.

Lemma dll_valid_arena s p :
  mem_start_brk (DLL.arena s) <= p →
  p + DLL.sizeof_Header <= mem_max_addr (DLL.arena s) →
  (p - mem_start_brk (DLL.arena s)) mod DLL.sizeof_Header = 0 →
  DLL.valid_ptr s p = true.
Proof.
  intros H1 H2 H3. unfold DLL.valid_ptr.
  apply orb_true_intro. right.
  rewrite !andb_true_iff. repeat split; [apply Z.leb_le | apply Z.leb_le | apply Z.eqb_eq]; assumption.
Qed.

Lemma dll_load_valid s p :
  DLL.valid_ptr s p = true → DLL.load s p = Ok (DLL.rd (DLL.heap s) p).
Proof. unfold DLL.load. intros ->. reflexivity. Qed.

Lemma dll_upd_valid s p f :
  DLL.valid_ptr s p = true →
  DLL.upd s p f = Ok (DLL.with_heap (<[p := f (DLL.rd (DLL.heap s) p)]> (DLL.heap s)) s).
Proof. unfold DLL.upd. intros ->. reflexivity. Qed.

(** What is known about a block of a well-formed heap. *)
Lemma dll_wf_block ex s bs x sx fx :
  dll_wf ex s bs → (x, sx, fx) ∈ bs →
  DLL.valid_ptr s x = true ∧ DLL.valid_ptr s (dll_tail x sx) = true
  ∧ mem_start_brk (DLL.arena s) <= x
  ∧ x + sx * 16 <= mem_brk (DLL.arena s)
  ∧ 2 <= sx
  ∧ DLL.size (DLL.rd (DLL.heap s) x) = sx.
Proof.
  intros [Hl Ht Hs _ _ _] Hin.
  destruct (tiled_bounds DLL.sizeof_Header 2 _ _ _ ltac:(reflexivity) ltac:(lia) Ht)
    as (_ & Hmod & Hb).
  destruct (Hb _ _ _ Hin) as (H1 & H2 & H3 & H4).
  unfold dll_tail, DLL.sizeof_Header in *.
  repeat split; try assumption; try (eapply Hs; eassumption).
  - apply dll_valid_arena; unfold DLL.sizeof_Header; try assumption; lia.
  - apply dll_valid_arena; unfold DLL.sizeof_Header; try lia.
    replace (x + sx * 16 - 1 * 16 - mem_start_brk (DLL.arena s))
      with (x - mem_start_brk (DLL.arena s) + (sx - 1) * 16) by lia.
    rewrite Z.mod_add by lia. exact H4.
Qed.

Lemma dll_wf_node ex s bs n sn :
  dll_wf ex s bs → dll_node s bs n sn →
  DLL.valid_ptr s n = true ∧ DLL.valid_ptr s (dll_tail n sn) = true
  ∧ 0 < n ∧ 2 <= sn
  ∧ DLL.size (DLL.rd (DLL.heap s) n) = sn
  ∧ ((n = DLL.base s ∧ sn = 2)
     ∨ (mem_start_brk (DLL.arena s) <= n ∧ n + sn * 16 <= mem_brk (DLL.arena s))).
Proof.
  intros Hwf [[-> ->]|Hin].
  - destruct Hwf as [Hl _ _ _ Hb _]. unfold dll_tail.
    replace (DLL.base s + 2 * DLL.sizeof_Header - 1 * DLL.sizeof_Header)
      with (DLL.base s + 1 * DLL.sizeof_Header) by lia.
    repeat split; try lia; auto using dll_valid_base, dll_valid_base1.
  - destruct (dll_wf_block _ _ _ _ _ _ Hwf Hin) as (H1 & H2 & H3 & H4 & H5 & H6).
    destruct Hwf as [Hl _ _ _ _ _]. unfold DLL.sizeof_Header in *.
    repeat split; try assumption; try lia.
Qed.

(** A member of the free list and a block of the arena are the same or do
    not overlap. *)
Lemma dll_node_block_disjoint ex s bs n sn x sx fx :
  dll_wf ex s bs → dll_node s bs n sn → (x, sx, fx) ∈ bs →
  (n = x ∧ sn = sx ∧ fx = true) ∨ n + sn * 16 <= x ∨ x + sx * 16 <= n.
Proof.
  intros Hwf Hn Hx.
  destruct (dll_wf_block _ _ _ _ _ _ Hwf Hx) as (_ & _ & H3 & H4 & H5 & _).
  destruct Hwf as [Hl Ht _ _ _ _]. unfold DLL.sizeof_Header in *.
  destruct Hn as [[-> ->]|Hin]; [right; left; lia|].
  destruct (tiled_disjoint 16 2 _ _ _ ltac:(lia) ltac:(lia) Ht _ _ _ _ _ _ Hin Hx)
    as [(-> & -> & <-)|H]; [left; auto | right; exact H].
Qed.

Lemma dll_node_chunk s bs a sa : dll_node s bs a sa → dll_chunk s bs a sa.
Proof. intros [H|H]; [left; exact H | right; eauto]. Qed.

Lemma dll_block_chunk s bs a sa fa : (a, sa, fa) ∈ bs → dll_chunk s bs a sa.
Proof. intros H. right. eauto. Qed.

Lemma dll_chunk_range ex s bs a sa :
  dll_wf ex s bs → dll_chunk s bs a sa →
  2 <= sa ∧ 0 < a
  ∧ ((a = DLL.base s ∧ sa = 2)
     ∨ (mem_start_brk (DLL.arena s) <= a ∧ a + sa * 16 <= mem_brk (DLL.arena s))).
Proof.
  intros Hwf [[-> ->]|[fa Hin]].
  - destruct Hwf as [Hl _ _ _ _ _]. split; [lia|]. split; [lia|]. left. auto.
  - destruct (dll_wf_block _ _ _ _ _ _ Hwf Hin) as (_ & _ & H3 & H4 & H5 & _).
    destruct Hwf as [Hl _ _ _ _ _]. unfold DLL.sizeof_Header in *.
    split; [lia|]. split; [lia|]. right. lia.
Qed.

Lemma dll_chunk_disjoint ex s bs a sa b sb :
  dll_wf ex s bs → dll_chunk s bs a sa → dll_chunk s bs b sb →
  (a = b ∧ sa = sb) ∨ a + sa * 16 <= b ∨ b + sb * 16 <= a.
Proof.
  intros Hwf Ha Hb.
  destruct (dll_chunk_range _ _ _ _ _ Hwf Ha) as (Ha1 & Ha2 & Ha3).
  destruct (dll_chunk_range _ _ _ _ _ Hwf Hb) as (Hb1 & Hb2 & Hb3).
  pose proof Hwf as [Hl Ht _ _ _ _]. unfold DLL.sizeof_Header in *.
  destruct Ha as [[-> ->]|[fa Ha]], Hb as [[-> ->]|[fb Hb]].
  - left. auto.
  - destruct (dll_wf_block _ _ _ _ _ _ Hwf Hb) as (_ & _ & H3 & _). right. left. lia.
  - destruct (dll_wf_block _ _ _ _ _ _ Hwf Ha) as (_ & _ & H3 & _). right. right. lia.
  - destruct (tiled_disjoint 16 2 _ _ _ ltac:(lia) ltac:(lia) Ht _ _ _ _ _ _ Ha Hb)
      as [(-> & -> & _)|H]; [left; auto | right; exact H].
Qed.

(** The header of a chunk is not the last unit of a chunk. *)
Lemma dll_head_ne_tail ex s bs a sa b sb :
  dll_wf ex s bs → dll_chunk s bs a sa → dll_chunk s bs b sb →
  a ≠ b + sb * 16 - 1 * 16.
Proof.
  intros Hwf Ha Hb.
  destruct (dll_chunk_range _ _ _ _ _ Hwf Ha) as (Ha1 & _).
  destruct (dll_chunk_range _ _ _ _ _ Hwf Hb) as (Hb1 & _).
  destruct (dll_chunk_disjoint _ _ _ _ _ _ _ Hwf Ha Hb) as [[-> ->]|[H|H]]; lia.
Qed.

(** Two chunks with different headers have different last units. *)
Lemma dll_tail_ne_tail ex s bs a sa b sb :
  dll_wf ex s bs → dll_chunk s bs a sa → dll_chunk s bs b sb →
  a ≠ b → a + sa * 16 - 1 * 16 ≠ b + sb * 16 - 1 * 16.
Proof.
  intros Hwf Ha Hb Hne.
  destruct (dll_chunk_range _ _ _ _ _ Hwf Ha) as (Ha1 & _).
  destruct (dll_chunk_range _ _ _ _ _ Hwf Hb) as (Hb1 & _).
  destruct (dll_chunk_disjoint _ _ _ _ _ _ _ Hwf Ha Hb) as [[-> ->]|[H|H]]; lia.
Qed.

Lemma dll_chunk_size ex s bs a sa sa' :
  dll_wf ex s bs → dll_chunk s bs a sa → dll_chunk s bs a sa' → sa = sa'.
Proof.
  intros Hwf Ha Hb.
  destruct (dll_chunk_range _ _ _ _ _ Hwf Ha) as (Ha1 & _).
  destruct (dll_chunk_range _ _ _ _ _ Hwf Hb) as (Hb1 & _).
  destruct (dll_chunk_disjoint _ _ _ _ _ _ _ Hwf Ha Hb) as [[_ ->]|[H|H]]; lia.
Qed.

(** A free-list member is not a block in use. *)
Lemma dll_node_not_busy ex s bs a sa sb :
  dll_wf ex s bs → dll_node s bs a sa → (a, sb, false) ∈ bs → False.
Proof.
  intros Hwf Hn Hb.
  destruct (dll_node_block_disjoint _ _ _ _ _ _ _ _ Hwf Hn Hb) as [(_ & _ & ?)|H]; [discriminate|].
  destruct (dll_wf_node _ _ _ _ _ Hwf Hn) as (_ & _ & _ & ? & _).
  destruct (dll_wf_block _ _ _ _ _ _ Hwf Hb) as (_ & _ & _ & _ & ? & _). lia.
Qed.

(** Reads through the stores in the goal, comparing addresses with the
    hypotheses only. *)
Ltac dll_rd_hyp :=
  repeat (cbn [DLL.ptr DLL.size DLL.set_ptr DLL.set_size DLL.heap DLL.freep DLL.errno
               DLL.arena DLL.base DLL.with_heap DLL.with_freep DLL.with_errno DLL.with_arena];
          try match goal with
          | |- context [DLL.rd (<[?a := ?c]> ?h) ?x] =>
              first [ rewrite (dll_rd_insert_eq h a x c) by reflexivity
                    | rewrite (dll_rd_insert_ne h a x c)
                        by (first [assumption | apply not_eq_sym; assumption]) ]
          end).

Ltac dll_node_norm :=
  repeat match goal with
  | |- context [dll_node (DLL.with_heap ?h ?s0) ?bs ?x ?sx] =>
      change (dll_node (DLL.with_heap h s0) bs x sx) with (dll_node s0 bs x sx)
  | |- context [dll_node (DLL.with_freep ?h ?s0) ?bs ?x ?sx] =>
      change (dll_node (DLL.with_freep h s0) bs x sx) with (dll_node s0 bs x sx)
  end.

Lemma dll_node_flip s l1 x sx l2 n sn :
  dll_node s (l1 ++ (x, sx, true) :: l2) n sn ↔
  dll_node s (l1 ++ (x, sx, false) :: l2) n sn ∨ (n = x ∧ sn = sx).
Proof.
  unfold dll_node. rewrite !elem_of_app, !elem_of_cons. split.
  - intros [H|[H|[H|H]]]; auto. inversion H; auto.
  - intros [[H|[H|[H|H]]]|[-> ->]]; auto. inversion H.
Qed.

Lemma dll_node_ne_busy ex s bs a sa x sx :
  dll_wf ex s bs → dll_node s bs a sa → (x, sx, false) ∈ bs → a ≠ x.
Proof. intros Hwf Ha Hx ->. eapply dll_node_not_busy; eassumption. Qed.

(** Adds what the layout says about the headers and last units of the
    chunks named in the context. *)
Ltac dll_facts Hwf :=
  repeat match goal with
  | HA : dll_chunk _ _ ?a ?sa |- _ =>
      lazymatch goal with
      | _ : a ≠ a + sa * 16 - 1 * 16 |- _ => fail
      | _ => pose proof (dll_head_ne_tail _ _ _ _ _ _ _ Hwf HA HA)
      end
  end;
  repeat match goal with
  | HA : dll_chunk _ _ ?a ?sa, HB : dll_chunk _ _ ?b ?sb |- _ =>
      lazymatch goal with
      | _ : a ≠ b + sb * 16 - 1 * 16 |- _ => fail
      | _ => pose proof (dll_head_ne_tail _ _ _ _ _ _ _ Hwf HA HB)
      end
  end;
  repeat match goal with
  | HA : dll_chunk _ _ ?a ?sa, HB : dll_chunk _ _ ?b ?sb, N : ?a ≠ ?b |- _ =>
      lazymatch goal with
      | _ : a + sa * 16 - 1 * 16 ≠ b + sb * 16 - 1 * 16 |- _ => fail
      | _ => pose proof (dll_tail_ne_tail _ _ _ _ _ _ _ Hwf HA HB N)
      end
  end.

Ltac dll_rd_split :=
  repeat (dll_rd_hyp;
          try match goal with
          | |- context [DLL.rd (<[?a := ?c]> ?h) ?x] =>
              destruct (decide (a = x));
              [ rewrite (dll_rd_insert_eq h a x c) by assumption
              | rewrite (dll_rd_insert_ne h a x c) by assumption ]
          end).

(** The two calls of [link_header] at the head of [mm_free] put the block
    [x] on the free list, after the member [p]. *)
Lemma dll_insert s l1 x sx l2 p sp :
  dll_wf x s (l1 ++ (x, sx, false) :: l2) →
  dll_node s (l1 ++ (x, sx, false) :: l2) p sp →
  ∃ s1 s2,
    DLL.link_header s x (DLL.ptr (DLL.rd (DLL.heap s) p)) = Ok s1
    ∧ DLL.link_header s1 p x = Ok s2
    ∧ dll_wf 0 s2 (l1 ++ (x, sx, true) :: l2)
    ∧ DLL.freep s2 = DLL.freep s ∧ DLL.arena s2 = DLL.arena s
    ∧ DLL.base s2 = DLL.base s.
Proof.
  intros Hwf Hp.
  set (bs := l1 ++ (x, sx, false) :: l2) in *.
  assert (Hx : (x, sx, false) ∈ bs) by apply elem_of_middle.
  destruct (dll_wf_block _ _ _ _ _ _ Hwf Hx) as (Hvx & Hvtx & _ & _ & _ & Hx4).
  destruct (dll_wf_node _ _ _ _ _ Hwf Hp) as (Hvp & Hvtp & _ & _ & Hp3 & _).
  pose proof (dll_wf_links _ _ _ Hwf p sp Hp) as [(X & sX & HX & HpX & HXp) _].
  destruct (dll_wf_node _ _ _ _ _ Hwf HX) as (HvX & HvtX & _ & _ & HX3 & _).
  pose proof (dll_block_chunk s _ _ _ _ Hx) as Cx.
  pose proof (dll_node_chunk _ _ _ _ Hp) as Cp.
  pose proof (dll_node_chunk _ _ _ _ HX) as CX.
  pose proof (dll_node_ne_busy _ _ _ _ _ _ _ Hwf Hp Hx) as Npx.
  pose proof (dll_node_ne_busy _ _ _ _ _ _ _ Hwf HX Hx) as NXx.
  rewrite HpX.
  unfold DLL.link_header, DLL.mm_tail, dll_tail, DLL.sizeof_Header in *.
  dll_facts Hwf.
  eexists _, _.
  rewrite (dll_upd_valid s x) by exact Hvx. cbn [mbind result_bind].
  rewrite dll_load_valid by exact HvX. cbn [mbind result_bind]. dll_rd_hyp. rewrite HX3.
  rewrite dll_upd_valid by exact HvtX.
  split; [reflexivity|].
  rewrite dll_upd_valid by exact Hvp. cbn [mbind result_bind].
  rewrite dll_load_valid by exact Hvx. cbn [mbind result_bind]. dll_rd_hyp. rewrite Hx4.
  rewrite dll_upd_valid by exact Hvtx. dll_rd_hyp.
  split; [reflexivity|]. split; [|split; [reflexivity|split; reflexivity]].
  pose proof Hwf as [Hl Ht Hs Hbusy Hbase Hlinks].
  assert (Hflip : ∀ y sy fy, (y, sy, fy) ∈ l1 ++ (x, sx, true) :: l2 →
            (y, sy, fy) ∈ bs ∨ (y = x ∧ sy = sx ∧ fy = true)).
  { intros y sy fy. unfold bs. rewrite !elem_of_app, !elem_of_cons.
    intros [Hi|[Hi|Hi]]; auto. inversion Hi; auto. }
  assert (Ht' : tiled DLL.sizeof_Header 2 (mem_start_brk (DLL.arena s))
                   (l1 ++ (x, sx, true) :: l2) (mem_brk (DLL.arena s))).
  { unfold bs in Ht. apply tiled_app in Ht as (c & Ht1 & Ht2). apply tiled_app.
    exists c. split; [exact Ht1 | exact Ht2]. }
  constructor; cbn [DLL.heap DLL.arena DLL.base DLL.with_heap].
  - exact Hl.
  - exact Ht'.
  - intros y sy fy Hin. apply Hflip in Hin as [Hin|(-> & -> & ->)].
    + pose proof (Hs _ _ _ Hin). dll_rd_split; cbn [DLL.size DLL.set_ptr]; congruence.
    + dll_rd_split; cbn [DLL.size DLL.set_ptr]; congruence.
  - intros y sy Hin _.
    assert (Nyx : y ≠ x).
    { intros ->.
      destruct (tiled_disjoint 16 2 _ _ _ ltac:(lia) ltac:(lia) Ht' _ _ _ _ _ _ Hin
                  (elem_of_middle l1 l2 (x, sx, true))) as [(_ & _ & ?)|D]; [discriminate|].
      destruct (tiled_bounds 16 2 _ _ _ ltac:(lia) ltac:(lia) Ht') as (_ & _ & B).
      destruct (B _ _ _ Hin) as (? & ? & ? & _).
      destruct (B _ _ _ (elem_of_middle l1 l2 (x, sx, true))) as (? & ? & ? & _). lia. }
    apply Hflip in Hin as [Hin|(_ & _ & ?)]; [|discriminate].
    pose proof (dll_block_chunk s _ _ _ _ Hin) as Cy.
    pose proof (dll_node_ne_busy _ _ _ _ _ _ _ Hwf Hp Hin) as Npy.
    pose proof (dll_node_ne_busy _ _ _ _ _ _ _ Hwf HX Hin) as NXy.
    destruct (Hbusy y sy Hin Nyx) as [Hb1 Hb2]. unfold dll_tail, DLL.sizeof_Header in *.
    dll_facts Hwf.
    split; dll_rd_hyp; assumption.
  - dll_rd_split; cbn [DLL.size DLL.set_ptr]; congruence.
  - intros y sy Hy. dll_node_norm. apply dll_node_flip in Hy as [Hy|[-> ->]].
    + fold bs in Hy.
      destruct (Hlinks y sy Hy) as [(n & sn & Hn & Hyn & Hny) (q & sq & Hq & Hyq & Hqy)].
      unfold dll_tail, DLL.sizeof_Header in *.
      pose proof (dll_node_chunk _ _ _ _ Hy) as Cy.
      pose proof (dll_node_chunk _ _ _ _ Hn) as Cn.
      pose proof (dll_node_chunk _ _ _ _ Hq) as Cq.
      pose proof (dll_node_ne_busy _ _ _ _ _ _ _ Hwf Hy Hx) as Nyx.
      pose proof (dll_node_ne_busy _ _ _ _ _ _ _ Hwf Hn Hx) as Nnx.
      pose proof (dll_node_ne_busy _ _ _ _ _ _ _ Hwf Hq Hx) as Nqx.
      split.
      * destruct (decide (y = p)) as [Eyp|Nyp].
        -- exists x, sx. split; [apply dll_node_flip; right; auto|].
           clear Hyn Hny Hyq Hqy. subst y. dll_facts Hwf.
           split; dll_rd_hyp; reflexivity.
        -- assert (NnX : n ≠ X).
           { intros En. apply Nyp.
             assert (sn = sX) by (rewrite En in Cn; exact (dll_chunk_size _ _ _ _ _ _ Hwf Cn CX)).
             congruence. }
           exists n, sn. split; [apply dll_node_flip; left; exact Hn|].
           dll_facts Hwf.
           split; dll_rd_hyp; assumption.
      * destruct (decide (y = X)) as [EyX|NyX].
        -- exists x, sx. split; [apply dll_node_flip; right; auto|].
           clear Hyn Hny Hyq Hqy. subst y.
           pose proof (dll_chunk_size _ _ _ _ _ _ Hwf Cy CX). subst sy.
           dll_facts Hwf.
           split; dll_rd_hyp; reflexivity.
        -- assert (Nqp : q ≠ p).
           { intros Eq. apply NyX. congruence. }
           exists q, sq. split; [apply dll_node_flip; left; exact Hq|].
           dll_facts Hwf.
           split; dll_rd_hyp; assumption.
    + split.
      * exists X, sX. split; [apply dll_node_flip; left; exact HX|].
        split; dll_rd_hyp; reflexivity.
      * exists p, sp. split; [apply dll_node_flip; left; exact Hp|].
        split; dll_rd_hyp; reflexivity.
Qed.

Lemma dll_size_set_ptr h k v y :
  DLL.size (DLL.rd (<[k := DLL.set_ptr v (DLL.rd h k)]> h) y) = DLL.size (DLL.rd h y).
Proof.
  destruct (decide (k = y)) as [->|Hne];
    [rewrite dll_rd_insert_eq by reflexivity | rewrite dll_rd_insert_ne by exact Hne];
    reflexivity.
Qed.

Lemma dll_ptr_set_size h k v y :
  DLL.ptr (DLL.rd (<[k := DLL.set_size v (DLL.rd h k)]> h) y) = DLL.ptr (DLL.rd h y).
Proof.
  destruct (decide (k = y)) as [->|Hne];
    [rewrite dll_rd_insert_eq by reflexivity | rewrite dll_rd_insert_ne by exact Hne];
    reflexivity.
Qed.

(** [coalesce] runs through when the addresses it uses can be read. *)
Lemma dll_coalesce_exec s a sa b sb :
  let h := DLL.heap s in
  let P := DLL.ptr (DLL.rd h (b + sb * 16 - 1 * 16)) in
  let N := DLL.ptr (DLL.rd h b) in
  DLL.valid_ptr s a = true → DLL.valid_ptr s (a + sa * 16 - 1 * 16) = true →
  DLL.valid_ptr s b = true → DLL.valid_ptr s (b + sb * 16 - 1 * 16) = true →
  DLL.valid_ptr s P = true → DLL.valid_ptr s N = true →
  DLL.valid_ptr s (N + DLL.size (DLL.rd h N) * 16 - 1 * 16) = true →
  DLL.size (DLL.rd h a) = sa → DLL.size (DLL.rd h b) = sb →
  b = a + sa * 16 → 0 <= sa + sb < 2 ^ 64 →
  a ≠ b + sb * 16 - 1 * 16 →
  DLL.coalesce s a b = Ok (DLL.with_heap (coalesce_heap h a sa b sb) s).
Proof.
  intros h P N Hva Hvta Hvb Hvtb HvP HvN HvtN Hsa Hsb Hb Hr Hne.
  unfold DLL.coalesce, DLL.unlink_header, DLL.link_header, DLL.mm_tail, DLL.sizeof_Header.
  rewrite (dll_load_valid s b) by exact Hvb. cbn [mbind result_bind]. fold h. rewrite Hsb.
  rewrite (dll_load_valid s (b + sb * 16 - 1 * 16)) by exact Hvtb.
  cbn [mbind result_bind]. fold h. fold P. fold N.
  rewrite (dll_upd_valid s P) by exact HvP. cbn [mbind result_bind]. fold h.
  rewrite (dll_load_valid _ N) by exact HvN. cbn [mbind result_bind DLL.heap DLL.with_heap].
  rewrite dll_size_set_ptr.
  rewrite (dll_upd_valid _ (N + DLL.size (DLL.rd h N) * 16 - 1 * 16)) by exact HvtN.
  cbn [mbind result_bind DLL.heap DLL.with_heap].
  rewrite (dll_load_valid _ a) by exact Hva. cbn [mbind result_bind DLL.heap DLL.with_heap].
  rewrite !dll_size_set_ptr. fold h. rewrite Hsa.
  rewrite (dll_load_valid _ (a + sa * 16 - 1 * 16)) by exact Hvta.
  cbn [mbind result_bind DLL.heap DLL.with_heap].
  rewrite (dll_load_valid _ b) by exact Hvb. cbn [mbind result_bind DLL.heap DLL.with_heap].
  rewrite !dll_size_set_ptr. fold h. rewrite Hsb.
  rewrite (wrap_small (sa + sb)) by exact Hr.
  rewrite (dll_upd_valid _ a) by exact Hva. cbn [mbind result_bind DLL.heap DLL.with_heap].
  rewrite (dll_load_valid _ a) by exact Hva. cbn [mbind result_bind DLL.heap DLL.with_heap].
  rewrite (dll_rd_insert_eq _ a a) by reflexivity. cbn [DLL.size DLL.set_size].
  replace (a + (sa + sb) * 16 - 1 * 16) with (b + sb * 16 - 1 * 16) by lia.
  rewrite (dll_upd_valid _ (b + sb * 16 - 1 * 16)) by exact Hvtb.
  cbn [mbind result_bind DLL.heap DLL.with_heap].
  rewrite (dll_load_valid _ a) by exact Hva. cbn [mbind result_bind DLL.heap DLL.with_heap].
  rewrite (dll_rd_insert_ne _ (b + sb * 16 - 1 * 16) a) by (apply not_eq_sym; exact Hne).
  rewrite (dll_rd_insert_eq _ a a) by reflexivity. cbn [DLL.size DLL.set_size].
  replace (a + (sa + sb) * 16 - 1 * 16) with (b + sb * 16 - 1 * 16) by lia.
  rewrite (dll_upd_valid _ (b + sb * 16 - 1 * 16)) by exact Hvtb.
  reflexivity.
Qed.

Section coalesce_heap_reads.
Variables (h : gmap Z DLL.Header) (a sa b sb P N sN : Z).
Hypothesis HP : DLL.ptr (DLL.rd h (b + sb * 16 - 1 * 16)) = P.
Hypothesis HN : DLL.ptr (DLL.rd h b) = N.
Hypothesis HsN : DLL.size (DLL.rd h N) = sN.

Lemma coalesce_heap_size y :
  y ≠ a → y ≠ b + sb * 16 - 1 * 16 →
  DLL.size (DLL.rd (coalesce_heap h a sa b sb) y) = DLL.size (DLL.rd h y).
Proof using Type.
  intros Ha Hb. unfold coalesce_heap. cbv zeta.
  rewrite dll_size_set_ptr.
  rewrite (dll_rd_insert_ne _ _ y) by (apply not_eq_sym; exact Hb).
  rewrite (dll_rd_insert_ne _ _ y) by (apply not_eq_sym; exact Ha).
  rewrite !dll_size_set_ptr. reflexivity.
Qed.

Lemma coalesce_heap_size_lower :
  a ≠ b + sb * 16 - 1 * 16 →
  DLL.size (DLL.rd (coalesce_heap h a sa b sb) a) = sa + sb.
Proof using Type.
  intros Hb. unfold coalesce_heap. cbv zeta.
  rewrite dll_size_set_ptr.
  rewrite (dll_rd_insert_ne _ _ a) by (apply not_eq_sym; exact Hb).
  rewrite (dll_rd_insert_eq _ a a) by reflexivity. reflexivity.
Qed.

Lemma coalesce_heap_ptr_head y :
  y ≠ b + sb * 16 - 1 * 16 → y ≠ N + sN * 16 - 1 * 16 →
  DLL.ptr (DLL.rd (coalesce_heap h a sa b sb) y)
  = if decide (P = y) then N else DLL.ptr (DLL.rd h y).
Proof using HP HN HsN.
  intros Hb Hn. unfold coalesce_heap. cbv zeta. rewrite HP, HN, HsN.
  rewrite (dll_rd_insert_ne _ _ y) by (apply not_eq_sym; exact Hb).
  rewrite !dll_ptr_set_size.
  rewrite (dll_rd_insert_ne _ _ y) by (apply not_eq_sym; exact Hn).
  destruct (decide (P = y)) as [->|Hne].
  - rewrite dll_rd_insert_eq by reflexivity. reflexivity.
  - rewrite dll_rd_insert_ne by exact Hne. reflexivity.
Qed.

Lemma coalesce_heap_ptr_tail t :
  t ≠ b + sb * 16 - 1 * 16 → t ≠ P →
  DLL.ptr (DLL.rd (coalesce_heap h a sa b sb) t)
  = if decide (N + sN * 16 - 1 * 16 = t) then P else DLL.ptr (DLL.rd h t).
Proof using HP HN HsN.
  intros Hb Hp. unfold coalesce_heap. cbv zeta. rewrite HP, HN, HsN.
  rewrite (dll_rd_insert_ne _ _ t) by (apply not_eq_sym; exact Hb).
  rewrite !dll_ptr_set_size.
  destruct (decide (N + sN * 16 - 1 * 16 = t)) as [->|Hne].
  - rewrite dll_rd_insert_eq by reflexivity. reflexivity.
  - rewrite dll_rd_insert_ne by exact Hne.
    rewrite dll_rd_insert_ne by (apply not_eq_sym; exact Hp). reflexivity.
Qed.

Lemma coalesce_heap_ptr_last :
  a + sa * 16 - 1 * 16 ≠ P →
  DLL.ptr (DLL.rd (coalesce_heap h a sa b sb) (b + sb * 16 - 1 * 16))
  = if decide (N + sN * 16 - 1 * 16 = a + sa * 16 - 1 * 16) then P
    else DLL.ptr (DLL.rd h (a + sa * 16 - 1 * 16)).
Proof using HP HN HsN.
  intros Hp. unfold coalesce_heap. cbv zeta. rewrite HP, HN, HsN.
  rewrite (dll_rd_insert_eq _ (b + sb * 16 - 1 * 16) (b + sb * 16 - 1 * 16)) by reflexivity.
  cbn [DLL.ptr DLL.set_ptr].
  destruct (decide (N + sN * 16 - 1 * 16 = a + sa * 16 - 1 * 16)) as [->|Hne].
  - rewrite dll_rd_insert_eq by reflexivity. reflexivity.
  - rewrite dll_rd_insert_ne by exact Hne.
    rewrite dll_rd_insert_ne by (apply not_eq_sym; exact Hp). reflexivity.
Qed.
End coalesce_heap_reads.

Ltac dll_ne := first [assumption | apply not_eq_sym; assumption].

(** Membership in the block list after two neighbours were merged. *)
Lemma merged_elem_of hsz m st e l1 a sa fa b sb fb l2 f y sy fy :
  0 < hsz → 1 <= m →
  tiled hsz m st (l1 ++ (a, sa, fa) :: (b, sb, fb) :: l2) e →
  (y, sy, fy) ∈ l1 ++ (a, sa + sb, f) :: l2 →
  (y = a ∧ sy = sa + sb ∧ fy = f)
  ∨ ((y, sy, fy) ∈ l1 ++ (a, sa, fa) :: (b, sb, fb) :: l2 ∧ y ≠ a ∧ y ≠ b).
Proof.
  intros Hh Hm Ht Hin.
  apply tiled_app in Ht as (c & Ht1 & Ht2). simpl in Ht2.
  destruct Ht2 as (<- & Hsa & Hab & Hsb & Ht2).
  destruct (tiled_bounds hsz m _ _ _ Hh ltac:(lia) Ht1) as (_ & _ & B1).
  destruct (tiled_bounds hsz m _ _ _ Hh ltac:(lia) Ht2) as (_ & _ & B2).
  rewrite !elem_of_app, !elem_of_cons in *.
  destruct Hin as [Hin|[Hin|Hin]].
  - right. destruct (B1 _ _ _ Hin) as (? & ? & ? & _). split; [auto|]. nia.
  - left. inversion Hin. auto.
  - right. destruct (B2 _ _ _ Hin) as (? & ? & ? & _). split; [auto|]. nia.
Qed.

Lemma elem_of_merged {A} (l1 l2 : list A) (u v w y : A) :
  y ∈ l1 ++ u :: v :: l2 → y ≠ u → y ≠ v → y ∈ l1 ++ w :: l2.
Proof.
  rewrite !elem_of_app, !elem_of_cons. intros [H|[H|[H|H]]] Hu Hv; auto; contradiction.
Qed.

Lemma dll_base_ne_block ex s bs x sx fx :
  dll_wf ex s bs → (x, sx, fx) ∈ bs → DLL.base s ≠ x.
Proof.
  intros Hwf Hx. destruct (dll_wf_block _ _ _ _ _ _ Hwf Hx) as (_ & _ & H & _).
  destruct Hwf as [Hl _ _ _ _ _]. unfold DLL.sizeof_Header in *. lia.
Qed.

Lemma dll_node_merged_old ex s l1 a sa b sb l2 y sy :
  dll_wf ex s (l1 ++ (a, sa, true) :: (b, sb, true) :: l2) →
  dll_node s (l1 ++ (a, sa + sb, true) :: l2) y sy →
  y ≠ b ∧ ((y = a ∧ sy = sa + sb)
           ∨ (y ≠ a ∧ dll_node s (l1 ++ (a, sa, true) :: (b, sb, true) :: l2) y sy)).
Proof.
  intros Hwf [[-> ->]|Hin].
  - split; [eapply dll_base_ne_block; [exact Hwf | apply elem_of_middle2]|].
    right. split; [eapply dll_base_ne_block; [exact Hwf | apply elem_of_middle]|].
    left. auto.
  - pose proof (dll_wf_tiled _ _ _ Hwf) as Ht.
    destruct (merged_elem_of DLL.sizeof_Header 2 _ _ _ _ _ _ _ _ _ _ _ _ _ _ ltac:(reflexivity) ltac:(lia) Ht Hin)
      as [(-> & -> & _)|(Hin' & Hya & Hyb)].
    + split; [|left; auto].
      apply tiled_app in Ht as (c & _ & Ht2). simpl in Ht2.
      destruct Ht2 as (Hac & Hsa & Hab & _). unfold DLL.sizeof_Header in *. lia.
    + split; [exact Hyb|]. right. split; [exact Hya|]. right. exact Hin'.
Qed.

Lemma dll_node_merged_new s l1 a sa b sb l2 y sy :
  dll_node s (l1 ++ (a, sa, true) :: (b, sb, true) :: l2) y sy →
  y ≠ a → y ≠ b →
  dll_node s (l1 ++ (a, sa + sb, true) :: l2) y sy.
Proof.
  intros [H|H] Ha Hb; [left; exact H|]. right.
  eapply elem_of_merged; [exact H | congruence | congruence].
Qed.

Lemma dll_node_merged_lower s l1 a s' l2 : dll_node s (l1 ++ (a, s', true) :: l2) a s'.
Proof. right. apply elem_of_middle. Qed.

(** [coalesce] on two free neighbours of a well-formed heap: the upper one
    leaves the free list and the lower one takes over its units. *)
Lemma dll_coalesce s l1 a sa b sb l2 :
  dll_wf 0 s (l1 ++ (a, sa, true) :: (b, sb, true) :: l2) →
  ∃ s', DLL.coalesce s a b = Ok s'
        ∧ dll_wf 0 s' (l1 ++ (a, sa + sb, true) :: l2)
        ∧ DLL.freep s' = DLL.freep s ∧ DLL.arena s' = DLL.arena s
        ∧ DLL.base s' = DLL.base s.
Proof.
  intros Hwf.
  set (bs := l1 ++ (a, sa, true) :: (b, sb, true) :: l2) in *.
  assert (Ha : dll_node s bs a sa) by (right; apply elem_of_middle).
  assert (Hb : dll_node s bs b sb) by (right; apply elem_of_middle2).
  pose proof Hwf as [Hl Ht Hs Hbusy Hbase Hlinks].
  destruct (Hlinks b sb Hb) as [(N & sN & HN & HbN & HNb) (P & sP & HP & HbP & HPb)].
  destruct (dll_wf_node _ _ _ _ _ Hwf Ha) as (Hva & Hvta & Ha1 & Ha2 & Ha3 & Ha4).
  destruct (dll_wf_node _ _ _ _ _ Hwf Hb) as (Hvb & Hvtb & Hb1 & Hb2 & Hb3 & Hb4).
  destruct (dll_wf_node _ _ _ _ _ Hwf HN) as (HvN & HvtN & _ & _ & HN3 & _).
  destruct (dll_wf_node _ _ _ _ _ Hwf HP) as (HvP & HvtP & _ & _ & HP3 & _).
  assert (Hab : b = a + sa * 16).
  { unfold bs in Ht. apply tiled_app in Ht as (c & _ & Ht2). simpl in Ht2.
    destruct Ht2 as (Hac & _ & Hab & _). unfold DLL.sizeof_Header in *. clear - Hac Hab. lia. }
  assert (Hr : 0 <= sa + sb < 2 ^ 64).
  { pose proof (dll_base_ne_block _ _ _ _ _ _ Hwf
                  (elem_of_middle2 l1 l2 (a, sa, true) (b, sb, true))) as Nb.
    destruct Hb4 as [[Hb4 _]|Hb4]; [congruence|].
    unfold DLL.sizeof_Header in *. pow2. lia. }
  pose proof (dll_node_chunk _ _ _ _ Ha) as Ca.
  pose proof (dll_node_chunk _ _ _ _ Hb) as Cb.
  pose proof (dll_node_chunk _ _ _ _ HN) as CN.
  pose proof (dll_node_chunk _ _ _ _ HP) as CP.
  assert (Nab : a ≠ b) by (clear - Hab Ha2; lia).
  unfold dll_tail, DLL.sizeof_Header in *.
  dll_facts Hwf.
  exists (DLL.with_heap (coalesce_heap (DLL.heap s) a sa b sb) s).
  split.
  { pose proof (dll_coalesce_exec s a sa b sb) as E. cbv zeta in E.
    rewrite HbN, HbP, HN3 in E. apply E; assumption. }
  split; [|split; [reflexivity|split; reflexivity]].
  pose proof (coalesce_heap_size (DLL.heap s) a sa b sb) as Rsize.
  pose proof (coalesce_heap_size_lower (DLL.heap s) a sa b sb) as Rlower.
  pose proof (coalesce_heap_ptr_head (DLL.heap s) a sa b sb P N sN HbP HbN HN3) as Rhead.
  pose proof (coalesce_heap_ptr_tail (DLL.heap s) a sa b sb P N sN HbP HbN HN3) as Rtail.
  pose proof (coalesce_heap_ptr_last (DLL.heap s) a sa b sb P N sN HbP HbN HN3) as Rlast.
  set (h' := coalesce_heap (DLL.heap s) a sa b sb) in *.
  constructor; cbn [DLL.heap DLL.arena DLL.base DLL.with_heap].
  - exact Hl.
  - unfold bs in Ht. apply tiled_app in Ht as (c & Ht1 & Ht2). apply tiled_app.
    unfold DLL.sizeof_Header.
    exists c. split; [exact Ht1|]. simpl in Ht2. simpl.
    destruct Ht2 as (Hac & Hsa & _ & Hsb & Ht2). split; [exact Hac|].
    split; [clear - Hsa Hsb; lia|].
    replace (c + (sa + sb) * 16) with (c + sa * 16 + sb * 16) by (clear; lia). exact Ht2.
  - intros y sy fy Hin.
    destruct (merged_elem_of 16 2 _ _ _ _ _ _ _ _ _ _ _ _ _ _ ltac:(lia) ltac:(lia) Ht Hin)
      as [(-> & -> & _)|(Hin' & Hya & Hyb)].
    + apply Rlower. dll_ne.
    + pose proof (dll_block_chunk s _ _ _ _ Hin') as Cy. dll_facts Hwf.
      rewrite Rsize by dll_ne. exact (Hs _ _ _ Hin').
  - intros y sy Hin _.
    destruct (merged_elem_of 16 2 _ _ _ _ _ _ _ _ _ _ _ _ _ _ ltac:(lia) ltac:(lia) Ht Hin)
      as [(_ & _ & ?)|(Hin' & Hya & Hyb)]; [discriminate|].
    pose proof (dll_block_chunk s _ _ _ _ Hin') as Cy.
    pose proof (dll_node_ne_busy _ _ _ _ _ _ _ Hwf HN Hin') as NNy.
    pose proof (dll_node_ne_busy _ _ _ _ _ _ _ Hwf HP Hin') as NPy.
    assert (Ny0 : y ≠ 0).
    { destruct (dll_chunk_range _ _ _ _ _ Hwf Cy) as (_ & Hy0 & _). clear - Hy0. lia. }
    dll_facts Hwf.
    destruct (Hbusy y sy Hin' Ny0) as [Hb1' Hb2'].
    split.
    + rewrite Rhead by dll_ne. rewrite decide_False by dll_ne. exact Hb1'.
    + rewrite Rtail by dll_ne. rewrite decide_False by dll_ne. exact Hb2'.
  - pose proof (dll_base_ne_block _ _ _ _ _ _ Hwf (elem_of_middle l1 ((b, sb, true) :: l2) (a, sa, true))).
    assert (Cbase : dll_chunk s bs (DLL.base s) 2) by (left; auto).
    dll_facts Hwf.
    rewrite Rsize by dll_ne. exact Hbase.
  - assert (NextF : ∀ w sw, dll_node s bs w sw →
              DLL.ptr (DLL.rd h' w)
              = if decide (P = w) then N else DLL.ptr (DLL.rd (DLL.heap s) w)).
    { intros w sw Hw. pose proof (dll_node_chunk _ _ _ _ Hw) as Cw. dll_facts Hwf.
      apply Rhead; dll_ne. }
    assert (PrevF : ∀ w sw sw', dll_node s bs w sw →
              dll_node s (l1 ++ (a, sa + sb, true) :: l2) w sw' →
              DLL.ptr (DLL.rd h' (w + sw' * 16 - 1 * 16))
              = if decide (N = w) then P
                else DLL.ptr (DLL.rd (DLL.heap s) (w + sw * 16 - 1 * 16))).
    { intros w sw sw' Hw Hw'. pose proof (dll_node_chunk _ _ _ _ Hw) as Cw.
      destruct (dll_node_merged_old _ _ _ _ _ _ _ _ _ _ Hwf Hw') as (Nwb & [(Ewa & Esw)|(Nwa & Hw2)]).
      - assert (sw = sa) by (rewrite Ewa in Cw; exact (dll_chunk_size _ _ _ _ _ _ Hwf Cw Ca)).
        subst w sw sw'.
        replace (a + (sa + sb) * 16 - 1 * 16) with (b + sb * 16 - 1 * 16) by (clear - Hab; lia).
        rewrite Rlast by dll_ne.
        destruct (decide (N = a)) as [ENa|NNa].
        + assert (EsN : sN = sa)
            by (rewrite ENa in CN; exact (dll_chunk_size _ _ _ _ _ _ Hwf CN Ca)).
          rewrite decide_True by (rewrite ENa, EsN; reflexivity). reflexivity.
        + dll_facts Hwf. rewrite decide_False by dll_ne. reflexivity.
      - assert (sw' = sw)
          by (exact (dll_chunk_size _ _ _ _ _ _ Hwf (dll_node_chunk _ _ _ _ Hw2) Cw)).
        subst sw'. dll_facts Hwf.
        rewrite Rtail by dll_ne.
        destruct (decide (N = w)) as [ENw|NNw].
        + assert (EsN : sN = sw)
            by (rewrite ENw in CN; exact (dll_chunk_size _ _ _ _ _ _ Hwf CN Cw)).
          rewrite decide_True by (rewrite ENw, EsN; reflexivity). reflexivity.
        + dll_facts Hwf. rewrite decide_False by dll_ne. reflexivity. }
    assert (NewNode : ∀ w sw, dll_node s bs w sw → w ≠ b →
              ∃ sw', dll_node s (l1 ++ (a, sa + sb, true) :: l2) w sw').
    { intros w sw Hw Nwb. destruct (decide (w = a)) as [->|Nwa].
      - exists (sa + sb). apply dll_node_merged_lower.
      - exists sw. apply (dll_node_merged_new s l1 a sa b sb l2); assumption. }
    clear Rsize Rlower Rhead Rtail Rlast.
    intros y sy Hy.
    change (dll_node s (l1 ++ (a, sa + sb, true) :: l2) y sy) in Hy.
    assert (Hy0 : y ≠ b ∧ ∃ sy0, dll_node s bs y sy0).
    { destruct (dll_node_merged_old _ _ _ _ _ _ _ _ _ _ Hwf Hy) as (Nyb & [(-> & _)|(_ & Hy2)]);
        (split; [exact Nyb|]); eauto. }
    destruct Hy0 as (Nyb & sy0 & Hy0).
    destruct (Hlinks y sy0 Hy0) as [(n & sn & Hn & Hyn & Hny) (q & sq & Hq & Hyq & Hqy)].
    pose proof (dll_node_chunk _ _ _ _ Hn) as Cn.
    pose proof (dll_node_chunk _ _ _ _ Hq) as Cq.
    unfold dll_tail, DLL.sizeof_Header in *.
    split.
    + destruct (decide (P = y)) as [EPy|NPy].
      * assert (NNb : N ≠ b).
        { intros E. assert (Es : sN = sb)
            by (rewrite E in CN; exact (dll_chunk_size _ _ _ _ _ _ Hwf CN Cb)).
          clear - E Es HNb HbP EPy Nyb. congruence. }
        destruct (NewNode N sN HN NNb) as (sN' & HN').
        exists N, sN'. dll_node_norm. split; [exact HN'|]. split.
        -- rewrite (NextF y sy0 Hy0). rewrite decide_True by exact EPy. reflexivity.
        -- rewrite (PrevF N sN sN' HN HN'). rewrite decide_True by reflexivity. exact EPy.
      * assert (Nnb : n ≠ b).
        { intros E. assert (Es : sn = sb)
            by (rewrite E in Cn; exact (dll_chunk_size _ _ _ _ _ _ Hwf Cn Cb)).
          clear - E Es Hny HbP NPy. congruence. }
        assert (NNn : N ≠ n).
        { intros E. assert (Es : sN = sn)
            by (rewrite E in CN; exact (dll_chunk_size _ _ _ _ _ _ Hwf CN Cn)).
          clear - E Es Hny HNb Nyb. congruence. }
        destruct (NewNode n sn Hn Nnb) as (sn' & Hn').
        exists n, sn'. dll_node_norm. split; [exact Hn'|]. split.
        -- rewrite (NextF y sy0 Hy0). rewrite decide_False by exact NPy. exact Hyn.
        -- rewrite (PrevF n sn sn' Hn Hn'). rewrite decide_False by exact NNn. exact Hny.
    + rewrite (PrevF y sy0 sy Hy0 Hy).
      destruct (decide (N = y)) as [ENy|NNy].
      * assert (NPb : P ≠ b).
        { intros E. clear - E HPb HbN ENy Nyb. congruence. }
        destruct (NewNode P sP HP NPb) as (sP' & HP').
        exists P, sP'. dll_node_norm. split; [exact HP'|]. split; [reflexivity|].
        rewrite (NextF P sP HP). rewrite decide_True by reflexivity. exact ENy.
      * assert (Nqb : q ≠ b).
        { intros E. clear - E Hqy HbN NNy. congruence. }
        assert (NPq : P ≠ q).
        { intros E. clear - E Hqy HPb Nyb. congruence. }
        destruct (NewNode q sq Hq Nqb) as (sq' & Hq').
        exists q, sq'. dll_node_norm. split; [exact Hq'|]. split; [exact Hyq|].
        rewrite (NextF q sq Hq). rewrite decide_False by exact NPq. exact Hqy.
Qed.

Lemma dll_wf_with_freep ex s bs p :
  dll_wf ex s bs → dll_wf ex (DLL.with_freep p s) bs.
Proof. intros [H1 H2 H3 H4 H5 H6]. constructor; assumption. Qed.

Lemma dll_wf_exempt ex s bs : dll_wf 0 s bs → dll_wf ex s bs.
Proof.
  intros [H1 H2 H3 H4 H5 H6]. constructor; try assumption.
  intros x sx Hin _. apply H4; [exact Hin|].
  assert (Hwf : dll_wf 0 s bs) by (constructor; assumption).
  destruct (dll_wf_block _ _ _ _ _ _ Hwf Hin) as (_ & _ & Hx & _).
  destruct H1 as (Hb & Hs & _). unfold DLL.sizeof_Header in *. lia.
Qed.

(** Coalescing followed by the move of the cursor. *)
Lemma dll_coalesce_cursor s l1 a sa b sb l2 :
  dll_wf 0 s (l1 ++ (a, sa, true) :: (b, sb, true) :: l2) →
  ∃ s'',
    (s' ← DLL.coalesce s a b;
     t ← DLL.mm_tail s' a;
     ht ← DLL.load s' t;
     Ok (DLL.with_freep (DLL.ptr ht) s')) = Ok s''
    ∧ dll_wf 0 s'' (l1 ++ (a, sa + sb, true) :: l2)
    ∧ (∃ sf, dll_node s'' (l1 ++ (a, sa + sb, true) :: l2) (DLL.freep s'') sf)
    ∧ DLL.arena s'' = DLL.arena s.
Proof.
  intros Hwf.
  destruct (dll_coalesce _ _ _ _ _ _ _ Hwf) as (s' & E & Hwf' & Hf & Ha & Hb).
  rewrite E. cbn [mbind result_bind].
  assert (Hn : dll_node s' (l1 ++ (a, sa + sb, true) :: l2) a (sa + sb))
    by apply dll_node_merged_lower.
  destruct (dll_wf_node _ _ _ _ _ Hwf' Hn) as (Hva & Hvta & _ & _ & Hs & _).
  destruct (dll_wf_links _ _ _ Hwf' _ _ Hn) as [_ (p & sp & Hp & Hap & _)].
  unfold DLL.mm_tail. rewrite (dll_load_valid s' a) by exact Hva. cbn [mbind result_bind].
  rewrite Hs. unfold dll_tail in *.
  rewrite dll_load_valid by exact Hvta. cbn [mbind result_bind].
  eexists. split; [reflexivity|]. split; [apply dll_wf_with_freep; exact Hwf'|].
  split; [|exact Ha].
  exists sp. cbn [DLL.freep DLL.with_freep]. rewrite Hap. exact Hp.
Qed.

Lemma dll_node_nonzero ex s bs n sn : dll_wf ex s bs → dll_node s bs n sn → (n =? NULL) = false.
Proof.
  intros Hwf Hn. destruct (dll_wf_node _ _ _ _ _ Hwf Hn) as (_ & _ & H & _).
  apply Z.eqb_neq. unfold NULL. lia.
Qed.

Lemma dll_node_mono s l1 x sx l2 n sn :
  dll_node s (l1 ++ (x, sx, false) :: l2) n sn → dll_node s (l1 ++ (x, sx, true) :: l2) n sn.
Proof. intros H. apply dll_node_flip. left. exact H. Qed.

(** The first [if] block of [mm_free] merges the freed block with a free
    upper neighbour, and with nothing else. *)
Lemma dll_coalesce_upper_spec s l1 x sx l2 :
  dll_wf 0 s (l1 ++ (x, sx, true) :: l2) →
  (∃ sf, dll_node s (l1 ++ (x, sx, true) :: l2) (DLL.freep s) sf) →
  ∃ s', DLL.coalesce_upper s x = Ok s'
        ∧ dll_wf 0 s' (l1 ++ merge_upper x sx l2)
        ∧ (∃ sf, dll_node s' (l1 ++ merge_upper x sx l2) (DLL.freep s') sf)
        ∧ DLL.arena s' = DLL.arena s.
Proof.
  intros Hwf Hf.
  assert (Hx : dll_node s (l1 ++ (x, sx, true) :: l2) x sx) by apply dll_node_merged_lower.
  destruct (dll_wf_node _ _ _ _ _ Hwf Hx) as (Hvx & _ & _ & _ & Hs & _).
  unfold DLL.coalesce_upper. rewrite (dll_load_valid s x) by exact Hvx. cbn [mbind result_bind].
  rewrite Hs.
  pose proof (dll_wf_tiled _ _ _ Hwf) as Ht.
  pose proof (dll_wf_layout _ _ _ Hwf) as Hl.
  apply tiled_app in Ht as (c & Ht1 & Ht2). simpl in Ht2. destruct Ht2 as (Hxc & Hsx & Ht2).
  unfold mem_heap_hi.
  destruct l2 as [|[[n sn] fn] r].
  - simpl in Ht2. rewrite (proj2 (Z.ltb_ge _ _)) by (unfold DLL.sizeof_Header in *; lia).
    exists s. simpl. auto.
  - assert (Hn : (n, sn, fn) ∈ l1 ++ (x, sx, true) :: (n, sn, fn) :: r) by apply elem_of_middle2.
    destruct (dll_wf_block _ _ _ _ _ _ Hwf Hn) as (Hvn & _ & Hn1 & Hn2 & Hn3 & _).
    simpl in Ht2. destruct Ht2 as (Hnx & _).
    assert (En : x + sx * DLL.sizeof_Header = n) by (unfold DLL.sizeof_Header in *; lia).
    rewrite En. rewrite (proj2 (Z.ltb_lt _ _)) by (unfold DLL.sizeof_Header in *; lia).
    rewrite (dll_load_valid s n) by exact Hvn. cbn [mbind result_bind].
    destruct fn.
    + destruct (dll_wf_links _ _ _ Hwf n sn ltac:(right; exact Hn)) as [(m & sm & Hm & Hnm & _) _].
      rewrite Hnm, (dll_node_nonzero _ _ _ _ _ Hwf Hm). cbn [negb].
      destruct (dll_coalesce_cursor _ _ _ _ _ _ _ Hwf) as (s'' & E & Hwf' & Hf' & Ha).
      exists s''. simpl. auto.
    + destruct (dll_wf_busy _ _ _ Hwf n sn Hn ltac:(unfold DLL.sizeof_Header in *; lia)) as [Hb _].
      rewrite Hb. cbn [negb Z.eqb NULL]. exists s. simpl. auto.
Qed.

(** The second [if] block of [mm_free] merges the freed block into a free
    lower neighbour, and into nothing else. *)
Lemma dll_coalesce_lower_spec s l1 x sx r :
  dll_wf 0 s (l1 ++ (x, sx, true) :: r) →
  (∃ sf, dll_node s (l1 ++ (x, sx, true) :: r) (DLL.freep s) sf) →
  ∃ s', DLL.coalesce_lower s x = Ok s'
        ∧ dll_wf 0 s' (merge_lower l1 ((x, sx, true) :: r))
        ∧ (∃ sf, dll_node s' (merge_lower l1 ((x, sx, true) :: r)) (DLL.freep s') sf)
        ∧ DLL.arena s' = DLL.arena s.
Proof.
  intros Hwf Hf.
  pose proof (dll_wf_tiled _ _ _ Hwf) as Ht.
  pose proof (dll_wf_layout _ _ _ Hwf) as Hl.
  apply tiled_app in Ht as (c & Ht1 & Ht2). simpl in Ht2. destruct Ht2 as (Hxc & Hsx & Ht2).
  unfold DLL.coalesce_lower, mem_heap_lo.
  destruct l1 as [|[[p sp] fp] l _] using rev_ind.
  - simpl in Ht1. rewrite (proj2 (Z.ltb_ge _ _)) by (unfold DLL.sizeof_Header; lia).
    exists s. rewrite merge_lower_nil. auto.
  - rewrite <- app_assoc in Hwf, Hf. simpl in Hwf, Hf.
    assert (Hp : (p, sp, fp) ∈ l ++ (p, sp, fp) :: (x, sx, true) :: r) by apply elem_of_middle.
    destruct (dll_wf_block _ _ _ _ _ _ Hwf Hp) as (Hvp & Hvtp & Hp1 & Hp2 & Hp3 & _).
    apply tiled_app in Ht1 as (d & _ & Ht1). simpl in Ht1. destruct Ht1 as (Hpd & _ & Hpc).
    assert (Et : x - 1 * DLL.sizeof_Header = dll_tail p sp)
      by (unfold dll_tail, DLL.sizeof_Header in *; lia).
    rewrite Et. rewrite (proj2 (Z.ltb_lt _ _)) by (unfold dll_tail, DLL.sizeof_Header in *; lia).
    rewrite (dll_load_valid s _) by exact Hvtp. cbn [mbind result_bind].
    destruct fp.
    + destruct (dll_wf_links _ _ _ Hwf p sp ltac:(right; exact Hp)) as [_ (q & sq & Hq & Hpq & Hqp)].
      rewrite Hpq, (dll_node_nonzero _ _ _ _ _ Hwf Hq). cbn [negb].
      destruct (dll_wf_node _ _ _ _ _ Hwf Hq) as (Hvq & _).
      rewrite (dll_load_valid s q) by exact Hvq. cbn [mbind result_bind]. rewrite Hqp.
      destruct (dll_coalesce_cursor _ _ _ _ _ _ _ Hwf) as (s'' & E & Hwf' & Hf' & Ha).
      exists s''. rewrite merge_lower_snoc_free. auto.
    + destruct (dll_wf_busy _ _ _ Hwf p sp Hp ltac:(unfold DLL.sizeof_Header in *; lia)) as [_ Hb].
      rewrite Hb. cbn [negb Z.eqb NULL]. exists s. rewrite merge_lower_snoc_busy. auto.
Qed.

(** [mm_free] on a block in use of a well-formed heap, or on the block
    that [morecore] has just added: it returns, and the heap is well formed
    for the list in which the block is free and merged with its free
    neighbours; [freep] is on the free list. *)
Lemma dll_free_wf s l1 x sx l2 sf :
  dll_wf x s (l1 ++ (x, sx, false) :: l2) →
  dll_node s (l1 ++ (x, sx, false) :: l2) (DLL.freep s) sf →
  ∃ s', DLL.mm_free s (DLL.mm_payload x) = Ok s'
        ∧ dll_wf 0 s' (free_block l1 x sx l2)
        ∧ (∃ sf', dll_node s' (free_block l1 x sx l2) (DLL.freep s') sf')
        ∧ DLL.arena s' = DLL.arena s.
Proof.
  intros Hwf Hf.
  assert (Hx : (x, sx, false) ∈ l1 ++ (x, sx, false) :: l2) by apply elem_of_middle.
  destruct (dll_wf_block _ _ _ _ _ _ Hwf Hx) as (Hvx & _ & Hx1 & Hx2 & Hx3 & Hx4).
  destruct (dll_wf_node _ _ _ _ _ Hwf Hf) as (Hvf & _).
  pose proof (dll_wf_layout _ _ _ Hwf) as Hl.
  unfold DLL.mm_free, DLL.mm_payload, DLL.mm_block.
  rewrite (proj2 (Z.eqb_neq _ _)) by (unfold NULL, DLL.sizeof_Header in *; lia).
  cbv zeta.
  replace (x + 1 * DLL.sizeof_Header - 1 * DLL.sizeof_Header) with x by lia.
  rewrite (dll_load_valid s x) by exact Hvx. cbn [mbind result_bind]. rewrite Hx4.
  assert (Hb : DLL.mm_bytes sx = sx * 16).
  { unfold DLL.mm_bytes, DLL.sizeof_Header in *. apply wrap_small. pow2. lia. }
  rewrite Hb. unfold mem_heapsize.
  rewrite (proj2 (Z.ltb_lt _ _)) by lia.
  rewrite (proj2 (Z.leb_le _ _)) by lia. cbn [andb negb].
  rewrite (dll_load_valid s _) by exact Hvf. cbn [mbind result_bind].
  destruct (dll_insert _ _ _ _ _ _ _ Hwf Hf) as (s1 & s2 & E1 & E2 & Hwf2 & Hf2 & Ha2 & Hb2).
  rewrite E1. cbn [mbind result_bind]. rewrite E2. cbn [mbind result_bind].
  assert (Hn2 : ∃ sf2, dll_node s2 (l1 ++ (x, sx, true) :: l2) (DLL.freep s2) sf2).
  { exists sf. rewrite Hf2. apply dll_node_mono.
    unfold dll_node in *. rewrite Hb2. exact Hf. }
  destruct (dll_coalesce_upper_spec _ _ _ _ _ Hwf2 Hn2) as (s3 & E3 & Hwf3 & Hn3 & Ha3).
  rewrite E3. cbn [mbind result_bind].
  assert (Hm : ∃ sx' r, merge_upper x sx l2 = (x, sx', true) :: r).
  { destruct l2 as [|[[n sn] [|]] r]; simpl; eauto. }
  destruct Hm as (sx' & r & Hm). rewrite Hm in Hwf3, Hn3.
  destruct (dll_coalesce_lower_spec _ _ _ _ _ Hwf3 Hn3) as (s4 & E4 & Hwf4 & Hn4 & Ha4).
  exists s4. unfold free_block. rewrite Hm.
  split; [exact E4|]. split; [exact Hwf4|]. split; [exact Hn4|]. congruence.
Qed.

(** ** The heap after [mm_free] *)

Ltac elem_cases H :=
  repeat (apply elem_of_cons in H as [H|H]; [inversion H; subst; clear H|]);
  try (apply elem_of_nil in H; destruct H).

Lemma kr2_gap_wf :
  kr2_wf kr2_gap [(65536, 122, true); (69440, 2, false); (69504, 2, true); (69568, 2, false)].
Proof.
  constructor.
  - vm_compute. repeat split; discriminate.
  - vm_compute. repeat split; discriminate.
  - intros x sx fx H. elem_cases H; vm_compute; repeat split.
  - vm_compute. repeat split.
Qed.

Lemma dll_gap_wf :
  dll_wf 0 dll_gap [(65536, 247, true); (69488, 3, false); (69536, 3, true); (69584, 3, false)].
Proof.
  assert (Hbase : dll_node dll_gap
            [(65536, 247, true); (69488, 3, false); (69536, 3, true); (69584, 3, false)] 4096 2)
    by (left; split; reflexivity).
  assert (HF : dll_node dll_gap
            [(65536, 247, true); (69488, 3, false); (69536, 3, true); (69584, 3, false)] 65536 247)
    by (right; repeat constructor).
  assert (Hb : dll_node dll_gap
            [(65536, 247, true); (69488, 3, false); (69536, 3, true); (69584, 3, false)] 69536 3)
    by (right; repeat constructor).
  constructor.
  - vm_compute. repeat split; discriminate.
  - vm_compute. repeat split; discriminate.
  - intros x sx fx H. elem_cases H; vm_compute; reflexivity.
  - intros x sx H _. elem_cases H; vm_compute; split; reflexivity.
  - vm_compute. reflexivity.
  - intros x sx [[-> ->]|H].
    + split; [exists 69536, 3 | exists 65536, 247]; (split; [assumption|]); vm_compute; split; reflexivity.
    + elem_cases H.
      * split; [exists 4096, 2 | exists 69536, 3]; (split; [assumption|]); vm_compute; split; reflexivity.
      * split; [exists 65536, 247 | exists 4096, 2]; (split; [assumption|]); vm_compute; split; reflexivity.
Qed.

(** In a list that tiles an interval and has no two free blocks in a row,
    no free block ends where another free block starts; stated with the
    sizes the headers hold. *)
Lemma kr2_free_blocks_apart s bs :
  kr2_wf s bs → adjacent_free bs = false →
  ∀ b sb n sn, (b, sb, true) ∈ bs → (n, sn, true) ∈ bs →
    b + KR2.size (KR2.rd (KR2.heap s) b) * KR2.sizeof_Header ≠ n.
Proof.
  intros Hwf Ha b sb n sn Hb Hn.
  destruct (kr2_wf_blocks _ _ Hwf _ _ _ Hb) as (-> & _).
  exact (tiled_adjacent_distinct KR2.sizeof_Header 1 _ _ _ ltac:(reflexivity) ltac:(lia)
           (kr2_wf_tiled _ _ Hwf) Ha _ _ _ _ Hb Hn).
Qed.

Lemma dll_free_blocks_apart ex s bs :
  dll_wf ex s bs → adjacent_free bs = false →
  ∀ b sb n sn, (b, sb, true) ∈ bs → (n, sn, true) ∈ bs →
    b + DLL.size (DLL.rd (DLL.heap s) b) * DLL.sizeof_Header ≠ n.
Proof.
  intros Hwf Ha b sb n sn Hb Hn.
  rewrite (dll_wf_sizes _ _ _ Hwf _ _ _ Hb).
  exact (tiled_adjacent_distinct DLL.sizeof_Header 2 _ _ _ ltac:(reflexivity) ltac:(lia)
           (dll_wf_tiled _ _ _ Hwf) Ha _ _ _ _ Hb Hn).
Qed.

Lemma free_block_both l p sp x sx n sn r :
  free_block (l ++ [(p, sp, true)]) x sx ((n, sn, true) :: r)
  = l ++ (p, sp + (sx + sn), true) :: r.
Proof. unfold free_block. simpl. apply merge_lower_snoc_free. Qed.

(** C4.  Freeing a block in use of a well-formed heap in which no two
    free blocks are neighbours: [mm_free] returns; the heap it leaves is
    well formed (its links are consistent) for the list in which the block
    is free and merged with a free upper and a free lower neighbour; in
    that list no two free blocks are neighbours, and no free block [b]
    ends where a free block [n] starts, [b + b.size != n].  When both
    neighbours of the block are free, the three blocks are one free block
    afterwards.  First for [mm_heap_kr2.c], then for [mm_heap_dll.c]. *)
Theorem C4_free_coalesces_neighbours :
  (∀ fuel s l1 x sx l2,
      kr2_wf s (l1 ++ (x, sx, false) :: l2) →
      adjacent_free (l1 ++ (x, sx, false) :: l2) = false →
      ∃ s', KR2.mm_free fuel s (KR2.mm_payload x) = Ok s'
            ∧ kr2_wf s' (free_block l1 x sx l2)
            ∧ adjacent_free (free_block l1 x sx l2) = false
            ∧ ∀ b sb n sn,
                (b, sb, true) ∈ free_block l1 x sx l2 →
                (n, sn, true) ∈ free_block l1 x sx l2 →
                b + KR2.size (KR2.rd (KR2.heap s') b) * KR2.sizeof_Header ≠ n)
  ∧ (∀ fuel s l p sp x sx n sn r,
      kr2_wf s (l ++ (p, sp, true) :: (x, sx, false) :: (n, sn, true) :: r) →
      ∃ s', KR2.mm_free fuel s (KR2.mm_payload x) = Ok s'
            ∧ kr2_wf s' (l ++ (p, sp + (sx + sn), true) :: r))
  ∧ (∀ s l1 x sx l2 sf,
      dll_wf x s (l1 ++ (x, sx, false) :: l2) →
      dll_node s (l1 ++ (x, sx, false) :: l2) (DLL.freep s) sf →
      adjacent_free (l1 ++ (x, sx, false) :: l2) = false →
      ∃ s', DLL.mm_free s (DLL.mm_payload x) = Ok s'
            ∧ dll_wf 0 s' (free_block l1 x sx l2)
            ∧ adjacent_free (free_block l1 x sx l2) = false
            ∧ ∀ b sb n sn,
                (b, sb, true) ∈ free_block l1 x sx l2 →
                (n, sn, true) ∈ free_block l1 x sx l2 →
                b + DLL.size (DLL.rd (DLL.heap s') b) * DLL.sizeof_Header ≠ n)
  ∧ (∀ s l p sp x sx n sn r sf,
      dll_wf x s (l ++ (p, sp, true) :: (x, sx, false) :: (n, sn, true) :: r) →
      dll_node s (l ++ (p, sp, true) :: (x, sx, false) :: (n, sn, true) :: r) (DLL.freep s) sf →
      ∃ s', DLL.mm_free s (DLL.mm_payload x) = Ok s'
            ∧ dll_wf 0 s' (l ++ (p, sp + (sx + sn), true) :: r)).
Proof.
  split; [|split; [|split]].
  - intros fuel s l1 x sx l2 Hwf Ha.
    destruct (kr2_free_wf fuel s l1 x sx l2 Hwf) as (s' & E & Hwf' & _).
    pose proof (adjacent_free_free_block _ _ _ _ Ha) as Ha'.
    exists s'. split; [exact E|]. split; [exact Hwf'|]. split; [exact Ha'|].
    exact (kr2_free_blocks_apart _ _ Hwf' Ha').
  - intros fuel s l p sp x sx n sn r Hwf.
    assert (E0 : l ++ (p, sp, true) :: (x, sx, false) :: (n, sn, true) :: r
                 = (l ++ [(p, sp, true)]) ++ (x, sx, false) :: (n, sn, true) :: r)
      by (rewrite <- app_assoc; reflexivity).
    rewrite E0 in Hwf.
    destruct (kr2_free_wf fuel s _ x sx _ Hwf) as (s' & E & Hwf' & _).
    rewrite free_block_both in Hwf'. eauto.
  - intros s l1 x sx l2 sf Hwf Hf Ha.
    destruct (dll_free_wf s l1 x sx l2 sf Hwf Hf) as (s' & E & Hwf' & _).
    pose proof (adjacent_free_free_block _ _ _ _ Ha) as Ha'.
    exists s'. split; [exact E|]. split; [exact Hwf'|]. split; [exact Ha'|].
    exact (dll_free_blocks_apart _ _ _ Hwf' Ha').
  - intros s l p sp x sx n sn r sf Hwf Hf.
    assert (E0 : l ++ (p, sp, true) :: (x, sx, false) :: (n, sn, true) :: r
                 = (l ++ [(p, sp, true)]) ++ (x, sx, false) :: (n, sn, true) :: r)
      by (rewrite <- app_assoc; reflexivity).
    rewrite E0 in Hwf, Hf.
    destruct (dll_free_wf s _ x sx _ sf Hwf Hf) as (s' & E & Hwf' & _).
    rewrite free_block_both in Hwf'. eauto.
Qed.

Lemma C4_free_coalesces_neighbours_witness :
  (∃ s', KR2.mm_free 8 kr2_gap 69472 = Ok s'
         ∧ kr2_wf s' [(65536, 126, true); (69568, 2, false)]
         ∧ adjacent_free [(65536, 126, true); (69568, 2, false)] = false
         ∧ ∀ b sb n sn,
             (b, sb, true) ∈ [(65536, 126, true); (69568, 2, false)] →
             (n, sn, true) ∈ [(65536, 126, true); (69568, 2, false)] →
             b + KR2.size (KR2.rd (KR2.heap s') b) * KR2.sizeof_Header ≠ n)
  ∧ (∃ s', KR2.mm_free 8 kr2_gap 69472 = Ok s'
           ∧ kr2_wf s' [(65536, 126, true); (69568, 2, false)])
  ∧ (∃ s', DLL.mm_free dll_gap 69504 = Ok s'
           ∧ dll_wf 0 s' [(65536, 253, true); (69584, 3, false)]
           ∧ adjacent_free [(65536, 253, true); (69584, 3, false)] = false
           ∧ ∀ b sb n sn,
               (b, sb, true) ∈ [(65536, 253, true); (69584, 3, false)] →
               (n, sn, true) ∈ [(65536, 253, true); (69584, 3, false)] →
               b + DLL.size (DLL.rd (DLL.heap s') b) * DLL.sizeof_Header ≠ n)
  ∧ (∃ s', DLL.mm_free dll_gap 69504 = Ok s'
           ∧ dll_wf 0 s' [(65536, 253, true); (69584, 3, false)]).
Proof.
  split; [|split; [|split]].
  - apply (proj1 C4_free_coalesces_neighbours 8%nat kr2_gap [(65536, 122, true)] 69440 2
             [(69504, 2, true); (69568, 2, false)]).
    + exact kr2_gap_wf.
    + reflexivity.
  - apply (proj1 (proj2 C4_free_coalesces_neighbours) 8%nat kr2_gap [] 65536 122 69440 2 69504 2
             [(69568, 2, false)]).
    exact kr2_gap_wf.
  - apply (proj1 (proj2 (proj2 C4_free_coalesces_neighbours)) dll_gap [(65536, 247, true)]
             69488 3 [(69536, 3, true); (69584, 3, false)] 2).
    + apply dll_wf_exempt. exact dll_gap_wf.
    + left. split; reflexivity.
    + reflexivity.
  - apply (proj2 (proj2 (proj2 C4_free_coalesces_neighbours)) dll_gap [] 65536 247 69488 3 69536 3
             [(69584, 3, false)] 2).
    + apply dll_wf_exempt. exact dll_gap_wf.
    + left. split; reflexivity.
Defined.

(** ** A failed allocation inside [mm_realloc] *)

Lemma kr2_same_refl q s : kr2_same q s s.
Proof. repeat split. Qed.

Lemma kr2_same_trans q s1 s2 s3 : kr2_same q s1 s2 → kr2_same q s2 s3 → kr2_same q s1 s3.
Proof.
  intros (A1 & A2 & A3 & A4) (B1 & B2 & B3 & B4).
  repeat split; congruence.
Qed.

Lemma kr2_upd_same q s s' p f :
  KR2.upd s p f = Ok s' →
  (p = q → KR2.is_free (f (KR2.rd (KR2.heap s) q)) = KR2.is_free (KR2.rd (KR2.heap s) q)
           ∧ KR2.size (f (KR2.rd (KR2.heap s) q)) = KR2.size (KR2.rd (KR2.heap s) q)) →
  kr2_same q s s'.
Proof.
  intros H Hf. apply kr2_upd_Ok in H as [_ ->].
  split; [reflexivity|]. split; [reflexivity|]. cbn [KR2.heap KR2.with_heap].
  rewrite kr2_rd_insert. destruct (decide (p = q)) as [->|]; [apply Hf; reflexivity|].
  split; reflexivity.
Qed.

Lemma kr2_connect_same q s s' p n :
  KR2.connect_dlinkedlist s p n = Ok s' → kr2_same q s s'.
Proof.
  unfold KR2.connect_dlinkedlist. intros H. inv_bind H.
  eapply kr2_same_trans; eapply kr2_upd_same; try eassumption; intros _; split; reflexivity.
Qed.

Lemma kr2_link_new_block_same q fuel s s' bp :
  KR2.link_new_block fuel s bp = Ok s' → kr2_same q s s'.
Proof.
  unfold KR2.link_new_block. intros H. inv_bind H.
  destruct (KR2.next x =? NULL).
  - inv_bind H. inv_bind H. inv_bind H.
    eapply kr2_same_trans; eapply kr2_connect_same; eassumption.
  - inversion H. apply kr2_same_refl.
Qed.

Lemma kr2_merge_next_same q s s' bp :
  KR2.merge_next s bp = Ok s' → bp ≠ q → kr2_same q s s'.
Proof.
  unfold KR2.merge_next. intros H Hne. inv_bind H. inv_bind H.
  destruct (_ && _).
  - inv_bind H. inv_bind H. inv_bind H.
    eapply kr2_same_trans; [eapply kr2_upd_same; [eassumption | intros; contradiction]|].
    eapply kr2_connect_same; eassumption.
  - inversion H. apply kr2_same_refl.
Qed.

Lemma kr2_merge_prev_same q s s' bp bp' :
  KR2.merge_prev s bp = Ok (s', bp') →
  KR2.is_free (KR2.rd (KR2.heap s) q) = false → kr2_same q s s'.
Proof.
  unfold KR2.merge_prev. intros H Hq. inv_bind H. inv_bind H. rename x0 into hp.
  destruct (KR2.is_free hp) eqn:Hfree; cbn [andb] in H.
  2: { inversion H. apply kr2_same_refl. }
  destruct (_ =? _).
  2: { inversion H. apply kr2_same_refl. }
  apply kr2_load_Ok in E0 as [_ ->].
  inv_bind H. inv_bind H. inv_bind H. inv_bind H. inversion H; subst.
  eapply kr2_same_trans; [eapply kr2_upd_same; [eassumption | intros Heq; congruence]|].
  eapply kr2_connect_same; eassumption.
Qed.

Lemma kr2_free_same q fuel s s' ap :
  KR2.mm_free fuel s ap = Ok s' →
  KR2.mm_block ap ≠ q →
  KR2.is_free (KR2.rd (KR2.heap s) q) = false → kr2_same q s s'.
Proof.
  unfold KR2.mm_free. intros H Hne Hq.
  destruct (ap =? NULL); [inversion H; apply kr2_same_refl|].
  cbv zeta in H. inv_bind H. destruct (negb _); [discriminate|].
  inv_bind H. rename x0 into s1. inv_bind H. rename x0 into s2.
  inv_bind H. rename x0 into s3. inv_bind H. destruct x0 as [s4 bp4].
  inv_bind H. inversion H; subst s'; clear H.
  pose proof (kr2_link_new_block_same q _ _ _ _ E0) as S1.
  assert (S2 : kr2_same q s1 s2) by (eapply kr2_upd_same; [eassumption | intros; contradiction]).
  pose proof (kr2_merge_next_same q _ _ _ E2 Hne) as S3.
  assert (Hq3 : KR2.is_free (KR2.rd (KR2.heap s3) q) = false).
  { destruct S1 as (_ & _ & A & _), S2 as (_ & _ & B & _), S3 as (_ & _ & C & _). congruence. }
  pose proof (kr2_merge_prev_same q _ _ _ _ E3 Hq3) as S4.
  assert (S5 : kr2_same q s4 (KR2.with_freep (KR2.prev x0) s4)) by (repeat split).
  eauto using kr2_same_trans.
Qed.

Lemma kr2_valid_ptr_pos s p :
  0 < KR2.base s → 0 <= mem_start_brk (KR2.arena s) →
  KR2.valid_ptr s p = true → 0 <= p.
Proof.
  intros Hb Hs Hv. apply kr2_valid_ptr_spec in Hv as [->|[->|(H & _)]]; lia.
Qed.

(** [morecore] leaves the size and the mark of a block in use below the
    break as they are. *)
Lemma kr2_morecore_keeps q fuel s nu p s' :
  KR2.morecore fuel s nu = Ok (p, s') →
  q < mem_brk (KR2.arena s) →
  KR2.is_free (KR2.rd (KR2.heap s) q) = false →
  KR2.base s' = KR2.base s
  ∧ mem_start_brk (KR2.arena s') = mem_start_brk (KR2.arena s)
  ∧ mem_brk (KR2.arena s) <= mem_brk (KR2.arena s')
  ∧ KR2.is_free (KR2.rd (KR2.heap s') q) = false
  ∧ KR2.size (KR2.rd (KR2.heap s') q) = KR2.size (KR2.rd (KR2.heap s) q).
Proof.
  unfold KR2.morecore. intros H Hq Hfree. cbv zeta in H.
  destruct (mem_sbrk _ _) as [[p0 a]|] eqn:Hsbrk.
  2: { inversion H; subst. repeat split; try reflexivity; try lia. exact Hfree. }
  unfold mem_sbrk in Hsbrk. destruct (_ <=? _); [|discriminate].
  inversion Hsbrk; subst p0 a; clear Hsbrk.
  match type of H with context [KR2.mm_bytes ?n] =>
    pose proof (wrap_range (n * KR2.sizeof_Header)) as Hw; fold (KR2.mm_bytes n) in Hw end.
  inv_bind H. rename x into s1. inv_bind H. rename x into s2.
  inv_bind H. rename x into s3. inv_bind H. rename x into s4.
  inversion H; subst p s'; clear H.
  assert (Hne : mem_brk (KR2.arena s) ≠ q) by lia.
  assert (S1 : kr2_same q _ s1) by (eapply kr2_upd_same; [eassumption | intros; contradiction]).
  assert (S2 : kr2_same q s1 s2) by (eapply kr2_upd_same; [eassumption | intros; contradiction]).
  assert (S3 : kr2_same q s2 s3) by (eapply kr2_upd_same; [eassumption | intros; contradiction]).
  pose proof (kr2_same_trans _ _ _ _ (kr2_same_trans _ _ _ _ S1 S2) S3) as S123.
  assert (S4 : kr2_same q s3 s4).
  { eapply kr2_free_same; [eassumption | |].
    - unfold KR2.mm_block. lia.
    - destruct S123 as (_ & _ & A & _). rewrite A. exact Hfree. }
  destruct (kr2_same_trans _ _ _ _ S123 S4) as (A1 & A2 & A3 & A4).
  cbn [KR2.base KR2.arena KR2.heap KR2.with_arena] in *.
  rewrite A1, A2, A3, A4. cbn [mem_start_brk mem_brk].
  repeat split; try reflexivity; try lia. exact Hfree.
Qed.

(** A walk of [mm_malloc] that ends with [NULL] leaves the size and the
    mark of a block in use as they are. *)
Lemma kr2_malloc_loop_keeps (q nunits : Z) (fuel : nat) :
  ∀ s prev_p p s1,
    0 < KR2.base s → 0 <= mem_start_brk (KR2.arena s) →
    q < mem_brk (KR2.arena s) →
    KR2.is_free (KR2.rd (KR2.heap s) q) = false →
    KR2.malloc_loop fuel s nunits prev_p p = Ok (NULL, s1) →
    KR2.is_free (KR2.rd (KR2.heap s1) q) = false
    ∧ KR2.size (KR2.rd (KR2.heap s1) q) = KR2.size (KR2.rd (KR2.heap s) q).
Proof.
  induction fuel as [|fuel IH]; intros s prev_p p s1 Hb Hs Hq Hfree H; [discriminate|].
  simpl in H. inv_bind H. rename x into hp.
  destruct (KR2.fits nunits hp).
  - exfalso. destruct (KR2.size hp =? nunits).
    + inv_bind H. apply kr2_upd_Ok in E0 as [Hv _].
      pose proof (kr2_valid_ptr_pos _ _ Hb Hs Hv).
      inversion H. unfold KR2.mm_payload, NULL, KR2.sizeof_Header in *. lia.
    + inv_bind H. rename x into s2. inv_bind H. inv_bind H.
      apply kr2_upd_Ok in E0 as [_ ->]. apply kr2_upd_Ok in E2 as [Hv _].
      pose proof (kr2_valid_ptr_pos _ _ Hb Hs Hv).
      inv_bind H. inv_bind H. inv_bind H.
      inversion H. unfold KR2.mm_payload, NULL, KR2.sizeof_Header in *. lia.
  - destruct (p =? KR2.freep s).
    + inv_bind H. destruct x as [q' s'].
      destruct (kr2_morecore_keeps q _ _ _ _ _ E0 Hq Hfree) as (A1 & A2 & A3 & A4 & A5).
      destruct (q' =? NULL).
      * inversion H; subst s1. cbn [KR2.heap KR2.with_errno]. split; assumption.
      * inv_bind H. rewrite <- A5.
        apply (IH s' q' (KR2.next x) s1); try assumption; lia.
    + apply (IH s p (KR2.next hp) s1); assumption.
Qed.

Lemma kr2_malloc_keeps q fuel s nbytes s1 :
  KR2.freep s ≠ NULL →
  0 < KR2.base s → 0 <= mem_start_brk (KR2.arena s) →
  q < mem_brk (KR2.arena s) →
  KR2.is_free (KR2.rd (KR2.heap s) q) = false →
  KR2.mm_malloc fuel s nbytes = Ok (NULL, s1) →
  KR2.is_free (KR2.rd (KR2.heap s1) q) = false
  ∧ KR2.size (KR2.rd (KR2.heap s1) q) = KR2.size (KR2.rd (KR2.heap s) q).
Proof.
  intros Hf Hb Hs Hq Hfree H. unfold KR2.mm_malloc in H.
  rewrite (proj2 (Z.eqb_neq _ _) Hf) in H. cbv zeta in H. inv_bind H.
  eapply kr2_malloc_loop_keeps; eassumption.
Qed.

Lemma dll_node_snoc_busy s s' bs x sx n sn :
  DLL.base s' = DLL.base s →
  dll_node s' (bs ++ [(x, sx, false)]) n sn ↔ dll_node s bs n sn.
Proof.
  intros Hb. unfold dll_node. rewrite Hb, elem_of_app, list_elem_of_singleton.
  split; [intros [H|[H|H]] | intros [H|H]]; auto. inversion H.
Qed.

(** The state in which [morecore] calls [mm_free]: the arena was extended
    by [nu] units and the size of the new block was set. *)
Lemma dll_wf_extend s bs nu p a :
  dll_wf 0 s bs →
  2 <= nu → nu * 16 < 2 ^ 64 →
  mem_sbrk (DLL.arena s) (nu * 16) = Some (p, a) →
  dll_wf p
    (DLL.with_heap (<[p := DLL.set_size nu (DLL.rd (DLL.heap s) p)]> (DLL.heap s))
       (DLL.with_arena a s))
    (bs ++ [(p, nu, false)])
  ∧ DLL.valid_ptr (DLL.with_arena a s) p = true
  ∧ p = mem_brk (DLL.arena s).
Proof.
  intros Hwf Hnu Hnu2 Hsbrk.
  unfold mem_sbrk in Hsbrk.
  destruct (Z.leb_spec (mem_brk (DLL.arena s) + nu * 16) (mem_max_addr (DLL.arena s)))
    as [Hle|]; [|discriminate].
  inversion Hsbrk; subst p a; clear Hsbrk.
  pose proof Hwf as [Hl Ht Hs Hbusy Hbase Hlinks].
  destruct (tiled_bounds DLL.sizeof_Header 2 _ _ _ ltac:(reflexivity) ltac:(lia) Ht)
    as (Hse & Hmod & Hbd).
  unfold DLL.sizeof_Header in *.
  set (brk := mem_brk (DLL.arena s)) in *.
  assert (Hchunk : ∀ y sy, dll_chunk s bs y sy → y ≠ brk ∧ y + sy * 16 - 1 * 16 ≠ brk).
  { intros y sy Cy. destruct (dll_chunk_range _ _ _ _ _ Hwf Cy) as (H1 & H2 & H3).
    fold brk in H3. destruct H3 as [[-> ->]|H3]; lia. }
  split; [|split; [|reflexivity]].
  - constructor; cbn [DLL.heap DLL.arena DLL.base DLL.with_heap DLL.with_arena
                        mem_start_brk mem_brk mem_max_addr].
    + unfold DLL.sizeof_Header. fold brk. lia.
    + apply tiled_app. exists brk. split; [exact Ht|]. simpl.
      unfold DLL.sizeof_Header. repeat split; lia.
    + intros y sy fy Hin. apply elem_of_app in Hin as [Hin|Hin].
      * destruct (Hchunk y sy (dll_block_chunk s _ _ _ _ Hin)) as [N1 _].
        rewrite dll_rd_insert_ne by dll_ne. exact (Hs _ _ _ Hin).
      * apply list_elem_of_singleton in Hin. inversion Hin; subst.
        rewrite dll_rd_insert_eq by reflexivity. reflexivity.
    + intros y sy Hin Hne. apply elem_of_app in Hin as [Hin|Hin].
      * destruct (Hchunk y sy (dll_block_chunk s _ _ _ _ Hin)) as [N1 N2].
        unfold dll_tail, DLL.sizeof_Header.
        rewrite !dll_rd_insert_ne by dll_ne.
        apply (Hbusy y sy Hin). destruct (Hbd _ _ _ Hin) as (? & _). lia.
      * apply list_elem_of_singleton in Hin. inversion Hin; subst. contradiction.
    + destruct (Hchunk (DLL.base s) 2 ltac:(left; auto)) as [N1 _].
      rewrite dll_rd_insert_ne by dll_ne. exact Hbase.
    + intros y sy Hy. apply (dll_node_snoc_busy s) in Hy; [|reflexivity].
      destruct (Hlinks y sy Hy) as [(n & sn & Hn & Hyn & Hny) (q & sq & Hq & Hyq & Hqy)].
      unfold dll_tail, DLL.sizeof_Header in *.
      destruct (Hchunk y sy (dll_node_chunk _ _ _ _ Hy)) as [Ny1 Ny2].
      destruct (Hchunk n sn (dll_node_chunk _ _ _ _ Hn)) as [Nn1 Nn2].
      destruct (Hchunk q sq (dll_node_chunk _ _ _ _ Hq)) as [Nq1 Nq2].
      split.
      * exists n, sn. split; [apply (dll_node_snoc_busy s); [reflexivity | exact Hn]|].
        rewrite !dll_rd_insert_ne by dll_ne. auto.
      * exists q, sq. split; [apply (dll_node_snoc_busy s); [reflexivity | exact Hq]|].
        rewrite !dll_rd_insert_ne by dll_ne. auto.
  - apply dll_valid_arena; cbn [DLL.arena DLL.with_arena mem_start_brk mem_max_addr];
      unfold DLL.sizeof_Header; [lia | lia | exact Hmod].
Qed.

Lemma merge_lower_busy l1 r0 r y sy :
  (y, sy, false) ∈ l1 → (y, sy, false) ∈ merge_lower l1 (r0 :: r).
Proof.
  destruct l1 as [|[[p sp] fp] l _] using rev_ind; [intros H; inversion H|].
  destruct r0 as [[x sx] fx]. intros H. destruct fp.
  - rewrite merge_lower_snoc_free. apply elem_of_app in H as [H|H].
    + apply elem_of_app. left. exact H.
    + apply list_elem_of_singleton in H. inversion H.
  - rewrite merge_lower_snoc_busy. apply elem_of_app in H as [H|H].
    + apply elem_of_app. left. exact H.
    + apply list_elem_of_singleton in H. rewrite H. apply elem_of_middle.
Qed.

Lemma dll_wf_with_errno ex s bs e : dll_wf ex s bs → dll_wf ex (DLL.with_errno e s) bs.
Proof. intros [H1 H2 H3 H4 H5 H6]. constructor; assumption. Qed.

(** A block whose size field exceeds the address space cannot be freed:
    the store to its last unit faults. *)
Lemma dll_free_oversized s bp s' :
  DLL.base s + 2 * 16 <= mem_start_brk (DLL.arena s) →
  mem_max_addr (DLL.arena s) <= 2 ^ 64 →
  0 < DLL.base s → mem_start_brk (DLL.arena s) <= bp →
  2 ^ 64 <= DLL.size (DLL.rd (DLL.heap s) bp) * 16 →
  DLL.mm_free s (bp + 1 * DLL.sizeof_Header) = Ok s' → False.
Proof.
  intros Hb Hmax Hb0 Hbp Hsz H.
  unfold DLL.mm_free, DLL.mm_block in H.
  rewrite (proj2 (Z.eqb_neq _ _)) in H by (unfold NULL, DLL.sizeof_Header; lia).
  cbv zeta in H.
  replace (bp + 1 * DLL.sizeof_Header - 1 * DLL.sizeof_Header) with bp in H by lia.
  inv_bind H. destruct (negb _); [discriminate|].
  inv_bind H. inv_bind H. rename x1 into s1. inv_bind H. rename x1 into s2.
  unfold DLL.link_header in E2. inv_bind E2. rename x1 into s3.
  inv_bind E2. rename x1 into t.
  unfold DLL.mm_tail in E4. inv_bind E4. inversion E4; subst t; clear E4.
  apply dll_load_Ok in E5 as [_ ->].
  rewrite (dll_upd_size_frame _ _ _ _ E3) in E2 by reflexivity.
  rewrite (dll_link_size_frame _ _ _ _ E1) in E2.
  apply dll_upd_Ok in E2 as [Hv _].
  apply dll_upd_Ok in E3 as [_ ->].
  unfold DLL.link_header in E1. inv_bind E1. inv_bind E1.
  apply dll_upd_Ok in E1 as [_ ->]. apply dll_upd_Ok in E2 as [_ ->].
  apply dll_valid_ptr_spec in Hv. cbn [DLL.base DLL.arena DLL.with_heap] in Hv.
  unfold DLL.sizeof_Header in *. lia.
Qed.

(** What [morecore] does to a well-formed heap: either [mem_sbrk] refuses
    and nothing changes, or the heap is extended, stays well formed, keeps
    its blocks in use, and the result is the new [freep]. *)
Lemma dll_morecore_wf s bs sf nunits p s1 :
  dll_wf 0 s bs → dll_node s bs (DLL.freep s) sf → 2 <= nunits →
  DLL.morecore s nunits = Ok (p, s1) →
  (p = NULL ∧ s1 = s)
  ∨ (∃ bs1 sf1,
       dll_wf 0 s1 bs1 ∧ dll_node s1 bs1 (DLL.freep s1) sf1 ∧ p = DLL.freep s1
       ∧ (∀ y sy, (y, sy, false) ∈ bs → (y, sy, false) ∈ bs1)
       ∧ mem_brk (DLL.arena s) < mem_brk (DLL.arena s1)).
Proof.
  intros Hwf Hf Hn H. unfold DLL.morecore in H.
  set (nalloc := mem_pagesize (DLL.arena s) / DLL.sizeof_Header) in *.
  set (nu := if nunits <? nalloc then nalloc else nunits) in *.
  assert (Hnu : 2 <= nu) by (unfold nu; destruct (Z.ltb_spec nunits nalloc); lia).
  cbv zeta in H.
  destruct (mem_sbrk (DLL.arena s) (DLL.mm_bytes nu)) as [[p0 a]|] eqn:Hsbrk.
  2: { left. inversion H. auto. }
  right. inv_bind H. rename x into s0. inv_bind H. rename x into s2.
  inversion H; subst p s1; clear H.
  pose proof (dll_wf_layout _ _ _ Hwf) as Hl.
  destruct (Z.lt_ge_cases (nu * 16) (2 ^ 64)) as [Hsmall|Hbig].
  - assert (Hb : DLL.mm_bytes nu = nu * 16)
      by (unfold DLL.mm_bytes, DLL.sizeof_Header; apply wrap_small; lia).
    rewrite Hb in Hsbrk.
    destruct (dll_wf_extend s bs nu p0 a Hwf Hnu Hsmall Hsbrk) as (Hwf0 & Hv & Hp0).
    rewrite (dll_upd_valid _ _ _ Hv) in E. inversion E; subst s0; clear E.
    assert (Hf0 : dll_node
              (DLL.with_heap (<[p0 := DLL.set_size nu (DLL.rd (DLL.heap (DLL.with_arena a s)) p0)]>
                                (DLL.heap (DLL.with_arena a s))) (DLL.with_arena a s))
              (bs ++ [(p0, nu, false)]) (DLL.freep s) sf).
    { apply (dll_node_snoc_busy s); [reflexivity | exact Hf]. }
    destruct (dll_free_wf _ bs p0 nu [] sf Hwf0 Hf0) as (s' & E' & Hwf' & (sf' & Hf') & Ha').
    unfold DLL.mm_payload in E'. rewrite E' in E0. inversion E0; subst s2; clear E0.
    exists (free_block bs p0 nu []), sf'.
    split; [exact Hwf'|]. split; [exact Hf'|]. split; [reflexivity|]. split.
    + intros y sy Hin. unfold free_block. simpl. apply merge_lower_busy. exact Hin.
    + rewrite Ha'. cbn [DLL.arena DLL.with_heap DLL.with_arena].
      unfold mem_sbrk in Hsbrk. destruct (_ <=? _); [|discriminate].
      inversion Hsbrk. cbn [mem_brk]. lia.
  - exfalso.
    assert (Hp0 : p0 = mem_brk (DLL.arena s) ∧ mem_start_brk a = mem_start_brk (DLL.arena s)
                  ∧ mem_max_addr a = mem_max_addr (DLL.arena s)).
    { unfold mem_sbrk in Hsbrk. destruct (_ <=? _); [|discriminate].
      inversion Hsbrk. auto. }
    destruct Hp0 as (Hp0 & Hst & Hmx).
    destruct (tiled_bounds DLL.sizeof_Header 2 _ _ _ ltac:(reflexivity) ltac:(lia)
                (dll_wf_tiled _ _ _ Hwf)) as (Hse & _).
    pose proof E as E1. apply dll_upd_Ok in E1 as [_ ->].
    refine (dll_free_oversized _ p0 s2 _ _ _ _ _ E0);
      cbn [DLL.base DLL.arena DLL.heap DLL.with_heap DLL.with_arena];
      unfold DLL.sizeof_Header in *; try lia.
    rewrite dll_rd_insert_eq by reflexivity. cbn [DLL.size DLL.set_size]. lia.
Qed.

Lemma dll_wf_size_bound ex s bs n sn :
  dll_wf ex s bs → dll_node s bs n sn → sn < 2 ^ 64.
Proof.
  intros Hwf Hn. destruct (dll_wf_node _ _ _ _ _ Hwf Hn) as (_ & _ & H0 & _ & _ & [[_ ->]|H]).
  - pow2. lia.
  - pose proof (dll_wf_layout _ _ _ Hwf) as Hl. lia.
Qed.

(** A walk of [mm_malloc] over a well-formed heap that ends with [NULL]:
    the heap is still well formed and the blocks in use are still in use;
    nothing but [errno] has changed unless the arena was extended on the
    way. *)
Lemma dll_malloc_loop_fails (nunits : Z) (fuel : nat) :
  2 <= nunits → nunits + 2 < 2 ^ 64 →
  ∀ s bs sf prevp p sp s1,
    dll_wf 0 s bs → dll_node s bs (DLL.freep s) sf → dll_node s bs p sp →
    DLL.malloc_loop fuel s nunits prevp p = Ok (NULL, s1) →
    ∃ bs1 sf1,
      dll_wf 0 s1 bs1 ∧ dll_node s1 bs1 (DLL.freep s1) sf1
      ∧ (∀ y sy, (y, sy, false) ∈ bs → (y, sy, false) ∈ bs1)
      ∧ (s1 = DLL.with_errno ENOMEM s ∨ mem_brk (DLL.arena s) < mem_brk (DLL.arena s1)).
Proof.
  intros Hn1 Hn2. induction fuel as [|fuel IH]; intros s bs sf prevp p sp s1 Hwf Hf Hp H;
    [discriminate|].
  destruct (dll_wf_node _ _ _ _ _ Hwf Hp) as (Hvp & _ & Hp0 & _ & Hsz & _).
  pose proof (dll_load_valid _ _ Hvp) as Hld.
  destruct (DLL.fits nunits (DLL.rd (DLL.heap s) p)) eqn:Hfit.
  - exfalso.
    pose proof (dll_wf_size_bound _ _ _ _ _ Hwf Hp) as Hb. rewrite <- Hsz in Hb.
    destruct (dll_malloc_accepts fuel s s1 nunits prevp p NULL _ Hld Hfit ltac:(lia) Hn2 Hb H)
      as [[_ E]|(Hk & E & _)]; unfold NULL, DLL.mm_payload, DLL.sizeof_Header in E; lia.
  - simpl in H. rewrite Hld in H. cbn [mbind result_bind] in H. rewrite Hfit in H.
    destruct (Z.eqb_spec p (DLL.freep s)) as [Epf|Npf].
    + inv_bind H. destruct x as [q s'].
      destruct (dll_morecore_wf _ _ _ _ _ _ Hwf Hf Hn1 E)
        as [[-> ->]|(bs1 & sf1 & Hwf1 & Hf1 & -> & Hkeep & Hbrk)].
      * rewrite Z.eqb_refl in H. inversion H; subst s1.
        exists bs, sf. split; [apply dll_wf_with_errno; exact Hwf|].
        split; [exact Hf|]. split; [auto|]. left. reflexivity.
      * rewrite (dll_node_nonzero _ _ _ _ _ Hwf1 Hf1) in H.
        destruct (dll_wf_node _ _ _ _ _ Hwf1 Hf1) as (Hvf & _).
        rewrite (dll_load_valid _ _ Hvf) in H. cbn [mbind result_bind] in H.
        destruct (dll_wf_links _ _ _ Hwf1 _ _ Hf1) as [(n & sn & Hnn & Hfn & _) _].
        rewrite Hfn in H.
        destruct (IH _ _ _ _ _ _ _ Hwf1 Hf1 Hnn H) as (bs2 & sf2 & Hwf2 & Hf2 & Hkeep2 & Hch).
        exists bs2, sf2. split; [exact Hwf2|]. split; [exact Hf2|]. split; [auto|].
        right. destruct Hch as [->|Hlt]; [exact Hbrk | lia].
    + destruct (dll_wf_links _ _ _ Hwf _ _ Hp) as [(n & sn & Hnn & Hpn & _) _].
      rewrite Hpn in H. exact (IH _ _ _ _ _ _ _ Hwf Hf Hnn H).
Qed.

Lemma dll_malloc_fails fuel s bs sf nbytes s1 :
  dll_wf 0 s bs → dll_node s bs (DLL.freep s) sf →
  DLL.mm_malloc fuel s nbytes = Ok (NULL, s1) →
  ∃ bs1 sf1,
    dll_wf 0 s1 bs1 ∧ dll_node s1 bs1 (DLL.freep s1) sf1
    ∧ (∀ y sy, (y, sy, false) ∈ bs → (y, sy, false) ∈ bs1)
    ∧ (s1 = DLL.with_errno ENOMEM s ∨ mem_brk (DLL.arena s) < mem_brk (DLL.arena s1)).
Proof.
  intros Hwf Hf H. unfold DLL.mm_malloc in H.
  rewrite (dll_node_nonzero _ _ _ _ _ Hwf Hf) in H. cbv zeta in H.
  destruct (dll_wf_node _ _ _ _ _ Hwf Hf) as (Hvf & _).
  rewrite (dll_load_valid _ _ Hvf) in H. cbn [mbind result_bind] in H.
  destruct (dll_wf_links _ _ _ Hwf _ _ Hf) as [(n & sn & Hnn & Hfn & _) _].
  rewrite Hfn in H.
  pose proof (dll_mm_units_range nbytes) as Hr.
  refine (dll_malloc_loop_fails _ fuel _ _ s bs sf _ n sn s1 Hwf Hf Hnn H); pow2; lia.
Qed.

Lemma dll_small_wf : dll_wf 0 dll_small [(65536, 253, true); (69584, 3, false)].
Proof.
  assert (Hbase : dll_node dll_small [(65536, 253, true); (69584, 3, false)] 4096 2)
    by (left; split; reflexivity).
  assert (HF : dll_node dll_small [(65536, 253, true); (69584, 3, false)] 65536 253)
    by (right; repeat constructor).
  constructor.
  - vm_compute. repeat split; discriminate.
  - vm_compute. repeat split; discriminate.
  - intros x sx fx H. elem_cases H; vm_compute; reflexivity.
  - intros x sx H _. elem_cases H; vm_compute; split; reflexivity.
  - vm_compute. reflexivity.
  - intros x sx [[-> ->]|H].
    + split; exists 65536, 253; (split; [assumption|]); vm_compute; split; reflexivity.
    + elem_cases H.
      split; exists 4096, 2; (split; [assumption|]); vm_compute; split; reflexivity.
Qed.

(** C6.  When the [mm_malloc] that [mm_realloc] performs returns [NULL],
    [mm_realloc] returns [NULL] and leaves the state that this [mm_malloc]
    left: it copies nothing and frees nothing.  The old block is still in
    use, with its size.

    For [mm_heap_kr2.c] this holds on every initialised state with the
    sentinel and the arena at positive addresses, for every block in use
    below the break: its header keeps its size and its [isFree] mark.

    For [mm_heap_dll.c] it holds on every well-formed heap: the heap is
    still well formed, for a block list that has every block that was in
    use, and the state is the old one with [errno] set unless the arena
    was extended on the way. *)
Theorem C6_realloc_failure_keeps_old_block :
  (∀ (fuel : nat) (s s1 : KR2.state) (bp newsize : Z),
      KR2.freep s ≠ NULL →
      0 < KR2.base s → 0 <= mem_start_brk (KR2.arena s) →
      KR2.valid_ptr s bp = true → bp < mem_brk (KR2.arena s) →
      KR2.is_free (KR2.rd (KR2.heap s) bp) = false →
      (0 <? newsize) && (KR2.mm_units newsize <=? KR2.size (KR2.rd (KR2.heap s) bp)) = false →
      KR2.mm_malloc fuel s newsize = Ok (NULL, s1) →
      KR2.mm_realloc fuel s (KR2.mm_payload bp) newsize = Ok (NULL, s1)
      ∧ KR2.is_free (KR2.rd (KR2.heap s1) bp) = false
      ∧ KR2.size (KR2.rd (KR2.heap s1) bp) = KR2.size (KR2.rd (KR2.heap s) bp))
  ∧ (∀ (fuel : nat) (s s1 : DLL.state) (bs : list Block) (sf bp sz newsize : Z),
      dll_wf 0 s bs → dll_node s bs (DLL.freep s) sf →
      (bp, sz, false) ∈ bs →
      (0 <? newsize) && (DLL.mm_units newsize <=? sz) = false →
      DLL.mm_malloc fuel s newsize = Ok (NULL, s1) →
      DLL.mm_realloc fuel s (DLL.mm_payload bp) newsize = Ok (NULL, s1)
      ∧ (∃ bs1 sf1,
           dll_wf 0 s1 bs1 ∧ dll_node s1 bs1 (DLL.freep s1) sf1
           ∧ ∀ y sy, (y, sy, false) ∈ bs → (y, sy, false) ∈ bs1)
      ∧ (s1 = DLL.with_errno ENOMEM s
         ∨ mem_brk (DLL.arena s) < mem_brk (DLL.arena s1))).
Proof.
  split.
  - intros fuel s s1 bp newsize Hf Hb Hs Hv Hq Hfree Hsmall Hm.
    split; [|exact (kr2_malloc_keeps bp fuel s newsize s1 Hf Hb Hs Hq Hfree Hm)].
    pose proof (kr2_valid_ptr_pos _ _ Hb Hs Hv) as Hpos.
    unfold KR2.mm_realloc, KR2.mm_payload, KR2.mm_block.
    rewrite (proj2 (Z.eqb_neq _ _)) by (unfold NULL, KR2.sizeof_Header; lia).
    cbv zeta.
    replace (bp + 1 * KR2.sizeof_Header - 1 * KR2.sizeof_Header) with bp by lia.
    rewrite (kr2_load_valid _ _ Hv). cbn [mbind result_bind].
    rewrite Hsmall, Hm. reflexivity.
  - intros fuel s s1 bs sf bp sz newsize Hwf Hf Hin Hsmall Hm.
    destruct (dll_malloc_fails fuel s bs sf newsize s1 Hwf Hf Hm)
      as (bs1 & sf1 & Hwf1 & Hf1 & Hkeep & Hch).
    split; [|split; [exists bs1, sf1; auto | exact Hch]].
    destruct (dll_wf_block _ _ _ _ _ _ Hwf Hin) as (Hv & _ & Hx1 & _ & _ & Hsz).
    pose proof (dll_wf_layout _ _ _ Hwf) as Hl.
    unfold DLL.mm_realloc, DLL.mm_payload, DLL.mm_block.
    rewrite (proj2 (Z.eqb_neq _ _)) by (unfold NULL, DLL.sizeof_Header in *; lia).
    cbv zeta.
    replace (bp + 1 * DLL.sizeof_Header - 1 * DLL.sizeof_Header) with bp by lia.
    rewrite (dll_load_valid _ _ Hv). cbn [mbind result_bind].
    rewrite Hsz, Hsmall, Hm. reflexivity.
Qed.

Lemma C6_realloc_failure_keeps_old_block_witness :
  (KR2.mm_realloc 8 kr2_small 69600 8192 = Ok (NULL, KR2.with_errno ENOMEM kr2_small)
   ∧ KR2.is_free (KR2.rd (KR2.heap (KR2.with_errno ENOMEM kr2_small)) 69568) = false
   ∧ KR2.size (KR2.rd (KR2.heap (KR2.with_errno ENOMEM kr2_small)) 69568)
     = KR2.size (KR2.rd (KR2.heap kr2_small) 69568))
  ∧ (DLL.mm_realloc 8 dll_small 69600 8192 = Ok (NULL, DLL.with_errno ENOMEM dll_small)
     ∧ (∃ bs1 sf1,
          dll_wf 0 (DLL.with_errno ENOMEM dll_small) bs1
          ∧ dll_node (DLL.with_errno ENOMEM dll_small) bs1
              (DLL.freep (DLL.with_errno ENOMEM dll_small)) sf1
          ∧ ∀ y sy, (y, sy, false) ∈ [(65536, 253, true); (69584, 3, false)] →
                    (y, sy, false) ∈ bs1)
     ∧ (DLL.with_errno ENOMEM dll_small = DLL.with_errno ENOMEM dll_small
        ∨ mem_brk (DLL.arena dll_small)
          < mem_brk (DLL.arena (DLL.with_errno ENOMEM dll_small)))).
Proof.
  split.
  - apply (proj1 C6_realloc_failure_keeps_old_block 8%nat kr2_small
             (KR2.with_errno ENOMEM kr2_small) 69568 8192).
    + vm_compute. discriminate.
    + vm_compute. reflexivity.
    + vm_compute. discriminate.
    + vm_compute. reflexivity.
    + vm_compute. reflexivity.
    + vm_compute. reflexivity.
    + vm_compute. reflexivity.
    + vm_compute. reflexivity.
  - apply (proj2 C6_realloc_failure_keeps_old_block 8%nat dll_small
             (DLL.with_errno ENOMEM dll_small)
             [(65536, 253, true); (69584, 3, false)] 2 69584 3 8192).
    + exact dll_small_wf.
    + left. split; reflexivity.
    + repeat constructor.
    + vm_compute. reflexivity.
    + vm_compute. reflexivity.
Defined.

(** The second case of [mm_heap_dll.c] occurs: with pages of 256 units a
    request of 255 units makes [morecore] add a page that no request of 255
    units can be served from (the rest of one unit is not allowed), and the
    walk comes round to a second extension; when that one fails,
    [mm_realloc] returns [NULL] and the page stays on the free list. *)
Remark dll_realloc_fails_after_an_extension :
  ∃ p s s',
    DLL.mm_malloc 8 (DLL.fresh 4096 65536 8192 4096) 16 = Ok (p, s)
    ∧ DLL.mm_realloc 8 s p 4040 = Ok (NULL, s')
    ∧ DLL.mm_units 4040 = 255
    ∧ mem_brk (DLL.arena s) = 69632 ∧ mem_brk (DLL.arena s') = 73728
    ∧ DLL.errno s' = ENOMEM.
Proof.
  eexists _, _, _. split; [vm_compute; reflexivity|].
  split; [vm_compute; reflexivity|]. repeat split; vm_compute; reflexivity.
Qed.

(** * Further properties of the code *)

Lemma kr2_init_base_wf (s : KR2.state) :
  0 < KR2.base s →
  KR2.base s + KR2.sizeof_Header <= mem_start_brk (KR2.arena s) →
  mem_start_brk (KR2.arena s) = mem_brk (KR2.arena s) →
  mem_brk (KR2.arena s) <= mem_max_addr (KR2.arena s) →
  mem_max_addr (KR2.arena s) <= 2 ^ 64 →
  kr2_wf (KR2.init_base s) [].
Proof.
  intros H1 H2 H3 H4 H5. unfold KR2.init_base.
  constructor; cbn [KR2.heap KR2.arena KR2.base KR2.with_heap KR2.with_freep].
  - auto.
  - simpl. exact H3.
  - intros x sx fx H. inversion H.
  - unfold kr2_next_of. cbn [KR2.heap KR2.arena KR2.base KR2.with_heap KR2.with_freep].
    rewrite Z.mul_0_l, Z.add_0_r, H3, Z.eqb_refl.
    rewrite kr2_rd_insert_eq by reflexivity. repeat split.
Qed.

Lemma dll_init_base_wf (s : DLL.state) :
  0 < DLL.base s →
  DLL.base s + 2 * DLL.sizeof_Header <= mem_start_brk (DLL.arena s) →
  mem_start_brk (DLL.arena s) = mem_brk (DLL.arena s) →
  mem_brk (DLL.arena s) <= mem_max_addr (DLL.arena s) →
  mem_max_addr (DLL.arena s) <= 2 ^ 64 →
  dll_wf 0 (DLL.init_base s) [].
Proof.
  intros H1 H2 H3 H4 H5. unfold DLL.init_base. cbv zeta.
  assert (N : DLL.base s + 1 * DLL.sizeof_Header ≠ DLL.base s) by (unfold DLL.sizeof_Header; lia).
  assert (N' : DLL.base s ≠ DLL.base s + 1 * DLL.sizeof_Header) by (unfold DLL.sizeof_Header; lia).
  constructor; cbn [DLL.heap DLL.arena DLL.base DLL.with_heap DLL.with_freep].
  - auto.
  - simpl. exact H3.
  - intros x sx fx H. inversion H.
  - intros x sx H. inversion H.
  - rewrite dll_rd_insert_eq by reflexivity. reflexivity.
  - intros x sx [[-> ->]|H]; [|inversion H].
    cbn [DLL.heap DLL.arena DLL.base DLL.with_heap DLL.with_freep].
    unfold dll_tail, DLL.sizeof_Header in *.
    split; exists (DLL.base s), 2; (split; [left; split; reflexivity|]);
      split; dll_rd; reflexivity.
Qed.

(** X1.  [mm_init], [mm_reset] and [mm_deinit] leave an empty heap,
    whatever the state before held: [freep] is the sentinel, which is
    linked to itself, the arena is empty, and the heap is well formed for
    the empty block list. *)
Theorem X1_init_leaves_an_empty_heap :
  (∀ s s' : KR2.state,
      0 < KR2.base s →
      KR2.base s + KR2.sizeof_Header <= mem_start_brk (KR2.arena s) →
      mem_start_brk (KR2.arena s) <= mem_max_addr (KR2.arena s) →
      mem_max_addr (KR2.arena s) <= 2 ^ 64 →
      s' = KR2.mm_init s ∨ s' = KR2.mm_reset s ∨ s' = KR2.mm_deinit s →
      kr2_wf s' [] ∧ KR2.freep s' = KR2.base s ∧ KR2.base s' = KR2.base s
      ∧ KR2.next (KR2.rd (KR2.heap s') (KR2.base s)) = KR2.base s
      ∧ KR2.prev (KR2.rd (KR2.heap s') (KR2.base s)) = KR2.base s
      ∧ mem_heapsize (KR2.arena s') = 0)
  ∧ (∀ s s' : DLL.state,
      0 < DLL.base s →
      DLL.base s + 2 * DLL.sizeof_Header <= mem_start_brk (DLL.arena s) →
      mem_start_brk (DLL.arena s) <= mem_max_addr (DLL.arena s) →
      mem_max_addr (DLL.arena s) <= 2 ^ 64 →
      s' = DLL.mm_init s ∨ s' = DLL.mm_reset s ∨ s' = DLL.mm_deinit s →
      dll_wf 0 s' [] ∧ DLL.freep s' = DLL.base s ∧ DLL.base s' = DLL.base s
      ∧ DLL.ptr (DLL.rd (DLL.heap s') (DLL.base s)) = DLL.base s
      ∧ DLL.ptr (DLL.rd (DLL.heap s') (DLL.base s + 1 * DLL.sizeof_Header)) = DLL.base s
      ∧ mem_heapsize (DLL.arena s') = 0).
Proof.
  split.
  - intros s s' H1 H2 H3 H4 Hs'.
    assert (E : s' = KR2.init_base (KR2.with_arena (mem_init (KR2.arena s)) s))
      by (destruct Hs' as [E|[E|E]]; rewrite E; reflexivity).
    subst s'. split; [apply kr2_init_base_wf; simpl; auto; lia|].
    unfold KR2.init_base. cbn [KR2.heap KR2.arena KR2.base KR2.freep KR2.with_heap
                                 KR2.with_freep KR2.with_arena].
    rewrite kr2_rd_insert_eq by reflexivity.
    repeat split. unfold mem_heapsize. simpl. lia.
  - intros s s' H1 H2 H3 H4 Hs'.
    assert (E : s' = DLL.init_base (DLL.with_arena (mem_init (DLL.arena s)) s))
      by (destruct Hs' as [E|[E|E]]; rewrite E; reflexivity).
    subst s'. split; [apply dll_init_base_wf; simpl; auto; lia|].
    unfold DLL.init_base. cbv zeta.
    cbn [DLL.heap DLL.arena DLL.base DLL.freep DLL.with_heap DLL.with_freep DLL.with_arena].
    unfold DLL.sizeof_Header. repeat split; try (dll_rd; reflexivity).
    unfold mem_heapsize. simpl. lia.
Qed.

Lemma X1_init_leaves_an_empty_heap_witness :
  kr2_wf (KR2.mm_reset kr2_s1) [] ∧ KR2.freep (KR2.mm_reset kr2_s1) = 4096
  ∧ dll_wf 0 (DLL.mm_reset dll_s1) [] ∧ DLL.freep (DLL.mm_reset dll_s1) = 4096.
Proof.
  destruct (proj1 X1_init_leaves_an_empty_heap kr2_s1 (KR2.mm_reset kr2_s1))
    as (A & B & _); [vm_compute; reflexivity | vm_compute; discriminate
                     | vm_compute; discriminate | vm_compute; discriminate | auto |].
  destruct (proj2 X1_init_leaves_an_empty_heap dll_s1 (DLL.mm_reset dll_s1))
    as (C & D & _); [vm_compute; reflexivity | vm_compute; discriminate
                     | vm_compute; discriminate | vm_compute; discriminate | auto |].
  split; [exact A|]. split; [exact B|]. split; [exact C | exact D].
Defined.

Lemma kr2_validate_header_wf s bs x sx fx :
  kr2_wf s bs → (x, sx, fx) ∈ bs → KR2.validate_header s x = Ok true.
Proof.
  intros Hwf Hin.
  pose proof (kr2_wf_block_valid s _ x sx fx Hwf Hin) as (Hvx & Hx1 & Hx2 & Hx3 & Hvn).
  pose proof Hwf as [Hl Ht Hb Hbase].
  destruct (Hb x sx fx Hin) as (Hc1 & Hc2 & Hc3 & Hc4).
  apply list_elem_of_split in Hin as (l1 & l2 & ->).
  unfold KR2.validate_header. rewrite (kr2_load_valid _ _ Hvx). cbn [mbind result_bind].
  cbv zeta. rewrite Hc3, Hc1.
  assert (Hprev : ∃ p, KR2.prev (KR2.rd (KR2.heap s) x) = p ∧ KR2.valid_ptr s p = true
                       ∧ KR2.next (KR2.rd (KR2.heap s) p) = x
                       ∧ (p = KR2.base s
                          ∨ p + KR2.size (KR2.rd (KR2.heap s) p) * KR2.sizeof_Header = x)).
  { destruct (kr2_prev_cases s l1 x sx fx l2 Hwf) as [[-> Hp]|(l & p & sp & fp & -> & Hp & Hpx)].
    - exists (KR2.base s). split; [exact Hp|]. split; [apply kr2_valid_base|].
      split; [|left; reflexivity].
      destruct Hbase as (_ & _ & Hn & _). rewrite Hn.
      simpl in Ht. destruct Ht as (Hxs & _).
      unfold kr2_next_of, KR2.sizeof_Header in *.
      destruct (Z.eqb_spec (mem_start_brk (KR2.arena s) + 0 * 32) (mem_brk (KR2.arena s))); lia.
    - exists p. split; [exact Hp|].
      rewrite <- app_assoc in Hwf. simpl in Hwf.
      pose proof (kr2_wf_block_valid s _ p sp fp Hwf (elem_of_middle _ _ _)) as (Hvp & _).
      split; [exact Hvp|].
      pose proof (kr2_next_of_cases s _ l p sp fp _ Hwf eq_refl) as Hn. simpl in Hn.
      destruct (kr2_wf_blocks _ _ Hwf p sp fp (elem_of_middle _ _ _)) as (Hs1 & _ & Hs3 & _).
      rewrite Hs3, Hs1. destruct Hn as [Hn _]. split; [exact Hn|].
      right. unfold KR2.sizeof_Header. exact Hpx. }
  destruct Hprev as (p & Hp & Hvp & Hpn & Hpx). rewrite Hp.
  rewrite (kr2_load_valid _ _ Hvp). cbn [mbind result_bind].
  rewrite Hpn, Z.eqb_refl. cbn [negb].
  rewrite (kr2_load_valid _ _ Hvn). cbn [mbind result_bind].
  rewrite Hc4, Z.eqb_refl. cbn [negb].
  assert (T3 : (p <? x) && negb (p =? KR2.base s)
               && negb (p + KR2.size (KR2.rd (KR2.heap s) p) * KR2.sizeof_Header =? x) = false).
  { destruct Hpx as [->|<-].
    - rewrite Z.eqb_refl. cbn [negb]. apply andb_false_iff. left. apply andb_false_r.
    - rewrite Z.eqb_refl. cbn [negb]. apply andb_false_r. }
  rewrite T3.
  assert (T4 : (x <? kr2_next_of s x sx)
               && negb (x + sx * KR2.sizeof_Header =? kr2_next_of s x sx) = false).
  { unfold kr2_next_of. destruct Hl as (Hl1 & Hl2 & _). unfold KR2.sizeof_Header in *.
    destruct (Z.eqb_spec (x + sx * 32) (mem_brk (KR2.arena s))).
    - rewrite (proj2 (Z.ltb_ge _ _)) by lia. reflexivity.
    - rewrite Z.eqb_refl. apply andb_false_r. }
  rewrite T4. reflexivity.
Qed.

(** X2.  The check that [mm_heap_kr2.c] has for a header,
    [validate_header], succeeds on every block of a well-formed heap, and
    so on every block of the heap that [mm_free] leaves: the [assert]s on
    it that the source has commented out would hold. *)
Theorem X2_validate_header_on_well_formed_heaps :
  (∀ s bs x sx fx,
      kr2_wf s bs → (x, sx, fx) ∈ bs → KR2.validate_header s x = Ok true)
  ∧ (∀ fuel s l1 x sx l2,
       kr2_wf s (l1 ++ (x, sx, false) :: l2) →
       ∃ s', KR2.mm_free fuel s (KR2.mm_payload x) = Ok s'
             ∧ ∀ y sy fy, (y, sy, fy) ∈ free_block l1 x sx l2 →
                 KR2.validate_header s' y = Ok true).
Proof.
  split.
  - exact kr2_validate_header_wf.
  - intros fuel s l1 x sx l2 Hwf.
    destruct (kr2_free_wf fuel s l1 x sx l2 Hwf) as (s' & E & Hwf' & _).
    exists s'. split; [exact E|]. intros y sy fy Hin.
    exact (kr2_validate_header_wf _ _ _ _ _ Hwf' Hin).
Qed.

Lemma X2_validate_header_on_well_formed_heaps_witness :
  KR2.validate_header kr2_gap 69440 = Ok true
  ∧ ∃ s', KR2.mm_free 8 kr2_gap 69472 = Ok s'
          ∧ ∀ y sy fy, (y, sy, fy) ∈ [(65536, 126, true); (69568, 2, false)] →
              KR2.validate_header s' y = Ok true.
Proof.
  split.
  - apply (proj1 X2_validate_header_on_well_formed_heaps kr2_gap _ 69440 2 false kr2_gap_wf).
    repeat constructor.
  - apply (proj2 X2_validate_header_on_well_formed_heaps 8%nat kr2_gap [(65536, 122, true)]
             69440 2 [(69504, 2, true); (69568, 2, false)] kr2_gap_wf).
Defined.

Lemma tiled_units hsz m a bs e :
  0 <= m → tiled hsz m a bs e → e = a + units_of bs * hsz ∧ 0 <= units_of bs.
Proof.
  intros Hm. revert a. induction bs as [|[[x sx] fx] bs IH]; intros a; simpl.
  - intros ->. lia.
  - intros (-> & Hs & Ht). destruct (IH _ Ht) as [-> H0]. lia.
Qed.

Lemma kr2_getfree_loop_wf s l2 :
  ∀ l1 x sx fx fuel res,
    kr2_wf s (l1 ++ (x, sx, fx) :: l2) →
    (length l2 < fuel)%nat →
    0 <= res → res + units_of l2 < 2 ^ 64 →
    KR2.getfree_loop fuel s x res = Ok (res + units_of l2).
Proof.
  induction l2 as [|[[n sn] fn] l2 IH]; intros l1 x sx fx fuel res Hwf Hfuel Hres Hsum;
    (destruct fuel as [|fuel]; [simpl in Hfuel; lia|]).
  - pose proof (kr2_wf_block_valid s _ x sx fx Hwf (elem_of_middle _ _ _)) as (Hvx & Hx1 & _).
    destruct (kr2_wf_blocks _ _ Hwf x sx fx (elem_of_middle _ _ _)) as (_ & _ & Hn & _).
    pose proof (kr2_next_of_cases s _ l1 x sx fx [] Hwf eq_refl) as Hc. simpl in Hc.
    destruct (kr2_wf_layout _ _ Hwf) as (Hl1 & Hl2 & _). unfold KR2.sizeof_Header in *.
    simpl. rewrite (kr2_load_valid _ _ Hvx). cbn [mbind result_bind].
    rewrite Hn, Hc. rewrite (proj2 (Z.ltb_ge _ _)) by lia. f_equal. lia.
  - pose proof (kr2_wf_block_valid s _ x sx fx Hwf (elem_of_middle _ _ _)) as (Hvx & Hx1 & _ & Hx3 & _).
    destruct (kr2_wf_blocks _ _ Hwf x sx fx (elem_of_middle _ _ _)) as (_ & _ & Hn & _).
    pose proof (kr2_next_of_cases s _ l1 x sx fx _ Hwf eq_refl) as Hc. simpl in Hc.
    destruct Hc as [Hc Hnx].
    pose proof (kr2_wf_block_valid s _ n sn fn Hwf (elem_of_middle2 _ _ _ _)) as (Hvn & _ & _ & Hn3 & _).
    destruct (kr2_wf_blocks _ _ Hwf n sn fn (elem_of_middle2 _ _ _ _)) as (Hsn & _).
    assert (Hu : 0 <= units_of l2).
    { pose proof (kr2_wf_tiled _ _ Hwf) as Ht. apply tiled_app in Ht as (c & _ & Ht).
      simpl in Ht. destruct Ht as (_ & _ & _ & _ & Ht).
      apply (tiled_units _ 1) in Ht as [_ Ht]; [exact Ht | lia]. }
    simpl in Hsum, Hfuel.
    cbn [KR2.getfree_loop]. rewrite (kr2_load_valid _ _ Hvx). cbn [mbind result_bind].
    rewrite Hn, Hc. rewrite (proj2 (Z.ltb_lt _ _)) by lia.
    rewrite (kr2_load_valid _ _ Hvn). cbn [mbind result_bind]. rewrite Hsn.
    rewrite wrap_small by lia.
    assert (E : l1 ++ (x, sx, fx) :: (n, sn, fn) :: l2 = (l1 ++ [(x, sx, fx)]) ++ (n, sn, fn) :: l2)
      by (rewrite <- app_assoc; reflexivity).
    rewrite E in Hwf.
    rewrite (IH _ n sn fn fuel (res + sn) Hwf) by lia. f_equal. simpl. lia.
Qed.

(** X3.  On a well-formed heap of [mm_heap_kr2.c], [mm_getfree] returns
    the number of bytes between [freep] and the break (the size of the
    whole arena when [freep] is the sentinel): it counts the blocks in use
    as well as the free ones, and what it returns depends on where [freep]
    stands. *)
Theorem X3_kr2_getfree_counts_every_block :
  ∀ (fuel : nat) (s : KR2.state) (bs : list Block),
    kr2_wf s bs → (length bs < fuel)%nat →
    (KR2.freep s = KR2.base s →
       KR2.mm_getfree fuel s = Ok (mem_heapsize (KR2.arena s)))
    ∧ (∀ x sx fx, (x, sx, fx) ∈ bs → KR2.freep s = x →
         KR2.mm_getfree fuel s = Ok (mem_brk (KR2.arena s) - x)).
Proof.
  intros fuel s bs Hwf Hfuel.
  pose proof (kr2_wf_layout _ _ Hwf) as (Hl1 & Hl2 & Hl3 & Hl4).
  pose proof (kr2_wf_tiled _ _ Hwf) as Ht.
  unfold KR2.sizeof_Header in *.
  split.
  - intros Hf. unfold KR2.mm_getfree. rewrite Hf.
    rewrite (proj2 (Z.eqb_neq _ _)) by (unfold NULL; lia).
    rewrite (kr2_load_valid _ _ (kr2_valid_base s)). cbn [mbind result_bind].
    destruct (kr2_wf_base _ _ Hwf) as (Hb1 & _ & Hb3 & _). rewrite Hb1.
    destruct bs as [|[[x sx] fx] l2].
    + destruct fuel as [|fuel]; [simpl in Hfuel; lia|]. simpl in Ht.
      cbn [KR2.getfree_loop]. rewrite (kr2_load_valid _ _ (kr2_valid_base s)).
      cbn [mbind result_bind]. rewrite Hb3. unfold kr2_next_of, KR2.sizeof_Header.
      rewrite Z.mul_0_l, Z.add_0_r, Ht, Z.eqb_refl, Z.ltb_irrefl.
      cbn [mbind result_bind]. unfold KR2.mm_bytes, mem_heapsize. rewrite Ht.
      rewrite Z.mul_0_l, Z.sub_diag. reflexivity.
    + destruct fuel as [|fuel]; [simpl in Hfuel; lia|]. simpl in Hfuel.
      pose proof (tiled_units _ 1 _ _ _ ltac:(lia) Ht) as [Hu Hu0].
      simpl in Hu, Hu0.
      simpl in Ht. destruct Ht as (Hx & Hsx & Ht).
      pose proof (tiled_units _ 1 _ _ _ ltac:(lia) Ht) as [_ Hu2].
      pose proof (kr2_wf_block_valid s _ x sx fx Hwf ltac:(left)) as (Hvx & _).
      destruct (kr2_wf_blocks _ _ Hwf x sx fx ltac:(left)) as (Hs1 & _).
      cbn [KR2.getfree_loop]. rewrite (kr2_load_valid _ _ (kr2_valid_base s)).
      cbn [mbind result_bind]. rewrite Hb3.
      assert (Hn : kr2_next_of s (mem_start_brk (KR2.arena s)) 0 = x).
      { unfold kr2_next_of, KR2.sizeof_Header.
        destruct (Z.eqb_spec (mem_start_brk (KR2.arena s) + 0 * 32) (mem_brk (KR2.arena s))); lia. }
      rewrite Hn. rewrite (proj2 (Z.ltb_lt _ _)) by lia.
      rewrite (kr2_load_valid _ _ Hvx). cbn [mbind result_bind]. rewrite Hs1.
      simpl in Hu, Hu0. unfold KR2.sizeof_Header in *.
      rewrite wrap_small by (pow2; lia).
      assert (A1 : (length l2 < fuel)%nat) by lia.
      assert (A2 : 0 <= 0 + sx) by lia.
      assert (A3 : 0 + sx + units_of l2 < 2 ^ 64) by (pow2; lia).
      rewrite (kr2_getfree_loop_wf s l2 [] x sx fx fuel (0 + sx) Hwf A1 A2 A3).
      cbn [mbind result_bind]. unfold KR2.mm_bytes, mem_heapsize, KR2.sizeof_Header.
      rewrite wrap_small by (pow2; lia). f_equal. lia.
  - intros x sx fx Hin Hf. unfold KR2.mm_getfree. rewrite Hf.
    pose proof (kr2_wf_block_valid s _ x sx fx Hwf Hin) as (Hvx & Hx1 & Hx2 & Hx3 & _).
    destruct (kr2_wf_blocks _ _ Hwf x sx fx Hin) as (Hs1 & _).
    rewrite (proj2 (Z.eqb_neq _ _)) by (unfold NULL; lia).
    rewrite (kr2_load_valid _ _ Hvx). cbn [mbind result_bind]. rewrite Hs1.
    apply list_elem_of_split in Hin as (l1 & l2 & ->).
    apply tiled_app in Ht as (c & Ht1 & Ht2). simpl in Ht2. destruct Ht2 as (Hxc & _ & Ht2).
    pose proof (tiled_units _ 1 _ _ _ ltac:(lia) Ht2) as [Hu Hu0].
    rewrite length_app in Hfuel. simpl in Hfuel.
    rewrite (kr2_getfree_loop_wf s l2 l1 x sx fx fuel sx Hwf) by (pow2; lia).
    cbn [mbind result_bind]. unfold KR2.mm_bytes, KR2.sizeof_Header.
    rewrite wrap_small by (pow2; lia). f_equal. lia.
Qed.

Lemma X3_kr2_getfree_counts_every_block_witness :
  KR2.mm_getfree 5 kr2_gap = Ok 192
  ∧ KR2.mm_getfree 1 (KR2.mm_reset kr2_s1) = Ok 0.
Proof.
  split.
  - apply (proj2 (X3_kr2_getfree_counts_every_block 5%nat kr2_gap _ kr2_gap_wf
                    ltac:(simpl; lia)) 69440 2 false).
    + repeat constructor.
    + reflexivity.
  - assert (Hwf : kr2_wf (KR2.mm_reset kr2_s1) []).
    { apply (kr2_init_base_wf (KR2.with_arena (mem_reset_brk (KR2.arena kr2_s1)) kr2_s1));
        vm_compute; first [reflexivity | discriminate]. }
    apply (proj1 (X3_kr2_getfree_counts_every_block 1%nat _ [] Hwf ltac:(simpl; lia))).
    reflexivity.
Defined.

(** ** What the allocator of [mm_heap_kr2.c] leaves alone *)


Lemma kr2_payload_apart s bs a :
  kr2_wf s bs → kr2_in_payload bs a →
  ¬ kr2_node s bs a
  ∧ mem_start_brk (KR2.arena s) < a < mem_brk (KR2.arena s)
  ∧ ∀ q sq, (q, sq, true) ∈ bs → a < q ∨ q + sq * 32 <= a.
Proof.
  intros Hwf (y & sy & Hy & Hya).
  pose proof (kr2_wf_tiled _ _ Hwf) as Ht. unfold KR2.sizeof_Header in Ht.
  destruct (kr2_wf_layout _ _ Hwf) as (Hl1 & Hl2 & _). unfold KR2.sizeof_Header in Hl2.
  destruct (tiled_bounds 32 1 _ _ _ ltac:(lia) ltac:(lia) Ht) as (_ & _ & Hbd).
  destruct (Hbd _ _ _ Hy) as (Hy1 & Hy2 & Hy3 & _).
  split; [|split; [lia|]].
  - intros [->|(sa & fa & Hin)]; [lia|].
    destruct (Hbd _ _ _ Hin) as (_ & _ & Ha3 & _).
    destruct (tiled_disjoint 32 1 _ _ _ ltac:(lia) ltac:(lia) Ht _ _ _ _ _ _ Hin Hy)
      as [(-> & _)|[D|D]]; lia.
  - intros q sq Hq.
    destruct (tiled_disjoint 32 1 _ _ _ ltac:(lia) ltac:(lia) Ht _ _ _ _ _ _ Hq Hy)
      as [(_ & _ & ?)|[D|D]]; [discriminate | right; lia | left; lia].
Qed.

Lemma kr2_next_set_size h k v y :
  KR2.next (KR2.rd (<[k := KR2.set_size v (KR2.rd h k)]> h) y) = KR2.next (KR2.rd h y).
Proof.
  destruct (decide (k = y)) as [->|Hne];
    [rewrite kr2_rd_insert_eq by reflexivity | rewrite kr2_rd_insert_ne by exact Hne];
    reflexivity.
Qed.

Lemma kr2_prev_set_size h k v y :
  KR2.prev (KR2.rd (<[k := KR2.set_size v (KR2.rd h k)]> h) y) = KR2.prev (KR2.rd h y).
Proof.
  destruct (decide (k = y)) as [->|Hne];
    [rewrite kr2_rd_insert_eq by reflexivity | rewrite kr2_rd_insert_ne by exact Hne];
    reflexivity.
Qed.

Lemma kr2_block_node s bs x sx fx : (x, sx, fx) ∈ bs → kr2_node s bs x.
Proof. intros H. right. eauto. Qed.

Lemma kr2_node_ne s bs a p : ¬ kr2_node s bs a → kr2_node s bs p → p ≠ a.
Proof. intros Ha Hp ->. exact (Ha Hp). Qed.

Lemma kr2_next_node s bs p :
  kr2_wf s bs → kr2_node s bs p →
  kr2_node s bs (KR2.next (KR2.rd (KR2.heap s) p)).
Proof.
  intros Hwf [->|(sx & fx & Hin)].
  - destruct (kr2_wf_base _ _ Hwf) as (_ & _ & -> & _).
    pose proof (kr2_wf_tiled _ _ Hwf) as Ht.
    unfold kr2_next_of, KR2.sizeof_Header.
    destruct (Z.eqb_spec (mem_start_brk (KR2.arena s) + 0 * 32) (mem_brk (KR2.arena s)));
      [left; reflexivity|].
    destruct bs as [|[[y sy] fy] bs]; simpl in Ht; [lia|].
    destruct Ht as (-> & _). right. exists sy, fy.
    replace (mem_start_brk (KR2.arena s) + 0 * 32) with (mem_start_brk (KR2.arena s)) by lia.
    left.
  - destruct (kr2_wf_blocks _ _ Hwf p sx fx Hin) as (_ & _ & -> & _).
    apply list_elem_of_split in Hin as (l1 & l2 & E).
    pose proof (kr2_next_of_cases s bs l1 p sx fx l2 Hwf E) as Hc.
    destruct l2 as [|[[y sy] fy] l2]; [left; exact Hc|].
    destruct Hc as [-> _]. right. exists sy, fy. rewrite E.
    apply elem_of_middle2.
Qed.

(** The second part of [mm_free] writes to headers of the list only. *)
Lemma kr2_merge_next_frame s bs x sx fx s' a :
  kr2_wf s bs → (x, sx, fx) ∈ bs → KR2.merge_next s x = Ok s' →
  ¬ kr2_node s bs a → KR2.rd (KR2.heap s') a = KR2.rd (KR2.heap s) a.
Proof.
  intros Hwf Hin H Ha.
  pose proof (kr2_block_node s _ _ _ _ Hin) as Hx.
  pose proof (kr2_next_node _ _ _ Hwf Hx) as HN1.
  pose proof (kr2_next_node _ _ _ Hwf HN1) as HN2.
  pose proof (kr2_node_ne _ _ _ _ Ha Hx) as Nx.
  pose proof (kr2_node_ne _ _ _ _ Ha HN2) as NW.
  unfold KR2.merge_next in H. kr2_inv.
  destruct (_ && _); [|inversion H; reflexivity].
  kr2_inv. cbn [KR2.heap KR2.with_heap].
  rewrite !kr2_next_set_size in *.
  rewrite !kr2_rd_insert_ne by assumption. reflexivity.
Qed.

(** The third part of [mm_free] writes to headers of the list only. *)
Lemma kr2_merge_prev_frame s bs x sx fx s' bp a :
  kr2_wf s bs → (x, sx, fx) ∈ bs → KR2.merge_prev s x = Ok (s', bp) →
  ¬ kr2_node s bs a → KR2.rd (KR2.heap s') a = KR2.rd (KR2.heap s) a.
Proof.
  intros Hwf Hin H Ha.
  pose proof (kr2_block_node s _ _ _ _ Hin) as Hx.
  pose proof (kr2_next_node _ _ _ Hwf Hx) as HN1.
  destruct (kr2_prev_node _ _ _ _ _ Hwf Hin) as [_ HP1].
  pose proof (kr2_node_ne _ _ _ _ Ha HN1) as NN.
  pose proof (kr2_node_ne _ _ _ _ Ha HP1) as NP.
  unfold KR2.merge_prev in H. kr2_inv.
  destruct (_ && _); [|inversion H; reflexivity].
  kr2_inv. cbn [KR2.heap KR2.with_heap].
  rewrite !kr2_next_set_size, !kr2_prev_set_size in *.
  rewrite !kr2_rd_insert_ne by assumption. reflexivity.
Qed.

(** A block in use does not start inside a free block. *)
Lemma kr2_busy_not_in_free s bs q sq u y sy :
  kr2_wf s bs → (q, sq, true) ∈ bs → 1 <= u <= sq → (y, sy, false) ∈ bs →
  y ≠ q + (sq - u) * 32.
Proof.
  intros Hwf Hq Hu Hy.
  pose proof (kr2_wf_tiled _ _ Hwf) as Ht. unfold KR2.sizeof_Header in Ht.
  destruct (tiled_bounds 32 1 _ _ _ ltac:(lia) ltac:(lia) Ht) as (_ & _ & Hbd).
  destruct (Hbd _ _ _ Hy) as (_ & _ & Hy3 & _).
  destruct (tiled_disjoint 32 1 _ _ _ ltac:(lia) ltac:(lia) Ht _ _ _ _ _ _ Hq Hy)
    as [(_ & _ & ?)|[D|D]]; [discriminate | lia | lia].
Qed.

(** ** Allocation from the free list, [mm_heap_kr2.c] *)

Lemma kr2_walk_to_fit s nunits n prev_p p q' q :
  KR2.first_fit s nunits n prev_p p q' q →
  ∀ fuel, KR2.malloc_loop (n + fuel) s nunits prev_p p = KR2.malloc_loop fuel s nunits q' q.
Proof.
  induction 1 as [prev_p p hp Hld Hfit | n prev_p p q' q hp Hld Hfit Hne _ IH]; intros fuel.
  - reflexivity.
  - change (S n + fuel)%nat with (S (n + fuel)). cbn [KR2.malloc_loop].
    rewrite Hld. cbn [mbind result_bind]. rewrite Hfit.
    rewrite (proj2 (Z.eqb_neq _ _) Hne). apply IH.
Qed.

Lemma kr2_first_fit_fits s nunits n prev_p p q' q :
  KR2.first_fit s nunits n prev_p p q' q →
  KR2.fits nunits (KR2.rd (KR2.heap s) q) = true.
Proof.
  induction 1 as [prev_p p hp Hld Hfit | n prev_p p q' q hp Hld Hfit Hne _ IH]; [|exact IH].
  apply kr2_load_Ok in Hld as [_ ->]. exact Hfit.
Qed.

(** [p->s.isFree = b] on a block of the list. *)
Lemma kr2_set_flag b s l1 x sx fx l2 :
  kr2_wf s (l1 ++ (x, sx, fx) :: l2) →
  ∃ s', KR2.upd s x (KR2.set_isFree b) = Ok s'
        ∧ kr2_wf s' (l1 ++ (x, sx, b) :: l2)
        ∧ KR2.freep s' = KR2.freep s.
Proof.
  intros Hwf.
  pose proof (kr2_wf_block_valid s _ x sx fx Hwf (elem_of_middle _ _ _)) as (Hvx & Hx1 & Hx2 & Hx3 & _).
  destruct Hwf as [Hl Ht Hb Hbase].
  eexists. split; [apply kr2_upd_valid; exact Hvx|]. split; [|reflexivity].
  assert (Ht' : tiled KR2.sizeof_Header 1 (mem_start_brk (KR2.arena s))
                  (l1 ++ (x, sx, b) :: l2) (mem_brk (KR2.arena s))).
  { apply tiled_app in Ht as (c & Ht1 & Ht2). apply tiled_app. exists c. split; [exact Ht1|exact Ht2]. }
  constructor; cbn [KR2.heap KR2.arena KR2.base KR2.with_heap].
  - exact Hl.
  - exact Ht'.
  - intros y sy fy Hin. kr2_next_of_norm.
    apply elem_of_app in Hin as [Hin|Hin]; [|apply elem_of_cons in Hin as [Heq|Hin]].
    + destruct (Hb y sy fy ltac:(apply elem_of_app; left; exact Hin)) as (Hc1 & Hc2 & Hc3 & Hc4).
      apply tiled_app in Ht as (c & Ht1 & Ht2). simpl in Ht2. destruct Ht2 as (<- & _).
      destruct (tiled_bounds KR2.sizeof_Header 1 _ _ _ ltac:(reflexivity) ltac:(lia) Ht1) as (_ & _ & Hb1).
      destruct (Hb1 _ _ _ Hin) as (? & ? & ? & ?). unfold KR2.sizeof_Header in *.
      repeat split; kr2_rd_cases; kr2_fields.
    + inversion Heq; subst y sy fy; clear Heq.
      destruct (Hb x sx fx (elem_of_middle _ _ _)) as (Hc1 & Hc2 & Hc3 & Hc4).
      repeat split; kr2_rd_cases; kr2_fields.
    + destruct (Hb y sy fy ltac:(apply elem_of_app; right; right; exact Hin)) as (Hc1 & Hc2 & Hc3 & Hc4).
      apply tiled_app in Ht as (c & Ht1 & Ht2). simpl in Ht2. destruct Ht2 as (<- & ? & Ht2).
      destruct (tiled_bounds KR2.sizeof_Header 1 _ _ _ ltac:(reflexivity) ltac:(lia) Ht2) as (_ & _ & Hb2).
      destruct (Hb2 _ _ _ Hin) as (? & ? & ? & ?). unfold KR2.sizeof_Header in *.
      repeat split; kr2_rd_cases; kr2_fields.
  - destruct Hbase as (Hs1 & Hs2 & Hs3 & Hs4). kr2_next_of_norm.
    unfold KR2.sizeof_Header in *.
    repeat split; kr2_rd_cases; kr2_fields.
Qed.

(** The stores of [mm_malloc] that split the block [p]: its upper [n]
    units become a block in use. *)
Lemma kr2_split_wf s l1 p sp l2 n prev_p :
  kr2_wf s (l1 ++ (p, sp, true) :: l2) → 1 <= n → n < sp →
  ∃ s',
    (s1 ← KR2.upd s p (KR2.set_size (wrap (sp - n)));
     hp1 ← KR2.load s1 p;
     s2 ← KR2.upd s1 (p + KR2.size hp1 * KR2.sizeof_Header) (KR2.set_size n);
     s3 ← KR2.connect_dlinkedlist s2 p (p + KR2.size hp1 * KR2.sizeof_Header);
     s4 ← KR2.connect_dlinkedlist s3 (p + KR2.size hp1 * KR2.sizeof_Header) (KR2.next hp1);
     s5 ← KR2.upd s4 (p + KR2.size hp1 * KR2.sizeof_Header) (KR2.set_isFree false);
     Ok (KR2.mm_payload (p + KR2.size hp1 * KR2.sizeof_Header), KR2.with_freep prev_p s5))
    = Ok (KR2.mm_payload (p + (sp - n) * 32), s')
    ∧ KR2.freep s' = prev_p ∧ KR2.arena s' = KR2.arena s ∧ KR2.base s' = KR2.base s
    ∧ kr2_wf s' (l1 ++ (p, sp - n, true) :: (p + (sp - n) * 32, n, false) :: l2)
    ∧ ∀ a, (a < p ∨ p + sp * 32 <= a) → a ≠ kr2_next_of s p sp →
           KR2.rd (KR2.heap s') a = KR2.rd (KR2.heap s) a.
Proof.
  intros Hwf Hn1 Hn2.
  pose proof (kr2_wf_block_valid s _ p sp true Hwf (elem_of_middle _ _ _)) as (Hvp & Hp1 & Hp2 & Hp3 & Hvn).
  destruct Hwf as [Hl Ht Hb Hbase].
  pose proof (Hb p sp true (elem_of_middle _ _ _)) as (Hc1 & Hc2 & Hc3 & Hc4).
  pose proof Ht as Ht0.
  destruct (tiled_bounds KR2.sizeof_Header 1 _ _ _ ltac:(reflexivity) ltac:(lia) Ht0) as (_ & _ & Hb0).
  destruct (Hb0 _ _ _ (elem_of_middle l1 l2 (p, sp, true))) as (_ & _ & _ & Hmod).
  apply tiled_app in Ht as (c & Ht1 & Ht2). simpl in Ht2.
  destruct Ht2 as (<- & _ & Ht2).
  pose proof (tiled_bounds KR2.sizeof_Header 1 _ _ _ ltac:(reflexivity) ltac:(lia) Ht1) as (Hle1 & _ & Hb1').
  pose proof (tiled_bounds KR2.sizeof_Header 1 _ _ _ ltac:(reflexivity) ltac:(lia) Ht2) as (Hle2 & _ & Hb2').
  unfold KR2.sizeof_Header in *.
  rewrite wrap_small by (pow2; lia).
  set (p' := p + (sp - n) * 32).
  assert (Hvp' : KR2.valid_ptr s p' = true).
  { apply kr2_valid_arena; unfold KR2.sizeof_Header, p'; try lia.
    replace (p + (sp - n) * 32 - mem_start_brk (KR2.arena s))
      with (p - mem_start_brk (KR2.arena s) + (sp - n) * 32) by lia.
    rewrite Z.mod_add by lia. exact Hmod. }
  unfold KR2.connect_dlinkedlist.
  rewrite (kr2_upd_valid s p) by exact Hvp. cbn [mbind result_bind KR2.heap KR2.with_heap].
  rewrite (kr2_load_valid _ p) by exact Hvp. cbn [mbind result_bind KR2.heap KR2.with_heap].
  rewrite (kr2_rd_insert_eq _ p p) by reflexivity.
  cbn [KR2.size KR2.next KR2.set_size]. fold p'. rewrite Hc3.
  rewrite (kr2_upd_valid _ p') by exact Hvp'. cbn [mbind result_bind KR2.heap KR2.with_heap].
  rewrite (kr2_upd_valid _ p) by exact Hvp. cbn [mbind result_bind KR2.heap KR2.with_heap].
  rewrite (kr2_upd_valid _ p') by exact Hvp'. cbn [mbind result_bind KR2.heap KR2.with_heap].
  rewrite (kr2_upd_valid _ p') by exact Hvp'. cbn [mbind result_bind KR2.heap KR2.with_heap].
  rewrite (kr2_upd_valid _ (kr2_next_of s p sp)) by exact Hvn. cbn [mbind result_bind KR2.heap KR2.with_heap].
  rewrite (kr2_upd_valid _ p') by exact Hvp'.
  eexists. split; [reflexivity|]. split; [reflexivity|]. split; [reflexivity|].
  split; [reflexivity|].
  split.
  2: { intros a Ha1 Ha2. cbn [KR2.heap KR2.with_heap KR2.with_freep]. unfold p'.
       kr2_rd. reflexivity. }
  assert (Hn : kr2_next_of s p sp = KR2.base s ∧ l2 = []
               ∨ kr2_next_of s p sp = p + sp * 32 ∧ p + sp * 32 < mem_brk (KR2.arena s)).
  { unfold kr2_next_of, KR2.sizeof_Header.
    destruct (Z.eqb_spec (p + sp * 32) (mem_brk (KR2.arena s))) as [He|Hne]; [left|right; lia].
    split; [reflexivity|]. destruct l2 as [|[[y sy] fy] l2]; [reflexivity|].
    destruct (Hb2' y sy fy ltac:(left)) as (? & ? & ? & ?). lia. }
  assert (Hnp : kr2_next_of s p (sp - n) = p').
  { unfold kr2_next_of, KR2.sizeof_Header, p'.
    destruct (Z.eqb_spec (p + (sp - n) * 32) (mem_brk (KR2.arena s))); lia. }
  assert (Hnp' : kr2_next_of s p' n = kr2_next_of s p sp).
  { unfold kr2_next_of, KR2.sizeof_Header, p'.
    replace (p + (sp - n) * 32 + n * 32) with (p + sp * 32) by lia. reflexivity. }
  constructor; cbn [KR2.heap KR2.arena KR2.base KR2.with_heap KR2.with_freep].
  - exact Hl.
  - apply tiled_app. exists p. split; [exact Ht1|]. simpl.
    split; [reflexivity|]. split; [lia|]. split; [reflexivity|]. split; [lia|].
    unfold KR2.sizeof_Header. fold p'.
    replace (p' + n * 32) with (p + sp * 32) by (unfold p'; lia). exact Ht2.
  - intros y sy fy Hin. kr2_next_of_norm.
    apply elem_of_app in Hin as [Hin|Hin];
      [|apply elem_of_cons in Hin as [Heq|Hin]; [|apply elem_of_cons in Hin as [Heq|Hin]]].
    + destruct (Hb1' _ _ _ Hin) as (Hy1 & Hy2 & Hy3 & Hy4).
      destruct (Hb y sy fy ltac:(apply elem_of_app; left; exact Hin)) as (Hd1 & Hd2 & Hd3 & Hd4).
      assert (Hny : kr2_next_of s y sy = y + sy * 32).
      { unfold kr2_next_of, KR2.sizeof_Header. destruct (Z.eqb_spec (y + sy * 32) (mem_brk (KR2.arena s))); lia. }
      rewrite Hny in *. unfold p'.
      destruct Hn as [[Hn ->]|[Hn Hlt]]; rewrite Hn; repeat split; kr2_rd_cases; kr2_fields.
    + inversion Heq; subst y sy fy; clear Heq. rewrite Hnp. unfold p'.
      destruct Hn as [[Hn ->]|[Hn Hlt]]; rewrite Hn; repeat split; kr2_rd_cases; kr2_fields.
    + inversion Heq; subst y sy fy; clear Heq. rewrite Hnp'. unfold p'.
      destruct Hn as [[Hn ->]|[Hn Hlt]]; rewrite Hn; repeat split; kr2_rd_cases; kr2_fields.
    + destruct (Hb2' _ _ _ Hin) as (Hy1 & Hy2 & Hy3 & Hy4).
      destruct (Hb y sy fy ltac:(apply elem_of_app; right; right; exact Hin)) as (Hd1 & Hd2 & Hd3 & Hd4).
      destruct Hn as [[Hn ->]|[Hn Hlt]]; [inversion Hin|]. rewrite Hn. unfold p'.
      unfold kr2_next_of, KR2.sizeof_Header in *.
      destruct (Z.eqb_spec (y + sy * 32) (mem_brk (KR2.arena s))); repeat split; kr2_rd_cases; kr2_fields.
  - destruct Hbase as (Hs1 & Hs2 & Hs3 & Hs4). kr2_next_of_norm.
    assert (Hfirst : kr2_next_of s (mem_start_brk (KR2.arena s)) 0 = mem_start_brk (KR2.arena s)).
    { unfold kr2_next_of, KR2.sizeof_Header.
      destruct (Z.eqb_spec (mem_start_brk (KR2.arena s) + 0 * 32) (mem_brk (KR2.arena s))); lia. }
    rewrite Hfirst in *. unfold p'.
    destruct Hn as [[Hn ->]|[Hn Hlt]]; rewrite Hn; repeat split; kr2_rd_cases; kr2_fields.
Qed.

(** [mm_malloc] when the walk comes to a block that fits before it comes
    back to [freep]. *)
Lemma kr2_malloc_first_fit (fuel n : nat) (s : KR2.state) (l1 l2 : list Block)
    (q sq q' nbytes : Z) (h0 : KR2.Header) :
  kr2_wf s (l1 ++ (q, sq, true) :: l2) →
  KR2.load s (KR2.freep s) = Ok h0 →
  KR2.first_fit s (KR2.mm_units nbytes) n (KR2.freep s) (KR2.next h0) q' q →
  (n < fuel)%nat →
  ∃ s',
    KR2.mm_malloc fuel s nbytes
    = Ok (KR2.mm_payload (q + (sq - KR2.mm_units nbytes) * KR2.sizeof_Header), s')
    ∧ KR2.freep s' = q'
    ∧ KR2.mm_units nbytes <= sq
    ∧ KR2.arena s' = KR2.arena s ∧ KR2.base s' = KR2.base s
    ∧ kr2_wf s'
        (if sq =? KR2.mm_units nbytes then l1 ++ (q, sq, false) :: l2
         else l1 ++ (q, sq - KR2.mm_units nbytes, true)
                 :: (q + (sq - KR2.mm_units nbytes) * KR2.sizeof_Header,
                     KR2.mm_units nbytes, false) :: l2)
    ∧ ∀ a, kr2_in_payload (l1 ++ (q, sq, true) :: l2) a →
           KR2.rd (KR2.heap s') a = KR2.rd (KR2.heap s) a.
Proof.
  intros Hwf Hld Hff Hfuel.
  assert (Hfar : ∀ a, kr2_in_payload (l1 ++ (q, sq, true) :: l2) a →
            a ≠ q ∧ (a < q ∨ q + sq * 32 <= a) ∧ a ≠ kr2_next_of s q sq).
  { intros a Ha. destruct (kr2_payload_apart _ _ _ Hwf Ha) as (Hn & _ & Hfree).
    assert (Hq : kr2_node s (l1 ++ (q, sq, true) :: l2) q)
      by (right; eexists _, _; apply elem_of_middle).
    split; [apply not_eq_sym, (kr2_node_ne _ _ _ _ Hn Hq)|].
    split; [apply Hfree; apply elem_of_middle|].
    apply not_eq_sym, (kr2_node_ne _ _ _ _ Hn).
    destruct (kr2_wf_blocks _ _ Hwf q sq true (elem_of_middle _ _ _)) as (_ & _ & <- & _).
    apply kr2_next_node; assumption. }
  pose proof (kr2_mm_units_range nbytes) as [Hu1 _].
  set (u := KR2.mm_units nbytes) in *.
  pose proof (kr2_first_fit_fits _ _ _ _ _ _ _ Hff) as Hfit.
  destruct (kr2_wf_blocks _ _ Hwf q sq true (elem_of_middle _ _ _)) as (Hs1 & Hs2 & _).
  pose proof (kr2_wf_block_valid s _ q sq true Hwf (elem_of_middle _ _ _)) as (Hvq & _).
  pose proof Hfit as Hfit'. unfold KR2.fits in Hfit'. rewrite Hs1, Hs2, andb_true_r in Hfit'.
  apply Z.leb_le in Hfit'.
  destruct (kr2_wf_layout _ _ Hwf) as (Hl1 & Hl2 & _).
  assert (Hnz : KR2.freep s ≠ NULL).
  { apply kr2_load_Ok in Hld as [Hv _]. apply kr2_valid_ptr_spec in Hv.
    unfold NULL, KR2.sizeof_Header in *. lia. }
  unfold KR2.mm_malloc. rewrite (proj2 (Z.eqb_neq _ _) Hnz). cbv zeta. fold u.
  rewrite Hld. cbn [mbind result_bind].
  replace fuel with (n + S (fuel - n - 1))%nat by lia.
  rewrite (kr2_walk_to_fit _ _ _ _ _ _ _ Hff).
  cbn [KR2.malloc_loop]. rewrite (kr2_load_valid _ _ Hvq). cbn [mbind result_bind].
  rewrite Hfit, Hs1.
  destruct (Z.eqb_spec sq u) as [He|Hne].
  - destruct (kr2_set_flag false s l1 q sq true l2 Hwf) as (s1 & E1 & Hwf1 & _).
    rewrite E1. cbn [mbind result_bind]. apply kr2_upd_Ok in E1 as [_ E1]. eexists. split.
    + replace (q + (sq - u) * KR2.sizeof_Header) with q by lia. reflexivity.
    + split; [reflexivity|]. split; [lia|].
      split; [rewrite E1; reflexivity|]. split; [rewrite E1; reflexivity|].
      split; [apply kr2_wf_with_freep; exact Hwf1|].
      intros a Ha. destruct (Hfar a Ha) as (Na & _).
      rewrite E1. cbn [KR2.heap KR2.with_heap KR2.with_freep].
      apply kr2_rd_insert_ne. apply not_eq_sym. exact Na.
  - destruct (kr2_split_wf s l1 q sq l2 u q' Hwf Hu1 ltac:(lia))
      as (s' & E & Hf & Ha & Hb & Hwf' & Hfr).
    rewrite E. exists s'. unfold KR2.sizeof_Header. split; [reflexivity|].
    split; [exact Hf|]. split; [lia|]. split; [exact Ha|]. split; [exact Hb|].
    split; [exact Hwf'|].
    intros a Hin. destruct (Hfar a Hin) as (_ & N2 & N3). apply Hfr; assumption.
Qed.

(** X4.  [mm_malloc] of [mm_heap_kr2.c] on a well-formed heap, when the
    walk from [freep->s.next] comes to a block [q] that fits before it is
    back at [freep]: [mm_malloc] returns and the arena is not extended;
    [freep] moves to the block met before [q]; a block of exactly the size
    asked for is handed out whole, and of a larger one the upper
    [mm_units nbytes] units are handed out.  The heap stays well formed,
    with no other block changed. *)
Theorem X4_kr2_malloc_takes_the_first_fit :
  ∀ (fuel n : nat) (s : KR2.state) (l1 l2 : list Block) (q sq q' nbytes : Z)
    (h0 : KR2.Header),
    kr2_wf s (l1 ++ (q, sq, true) :: l2) →
    KR2.load s (KR2.freep s) = Ok h0 →
    KR2.first_fit s (KR2.mm_units nbytes) n (KR2.freep s) (KR2.next h0) q' q →
    (n < fuel)%nat →
    ∃ s',
      KR2.mm_malloc fuel s nbytes
      = Ok (KR2.mm_payload (q + (sq - KR2.mm_units nbytes) * KR2.sizeof_Header), s')
      ∧ KR2.freep s' = q'
      ∧ KR2.mm_units nbytes <= sq
      ∧ KR2.arena s' = KR2.arena s
      ∧ kr2_wf s'
          (if sq =? KR2.mm_units nbytes then l1 ++ (q, sq, false) :: l2
           else l1 ++ (q, sq - KR2.mm_units nbytes, true)
                   :: (q + (sq - KR2.mm_units nbytes) * KR2.sizeof_Header,
                       KR2.mm_units nbytes, false) :: l2).
Proof.
  intros fuel n s l1 l2 q sq q' nbytes h0 Hwf Hld Hff Hfuel.
  destruct (kr2_malloc_first_fit fuel n s l1 l2 q sq q' nbytes h0 Hwf Hld Hff Hfuel)
    as (s' & E & Hf & Hu & Ha & _ & Hwf' & _).
  exists s'. auto.
Qed.

Lemma X4_kr2_malloc_takes_the_first_fit_witness :
  (∃ s', KR2.mm_malloc 8 kr2_gap 16 = Ok (69536, s') ∧ KR2.freep s' = 69440
         ∧ kr2_wf s' [(65536, 122, true); (69440, 2, false); (69504, 2, false);
                      (69568, 2, false)])
  ∧ (∃ s', KR2.mm_malloc 8 kr2_gap 1000 = Ok (68416, s') ∧ KR2.freep s' = 4096
           ∧ kr2_wf s' [(65536, 89, true); (68384, 33, false); (69440, 2, false);
                        (69504, 2, true); (69568, 2, false)]).
Proof.
  split.
  - destruct (X4_kr2_malloc_takes_the_first_fit 8 0 kr2_gap
                [(65536, 122, true); (69440, 2, false)] [(69568, 2, false)]
                69504 2 69440 16 (KR2.rd (KR2.heap kr2_gap) 69440) kr2_gap_wf)
      as (s' & E & Hf & _ & _ & Hwf).
    + reflexivity.
    + eapply KR2.first_fit_here; vm_compute; reflexivity.
    + lia.
    + exists s'. split; [exact E|]. split; [exact Hf | exact Hwf].
  - destruct (X4_kr2_malloc_takes_the_first_fit 8 3 kr2_gap
                [] [(69440, 2, false); (69504, 2, true); (69568, 2, false)]
                65536 122 4096 1000 (KR2.rd (KR2.heap kr2_gap) 69440) kr2_gap_wf)
      as (s' & E & Hf & _ & _ & Hwf).
    + reflexivity.
    + eapply KR2.first_fit_next; [vm_compute; reflexivity | vm_compute; reflexivity
                                  | vm_compute; discriminate |].
      eapply KR2.first_fit_next; [vm_compute; reflexivity | vm_compute; reflexivity
                                  | vm_compute; discriminate |].
      eapply KR2.first_fit_next; [vm_compute; reflexivity | vm_compute; reflexivity
                                  | vm_compute; discriminate |].
      eapply KR2.first_fit_here; vm_compute; reflexivity.
    + lia.
    + exists s'. split; [exact E|]. split; [exact Hf | exact Hwf].
Defined.

(** ** The walk of [mm_malloc] over a well-formed heap, [mm_heap_kr2.c] *)

Lemma kr2_next_of_start s c sx :
  kr2_next_of s c sx = kr2_next_of s (c + sx * 32) 0.
Proof.
  unfold kr2_next_of, KR2.sizeof_Header.
  replace (c + sx * 32 + 0 * 32) with (c + sx * 32) by lia. reflexivity.
Qed.

(** The walk over the blocks [B] of the list, none of them [freep]: it
    stops at the first free block of [B] that is large enough, or goes on
    with what follows [B]. *)
Lemma kr2_scan s u B :
  1 <= u →
  ∀ l1 l3 pp c c',
    kr2_wf s (l1 ++ B ++ l3) →
    (∀ y sy fy, (y, sy, fy) ∈ B → y ≠ KR2.freep s) →
    tiled 32 1 (mem_start_brk (KR2.arena s)) l1 c → tiled 32 1 c B c' →
    (∃ n q' q sq, KR2.first_fit s u n pp (kr2_next_of s c 0) q' q
                  ∧ (q, sq, true) ∈ B ∧ u <= sq ∧ (n < length B)%nat)
    ∨ ((∀ y sy, (y, sy, true) ∈ B → sy < u)
       ∧ ∀ m q, (∀ pp', ∃ q', KR2.first_fit s u m pp' (kr2_next_of s c' 0) q' q) →
                ∃ q', KR2.first_fit s u (length B + m) pp (kr2_next_of s c 0) q' q).
Proof.
  intros Hu. induction B as [|[[y sy] fy] B IH]; intros l1 l3 pp c c' Hwf Hfp Ht1 Ht2.
  - simpl in Ht2. subst c'. right. split; [intros y sy Hin; inversion Hin|].
    intros m q H. exact (H pp).
  - simpl in Ht2. destruct Ht2 as (-> & Hsy & Ht2).
    assert (Hin : (c, sy, fy) ∈ l1 ++ ((c, sy, fy) :: B) ++ l3) by apply elem_of_middle.
    pose proof (kr2_wf_block_valid s _ c sy fy Hwf Hin) as (Hvc & Hc1 & Hc2 & _ & _).
    destruct (kr2_wf_blocks _ _ Hwf c sy fy Hin) as (Hs1 & Hs2 & Hs3 & _).
    assert (Hc0 : kr2_next_of s c 0 = c).
    { unfold kr2_next_of, KR2.sizeof_Header.
      destruct (Z.eqb_spec (c + 0 * 32) (mem_brk (KR2.arena s))); lia. }
    rewrite Hc0.
    destruct (KR2.fits u (KR2.rd (KR2.heap s) c)) eqn:Hfit.
    + left. exists 0%nat, pp, c, sy.
      unfold KR2.fits in Hfit. rewrite Hs1, Hs2 in Hfit.
      apply andb_true_iff in Hfit as [Hle ->]. apply Z.leb_le in Hle.
      split; [eapply KR2.first_fit_here; [apply kr2_load_valid; exact Hvc|]|].
      * unfold KR2.fits. rewrite Hs1, Hs2. apply andb_true_iff. split; [apply Z.leb_le; lia|reflexivity].
      * split; [left|]. split; [exact Hle | simpl; lia].
    + assert (Hne : c ≠ KR2.freep s) by (eapply Hfp; left).
      assert (Hstep : ∀ n q' q, KR2.first_fit s u n c (kr2_next_of s (c + sy * 32) 0) q' q →
                                KR2.first_fit s u (S n) pp c q' q).
      { intros n q' q H. eapply KR2.first_fit_next;
          [apply kr2_load_valid; exact Hvc | exact Hfit | exact Hne |].
        rewrite Hs3, kr2_next_of_start. exact H. }
      assert (Hnf : fy = true → sy < u).
      { intros E. unfold KR2.fits in Hfit. rewrite Hs1, Hs2, E, andb_true_r in Hfit.
        apply Z.leb_gt in Hfit. exact Hfit. }
      destruct (IH (l1 ++ [(c, sy, fy)]) l3 c (c + sy * 32) c') as [(n & q' & q & sq & Hff & Hq & Hsq & Hn)|[Hno Hgo]].
      * rewrite <- app_assoc. exact Hwf.
      * intros y' sy' fy' Hy'. eapply Hfp. right. exact Hy'.
      * apply tiled_app. exists c. split; [exact Ht1|]. simpl. auto.
      * exact Ht2.
      * left. exists (S n), q', q, sq. split; [apply Hstep; exact Hff|].
        split; [right; exact Hq|]. split; [exact Hsq | simpl; lia].
      * right. split.
        -- intros y' sy' Hy'. apply elem_of_cons in Hy' as [Heq|Hy']; [|eapply Hno; exact Hy'].
           injection Heq as _ E2 E3. rewrite E2. apply Hnf. congruence.
        -- intros m q H. destruct (Hgo m q H) as (q' & Hff). exists q'.
           apply (Hstep _ _ _ Hff).
Qed.

Lemma kr2_first_fit_prev_node s bs u n pp p q' q :
  kr2_wf s bs → KR2.first_fit s u n pp p q' q →
  kr2_node s bs pp → kr2_node s bs p → kr2_node s bs q'.
Proof.
  intros Hwf. induction 1 as [pp p hp Hld Hfit | n pp p q' q hp Hld Hfit Hne _ IH];
    intros Hpp Hp; [exact Hpp|].
  apply IH; [exact Hp|]. apply kr2_load_Ok in Hld as [_ ->].
  apply kr2_next_node; assumption.
Qed.

Lemma kr2_node_taken s s' l1 q sq l2 u p :
  KR2.base s' = KR2.base s →
  kr2_node s (l1 ++ (q, sq, true) :: l2) p →
  kr2_node s' (if sq =? u then l1 ++ (q, sq, false) :: l2
               else l1 ++ (q, sq - u, true) :: (q + (sq - u) * KR2.sizeof_Header, u, false) :: l2) p.
Proof.
  intros Hb [->|(sx & fx & Hin)]; [left; symmetry; exact Hb|]. right.
  apply elem_of_app in Hin as [Hin|Hin]; [|apply elem_of_cons in Hin as [Heq|Hin]].
  - exists sx, fx. destruct (sq =? u); apply elem_of_app; left; exact Hin.
  - injection Heq as -> _ _.
    destruct (sq =? u); eexists _, _; apply elem_of_middle.
  - exists sx, fx. destruct (sq =? u); apply elem_of_app; right; repeat right; exact Hin.
Qed.

(** [mm_malloc] when some free block of the list is large enough. *)
Lemma kr2_malloc_reuses :
  ∀ (fuel : nat) (s : KR2.state) (bs : list Block) (x sx nbytes : Z),
    kr2_wf s bs → kr2_node s bs (KR2.freep s) →
    (x, sx, true) ∈ bs → KR2.mm_units nbytes <= sx →
    (length bs < fuel)%nat →
    ∃ l1 q sq l2 s' bs',
      bs = l1 ++ (q, sq, true) :: l2
      ∧ KR2.mm_units nbytes <= sq
      ∧ KR2.mm_malloc fuel s nbytes
        = Ok (KR2.mm_payload (q + (sq - KR2.mm_units nbytes) * KR2.sizeof_Header), s')
      ∧ KR2.arena s' = KR2.arena s
      ∧ bs' = (if sq =? KR2.mm_units nbytes then l1 ++ (q, sq, false) :: l2
               else l1 ++ (q, sq - KR2.mm_units nbytes, true)
                       :: (q + (sq - KR2.mm_units nbytes) * KR2.sizeof_Header,
                           KR2.mm_units nbytes, false) :: l2)
      ∧ kr2_wf s' bs' ∧ kr2_node s' bs' (KR2.freep s')
      ∧ KR2.base s' = KR2.base s
      ∧ ∀ a, kr2_in_payload bs a → KR2.rd (KR2.heap s') a = KR2.rd (KR2.heap s) a.
Proof.
  intros fuel s bs x sx nbytes Hwf Hfp Hx Hsx Hfuel.
  pose proof (kr2_mm_units_range nbytes) as [Hu1 _].
  set (u := KR2.mm_units nbytes) in *.
  destruct (kr2_wf_layout _ _ Hwf) as (Hl1 & Hl2 & Hl3 & Hl4).
  pose proof (kr2_wf_tiled _ _ Hwf) as Ht.
  destruct (kr2_wf_base _ _ Hwf) as (Hb1 & Hb2 & Hb3 & _).
  assert (Hfinish : ∀ n q' q sq,
            KR2.first_fit s u n (KR2.freep s)
              (KR2.next (KR2.rd (KR2.heap s) (KR2.freep s))) q' q →
            KR2.valid_ptr s (KR2.freep s) = true →
            (q, sq, true) ∈ bs → u <= sq → (n < fuel)%nat →
            ∃ l1 q sq l2 s' bs',
              bs = l1 ++ (q, sq, true) :: l2 ∧ u <= sq
              ∧ KR2.mm_malloc fuel s nbytes
                = Ok (KR2.mm_payload (q + (sq - u) * KR2.sizeof_Header), s')
              ∧ KR2.arena s' = KR2.arena s
              ∧ bs' = (if sq =? u then l1 ++ (q, sq, false) :: l2
                       else l1 ++ (q, sq - u, true)
                               :: (q + (sq - u) * KR2.sizeof_Header, u, false) :: l2)
              ∧ kr2_wf s' bs' ∧ kr2_node s' bs' (KR2.freep s')
              ∧ KR2.base s' = KR2.base s
              ∧ ∀ a, kr2_in_payload bs a → KR2.rd (KR2.heap s') a = KR2.rd (KR2.heap s) a).
  { intros n q' q sq Hff Hv Hq Hsq Hn.
    pose proof (kr2_first_fit_prev_node _ _ _ _ _ _ _ _ Hwf Hff Hfp
                  (kr2_next_node _ _ _ Hwf Hfp)) as Hq'.
    apply list_elem_of_split in Hq as (l1 & l2 & ->).
    destruct (kr2_malloc_first_fit fuel n s l1 l2 q sq q' nbytes _ Hwf
                (kr2_load_valid _ _ Hv) Hff Hn) as (s' & E & Hf & _ & Ha & Hb & Hwf' & Hfr).
    exists l1, q, sq, l2, s'. eexists. split; [reflexivity|]. split; [exact Hsq|].
    split; [exact E|]. split; [exact Ha|]. split; [reflexivity|]. split; [exact Hwf'|].
    split; [rewrite Hf; apply (kr2_node_taken s); assumption|].
    split; [exact Hb | exact Hfr]. }
  assert (Hbase_nofit : KR2.fits u (KR2.rd (KR2.heap s) (KR2.base s)) = false).
  { unfold KR2.fits. rewrite Hb1, Hb2. apply andb_false_r. }
  destruct Hfp as [Hfb|(sf & ff & Hf)].
  - (* the walk starts at the first block *)
    destruct (kr2_scan s u bs Hu1 [] [] (KR2.freep s) (mem_start_brk (KR2.arena s))
                (mem_brk (KR2.arena s))) as [(n & q' & q & sq & Hff & Hq & Hsq & Hn)|[Hno _]].
    + rewrite app_nil_r. exact Hwf.
    + intros y sy fy Hy. rewrite Hfb.
      destruct (kr2_wf_block_valid s _ y sy fy Hwf Hy) as (_ & ? & _).
      unfold KR2.sizeof_Header in *. lia.
    + reflexivity.
    + exact Ht.
    + apply (Hfinish n q' q sq); try assumption; try (unfold Block in *; lia).
      * rewrite Hfb at 2. rewrite Hb3. exact Hff.
      * rewrite Hfb. apply kr2_valid_base.
    + specialize (Hno _ _ Hx). lia.
  - (* the walk starts after the block [freep] *)
    remember (KR2.freep s) as f eqn:Ef.
    pose proof (kr2_wf_block_valid s _ f sf ff Hwf Hf) as (Hvf & Hf1 & Hf2 & Hf3 & _).
    destruct (kr2_wf_blocks _ _ Hwf f sf ff Hf) as (Hfs1 & Hfs2 & Hfs3 & _).
    assert (Hfb : KR2.base s ≠ f) by (unfold KR2.sizeof_Header in *; lia).
    pose proof Hf as Hsplit. apply list_elem_of_split in Hsplit as (A & Bt & E).
    pose proof Ht as Ht'. rewrite E in Ht'. unfold KR2.sizeof_Header in Ht'.
    apply tiled_app in Ht' as (c & HtA & HtB). simpl in HtB.
    destruct HtB as (Ec & _ & HtB). subst c.
    destruct (tiled_bounds 32 1 _ _ _ ltac:(lia) ltac:(lia) HtA) as (_ & _ & HbA).
    destruct (tiled_bounds 32 1 _ _ _ ltac:(lia) ltac:(lia) HtB) as (_ & _ & HbB).
    assert (Hlen : length bs = (length A + S (length Bt))%nat).
    { rewrite E, length_app. reflexivity. }
    unfold Block in *.
    destruct (kr2_scan s u Bt Hu1 (A ++ [(f, sf, ff)]) [] f (f + sf * 32)
                (mem_brk (KR2.arena s)))
      as [(n & q' & q & sq & Hff & Hq & Hsq & Hn)|[Hno1 Hgo1]].
    + rewrite app_nil_r, <- app_assoc. simpl. rewrite <- E. exact Hwf.
    + intros y sy fy Hy. destruct (HbB _ _ _ Hy) as (? & _). rewrite <- Ef. lia.
    + apply tiled_app. exists f. split; [exact HtA|]. simpl. auto.
    + exact HtB.
    + apply (Hfinish n q' q sq); try assumption; try (unfold Block in *; lia).
      * rewrite Hfs3, kr2_next_of_start. exact Hff.
      * rewrite E. apply elem_of_app. right. right. exact Hq.
    + assert (Hwrap : kr2_next_of s (mem_brk (KR2.arena s)) 0 = KR2.base s).
      { unfold kr2_next_of, KR2.sizeof_Header.
        replace (mem_brk (KR2.arena s) + 0 * 32) with (mem_brk (KR2.arena s)) by lia.
        rewrite Z.eqb_refl. reflexivity. }
      rewrite Hwrap in Hgo1.
      assert (Hbase_step : ∀ m q, (∃ q', KR2.first_fit s u m (KR2.base s)
                                       (kr2_next_of s (mem_start_brk (KR2.arena s)) 0) q' q) →
                ∃ q', KR2.first_fit s u (length Bt + S m) f (kr2_next_of s (f + sf * 32) 0) q' q).
      { intros m q (q' & Hff). apply Hgo1. intros pp'. exists q'.
        eapply KR2.first_fit_next;
          [apply kr2_load_valid, kr2_valid_base | exact Hbase_nofit | rewrite <- Ef; exact Hfb |].
        rewrite Hb3. exact Hff. }
      destruct (kr2_scan s u A Hu1 [] ((f, sf, ff) :: Bt) (KR2.base s)
                  (mem_start_brk (KR2.arena s)) f)
        as [(n & q' & q & sq & Hff & Hq & Hsq & Hn)|[Hno2 Hgo2]].
      * pose proof Hwf as Hwf2. rewrite E in Hwf2. exact Hwf2.
      * intros y sy fy Hy. destruct (HbA _ _ _ Hy) as (_ & ? & ? & _). rewrite <- Ef. lia.
      * reflexivity.
      * exact HtA.
      * destruct (Hbase_step n q (ex_intro _ q' Hff)) as (q1 & Hff1).
        apply (Hfinish (length Bt + S n)%nat q1 q sq); try assumption; try (unfold Block in *; lia).
        -- rewrite Hfs3, kr2_next_of_start. exact Hff1.
        -- rewrite E. apply elem_of_app. left. exact Hq.
      * assert (Hf0 : kr2_next_of s f 0 = f).
        { unfold kr2_next_of, KR2.sizeof_Header.
          destruct (Z.eqb_spec (f + 0 * 32) (mem_brk (KR2.arena s))); lia. }
        rewrite Hf0 in Hgo2.
        destruct (KR2.fits u (KR2.rd (KR2.heap s) f)) eqn:Hfit.
        -- destruct (Hgo2 0%nat f) as (q1 & Hff1).
           { intros pp'. exists pp'. eapply KR2.first_fit_here;
               [apply kr2_load_valid; exact Hvf | exact Hfit]. }
           destruct (Hbase_step _ f (ex_intro _ q1 Hff1)) as (q2 & Hff2).
           unfold KR2.fits in Hfit. rewrite Hfs1, Hfs2 in Hfit.
           apply andb_true_iff in Hfit as [Hle Hfree]. apply Z.leb_le in Hle.
           apply (Hfinish (length Bt + S (length A + 0))%nat q2 f sf); try assumption; try (unfold Block in *; lia).
           ++ rewrite Hfs3, kr2_next_of_start. exact Hff2.
           ++ rewrite <- Hfree. exact Hf.
        -- exfalso. rewrite E in Hx.
           apply elem_of_app in Hx as [Hx|Hx]; [|apply elem_of_cons in Hx as [Heq|Hx]].
           ++ specialize (Hno2 _ _ Hx). lia.
           ++ injection Heq as E1 E2 E3. unfold KR2.fits in Hfit.
              rewrite Hfs1, Hfs2, <- E3, andb_true_r in Hfit. apply Z.leb_gt in Hfit. lia.
           ++ specialize (Hno1 _ _ Hx). lia.
Qed.

(** X5.  [mm_malloc] of [mm_heap_kr2.c] on a well-formed heap that has a
    free block of at least [mm_units nbytes] units: it returns a block cut
    from a free block of the list, without extending the arena, and leaves
    a well-formed heap whose [freep] is on the list. *)
Theorem X5_kr2_malloc_reuses_free_memory :
  ∀ (fuel : nat) (s : KR2.state) (bs : list Block) (x sx nbytes : Z),
    kr2_wf s bs → kr2_node s bs (KR2.freep s) →
    (x, sx, true) ∈ bs → KR2.mm_units nbytes <= sx →
    (length bs < fuel)%nat →
    ∃ l1 q sq l2 s' bs',
      bs = l1 ++ (q, sq, true) :: l2
      ∧ KR2.mm_units nbytes <= sq
      ∧ KR2.mm_malloc fuel s nbytes
        = Ok (KR2.mm_payload (q + (sq - KR2.mm_units nbytes) * KR2.sizeof_Header), s')
      ∧ KR2.arena s' = KR2.arena s
      ∧ bs' = (if sq =? KR2.mm_units nbytes then l1 ++ (q, sq, false) :: l2
               else l1 ++ (q, sq - KR2.mm_units nbytes, true)
                       :: (q + (sq - KR2.mm_units nbytes) * KR2.sizeof_Header,
                           KR2.mm_units nbytes, false) :: l2)
      ∧ kr2_wf s' bs' ∧ kr2_node s' bs' (KR2.freep s').
Proof.
  intros fuel s bs x sx nbytes Hwf Hfp Hx Hsx Hfuel.
  destruct (kr2_malloc_reuses fuel s bs x sx nbytes Hwf Hfp Hx Hsx Hfuel)
    as (l1 & q & sq & l2 & s' & bs' & E & Hsq & Em & Ha & Ebs' & Hwf' & Hn' & _).
  exists l1, q, sq, l2, s', bs'. auto 10.
Qed.

Lemma X5_kr2_malloc_reuses_free_memory_witness :
  ∃ l1 q sq l2 s' bs',
    [(65536, 122, true); (69440, 2, false); (69504, 2, true); (69568, 2, false)]
    = l1 ++ (q, sq, true) :: l2
    ∧ KR2.mm_units 1000 <= sq
    ∧ KR2.mm_malloc 8 kr2_gap 1000
      = Ok (KR2.mm_payload (q + (sq - KR2.mm_units 1000) * KR2.sizeof_Header), s')
    ∧ KR2.arena s' = KR2.arena kr2_gap
    ∧ bs' = (if sq =? KR2.mm_units 1000 then l1 ++ (q, sq, false) :: l2
             else l1 ++ (q, sq - KR2.mm_units 1000, true)
                     :: (q + (sq - KR2.mm_units 1000) * KR2.sizeof_Header,
                         KR2.mm_units 1000, false) :: l2)
    ∧ kr2_wf s' bs' ∧ kr2_node s' bs' (KR2.freep s').
Proof.
  apply (X5_kr2_malloc_reuses_free_memory 8 kr2_gap
           [(65536, 122, true); (69440, 2, false); (69504, 2, true); (69568, 2, false)]
           65536 122 1000 kr2_gap_wf).
  - right. exists 2, false. right. left.
  - left.
  - apply Z.leb_le. reflexivity.
  - simpl. lia.
Defined.

(** ** [mm_free] on any block of the list, [mm_heap_kr2.c] *)

Lemma kr2_node_flag s s' l1 x sx fx sx' fx' l2 a :
  KR2.base s' = KR2.base s →
  kr2_node s' (l1 ++ (x, sx', fx') :: l2) a → kr2_node s (l1 ++ (x, sx, fx) :: l2) a.
Proof.
  intros Hb [->|(sa & fa & Hin)]; [left; exact Hb|]. right.
  apply elem_of_app in Hin as [Hin|Hin]; [|apply elem_of_cons in Hin as [Hin|Hin]].
  - exists sa, fa. apply elem_of_app. left. exact Hin.
  - injection Hin as -> _ _. exists sx, fx. apply elem_of_middle.
  - exists sa, fa. apply elem_of_app. right. right. exact Hin.
Qed.

Lemma kr2_node_merge_upper s s' l1 x sx l2 a :
  KR2.base s' = KR2.base s →
  kr2_node s' (l1 ++ merge_upper x sx l2) a → kr2_node s (l1 ++ (x, sx, true) :: l2) a.
Proof.
  intros Hb. destruct l2 as [|[[n sn] [|]] r]; simpl merge_upper;
    try apply (kr2_node_flag s s' l1 x sx true sx true _ a Hb).
  intros [->|(sa & fa & Hin)]; [left; exact Hb|]. right.
  apply elem_of_app in Hin as [Hin|Hin]; [|apply elem_of_cons in Hin as [Hin|Hin]].
  - exists sa, fa. apply elem_of_app. left. exact Hin.
  - injection Hin as -> _ _. exists sx, true. apply elem_of_middle.
  - exists sa, fa. apply elem_of_app. right. right. right. exact Hin.
Qed.

(** [mm_free] on a block of the list, in use or free: the heap stays well
    formed, and only headers of the list are written to. *)
Lemma kr2_free_any_wf fuel s l1 x sx fx l2 :
  kr2_wf s (l1 ++ (x, sx, fx) :: l2) →
  ∃ s', KR2.mm_free fuel s (KR2.mm_payload x) = Ok s'
        ∧ kr2_wf s' (free_block l1 x sx l2)
        ∧ kr2_node s' (free_block l1 x sx l2) (KR2.freep s')
        ∧ KR2.base s' = KR2.base s ∧ KR2.arena s' = KR2.arena s
        ∧ ∀ a, ¬ kr2_node s (l1 ++ (x, sx, fx) :: l2) a →
               KR2.rd (KR2.heap s') a = KR2.rd (KR2.heap s) a.
Proof.
  intros Hwf.
  pose proof (kr2_wf_block_valid s _ x sx fx Hwf (elem_of_middle _ _ _)) as (Hvx & Hx1 & Hx2 & Hx3 & Hvn).
  pose proof Hwf as [Hl Ht Hb Hbase].
  destruct (Hb x sx fx (elem_of_middle _ _ _)) as (Hc1 & Hc2 & Hc3 & Hc4).
  destruct Hl as (Hl1 & Hl2 & Hl3 & Hl4).
  unfold KR2.mm_free, KR2.mm_payload, KR2.mm_block, KR2.sizeof_Header in *.
  destruct (Z.eqb_spec (x + 1 * 32) NULL) as [He|_]; [unfold NULL in He; lia|].
  replace (x + 1 * 32 - 1 * 32) with x by lia.
  rewrite kr2_load_valid by exact Hvx. cbn [mbind result_bind]. rewrite Hc1.
  unfold KR2.mm_bytes, KR2.sizeof_Header, mem_heapsize.
  rewrite wrap_small by (pow2; lia).
  destruct (Z.ltb_spec 0 sx); [|lia].
  destruct (Z.leb_spec (sx * 32) (mem_brk (KR2.arena s) - mem_start_brk (KR2.arena s))); [|lia].
  cbn [andb negb].
  unfold KR2.link_new_block. rewrite kr2_load_valid by exact Hvx. cbn [mbind result_bind].
  rewrite Hc3.
  assert (Hnz : kr2_next_of s x sx ≠ NULL).
  { unfold kr2_next_of, NULL, KR2.sizeof_Header.
    destruct (Z.eqb_spec (x + sx * 32) (mem_brk (KR2.arena s))); lia. }
  destruct (Z.eqb_spec (kr2_next_of s x sx) NULL); [contradiction|]. cbn [mbind result_bind].
  destruct (kr2_set_free s l1 x sx fx l2 Hwf) as (s2 & E2 & Hwf2 & Hfp2).
  rewrite E2. cbn [mbind result_bind].
  destruct (kr2_merge_next_spec s2 l1 x sx l2 Hwf2) as (s3 & E3 & Hwf3 & Hfp3).
  rewrite E3. cbn [mbind result_bind].
  assert (Hmu : ∃ sx' r, merge_upper x sx l2 = (x, sx', true) :: r).
  { destruct l2 as [|[[n' sn'] [|]] l2]; simpl; eauto. }
  destruct Hmu as (sx' & r & Hmu). unfold free_block.
  pose proof Hwf3 as Hwf3'. rewrite Hmu in Hwf3'. rewrite Hmu.
  destruct (kr2_merge_prev_spec s3 l1 x sx' r Hwf3') as (s4 & bp & sb & E4 & Hwf4 & Hin4 & Hfp4).
  rewrite E4. cbn [mbind result_bind].
  destruct (kr2_prev_node s4 _ bp sb true Hwf4 Hin4) as [Hvb Hnode].
  rewrite kr2_load_valid by exact Hvb. cbn [mbind result_bind].
  eexists. split; [reflexivity|]. split; [apply kr2_wf_with_freep; exact Hwf4|].
  split; [exact Hnode|].
  pose proof E2 as E2'. apply kr2_upd_Ok in E2' as [_ Es2].
  assert (B2 : KR2.base s2 = KR2.base s ∧ KR2.arena s2 = KR2.arena s)
    by (rewrite Es2; split; reflexivity).
  assert (B3 : KR2.base s3 = KR2.base s2 ∧ KR2.arena s3 = KR2.arena s2).
  { destruct (kr2_merge_next_same (x + 1) _ _ _ E3 ltac:(lia)) as (A1 & A2 & _). auto. }
  assert (B4 : KR2.base s4 = KR2.base s3 ∧ KR2.arena s4 = KR2.arena s3).
  { destruct (kr2_wf_base _ _ Hwf3) as (_ & Hbf & _).
    destruct (kr2_merge_prev_same (KR2.base s3) _ _ _ _ E4 Hbf) as (A1 & A2 & _). auto. }
  destruct B2 as [B2 A2], B3 as [B3 A3], B4 as [B4 A4].
  cbn [KR2.base KR2.arena KR2.with_freep KR2.heap].
  split; [congruence|]. split; [congruence|].
  intros a Ha.
  assert (Ha2 : ¬ kr2_node s2 (l1 ++ (x, sx, true) :: l2) a).
  { intros H'. apply Ha. exact (kr2_node_flag s s2 l1 x sx fx sx true l2 a B2 H'). }
  assert (Ha3 : ¬ kr2_node s3 (l1 ++ (x, sx', true) :: r) a).
  { intros H'. apply Ha2. rewrite <- Hmu in H'.
    exact (kr2_node_merge_upper s2 s3 l1 x sx l2 a B3 H'). }
  rewrite (kr2_merge_prev_frame s3 _ x sx' true s4 bp a Hwf3' (elem_of_middle _ _ _) E4 Ha3).
  rewrite (kr2_merge_next_frame s2 _ x sx true s3 a Hwf2 (elem_of_middle _ _ _) E3 Ha2).
  rewrite Es2. cbn [KR2.heap KR2.with_heap]. apply kr2_rd_insert_ne.
  intros ->. apply Ha. right. eexists _, _. apply elem_of_middle.
Qed.

(** With no free block next to it, a freed block is merged with nothing. *)
Lemma merge_lower_apart l1 x sx r :
  adjacent_free (l1 ++ [(x, sx, true)]) = false →
  merge_lower l1 ((x, sx, true) :: r) = l1 ++ (x, sx, true) :: r.
Proof.
  induction l1 as [|[[p sp] fp] l1 IH]; intros H; [apply merge_lower_nil|].
  simpl app in H. rewrite adjacent_free_cons in H. apply orb_false_iff in H as [H1 H2].
  destruct l1 as [|b l1].
  - simpl in H1. rewrite andb_true_r in H1. subst fp. reflexivity.
  - assert (merge_lower ((p, sp, fp) :: b :: l1) ((x, sx, true) :: r)
            = (p, sp, fp) :: merge_lower (b :: l1) ((x, sx, true) :: r)) as ->
      by (destruct fp; reflexivity).
    rewrite (IH H2). reflexivity.
Qed.

Lemma free_block_apart l1 x sx l2 :
  adjacent_free (l1 ++ (x, sx, true) :: l2) = false →
  free_block l1 x sx l2 = l1 ++ (x, sx, true) :: l2.
Proof.
  intros H. apply adjacent_free_app_inv in H as [H1 H2].
  rewrite adjacent_free_cons in H2. apply orb_false_iff in H2 as [H2 _]. simpl in H2.
  unfold free_block.
  assert (merge_upper x sx l2 = (x, sx, true) :: l2) as ->.
  { destruct l2 as [|[[n sn] fn] l2]; [reflexivity|]. simpl in H2. subst fn. reflexivity. }
  apply merge_lower_apart. exact H1.
Qed.

(** X6.  [mm_free] of [mm_heap_kr2.c] on a block that is free already: the
    call returns and the heap stays well formed; when no two free blocks
    lie side by side, the blocks are what they were. *)
Theorem X6_kr2_double_free_keeps_the_heap :
  ∀ (fuel : nat) (s : KR2.state) (l1 l2 : list Block) (x sx : Z),
    kr2_wf s (l1 ++ (x, sx, true) :: l2) →
    ∃ s',
      KR2.mm_free fuel s (KR2.mm_payload x) = Ok s'
      ∧ kr2_wf s' (free_block l1 x sx l2)
      ∧ kr2_node s' (free_block l1 x sx l2) (KR2.freep s')
      ∧ (adjacent_free (l1 ++ (x, sx, true) :: l2) = false →
         kr2_wf s' (l1 ++ (x, sx, true) :: l2)).
Proof.
  intros fuel s l1 l2 x sx Hwf.
  destruct (kr2_free_any_wf fuel s l1 x sx true l2 Hwf) as (s' & E & Hwf' & Hn & _).
  exists s'. split; [exact E|]. split; [exact Hwf'|]. split; [exact Hn|].
  intros Ha. rewrite (free_block_apart _ _ _ _ Ha) in Hwf'. exact Hwf'.
Qed.

Lemma X6_kr2_double_free_keeps_the_heap_witness :
  ∃ s',
    KR2.mm_free 8 kr2_gap 69536 = Ok s'
    ∧ kr2_wf s' [(65536, 122, true); (69440, 2, false); (69504, 2, true); (69568, 2, false)].
Proof.
  destruct (X6_kr2_double_free_keeps_the_heap 8 kr2_gap
              [(65536, 122, true); (69440, 2, false)] [(69568, 2, false)] 69504 2 kr2_gap_wf)
    as (s' & E & _ & _ & H).
  exists s'. split; [exact E|]. apply H. reflexivity.
Defined.

(** ** [mm_malloc] followed by [mm_free], [mm_heap_kr2.c] *)

Lemma merge_upper_busy_head x sx l2 :
  head_free l2 = false → merge_upper x sx l2 = (x, sx, true) :: l2.
Proof. destruct l2 as [|[[n sn] fn] l2]; [reflexivity|]. simpl. intros ->. reflexivity. Qed.

Lemma kr2_malloc_free_roundtrip (fuel : nat) (s : KR2.state) (bs : list Block) (x sx nbytes : Z) :
  kr2_wf s bs → kr2_node s bs (KR2.freep s) → adjacent_free bs = false →
  (x, sx, true) ∈ bs → KR2.mm_units nbytes <= sx → (length bs < fuel)%nat →
  ∃ ap s1 s2,
    KR2.mm_malloc fuel s nbytes = Ok (ap, s1) ∧ ap ≠ NULL
    ∧ KR2.mm_free fuel s1 ap = Ok s2
    ∧ kr2_wf s2 bs ∧ kr2_node s2 bs (KR2.freep s2).
Proof.
  intros Hwf Hfp Hadj Hx Hsx Hfuel.
  destruct (kr2_malloc_reuses fuel s bs x sx nbytes Hwf Hfp Hx Hsx Hfuel)
    as (l1 & q & sq & l2 & s1 & bs' & E & Hsq & Em & _ & Ebs' & Hwf1 & _ & _).
  pose proof (kr2_mm_units_range nbytes) as [Hu1 _].
  set (u := KR2.mm_units nbytes) in *.
  pose proof (kr2_wf_block_valid s _ q sq true Hwf
                ltac:(rewrite E; apply elem_of_middle)) as (_ & Hq1 & _).
  destruct (kr2_wf_layout _ _ Hwf) as (Hl1 & Hl2 & _).
  assert (Hnz : KR2.mm_payload (q + (sq - u) * KR2.sizeof_Header) ≠ NULL).
  { unfold KR2.mm_payload, KR2.sizeof_Header, NULL in *. lia. }
  pose proof Hadj as Hadj'. rewrite E in Hadj'.
  destruct (Z.eqb_spec sq u) as [He|Hne].
  - subst bs'.
    destruct (kr2_free_any_wf fuel s1 l1 q sq false l2 Hwf1) as (s2 & Ef & Hwf2 & Hn2 & _).
    rewrite (free_block_apart _ _ _ _ Hadj'), <- E in Hwf2, Hn2.
    exists (KR2.mm_payload (q + (sq - u) * KR2.sizeof_Header)), s1, s2.
    split; [exact Em|]. split; [exact Hnz|].
    replace (q + (sq - u) * KR2.sizeof_Header) with q by lia.
    split; [exact Ef|]. split; [exact Hwf2 | exact Hn2].
  - subst bs'. set (q2 := q + (sq - u) * KR2.sizeof_Header) in *.
    assert (E1 : l1 ++ (q, sq - u, true) :: (q2, u, false) :: l2
                 = (l1 ++ [(q, sq - u, true)]) ++ (q2, u, false) :: l2)
      by (rewrite <- app_assoc; reflexivity).
    rewrite E1 in Hwf1.
    destruct (kr2_free_any_wf fuel s1 _ q2 u false l2 Hwf1) as (s2 & Ef & Hwf2 & Hn2 & _).
    assert (E2 : free_block (l1 ++ [(q, sq - u, true)]) q2 u l2 = bs).
    { apply adjacent_free_app_inv in Hadj' as [_ H2].
      rewrite adjacent_free_cons in H2. apply orb_false_iff in H2 as [H2 _]. simpl in H2.
      unfold free_block. rewrite (merge_upper_busy_head _ _ _ H2), merge_lower_snoc_free.
      replace (sq - u + u) with sq by lia. symmetry. exact E. }
    rewrite E2 in Hwf2, Hn2.
    exists (KR2.mm_payload q2), s1, s2. auto.
Qed.

(** X7.  [mm_malloc] and then [mm_free] of the block it returned, in
    [mm_heap_kr2.c]: on a well-formed heap in which no two free blocks lie
    side by side and some free block is large enough, both calls return
    and the heap has the blocks it had before. *)
Theorem X7_kr2_malloc_then_free_restores_the_blocks :
  ∀ (fuel : nat) (s : KR2.state) (bs : list Block) (x sx nbytes : Z),
    kr2_wf s bs → kr2_node s bs (KR2.freep s) → adjacent_free bs = false →
    (x, sx, true) ∈ bs → KR2.mm_units nbytes <= sx → (length bs < fuel)%nat →
    ∃ ap s1 s2,
      KR2.mm_malloc fuel s nbytes = Ok (ap, s1) ∧ ap ≠ NULL
      ∧ KR2.mm_free fuel s1 ap = Ok s2
      ∧ kr2_wf s2 bs ∧ kr2_node s2 bs (KR2.freep s2).
Proof.
  intros fuel s bs x sx nbytes Hwf Hfp Hadj Hx Hsx Hfuel.
  exact (kr2_malloc_free_roundtrip fuel s bs x sx nbytes Hwf Hfp Hadj Hx Hsx Hfuel).
Qed.

Lemma X7_kr2_malloc_then_free_restores_the_blocks_witness :
  ∃ ap s1 s2,
    KR2.mm_malloc 8 kr2_gap 1000 = Ok (ap, s1) ∧ ap ≠ NULL
    ∧ KR2.mm_free 8 s1 ap = Ok s2
    ∧ kr2_wf s2 [(65536, 122, true); (69440, 2, false); (69504, 2, true); (69568, 2, false)]
    ∧ kr2_node s2 [(65536, 122, true); (69440, 2, false); (69504, 2, true); (69568, 2, false)]
        (KR2.freep s2).
Proof.
  apply (X7_kr2_malloc_then_free_restores_the_blocks 8 kr2_gap
           [(65536, 122, true); (69440, 2, false); (69504, 2, true); (69568, 2, false)]
           65536 122 1000 kr2_gap_wf).
  - right. exists 2, false. right. left.
  - reflexivity.
  - left.
  - apply Z.leb_le. reflexivity.
  - simpl. lia.
Defined.

(** ** First and last units of the blocks, [mm_heap_dll.c] *)

Lemma dll_edge_head s bs c sc a : dll_chunk s bs c sc → ¬ dll_edge s bs a → a ≠ c.
Proof. intros Hc Ha ->. apply Ha. exists c, sc. auto. Qed.

Lemma dll_edge_tail s bs c sc a :
  dll_chunk s bs c sc → ¬ dll_edge s bs a → a ≠ c + sc * 16 - 1 * 16.
Proof. intros Hc Ha ->. apply Ha. exists c, sc. split; [exact Hc | right; reflexivity]. Qed.

(** The units inside a block in use are not the first or last unit of
    any block, and lie in no free block. *)
Lemma dll_payload_apart ex s bs a :
  dll_wf ex s bs → dll_in_payload bs a →
  ¬ dll_edge s bs a
  ∧ ∀ q sq, (q, sq, true) ∈ bs → a < q ∨ q + sq * 16 <= a.
Proof.
  intros Hwf (y & sy & Hy & Hya). unfold dll_tail, DLL.sizeof_Header in Hya.
  pose proof (dll_block_chunk s _ _ _ _ Hy) as Cy.
  destruct (dll_chunk_range _ _ _ _ _ Hwf Cy) as (Hy1 & Hy2 & Hy3).
  split.
  - intros (c & sc & Hc & Hac).
    destruct (dll_chunk_range _ _ _ _ _ Hwf Hc) as (Hc1 & Hc2 & Hc3).
    unfold dll_tail, DLL.sizeof_Header in Hac.
    destruct (dll_chunk_disjoint _ _ _ _ _ _ _ Hwf Hc Cy) as [[-> ->]|[D|D]]; lia.
  - intros q sq Hq.
    pose proof (dll_wf_tiled _ _ _ Hwf) as Ht. unfold DLL.sizeof_Header in Ht.
    destruct (tiled_disjoint 16 2 _ _ _ ltac:(lia) ltac:(lia) Ht _ _ _ _ _ _ Hq Hy)
      as [(_ & _ & ?)|[D|D]]; [discriminate | right; lia | left; lia].
Qed.

(** ** Allocation from the free list, [mm_heap_dll.c] *)

Lemma dll_walk_to_fit s nunits n prevp p q' q :
  DLL.first_fit s nunits n prevp p q' q →
  ∀ fuel, DLL.malloc_loop (n + fuel) s nunits prevp p = DLL.malloc_loop fuel s nunits q' q.
Proof.
  induction 1 as [prevp p hp Hld Hfit | n prevp p q' q hp Hld Hfit Hne _ IH]; intros fuel.
  - reflexivity.
  - change (S n + fuel)%nat with (S (n + fuel)). cbn [DLL.malloc_loop].
    rewrite Hld. cbn [mbind result_bind]. rewrite Hfit.
    rewrite (proj2 (Z.eqb_neq _ _) Hne). apply IH.
Qed.

Lemma dll_first_fit_fits s nunits n prevp p q' q :
  DLL.first_fit s nunits n prevp p q' q →
  DLL.fits nunits (DLL.rd (DLL.heap s) q) = true.
Proof.
  induction 1 as [prevp p hp Hld Hfit | n prevp p q' q hp Hld Hfit Hne _ IH]; [|exact IH].
  apply dll_load_Ok in Hld as [_ ->]. exact Hfit.
Qed.

(** The block met before the one that fits is on the free list and links
    to it. *)
Lemma dll_first_fit_pred ex s bs nunits n prevp p q' q :
  dll_wf ex s bs →
  DLL.first_fit s nunits n prevp p q' q →
  ∀ sp, dll_node s bs prevp sp → DLL.ptr (DLL.rd (DLL.heap s) prevp) = p →
  ∃ sq', dll_node s bs q' sq' ∧ DLL.ptr (DLL.rd (DLL.heap s) q') = q.
Proof.
  intros Hwf.
  induction 1 as [prevp p hp Hld Hfit | n prevp p q' q hp Hld Hfit Hne _ IH]; intros sp Hn Hp.
  - exists sp. auto.
  - destruct (dll_wf_links _ _ _ Hwf _ _ Hn) as [(x & sx & Hx & Hpx & _) _].
    apply dll_load_Ok in Hld as [_ ->].
    apply (IH sx); [|reflexivity]. rewrite <- Hp, Hpx. exact Hx.
Qed.

(** The members of the free list once the block [q] is taken off it. *)
Lemma dll_node_taken s l1 q sq l2 y sy :
  dll_wf 0 s (l1 ++ (q, sq, true) :: l2) →
  dll_node s (l1 ++ (q, sq, false) :: l2) y sy ↔
  dll_node s (l1 ++ (q, sq, true) :: l2) y sy ∧ y ≠ q.
Proof.
  intros Hwf.
  assert (Hq : dll_node s (l1 ++ (q, sq, true) :: l2) q sq) by (right; apply elem_of_middle).
  split.
  - intros Hy. assert (Hy' : dll_node s (l1 ++ (q, sq, true) :: l2) y sy)
      by (apply dll_node_mono; exact Hy).
    split; [exact Hy'|]. intros ->.
    pose proof (dll_chunk_size _ _ _ _ _ _ Hwf (dll_node_chunk _ _ _ _ Hy')
                  (dll_node_chunk _ _ _ _ Hq)) as ->.
    destruct Hy as [[Hb _]|Hin].
    + destruct (dll_wf_block _ _ _ _ _ _ Hwf (elem_of_middle l1 l2 (q, sq, true))) as (_ & _ & ? & _).
      destruct (dll_wf_layout _ _ _ Hwf) as (? & ? & _). unfold DLL.sizeof_Header in *. lia.
    + pose proof (dll_wf_tiled _ _ _ Hwf) as Ht.
      assert (Ht' : tiled DLL.sizeof_Header 2 (mem_start_brk (DLL.arena s))
                      (l1 ++ (q, sq, false) :: l2) (mem_brk (DLL.arena s))).
      { apply tiled_app in Ht as (c & Ht1 & Ht2). apply tiled_app. exists c. split; [exact Ht1|exact Ht2]. }
      destruct (tiled_disjoint 16 2 _ _ _ ltac:(lia) ltac:(lia) Ht' _ _ _ _ _ _ Hin
                  (elem_of_middle l1 l2 (q, sq, false))) as [(_ & _ & ?)|D]; [discriminate|].
      destruct (tiled_bounds 16 2 _ _ _ ltac:(lia) ltac:(lia) Ht') as (_ & _ & B).
      destruct (B _ _ _ Hin) as (? & ? & ? & _). lia.
  - intros [Hy Hne]. apply dll_node_flip in Hy as [Hy|[-> _]]; [exact Hy | contradiction].
Qed.

(** The stores of [mm_malloc] for a block [q] of exactly the size asked
    for: [q] leaves the free list, whose neighbours are linked to each
    other. *)
Lemma dll_take_exact s l1 q sq l2 P sP k :
  dll_wf 0 s (l1 ++ (q, sq, true) :: l2) →
  dll_node s (l1 ++ (q, sq, true) :: l2) P sP →
  DLL.ptr (DLL.rd (DLL.heap s) P) = q →
  ∃ s', DLL.malloc_loop (S k) s sq P q = Ok (DLL.mm_payload q, s')
        ∧ DLL.freep s' = P ∧ DLL.arena s' = DLL.arena s ∧ DLL.base s' = DLL.base s
        ∧ dll_wf 0 s' (l1 ++ (q, sq, false) :: l2)
        ∧ ∀ a, ¬ dll_edge s (l1 ++ (q, sq, true) :: l2) a →
               DLL.rd (DLL.heap s') a = DLL.rd (DLL.heap s) a.
Proof.
  intros Hwf HP HPq.
  pose proof (dll_node_taken s l1 q sq l2) as Hnew.
  set (bs := l1 ++ (q, sq, true) :: l2) in *.
  assert (Hq : dll_node s bs q sq) by (right; apply elem_of_middle).
  destruct (dll_wf_node _ _ _ _ _ Hwf Hq) as (Hvq & Hvtq & _ & _ & Hq3 & _).
  destruct (dll_wf_node _ _ _ _ _ Hwf HP) as (HvP & HvtP & _ & _ & HP3 & _).
  pose proof (dll_wf_links _ _ _ Hwf q sq Hq) as [(N & sN & HN & HqN & HNq) (P' & sP' & HP' & HqP' & _)].
  destruct (dll_wf_node _ _ _ _ _ Hwf HN) as (HvN & HvtN & _ & _ & HN3 & _).
  pose proof (dll_node_chunk _ _ _ _ Hq) as Cq.
  pose proof (dll_node_chunk _ _ _ _ HP) as CP.
  pose proof (dll_node_chunk _ _ _ _ HN) as CN.
  assert (HtqP : DLL.ptr (DLL.rd (DLL.heap s) (dll_tail q sq)) = P).
  { destruct (dll_wf_links _ _ _ Hwf P sP HP) as [(n0 & sn0 & Hn0 & HPn0 & Hn0P) _].
    assert (E : n0 = q) by congruence. rewrite E in *.
    rewrite (dll_chunk_size _ _ _ _ _ _ Hwf (dll_node_chunk _ _ _ _ Hn0) Cq) in Hn0P.
    exact Hn0P. }
  clear P' sP' HP' HqP'.
  assert (HPN : P = q ↔ N = q).
  { split; intros E.
    - rewrite E in HPq. congruence.
    - rewrite E in HNq.
      rewrite (dll_chunk_size _ _ _ _ _ _ Hwf Cq (eq_rect _ (fun a => dll_chunk s bs a sN) CN _ E)) in HtqP.
      congruence. }
  cbn [DLL.malloc_loop]. rewrite (dll_load_valid s q) by exact Hvq. cbn [mbind result_bind].
  unfold DLL.fits. rewrite Hq3, Z.eqb_refl. cbn [orb]. rewrite HqN.
  unfold DLL.link_header, DLL.mm_tail, dll_tail, DLL.sizeof_Header in *.
  rewrite (dll_upd_valid s P) by exact HvP. cbn [mbind result_bind].
  rewrite (dll_load_valid _ N) by exact HvN. cbn [mbind result_bind DLL.heap DLL.with_heap].
  rewrite dll_size_set_ptr, HN3.
  rewrite (dll_upd_valid _ (N + sN * 16 - 1 * 16)) by exact HvtN.
  cbn [mbind result_bind DLL.heap DLL.with_heap].
  rewrite (dll_upd_valid _ q) by exact Hvq. cbn [mbind result_bind DLL.heap DLL.with_heap].
  rewrite (dll_load_valid _ q) by exact Hvq. cbn [mbind result_bind DLL.heap DLL.with_heap].
  rewrite !dll_size_set_ptr, Hq3.
  rewrite (dll_upd_valid _ (q + sq * 16 - 1 * 16)) by exact Hvtq.
  cbn [mbind result_bind DLL.heap DLL.with_heap].
  eexists. split; [reflexivity|]. split; [reflexivity|]. split; [reflexivity|].
  split; [reflexivity|].
  split.
  2: { intros a Ha. cbn [DLL.heap DLL.with_heap DLL.with_freep].
       pose proof (dll_edge_head _ _ _ _ _ Cq Ha) as E1.
       pose proof (dll_edge_tail _ _ _ _ _ Cq Ha) as E2.
       pose proof (dll_edge_head _ _ _ _ _ CP Ha) as E3.
       pose proof (dll_edge_tail _ _ _ _ _ CN Ha) as E4.
       rewrite !dll_rd_insert_ne by (apply not_eq_sym; assumption). reflexivity. }
  apply dll_wf_with_freep.
  pose proof Hwf as [Hl Ht Hs Hbusy Hbase Hlinks].
  assert (Hflip : ∀ y sy fy, (y, sy, fy) ∈ l1 ++ (q, sq, false) :: l2 →
            (∃ fy', (y, sy, fy') ∈ bs)
            ∧ ((y, sy, fy) ∈ bs ∨ (y = q ∧ sy = sq ∧ fy = false))).
  { intros y sy fy Hin. unfold bs.
    apply elem_of_app in Hin as [Hi|Hi]; [|apply elem_of_cons in Hi as [Hi|Hi]].
    - split; [exists fy|left]; apply elem_of_app; left; exact Hi.
    - injection Hi as -> -> ->. split; [exists true; apply elem_of_middle | right; auto].
    - split; [exists fy|left]; apply elem_of_app; right; right; exact Hi. }
  constructor; cbn [DLL.heap DLL.arena DLL.base DLL.with_heap].
  - exact Hl.
  - unfold bs in Ht. apply tiled_app in Ht as (c & Ht1 & Ht2). apply tiled_app.
    exists c. split; [exact Ht1 | exact Ht2].
  - intros y sy fy Hin. apply Hflip in Hin as [[fy' Hin] _].
    rewrite !dll_size_set_ptr. exact (Hs _ _ _ Hin).
  - intros y sy Hin _. apply Hflip in Hin as [_ [Hin|(-> & -> & _)]].
    + pose proof (dll_block_chunk s _ _ _ _ Hin) as Cy.
      pose proof (dll_node_ne_busy _ _ _ _ _ _ _ Hwf HP Hin) as NPy.
      pose proof (dll_node_ne_busy _ _ _ _ _ _ _ Hwf HN Hin) as NNy.
      pose proof (dll_node_ne_busy _ _ _ _ _ _ _ Hwf Hq Hin) as Nqy.
      assert (Ny0 : y ≠ 0).
      { destruct (dll_wf_block _ _ _ _ _ _ Hwf Hin) as (_ & _ & ? & _).
        destruct Hl as (? & ? & _). unfold DLL.sizeof_Header in *. lia. }
      destruct (Hbusy y sy Hin Ny0) as [Hb1 Hb2]. unfold dll_tail, DLL.sizeof_Header in *.
      clear Ny0. dll_facts Hwf.
      split; dll_rd_hyp; assumption.
    + dll_facts Hwf. split; dll_rd_hyp; reflexivity.
  - rewrite !dll_size_set_ptr. exact Hbase.
  - intros y sy Hy. dll_node_norm. apply Hnew in Hy as [Hy Nyq]; [|exact Hwf].
    destruct (Hlinks y sy Hy) as [(n & sn & Hn & Hyn & Hny) (p & sp & Hp & Hyp & Hpy)].
    unfold dll_tail, DLL.sizeof_Header in *.
    pose proof (dll_node_chunk _ _ _ _ Hy) as Cy.
    pose proof (dll_node_chunk _ _ _ _ Hn) as Cn.
    pose proof (dll_node_chunk _ _ _ _ Hp) as Cp.
    split.
    + destruct (decide (y = P)) as [EyP|NyP].
      * assert (NNq : N ≠ q) by (intros E; apply Nyq; rewrite EyP; apply HPN; exact E).
        assert (NPq : P ≠ q) by congruence.
        exists N, sN. split; [apply Hnew; [exact Hwf|]; split; assumption|].
        clear Hyn Hny Hyp Hpy. rewrite EyP. clear Cy Cn Cp. dll_facts Hwf.
        split; dll_rd_hyp; reflexivity.
      * assert (Nnq : n ≠ q).
        { intros E. apply NyP. rewrite E in *.
          rewrite (dll_chunk_size _ _ _ _ _ _ Hwf Cn Cq) in Hny. congruence. }
        assert (NnN : n ≠ N).
        { intros E. apply Nyq. rewrite E in *.
          rewrite (dll_chunk_size _ _ _ _ _ _ Hwf Cn CN) in Hny. congruence. }
        exists n, sn. split; [apply Hnew; [exact Hwf|]; split; assumption|].
        clear Cp. dll_facts Hwf.
        split; dll_rd_hyp; assumption.
    + destruct (decide (y = N)) as [EyN|NyN].
      * assert (NNq : N ≠ q) by congruence.
        assert (NPq : P ≠ q) by (intros E; apply NNq; apply HPN; exact E).
        exists P, sP. split; [apply Hnew; [exact Hwf|]; split; assumption|].
        clear Hyn Hny Hyp Hpy. rewrite EyN in *.
        rewrite (dll_chunk_size _ _ _ _ _ _ Hwf Cy CN) in *.
        clear Cy Cn Cp. dll_facts Hwf.
        split; dll_rd_hyp; reflexivity.
      * assert (Npq : p ≠ q) by (intros E; apply NyN; rewrite E in *; congruence).
        assert (NpP : p ≠ P) by (intros E; apply Nyq; rewrite E in *; congruence).
        exists p, sp. split; [apply Hnew; [exact Hwf|]; split; assumption|].
        clear Cn. dll_facts Hwf.
        split; dll_rd_hyp; assumption.
Qed.

(** The addresses that the split of the block [q] writes to lie inside
    [q]. *)
Lemma dll_split_far q sq u X :
  X + 16 <= q ∨ q + sq * 16 <= X → 2 <= u → u + 2 <= sq →
  X ≠ q ∧ X ≠ q + (sq - u) * 16 - 1 * 16 ∧ X ≠ q + (sq - u) * 16
  ∧ X ≠ q + sq * 16 - 1 * 16.
Proof. lia. Qed.

Lemma dll_chunk_far ex s bs a sa q sq :
  dll_wf ex s bs → dll_chunk s bs a sa → dll_chunk s bs q sq → a ≠ q →
  (a + 16 <= q ∨ q + sq * 16 <= a)
  ∧ (a + sa * 16 - 1 * 16 + 16 <= q ∨ q + sq * 16 <= a + sa * 16 - 1 * 16).
Proof.
  intros Hwf Ha Hq Hne.
  destruct (dll_chunk_range _ _ _ _ _ Hwf Ha) as (Ha1 & _).
  destruct (dll_chunk_disjoint _ _ _ _ _ _ _ Hwf Ha Hq) as [[E _]|[H|H]]; [contradiction| |]; lia.
Qed.

(** The members of the free list once the block [q] is split. *)
Lemma dll_node_split s l1 q sq l2 u y sy :
  dll_wf 0 s (l1 ++ (q, sq, true) :: l2) →
  dll_node s (l1 ++ (q, sq - u, true) :: (q + (sq - u) * 16, u, false) :: l2) y sy ↔
  (dll_node s (l1 ++ (q, sq, true) :: l2) y sy ∧ y ≠ q) ∨ (y = q ∧ sy = sq - u).
Proof.
  intros Hwf.
  pose proof (dll_wf_tiled _ _ _ Hwf) as Ht.
  apply tiled_app in Ht as (c & Ht1 & Ht2). simpl in Ht2. destruct Ht2 as (Ec & Hsq & Ht2).
  destruct (tiled_bounds 16 2 _ _ _ ltac:(lia) ltac:(lia) Ht1) as (_ & _ & B1).
  destruct (tiled_bounds 16 2 _ _ _ ltac:(lia) ltac:(lia) Ht2) as (_ & _ & B2).
  destruct (dll_wf_layout _ _ _ Hwf) as (Hl1 & Hl2 & _).
  destruct (tiled_bounds 16 2 _ _ _ ltac:(lia) ltac:(lia) Ht1) as (Hle & _).
  unfold DLL.sizeof_Header in *.
  split.
  - intros [[-> ->]|Hin]; [left; split; [left; auto | lia]|].
    apply elem_of_app in Hin as [Hi|Hi];
      [|apply elem_of_cons in Hi as [Hi|Hi]; [|apply elem_of_cons in Hi as [Hi|Hi]]].
    + left. split; [right; apply elem_of_app; left; exact Hi|].
      destruct (B1 _ _ _ Hi) as (? & ? & ? & _). lia.
    + injection Hi as -> ->. right. auto.
    + discriminate Hi.
    + left. split; [right; apply elem_of_app; right; right; exact Hi|].
      destruct (B2 _ _ _ Hi) as (? & ? & ? & _). lia.
  - intros [[[Hb|Hin] Hne]|[-> ->]].
    + left. exact Hb.
    + right. apply elem_of_app in Hin as [Hi|Hi]; [|apply elem_of_cons in Hi as [Hi|Hi]].
      * apply elem_of_app. left. exact Hi.
      * injection Hi as E _. contradiction.
      * apply elem_of_app. right. right. right. exact Hi.
    + right. apply elem_of_middle.
Qed.

Ltac dll_far_chunk Hwf Cq Hu Hsq C N :=
  let F1 := fresh "F" in
  let F2 := fresh "F" in
  destruct (dll_chunk_far _ _ _ _ _ _ _ Hwf C Cq N) as [F1 F2];
  destruct (dll_split_far _ _ _ _ F1 Hu Hsq) as (? & ? & ? & ?);
  destruct (dll_split_far _ _ _ _ F2 Hu Hsq) as (? & ? & ? & ?).

(** The stores of [mm_malloc] that split the block [q]: its upper [u]
    units become a block in use, off the free list; the lower part stays
    on the list in the place of [q]. *)
Lemma dll_split_wf s l1 q sq l2 P sP u k :
  dll_wf 0 s (l1 ++ (q, sq, true) :: l2) →
  dll_node s (l1 ++ (q, sq, true) :: l2) P sP →
  DLL.ptr (DLL.rd (DLL.heap s) P) = q →
  2 <= u → u + 2 <= sq →
  ∃ s', DLL.malloc_loop (S k) s u P q = Ok (DLL.mm_payload (q + (sq - u) * 16), s')
        ∧ DLL.freep s' = P ∧ DLL.arena s' = DLL.arena s ∧ DLL.base s' = DLL.base s
        ∧ dll_wf 0 s' (l1 ++ (q, sq - u, true) :: (q + (sq - u) * 16, u, false) :: l2)
        ∧ ∀ a, a < q ∨ q + sq * 16 <= a → DLL.rd (DLL.heap s') a = DLL.rd (DLL.heap s) a.
Proof.
  intros Hwf HP HPq Hu Hsq.
  pose proof (dll_node_split s l1 q sq l2 u) as Hnew.
  set (bs := l1 ++ (q, sq, true) :: l2) in *.
  assert (Hq : dll_node s bs q sq) by (right; apply elem_of_middle).
  destruct (dll_wf_node _ _ _ _ _ Hwf Hq) as (Hvq & Hvtq & _ & _ & Hq3 & _).
  destruct (dll_wf_block _ _ _ _ _ _ Hwf (elem_of_middle l1 l2 (q, sq, true)))
    as (_ & _ & Hq1 & Hq2 & _).
  pose proof (dll_wf_links _ _ _ Hwf q sq Hq) as [(N & sN & HN & HqN & HNq) _].
  pose proof (dll_node_chunk _ _ _ _ Hq) as Cq.
  pose proof (dll_node_chunk _ _ _ _ HP) as CP.
  pose proof (dll_node_chunk _ _ _ _ HN) as CN.
  assert (HtqP : DLL.ptr (DLL.rd (DLL.heap s) (dll_tail q sq)) = P).
  { destruct (dll_wf_links _ _ _ Hwf P sP HP) as [(n0 & sn0 & Hn0 & HPn0 & Hn0P) _].
    assert (E : n0 = q) by congruence. rewrite E in *.
    rewrite (dll_chunk_size _ _ _ _ _ _ Hwf (dll_node_chunk _ _ _ _ Hn0) Cq) in Hn0P.
    exact Hn0P. }
  pose proof Hwf as [Hl Ht Hs Hbusy Hbase Hlinks].
  destruct Hl as (Hl1 & Hl2 & Hl3 & Hl4).
  assert (Hmod : (q - mem_start_brk (DLL.arena s)) mod 16 = 0).
  { destruct (tiled_bounds 16 2 _ _ _ ltac:(lia) ltac:(lia) Ht) as (_ & _ & B).
    destruct (B _ _ _ (elem_of_middle l1 l2 (q, sq, true))) as (_ & _ & _ & Hm). exact Hm. }
  unfold dll_tail, DLL.sizeof_Header in *.
  assert (Hvt' : DLL.valid_ptr s (q + (sq - u) * 16 - 1 * 16) = true).
  { apply dll_valid_arena; unfold DLL.sizeof_Header; try lia.
    replace (q + (sq - u) * 16 - 1 * 16 - mem_start_brk (DLL.arena s))
      with (q - mem_start_brk (DLL.arena s) + (sq - u - 1) * 16) by lia.
    rewrite Z.mod_add by lia. exact Hmod. }
  assert (Hv2 : DLL.valid_ptr s (q + (sq - u) * 16) = true).
  { apply dll_valid_arena; unfold DLL.sizeof_Header; try lia.
    replace (q + (sq - u) * 16 - mem_start_brk (DLL.arena s))
      with (q - mem_start_brk (DLL.arena s) + (sq - u) * 16) by lia.
    rewrite Z.mod_add by lia. exact Hmod. }
  assert (K1 : q ≠ q + (sq - u) * 16 - 1 * 16) by lia.
  assert (K2 : q ≠ q + (sq - u) * 16) by lia.
  assert (K3 : q ≠ q + sq * 16 - 1 * 16) by lia.
  assert (K4 : q + (sq - u) * 16 - 1 * 16 ≠ q + (sq - u) * 16) by lia.
  assert (K5 : q + (sq - u) * 16 - 1 * 16 ≠ q + sq * 16 - 1 * 16) by lia.
  assert (K6 : q + (sq - u) * 16 ≠ q + sq * 16 - 1 * 16) by lia.
  assert (Hfit : DLL.fits u (DLL.rd (DLL.heap s) q) = true).
  { unfold DLL.fits. rewrite Hq3, wrap_small by (pow2; lia).
    apply orb_true_iff. right. apply Z.leb_le. lia. }
  cbn [DLL.malloc_loop]. rewrite (dll_load_valid s q) by exact Hvq. cbn [mbind result_bind].
  rewrite Hfit, Hq3. destruct (Z.eqb_spec sq u) as [E|_]; [lia|].
  rewrite wrap_small by (pow2; lia).
  unfold DLL.mm_tail, DLL.mm_payload, DLL.sizeof_Header.
  rewrite (dll_upd_valid s q) by exact Hvq. cbn [mbind result_bind DLL.heap DLL.with_heap].
  rewrite (dll_load_valid _ q) by exact Hvq. cbn [mbind result_bind DLL.heap DLL.with_heap].
  rewrite (dll_rd_insert_eq _ q q) by reflexivity. cbn [DLL.size DLL.set_size].
  rewrite (dll_upd_valid _ (q + (sq - u) * 16 - 1 * 16)) by exact Hvt'.
  cbn [mbind result_bind DLL.heap DLL.with_heap].
  rewrite (dll_load_valid _ q) by exact Hvq. cbn [mbind result_bind DLL.heap DLL.with_heap].
  dll_rd_hyp.
  rewrite (dll_upd_valid _ (q + (sq - u) * 16 - 1 * 16)) by exact Hvt'.
  cbn [mbind result_bind DLL.heap DLL.with_heap].
  rewrite (dll_load_valid _ q) by exact Hvq. cbn [mbind result_bind DLL.heap DLL.with_heap].
  dll_rd_hyp.
  rewrite (dll_upd_valid _ (q + (sq - u) * 16)) by exact Hv2.
  cbn [mbind result_bind DLL.heap DLL.with_heap].
  rewrite (dll_upd_valid _ (q + (sq - u) * 16)) by exact Hv2.
  cbn [mbind result_bind DLL.heap DLL.with_heap].
  rewrite (dll_load_valid _ (q + (sq - u) * 16)) by exact Hv2.
  cbn [mbind result_bind DLL.heap DLL.with_heap].
  dll_rd_hyp.
  replace (q + (sq - u) * 16 + u * 16 - 1 * 16) with (q + sq * 16 - 1 * 16) by lia.
  rewrite (dll_upd_valid _ (q + sq * 16 - 1 * 16)) by exact Hvtq.
  cbn [mbind result_bind DLL.heap DLL.with_heap].
  eexists. split; [reflexivity|]. split; [reflexivity|]. split; [reflexivity|].
  split; [reflexivity|].
  split.
  2: { intros a Ha. cbn [DLL.heap DLL.with_heap DLL.with_freep].
       rewrite !dll_rd_insert_ne by (clear - Ha Hu Hsq; lia). reflexivity. }
  apply dll_wf_with_freep.
  assert (Hold : ∀ y sy fy, (y, sy, fy) ∈ l1 ∨ (y, sy, fy) ∈ l2 →
            (y, sy, fy) ∈ bs ∧ y ≠ q).
  { pose proof Ht as Ht'. apply tiled_app in Ht' as (c & Ht1 & Ht2). simpl in Ht2.
    destruct Ht2 as (Ec & _ & Ht2).
    destruct (tiled_bounds 16 2 _ _ _ ltac:(lia) ltac:(lia) Ht1) as (_ & _ & B1).
    destruct (tiled_bounds 16 2 _ _ _ ltac:(lia) ltac:(lia) Ht2) as (_ & _ & B2).
    intros y sy fy [Hi|Hi].
    - split; [apply elem_of_app; left; exact Hi|].
      destruct (B1 _ _ _ Hi) as (? & ? & ? & _). clear - H0 H1 Ec. lia.
    - split; [apply elem_of_app; right; right; exact Hi|].
      destruct (B2 _ _ _ Hi) as (? & ? & ? & _). clear - H Hsq Hu Ec. lia. }
  assert (Hcases : ∀ y sy fy,
            (y, sy, fy) ∈ l1 ++ (q, sq - u, true) :: (q + (sq - u) * 16, u, false) :: l2 →
            ((y, sy, fy) ∈ bs ∧ y ≠ q) ∨ (y = q ∧ sy = sq - u ∧ fy = true)
            ∨ (y = q + (sq - u) * 16 ∧ sy = u ∧ fy = false)).
  { intros y sy fy Hin.
    apply elem_of_app in Hin as [Hi|Hi];
      [|apply elem_of_cons in Hi as [Hi|Hi]; [|apply elem_of_cons in Hi as [Hi|Hi]]].
    - left. apply Hold. left. exact Hi.
    - injection Hi as -> -> ->. right. left. auto.
    - injection Hi as -> -> ->. right. right. auto.
    - left. apply Hold. right. exact Hi. }
  assert (Fb1 : DLL.base s + 16 <= q ∨ q + sq * 16 <= DLL.base s) by (clear - Hl2 Hq1; lia).
  destruct (dll_split_far _ _ _ _ Fb1 Hu Hsq) as (Kb1 & Kb2 & Kb3 & Kb4).
  constructor; cbn [DLL.heap DLL.arena DLL.base DLL.with_heap].
  - exact (conj Hl1 (conj Hl2 (conj Hl3 Hl4))).
  - unfold DLL.sizeof_Header.
    apply tiled_app in Ht as (c & Ht1 & Ht2). apply tiled_app.
    exists c. split; [exact Ht1|]. simpl in Ht2 |- *. destruct Ht2 as (Ec & _ & Ht2).
    split; [exact Ec|]. split; [clear - Hu Hsq; lia|]. split; [clear - Ec; lia|].
    split; [exact Hu|].
    replace (c + (sq - u) * 16 + u * 16) with (c + sq * 16) by (clear; lia). exact Ht2.
  - intros y sy fy Hin.
    destruct (Hcases _ _ _ Hin) as [[Hin' Nyq]|[(-> & -> & ->)|(-> & -> & ->)]].
    + pose proof (dll_block_chunk s _ _ _ _ Hin') as Cy.
      dll_far_chunk Hwf Cq Hu Hsq Cy Nyq. dll_rd_hyp. exact (Hs _ _ _ Hin').
    + dll_rd_hyp. reflexivity.
    + dll_rd_hyp. reflexivity.
  - intros y sy Hin _.
    destruct (Hcases _ _ _ Hin) as [[Hin' Nyq]|[(_ & _ & ?)|(-> & -> & _)]]; [|discriminate|].
    + pose proof (dll_block_chunk s _ _ _ _ Hin') as Cy.
      assert (Ny0 : y ≠ 0).
      { destruct (dll_wf_block _ _ _ _ _ _ Hwf Hin') as (_ & _ & ? & _).
        clear - H Hl1 Hl2. lia. }
      destruct (Hbusy y sy Hin' Ny0) as [Hb1 Hb2].
      dll_far_chunk Hwf Cq Hu Hsq Cy Nyq. split; dll_rd_hyp; assumption.
    + unfold dll_tail, DLL.sizeof_Header.
      replace (q + (sq - u) * 16 + u * 16 - 1 * 16) with (q + sq * 16 - 1 * 16)
        by (clear; lia).
      split; dll_rd_hyp; reflexivity.
  - dll_rd_hyp. exact Hbase.
  - intros y sy Hy. dll_node_norm. unfold dll_tail, DLL.sizeof_Header.
    destruct (proj1 (Hnew y sy Hwf) Hy) as [[Hy' Nyq]|[Ey Esy]].
    + pose proof (dll_node_chunk _ _ _ _ Hy') as Cy.
      destruct (Hlinks y sy Hy') as [(n & sn & Hn & Hyn & Hny) (p & sp & Hp & Hyp & Hpy)].
      pose proof (dll_node_chunk _ _ _ _ Hn) as Cn.
      pose proof (dll_node_chunk _ _ _ _ Hp) as Cp.
      dll_far_chunk Hwf Cq Hu Hsq Cy Nyq.
      split.
      * destruct (decide (n = q)) as [Enq|Nnq].
        -- exists q, (sq - u). split; [apply Hnew; [exact Hwf|]; right; auto|].
           rewrite Enq in *.
           rewrite (dll_chunk_size _ _ _ _ _ _ Hwf Cn Cq) in Hny.
           split; dll_rd_hyp; congruence.
        -- exists n, sn. split; [apply Hnew; [exact Hwf|]; left; split; assumption|].
           dll_far_chunk Hwf Cq Hu Hsq Cn Nnq. split; dll_rd_hyp; assumption.
      * destruct (decide (p = q)) as [Epq|Npq].
        -- exists q, (sq - u). split; [apply Hnew; [exact Hwf|]; right; auto|].
           rewrite Epq in *. split; dll_rd_hyp; assumption.
        -- exists p, sp. split; [apply Hnew; [exact Hwf|]; left; split; assumption|].
           dll_far_chunk Hwf Cq Hu Hsq Cp Npq. split; dll_rd_hyp; assumption.
    + rewrite Ey, Esy. clear y sy Hy Ey Esy.
      split.
      * destruct (decide (N = q)) as [ENq|NNq].
        -- exists q, (sq - u). split; [apply Hnew; [exact Hwf|]; right; auto|].
           rewrite ENq in *.
           rewrite (dll_chunk_size _ _ _ _ _ _ Hwf CN Cq) in HNq.
           split; dll_rd_hyp; congruence.
        -- exists N, sN. split; [apply Hnew; [exact Hwf|]; left; split; assumption|].
           dll_far_chunk Hwf Cq Hu Hsq CN NNq. split; dll_rd_hyp; assumption.
      * destruct (decide (P = q)) as [EPq|NPq].
        -- exists q, (sq - u). split; [apply Hnew; [exact Hwf|]; right; auto|].
           split; dll_rd_hyp; congruence.
        -- exists P, sP. split; [apply Hnew; [exact Hwf|]; left; split; assumption|].
           dll_far_chunk Hwf Cq Hu Hsq CP NPq. split; dll_rd_hyp; [reflexivity | exact HPq].
Qed.

Lemma dll_node_same_base s s' bs n sn :
  DLL.base s' = DLL.base s → dll_node s bs n sn → dll_node s' bs n sn.
Proof. unfold dll_node. intros ->. auto. Qed.

(** [mm_malloc] when the walk comes to a block that fits before it comes
    back to [freep]. *)
Lemma dll_malloc_first_fit (fuel n : nat) (s : DLL.state) (l1 l2 : list Block)
    (q sq q' nbytes sf : Z) :
  dll_wf 0 s (l1 ++ (q, sq, true) :: l2) →
  dll_node s (l1 ++ (q, sq, true) :: l2) (DLL.freep s) sf →
  DLL.first_fit s (DLL.mm_units nbytes) n (DLL.freep s)
    (DLL.ptr (DLL.rd (DLL.heap s) (DLL.freep s))) q' q →
  (n < fuel)%nat →
  ∃ s' bs',
    DLL.mm_malloc fuel s nbytes
    = Ok (DLL.mm_payload (q + (sq - DLL.mm_units nbytes) * DLL.sizeof_Header), s')
    ∧ DLL.freep s' = q'
    ∧ (sq = DLL.mm_units nbytes ∨ DLL.mm_units nbytes + 2 <= sq)
    ∧ DLL.arena s' = DLL.arena s ∧ DLL.base s' = DLL.base s
    ∧ bs' = (if sq =? DLL.mm_units nbytes then l1 ++ (q, sq, false) :: l2
             else l1 ++ (q, sq - DLL.mm_units nbytes, true)
                     :: (q + (sq - DLL.mm_units nbytes) * DLL.sizeof_Header,
                         DLL.mm_units nbytes, false) :: l2)
    ∧ dll_wf 0 s' bs'
    ∧ (q' ≠ q → ∃ sf', dll_node s' bs' q' sf')
    ∧ ∀ a, dll_in_payload (l1 ++ (q, sq, true) :: l2) a →
           DLL.rd (DLL.heap s') a = DLL.rd (DLL.heap s) a.
Proof.
  intros Hwf Hfp Hff Hfuel.
  pose proof (dll_mm_units_range nbytes) as [Hu1 Hu2].
  set (u := DLL.mm_units nbytes) in *.
  pose proof (dll_first_fit_fits _ _ _ _ _ _ _ Hff) as Hfit.
  destruct (dll_first_fit_pred _ _ _ _ _ _ _ _ _ Hwf Hff sf Hfp eq_refl) as (sq' & Hq' & Hq'q).
  assert (Hq : dll_node s (l1 ++ (q, sq, true) :: l2) q sq) by (right; apply elem_of_middle).
  destruct (dll_wf_node _ _ _ _ _ Hwf Hq) as (_ & _ & _ & _ & Hq3 & _).
  destruct (dll_wf_node _ _ _ _ _ Hwf Hfp) as (Hvf & _).
  assert (Hsz : sq = u ∨ u + 2 <= sq).
  { unfold DLL.fits in Hfit. rewrite Hq3, wrap_small in Hfit by (pow2; lia).
    apply orb_true_iff in Hfit as [H|H]; [left; apply Z.eqb_eq; exact H | right; apply Z.leb_le; exact H]. }
  unfold DLL.mm_malloc. rewrite (dll_node_nonzero _ _ _ _ _ Hwf Hfp). cbv zeta. fold u.
  rewrite (dll_load_valid _ _ Hvf). cbn [mbind result_bind].
  replace fuel with (n + S (fuel - n - 1))%nat by lia.
  rewrite (dll_walk_to_fit _ _ _ _ _ _ _ Hff).
  unfold DLL.sizeof_Header.
  destruct (Z.eqb_spec sq u) as [He|Hne].
  - destruct (dll_take_exact s l1 q sq l2 q' sq' (fuel - n - 1) Hwf Hq' Hq'q)
      as (s' & E & Hf & Ha & Hb & Hwf' & Hfr).
    rewrite <- He. rewrite E. exists s'. eexists.
    replace (q + (sq - sq) * 16) with q by lia.
    split; [reflexivity|]. split; [exact Hf|]. split; [left; reflexivity|].
    split; [exact Ha|]. split; [exact Hb|]. split; [reflexivity|]. split; [exact Hwf'|].
    split.
    + intros Hne. exists sq'. apply (dll_node_same_base s); [exact Hb|].
      apply dll_node_taken; [exact Hwf|].
      split; [exact Hq' | exact Hne].
    + intros a Hpa. apply Hfr.
      destruct (dll_payload_apart _ _ _ _ Hwf Hpa) as [Hnn _]. exact Hnn.
  - destruct Hsz as [He|Hsz]; [contradiction|].
    destruct (dll_split_wf s l1 q sq l2 q' sq' u (fuel - n - 1) Hwf Hq' Hq'q Hu1 Hsz)
      as (s' & E & Hf & Ha & Hb & Hwf' & Hfr).
    rewrite E. exists s'. eexists.
    split; [reflexivity|]. split; [exact Hf|]. split; [right; exact Hsz|].
    split; [exact Ha|]. split; [exact Hb|]. split; [reflexivity|]. split; [exact Hwf'|].
    split.
    + intros Hne'. exists sq'. apply (dll_node_same_base s); [exact Hb|].
      apply dll_node_split; [exact Hwf|]. left.
      split; [exact Hq' | exact Hne'].
    + intros a Hpa. apply Hfr.
      destruct (dll_payload_apart _ _ _ _ Hwf Hpa) as [_ Hfree].
      apply (Hfree q sq). apply elem_of_middle.
Qed.

(** X8.  [mm_malloc] of [mm_heap_dll.c] on a well-formed heap, when the
    walk from [freep->s.ptr] comes to a block [q] of the arena that fits
    (its size is [mm_units nbytes], or at least two units more) before it
    is back at [freep]: [mm_malloc] returns and the arena is not
    extended; [freep] moves to the block met before [q]; a block of
    exactly the size asked for is unlinked and handed out whole, and of a
    larger one the upper [mm_units nbytes] units are handed out.  The heap
    stays well formed, with no other block changed. *)
Theorem X8_dll_malloc_takes_the_first_fit :
  ∀ (fuel n : nat) (s : DLL.state) (l1 l2 : list Block) (q sq q' nbytes sf : Z),
    dll_wf 0 s (l1 ++ (q, sq, true) :: l2) →
    dll_node s (l1 ++ (q, sq, true) :: l2) (DLL.freep s) sf →
    DLL.first_fit s (DLL.mm_units nbytes) n (DLL.freep s)
      (DLL.ptr (DLL.rd (DLL.heap s) (DLL.freep s))) q' q →
    (n < fuel)%nat →
    ∃ s',
      DLL.mm_malloc fuel s nbytes
      = Ok (DLL.mm_payload (q + (sq - DLL.mm_units nbytes) * DLL.sizeof_Header), s')
      ∧ DLL.freep s' = q'
      ∧ (sq = DLL.mm_units nbytes ∨ DLL.mm_units nbytes + 2 <= sq)
      ∧ DLL.arena s' = DLL.arena s
      ∧ dll_wf 0 s'
          (if sq =? DLL.mm_units nbytes then l1 ++ (q, sq, false) :: l2
           else l1 ++ (q, sq - DLL.mm_units nbytes, true)
                   :: (q + (sq - DLL.mm_units nbytes) * DLL.sizeof_Header,
                       DLL.mm_units nbytes, false) :: l2).
Proof.
  intros fuel n s l1 l2 q sq q' nbytes sf Hwf Hfp Hff Hfuel.
  destruct (dll_malloc_first_fit fuel n s l1 l2 q sq q' nbytes sf Hwf Hfp Hff Hfuel)
    as (s' & bs' & E & Hf & Hsz & Ha & _ & -> & Hwf' & _).
  exists s'. auto.
Qed.

Lemma X8_dll_malloc_takes_the_first_fit_witness :
  (∃ s', DLL.mm_malloc 8 dll_gap 16 = Ok (69552, s') ∧ DLL.freep s' = 4096
         ∧ dll_wf 0 s' [(65536, 247, true); (69488, 3, false); (69536, 3, false);
                        (69584, 3, false)])
  ∧ (∃ s', DLL.mm_malloc 8 dll_gap 1000 = Ok (68464, s') ∧ DLL.freep s' = 69536
           ∧ dll_wf 0 s' [(65536, 182, true); (68448, 65, false); (69488, 3, false);
                          (69536, 3, true); (69584, 3, false)]).
Proof.
  split.
  - destruct (X8_dll_malloc_takes_the_first_fit 8 0 dll_gap
                [(65536, 247, true); (69488, 3, false)] [(69584, 3, false)]
                69536 3 4096 16 2 dll_gap_wf)
      as (s' & E & Hf & _ & _ & Hwf).
    + left. split; reflexivity.
    + eapply DLL.first_fit_here; vm_compute; reflexivity.
    + lia.
    + exists s'. split; [exact E|]. split; [exact Hf | exact Hwf].
  - destruct (X8_dll_malloc_takes_the_first_fit 8 1 dll_gap
                [] [(69488, 3, false); (69536, 3, true); (69584, 3, false)]
                65536 247 69536 1000 2 dll_gap_wf)
      as (s' & E & Hf & _ & _ & Hwf).
    + left. split; reflexivity.
    + eapply DLL.first_fit_next; [vm_compute; reflexivity | vm_compute; reflexivity
                                  | vm_compute; discriminate |].
      eapply DLL.first_fit_here; vm_compute; reflexivity.
    + lia.
    + exists s'. split; [exact E|]. split; [exact Hf | exact Hwf].
Defined.

(** ** [mm_malloc] followed by [mm_free], [mm_heap_dll.c] *)

(** The block met before the one that fits is [prevp] itself or did not
    fit. *)
Lemma dll_first_fit_prev_differs s nunits n prevp p q' q :
  DLL.first_fit s nunits n prevp p q' q → prevp ≠ p → q' ≠ q.
Proof.
  induction 1 as [prevp p hp Hld Hfit | n prevp p q' q hp Hld Hfit Hne Hff IH]; intros Hpp.
  - exact Hpp.
  - apply IH. intros E.
    apply dll_load_Ok in Hld as [Hv ->].
    assert (Hloop : ∀ m a b q' q, DLL.first_fit s nunits m a b q' q → b = p → False).
    { clear - Hfit Hv E. intros m a b q' q H. induction H as [a b hb Hld Hfit' | m a b q' q hb Hld Hfit' Hne _ IH].
      - intros ->. apply dll_load_Ok in Hld as [_ ->]. congruence.
      - intros ->. apply dll_load_Ok in Hld as [_ ->]. apply IH. symmetry. exact E. }
    exact (Hloop _ _ _ _ _ Hff (eq_sym E)).
Qed.

Lemma dll_malloc_free_roundtrip (fuel n : nat) (s : DLL.state) (l1 l2 : list Block)
    (q sq q' nbytes sf : Z) :
  dll_wf 0 s (l1 ++ (q, sq, true) :: l2) →
  dll_node s (l1 ++ (q, sq, true) :: l2) (DLL.freep s) sf →
  adjacent_free (l1 ++ (q, sq, true) :: l2) = false →
  DLL.ptr (DLL.rd (DLL.heap s) (DLL.freep s)) ≠ DLL.freep s →
  DLL.first_fit s (DLL.mm_units nbytes) n (DLL.freep s)
    (DLL.ptr (DLL.rd (DLL.heap s) (DLL.freep s))) q' q →
  (n < fuel)%nat →
  ∃ ap s1 s2,
    DLL.mm_malloc fuel s nbytes = Ok (ap, s1) ∧ ap ≠ NULL
    ∧ DLL.mm_free s1 ap = Ok s2
    ∧ dll_wf 0 s2 (l1 ++ (q, sq, true) :: l2)
    ∧ (∃ sf', dll_node s2 (l1 ++ (q, sq, true) :: l2) (DLL.freep s2) sf')
    ∧ DLL.arena s2 = DLL.arena s.
Proof.
  intros Hwf Hfp Hadj Hself Hff Hfuel.
  pose proof (dll_first_fit_prev_differs _ _ _ _ _ _ _ Hff (not_eq_sym Hself)) as Hne.
  destruct (dll_malloc_first_fit fuel n s l1 l2 q sq q' nbytes sf Hwf Hfp Hff Hfuel)
    as (s1 & bs' & Em & Hf & Hsz & Ha & Hb & Ebs' & Hwf1 & Hn1 & _).
  destruct (Hn1 Hne) as (sf1 & Hnode1). rewrite <- Hf in Hnode1.
  pose proof (dll_mm_units_range nbytes) as [Hu1 _].
  set (u := DLL.mm_units nbytes) in *.
  destruct (dll_wf_block _ _ _ _ _ _ Hwf (elem_of_middle l1 l2 (q, sq, true)))
    as (_ & _ & Hq1 & _).
  destruct (dll_wf_layout _ _ _ Hwf) as (Hl1 & Hl2 & _).
  assert (Hnz : DLL.mm_payload (q + (sq - u) * DLL.sizeof_Header) ≠ NULL).
  { unfold DLL.mm_payload, DLL.sizeof_Header, NULL in *. destruct Hsz; lia. }
  destruct (Z.eqb_spec sq u) as [He|Hneq].
  - subst bs'.
    destruct (dll_free_wf s1 l1 q sq l2 sf1 (dll_wf_exempt _ _ _ Hwf1) Hnode1)
      as (s2 & Ef & Hwf2 & Hn2 & Ha2).
    rewrite (free_block_apart _ _ _ _ Hadj) in Hwf2, Hn2.
    exists (DLL.mm_payload (q + (sq - u) * DLL.sizeof_Header)), s1, s2.
    split; [exact Em|]. split; [exact Hnz|].
    replace (q + (sq - u) * DLL.sizeof_Header) with q by lia.
    split; [exact Ef|]. split; [exact Hwf2|]. split; [exact Hn2|]. congruence.
  - subst bs'. set (q2 := q + (sq - u) * DLL.sizeof_Header) in *.
    assert (E1 : l1 ++ (q, sq - u, true) :: (q2, u, false) :: l2
                 = (l1 ++ [(q, sq - u, true)]) ++ (q2, u, false) :: l2)
      by (rewrite <- app_assoc; reflexivity).
    rewrite E1 in Hwf1, Hnode1.
    destruct (dll_free_wf s1 _ q2 u l2 sf1 (dll_wf_exempt _ _ _ Hwf1) Hnode1)
      as (s2 & Ef & Hwf2 & Hn2 & Ha2).
    assert (E2 : free_block (l1 ++ [(q, sq - u, true)]) q2 u l2 = l1 ++ (q, sq, true) :: l2).
    { apply adjacent_free_app_inv in Hadj as [_ H2].
      rewrite adjacent_free_cons in H2. apply orb_false_iff in H2 as [H2 _]. simpl in H2.
      unfold free_block. rewrite (merge_upper_busy_head _ _ _ H2), merge_lower_snoc_free.
      replace (sq - u + u) with sq by lia. reflexivity. }
    rewrite E2 in Hwf2, Hn2.
    exists (DLL.mm_payload q2), s1, s2.
    split; [exact Em|]. split; [exact Hnz|].
    split; [exact Ef|]. split; [exact Hwf2|]. split; [exact Hn2|]. congruence.
Qed.

(** X9.  [mm_malloc] and then [mm_free] of the block it returned, in
    [mm_heap_dll.c]: on a well-formed heap in which no two free blocks lie
    side by side, whose free list holds more than [freep], and on which
    the walk comes to a block of the arena that fits, both calls return,
    the arena is not extended and the heap has the blocks it had
    before. *)
Theorem X9_dll_malloc_then_free_restores_the_blocks :
  ∀ (fuel n : nat) (s : DLL.state) (l1 l2 : list Block) (q sq q' nbytes sf : Z),
    dll_wf 0 s (l1 ++ (q, sq, true) :: l2) →
    dll_node s (l1 ++ (q, sq, true) :: l2) (DLL.freep s) sf →
    adjacent_free (l1 ++ (q, sq, true) :: l2) = false →
    DLL.ptr (DLL.rd (DLL.heap s) (DLL.freep s)) ≠ DLL.freep s →
    DLL.first_fit s (DLL.mm_units nbytes) n (DLL.freep s)
      (DLL.ptr (DLL.rd (DLL.heap s) (DLL.freep s))) q' q →
    (n < fuel)%nat →
    ∃ ap s1 s2,
      DLL.mm_malloc fuel s nbytes = Ok (ap, s1) ∧ ap ≠ NULL
      ∧ DLL.mm_free s1 ap = Ok s2
      ∧ dll_wf 0 s2 (l1 ++ (q, sq, true) :: l2)
      ∧ (∃ sf', dll_node s2 (l1 ++ (q, sq, true) :: l2) (DLL.freep s2) sf')
      ∧ DLL.arena s2 = DLL.arena s.
Proof.
  intros fuel n s l1 l2 q sq q' nbytes sf Hwf Hfp Hadj Hself Hff Hfuel.
  exact (dll_malloc_free_roundtrip fuel n s l1 l2 q sq q' nbytes sf
           Hwf Hfp Hadj Hself Hff Hfuel).
Qed.

Lemma X9_dll_malloc_then_free_restores_the_blocks_witness :
  ∃ ap s1 s2,
    DLL.mm_malloc 8 dll_gap 1000 = Ok (ap, s1) ∧ ap ≠ NULL
    ∧ DLL.mm_free s1 ap = Ok s2
    ∧ dll_wf 0 s2 [(65536, 247, true); (69488, 3, false); (69536, 3, true); (69584, 3, false)]
    ∧ (∃ sf', dll_node s2 [(65536, 247, true); (69488, 3, false); (69536, 3, true);
                            (69584, 3, false)] (DLL.freep s2) sf')
    ∧ DLL.arena s2 = DLL.arena dll_gap.
Proof.
  apply (X9_dll_malloc_then_free_restores_the_blocks 8 1 dll_gap
           [] [(69488, 3, false); (69536, 3, true); (69584, 3, false)]
           65536 247 69536 1000 2 dll_gap_wf).
  - left. split; reflexivity.
  - reflexivity.
  - vm_compute. discriminate.
  - eapply DLL.first_fit_next; [vm_compute; reflexivity | vm_compute; reflexivity
                                | vm_compute; discriminate |].
    eapply DLL.first_fit_here; vm_compute; reflexivity.
  - lia.
Defined.

(** ** Extending the heap, [mm_heap_dll.c] *)




(** ** Extending the heap, [mm_heap_kr2.c] *)

Lemma kr2_morecore_units_range s nunits :
  1 <= nunits → 1 <= kr2_morecore_units s nunits ∧ nunits <= kr2_morecore_units s nunits.
Proof.
  intros H. unfold kr2_morecore_units. cbv zeta.
  destruct (Z.ltb_spec nunits (mem_pagesize (KR2.arena s) / KR2.sizeof_Header)); lia.
Qed.

Lemma kr2_fresh_valid s nu p :
  KR2.valid_ptr (kr2_fresh_state s nu) p = KR2.valid_ptr s p.
Proof. reflexivity. Qed.

Lemma kr2_fresh_rd s nu p :
  p ≠ mem_brk (KR2.arena s) →
  KR2.rd (KR2.heap (kr2_fresh_state s nu)) p = KR2.rd (KR2.heap s) p.
Proof.
  intros H. unfold kr2_fresh_state. cbn [KR2.heap KR2.with_heap].
  rewrite !kr2_rd_insert_ne by (apply not_eq_sym; exact H). reflexivity.
Qed.

Lemma kr2_fresh_rd_new s nu :
  KR2.rd (KR2.heap (kr2_fresh_state s nu)) (mem_brk (KR2.arena s))
  = KR2.set_next NULL (KR2.set_prev NULL (KR2.set_size nu
      (KR2.rd (KR2.heap s) (mem_brk (KR2.arena s))))).
Proof.
  unfold kr2_fresh_state. cbn [KR2.heap KR2.with_heap].
  rewrite !kr2_rd_insert_eq by reflexivity. reflexivity.
Qed.

Lemma kr2_wf_brk_valid s bs nu :
  kr2_wf s bs → 1 <= nu →
  mem_brk (KR2.arena s) + nu * 32 <= mem_max_addr (KR2.arena s) →
  KR2.valid_ptr s (mem_brk (KR2.arena s)) = true.
Proof.
  intros Hwf Hnu Hroom.
  destruct (tiled_bounds 32 1 _ _ _ ltac:(lia) ltac:(lia) (kr2_wf_tiled _ _ Hwf)) as (Hle & Hmod & _).
  apply kr2_valid_arena; unfold KR2.sizeof_Header; [exact Hle | lia | exact Hmod].
Qed.

(** The walk of [mm_free] to the block of highest address. *)
Lemma kr2_last_block_blocks s bs nu :
  kr2_wf s bs →
  ∀ l2 l1 x sx fx k, bs = l1 ++ (x, sx, fx) :: l2 →
    ∃ l L sL fL, bs = l ++ [(L, sL, fL)]
      ∧ KR2.last_block (S (length l2) + k) (kr2_fresh_state s nu) x = Ok L.
Proof.
  intros Hwf. induction l2 as [|[[n sn] fn] l2 IH]; intros l1 x sx fx k E.
  - assert (Hin : (x, sx, fx) ∈ bs) by (rewrite E; apply elem_of_middle).
    pose proof (kr2_wf_block_valid s _ x sx fx Hwf Hin) as (Hvx & Hx1 & Hx2 & Hx3 & _).
    destruct (kr2_wf_blocks _ _ Hwf x sx fx Hin) as (_ & _ & Hn & _).
    pose proof (kr2_next_of_cases s bs l1 x sx fx [] Hwf E) as Hc. simpl in Hc.
    destruct (kr2_wf_layout _ _ Hwf) as (Hl1 & Hl2 & _).
    exists l1, x, sx, fx. split; [exact E|].
    cbn [length Nat.add KR2.last_block].
    unfold KR2.load. rewrite kr2_fresh_valid, Hvx. cbn [mbind result_bind].
    rewrite kr2_fresh_rd by lia. rewrite Hn, Hc.
    destruct (Z.ltb_spec x (KR2.base s)); [unfold KR2.sizeof_Header in *; lia|]. reflexivity.
  - assert (Hin : (x, sx, fx) ∈ bs) by (rewrite E; apply elem_of_middle).
    pose proof (kr2_wf_block_valid s _ x sx fx Hwf Hin) as (Hvx & Hx1 & Hx2 & Hx3 & _).
    destruct (kr2_wf_blocks _ _ Hwf x sx fx Hin) as (_ & _ & Hn & _).
    pose proof (kr2_next_of_cases s bs l1 x sx fx _ Hwf E) as Hc. simpl in Hc.
    destruct Hc as [Hc1 Hc2].
    destruct (IH (l1 ++ [(x, sx, fx)]) n sn fn k) as (l & L & sL & fL & El & HL).
    { rewrite <- app_assoc. exact E. }
    exists l, L, sL, fL. split; [exact El|].
    change (S (length ((n, sn, fn) :: l2)) + k)%nat with (S (S (length l2) + k)).
    remember (S (length l2) + k)%nat as m eqn:Em.
    cbn [KR2.last_block].
    unfold KR2.load at 1. rewrite kr2_fresh_valid, Hvx. cbn [mbind result_bind].
    rewrite kr2_fresh_rd by lia. rewrite Hn, Hc1.
    destruct (Z.ltb_spec x n); [exact HL | lia].
Qed.

Lemma kr2_last_block_from_node s bs nu p fuel :
  kr2_wf s bs → kr2_node s bs p → (length bs < fuel)%nat →
  ∃ L, KR2.last_block fuel (kr2_fresh_state s nu) p = Ok L
       ∧ ((bs = [] ∧ L = KR2.base s) ∨ ∃ l sL fL, bs = l ++ [(L, sL, fL)]).
Proof.
  intros Hwf Hp Hfuel.
  destruct (kr2_wf_layout _ _ Hwf) as (Hl1 & Hl2 & _).
  pose proof (kr2_wf_tiled _ _ Hwf) as Ht.
  destruct (tiled_bounds 32 1 _ _ _ ltac:(lia) ltac:(lia) Ht) as (Hle & _).
  destruct Hp as [->|(sx & fx & Hin)].
  - destruct (kr2_wf_base _ _ Hwf) as (_ & _ & Hn & _).
    destruct fuel as [|fuel]; [lia|]. cbn [KR2.last_block].
    unfold KR2.load at 1. rewrite kr2_fresh_valid, kr2_valid_base. cbn [mbind result_bind].
    rewrite kr2_fresh_rd by (unfold KR2.sizeof_Header in *; lia). rewrite Hn.
    destruct bs as [|[[x sx] fx] bs].
    + simpl in Ht. unfold kr2_next_of, KR2.sizeof_Header.
      replace (mem_start_brk (KR2.arena s) + 0 * 32) with (mem_brk (KR2.arena s)) by lia.
      rewrite Z.eqb_refl, Z.ltb_irrefl. exists (KR2.base s). auto.
    + simpl in Ht. destruct Ht as (Ex & Hsx & Ht).
      destruct (tiled_bounds 32 1 _ _ _ ltac:(lia) ltac:(lia) Ht) as (Hle' & _).
      unfold kr2_next_of, KR2.sizeof_Header in *.
      destruct (Z.eqb_spec (mem_start_brk (KR2.arena s) + 0 * 32) (mem_brk (KR2.arena s))); [lia|].
      destruct (Z.ltb_spec (KR2.base s) (mem_start_brk (KR2.arena s) + 0 * 32)); [|lia].
      replace (mem_start_brk (KR2.arena s) + 0 * 32) with x by lia.
      simpl in Hfuel.
      destruct (kr2_last_block_blocks s _ nu Hwf bs [] x sx fx (fuel - S (length bs)) eq_refl)
        as (l & L & sL & fL & El & HL).
      exists L. split; [|right; eauto].
      rewrite <- HL. f_equal. unfold Block in *. lia.
  - apply list_elem_of_split in Hin as (l1 & l2 & E).
    destruct (kr2_last_block_blocks s _ nu Hwf l2 l1 p sx fx (fuel - S (length l2)) E)
      as (l & L & sL & fL & El & HL).
    assert (length bs = length l1 + S (length l2))%nat by (rewrite E, length_app; reflexivity).
    exists L. split; [|right; eauto].
    rewrite <- HL. f_equal. unfold Block in *. lia.
Qed.

(** The first part of [mm_free] on the block that [morecore] made: the
    block is linked in after the block of highest address. *)
Lemma kr2_link_fresh fuel s bs nu :
  kr2_wf s bs → kr2_node s bs (KR2.freep s) → 1 <= nu →
  mem_brk (KR2.arena s) + nu * 32 <= mem_max_addr (KR2.arena s) →
  (length bs < fuel)%nat →
  ∃ s', KR2.link_new_block fuel (kr2_fresh_state s nu) (mem_brk (KR2.arena s)) = Ok s'
        ∧ kr2_wf s' (bs ++ [(mem_brk (KR2.arena s), nu,
                             KR2.is_free (KR2.rd (KR2.heap s) (mem_brk (KR2.arena s))))])
        ∧ KR2.freep s' = KR2.freep s
        ∧ KR2.arena s' = KR2.arena (kr2_fresh_state s nu)
        ∧ KR2.base s' = KR2.base s
        ∧ ∀ a, a ≠ mem_brk (KR2.arena s) → ¬ kr2_node s bs a →
               KR2.rd (KR2.heap s') a = KR2.rd (KR2.heap s) a.
Proof.
  intros Hwf Hfp Hnu Hroom Hfuel.
  pose proof (kr2_wf_brk_valid s bs nu Hwf Hnu Hroom) as Hvb.
  destruct (kr2_last_block_from_node s bs nu _ fuel Hwf Hfp Hfuel) as (L & HL & HLc).
  assert (HLnode : kr2_node s bs L).
  { destruct HLc as [[_ ->]|(l & sL & fL & E)]; [left; reflexivity|].
    right. exists sL, fL. rewrite E. apply elem_of_middle. }
  pose proof Hwf as [Hl Ht Hb Hbase].
  destruct Hl as (Hl1 & Hl2 & Hl3 & Hl4).
  destruct Hbase as (Hs1 & Hs2 & Hs3 & Hs4).
  destruct (tiled_bounds 32 1 _ _ _ ltac:(lia) ltac:(lia) Ht) as (Hle & Hmod & Hbd).
  unfold KR2.sizeof_Header in Ht, Hl2.
  set (bp := mem_brk (KR2.arena s)) in *.
  assert (HLfacts : KR2.valid_ptr s L = true ∧ L ≠ bp
                    ∧ KR2.next (KR2.rd (KR2.heap s) L) = KR2.base s).
  { destruct HLc as [[-> ->]|(l & sL & fL & E)].
    - split; [apply kr2_valid_base|]. split; [unfold KR2.sizeof_Header in *; lia|].
      rewrite Hs3. simpl in Ht. unfold kr2_next_of, KR2.sizeof_Header.
      replace (mem_start_brk (KR2.arena s) + 0 * 32) with (mem_brk (KR2.arena s)) by lia.
      rewrite Z.eqb_refl. reflexivity.
    - assert (Hin : (L, sL, fL) ∈ bs) by (rewrite E; apply elem_of_middle).
      pose proof (kr2_wf_block_valid s _ L sL fL Hwf Hin) as (HvL & _ & HL2 & HL3 & _).
      destruct (Hb _ _ _ Hin) as (_ & _ & Hn & _).
      split; [exact HvL|]. split; [unfold bp; lia|].
      rewrite Hn. exact (kr2_next_of_cases s bs l L sL fL [] Hwf E). }
  destruct HLfacts as (HvL & HLb & HLn).
  unfold KR2.link_new_block, KR2.connect_dlinkedlist.
  rewrite (kr2_load_valid (kr2_fresh_state s nu) bp) by exact Hvb. cbn [mbind result_bind].
  unfold bp at 1. rewrite kr2_fresh_rd_new. cbn [KR2.next KR2.set_next]. rewrite Z.eqb_refl.
  change (KR2.freep (kr2_fresh_state s nu)) with (KR2.freep s).
  rewrite HL. cbn [mbind result_bind].
  rewrite (kr2_load_valid (kr2_fresh_state s nu) L) by exact HvL. cbn [mbind result_bind].
  rewrite (kr2_fresh_rd s nu L) by exact HLb. rewrite HLn.
  rewrite (kr2_upd_valid _ L) by (rewrite kr2_fresh_valid; exact HvL).
  cbn [mbind result_bind KR2.heap KR2.with_heap].
  rewrite (kr2_upd_valid _ bp) by exact Hvb. cbn [mbind result_bind KR2.heap KR2.with_heap].
  rewrite (kr2_upd_valid _ bp) by exact Hvb. cbn [mbind result_bind KR2.heap KR2.with_heap].
  rewrite (kr2_upd_valid _ (KR2.base s)) by exact (kr2_valid_base s).
  cbn [mbind result_bind KR2.heap KR2.with_heap].
  eexists. split; [reflexivity|]. split; [|split; [reflexivity|split; [reflexivity|]]].
  2: { split; [reflexivity|]. intros a Nb Ha.
       assert (NL : L ≠ a) by (apply (kr2_node_ne _ _ _ _ Ha); exact HLnode).
       assert (Nbase : KR2.base s ≠ a) by (apply (kr2_node_ne _ _ _ _ Ha); left; reflexivity).
       assert (Nbp : bp ≠ a) by (apply not_eq_sym; exact Nb).
       unfold kr2_fresh_state. fold bp. cbn [KR2.heap KR2.with_heap].
       rewrite !kr2_rd_insert_ne by assumption. reflexivity. }
  assert (Hlast : ∀ y sy fy, (y, sy, fy) ∈ bs → (y + sy * 32 = bp ↔ y = L)).
  { intros y sy fy Hin. destruct HLc as [[-> _]|(l & sL & fL & E)]; [inversion Hin|].
    assert (HinL : (L, sL, fL) ∈ bs) by (rewrite E; apply elem_of_middle).
    pose proof Ht as Ht'. rewrite E in Ht'. apply tiled_app in Ht' as (c & _ & Ht2).
    simpl in Ht2. destruct Ht2 as (Ec & HsL & Ee). fold bp in Ee.
    destruct (Hbd _ _ _ Hin) as (_ & Hy2 & Hy3 & _). fold bp in Hy2.
    destruct (tiled_disjoint 32 1 _ _ _ ltac:(lia) ltac:(lia) Ht _ _ _ _ _ _ Hin HinL)
      as [(-> & -> & _)|D]; [split; intros _; [reflexivity | lia]|].
    split; intros H; lia. }
  assert (Hfirst : bs ≠ [] →
            KR2.next (KR2.rd (KR2.heap s) (KR2.base s)) = mem_start_brk (KR2.arena s)
            ∧ KR2.prev (KR2.rd (KR2.heap s) (mem_start_brk (KR2.arena s))) = KR2.base s
            ∧ mem_start_brk (KR2.arena s) < bp ∧ KR2.base s ≠ L).
  { intros Hne. destruct HLc as [[? _]|(l & sL & fL & E)]; [contradiction|].
    assert (HinL : (L, sL, fL) ∈ bs) by (rewrite E; apply elem_of_middle).
    destruct (Hbd _ _ _ HinL) as (HL1 & HL2 & HL3 & _). fold bp in HL2.
    unfold kr2_next_of, KR2.sizeof_Header in Hs3, Hs4. fold bp in Hs3, Hs4.
    destruct (Z.eqb_spec (mem_start_brk (KR2.arena s) + 0 * 32) bp); [lia|].
    rewrite Z.mul_0_l, Z.add_0_r in Hs3, Hs4.
    split; [exact Hs3|]. split; [exact Hs4|]. split; lia. }
  unfold kr2_fresh_state. fold bp.
  constructor; cbn [KR2.heap KR2.arena KR2.base KR2.with_heap KR2.with_arena
                    mem_start_brk mem_brk mem_max_addr].
  - repeat split; try assumption; lia.
  - apply tiled_app. exists bp. split; [exact Ht|]. simpl.
    split; [reflexivity|]. split; [exact Hnu|]. reflexivity.
  - intros y sy fy Hin. unfold kr2_next_of.
    cbn [KR2.arena KR2.base KR2.with_heap KR2.with_arena mem_brk]. unfold KR2.sizeof_Header in *.
    apply elem_of_app in Hin as [Hin|Hin].
    + destruct (Hbd _ _ _ Hin) as (Hy1 & Hy2 & Hy3 & _). fold bp in Hy2.
      destruct (Hb _ _ _ Hin) as (Hc1 & Hc2 & Hc3 & Hc4).
      pose proof (Hlast _ _ _ Hin) as HyL.
      destruct (Z.eqb_spec (y + sy * 32) (bp + nu * 32)); [lia|].
      unfold kr2_next_of, KR2.sizeof_Header in Hc3, Hc4. fold bp in Hc3, Hc4.
      destruct (Z.eqb_spec (y + sy * 32) bp) as [Elast|Nlast].
      * assert (EyL : y = L) by (apply HyL; exact Elast). rewrite Elast.
        repeat split; kr2_rd_cases; kr2_fields.
      * assert (NyL : y ≠ L) by (intros E; apply Nlast, HyL; exact E).
        repeat split; kr2_rd_cases; kr2_fields.
    + apply list_elem_of_singleton in Hin. injection Hin as -> -> ->.
      rewrite Z.eqb_refl.
      repeat split; kr2_rd_cases; kr2_fields.
  - unfold kr2_next_of.
    cbn [KR2.arena KR2.base KR2.with_heap KR2.with_arena mem_brk mem_start_brk].
    unfold KR2.sizeof_Header in *.
    destruct (Z.eqb_spec (mem_start_brk (KR2.arena s) + 0 * 32) (bp + nu * 32)); [lia|].
    rewrite Z.mul_0_l, Z.add_0_r.
    destruct bs as [|b0 r].
    + destruct HLc as [[_ ->]|(l & sL & fL & E)]; [|destruct l; discriminate].
      simpl in Ht. fold bp in Ht. rewrite Ht.
      repeat split; kr2_rd_cases; kr2_fields.
    + destruct (Hfirst ltac:(discriminate)) as (Hf1 & Hf2 & Hf3 & Hf4).
      repeat split; kr2_rd_cases; kr2_fields.
Qed.

(** [mm_free] on the block that [morecore] made. *)
Lemma kr2_free_fresh fuel s bs nu :
  kr2_wf s bs → kr2_node s bs (KR2.freep s) → 1 <= nu → nu * 32 < 2 ^ 64 →
  mem_brk (KR2.arena s) + nu * 32 <= mem_max_addr (KR2.arena s) →
  (length bs < fuel)%nat →
  ∃ s1, KR2.mm_free fuel (kr2_fresh_state s nu) (mem_brk (KR2.arena s) + 1 * KR2.sizeof_Header)
        = Ok s1
        ∧ kr2_wf s1 (free_block bs (mem_brk (KR2.arena s)) nu [])
        ∧ kr2_node s1 (free_block bs (mem_brk (KR2.arena s)) nu []) (KR2.freep s1)
        ∧ KR2.arena s1 = KR2.arena (kr2_fresh_state s nu)
        ∧ KR2.base s1 = KR2.base s
        ∧ ∀ a, a ≠ mem_brk (KR2.arena s) → ¬ kr2_node s bs a →
               KR2.rd (KR2.heap s1) a = KR2.rd (KR2.heap s) a.
Proof.
  intros Hwf Hfp Hnu Hsmall Hroom Hfuel.
  pose proof (kr2_wf_brk_valid s bs nu Hwf Hnu Hroom) as Hvb.
  destruct (kr2_wf_layout _ _ Hwf) as (Hl1 & Hl2 & Hl3 & Hl4).
  destruct (kr2_wf_base _ _ Hwf) as (_ & Hbf & _).
  destruct (tiled_bounds 32 1 _ _ _ ltac:(lia) ltac:(lia) (kr2_wf_tiled _ _ Hwf)) as (Hle & _).
  unfold KR2.sizeof_Header in Hl2.
  set (bp := mem_brk (KR2.arena s)) in *.
  assert (Hsame : ∀ s1, KR2.mm_free fuel (kr2_fresh_state s nu) (bp + 1 * KR2.sizeof_Header) = Ok s1 →
            KR2.arena s1 = KR2.arena (kr2_fresh_state s nu) ∧ KR2.base s1 = KR2.base s).
  { intros s1 E.
    destruct (kr2_free_same (KR2.base s) fuel _ _ _ E) as (B & A & _).
    - unfold KR2.mm_block, KR2.sizeof_Header in *. clear - Hl2 Hle. lia.
    - rewrite kr2_fresh_rd by (unfold KR2.sizeof_Header, bp in *; clear - Hl2 Hle; lia).
      exact Hbf.
    - split; [exact A | exact B]. }
  destruct (kr2_link_fresh fuel s bs nu Hwf Hfp Hnu Hroom Hfuel)
    as (sl & El & Hwfl & Hfl & Hal & Hbl & Hfrl).
  fold bp in El, Hwfl, Hfrl.
  assert (E : ∃ s1, KR2.mm_free fuel (kr2_fresh_state s nu) (bp + 1 * KR2.sizeof_Header) = Ok s1
                    ∧ kr2_wf s1 (free_block bs bp nu [])
                    ∧ kr2_node s1 (free_block bs bp nu []) (KR2.freep s1)
                    ∧ ∀ a, a ≠ bp → ¬ kr2_node s bs a →
                           KR2.rd (KR2.heap s1) a = KR2.rd (KR2.heap s) a).
  { unfold KR2.mm_free, KR2.mm_block, KR2.sizeof_Header.
    destruct (Z.eqb_spec (bp + 1 * 32) NULL) as [He|_]; [unfold NULL in He; lia|].
    replace (bp + 1 * 32 - 1 * 32) with bp by lia. cbv zeta.
    rewrite (kr2_load_valid (kr2_fresh_state s nu) bp) by exact Hvb. cbn [mbind result_bind].
    unfold bp at 1 2. rewrite kr2_fresh_rd_new. cbn [KR2.size KR2.set_next KR2.set_prev KR2.set_size].
    unfold KR2.mm_bytes, KR2.sizeof_Header, mem_heapsize.
    rewrite wrap_small by lia.
    destruct (Z.ltb_spec 0 nu); [|lia].
    unfold kr2_fresh_state at 1 2. cbn [KR2.arena KR2.with_heap KR2.with_arena mem_brk mem_start_brk].
    fold bp.
    destruct (Z.leb_spec (nu * 32) (bp + nu * 32 - mem_start_brk (KR2.arena s))); [|lia].
    cbn [andb negb]. rewrite El. cbn [mbind result_bind].
    destruct (kr2_set_free sl bs bp nu _ [] Hwfl) as (s2 & E2 & Hwf2 & Hfp2).
    rewrite E2. cbn [mbind result_bind].
    destruct (kr2_merge_next_spec s2 bs bp nu [] Hwf2) as (s3 & E3 & Hwf3 & Hfp3).
    rewrite E3. cbn [mbind result_bind]. simpl merge_upper in Hwf3.
    destruct (kr2_merge_prev_spec s3 bs bp nu [] Hwf3) as (s4 & b & sb & E4 & Hwf4 & Hin4 & Hfp4).
    rewrite E4. cbn [mbind result_bind].
    destruct (kr2_prev_node s4 _ b sb true Hwf4 Hin4) as [Hvb4 Hnode].
    rewrite kr2_load_valid by exact Hvb4. cbn [mbind result_bind].
    eexists. split; [reflexivity|]. split; [apply kr2_wf_with_freep; exact Hwf4|].
    split; [exact Hnode|].
    intros a Nb Ha. cbn [KR2.heap KR2.with_freep].
    pose proof E2 as E2'. apply kr2_upd_Ok in E2' as [_ Es2].
    assert (B2 : KR2.base s2 = KR2.base s) by (rewrite Es2; exact Hbl).
    assert (B3 : KR2.base s3 = KR2.base s2).
    { destruct (kr2_merge_next_same (bp + 1) _ _ _ E3 ltac:(clear; lia)) as (A1 & _). exact A1. }
    assert (Hext : ∀ st, KR2.base st = KR2.base s →
              ¬ kr2_node st (bs ++ [(bp, nu, true)]) a).
    { intros st Hst [E'|(sa & fa & Hin)].
      - apply Ha. left. rewrite E'. exact Hst.
      - apply elem_of_app in Hin as [Hin|Hin]; [apply Ha; right; eauto|].
        apply list_elem_of_singleton in Hin. injection Hin as -> _ _. contradiction. }
    rewrite (kr2_merge_prev_frame s3 _ bp nu true s4 b a Hwf3 (elem_of_middle _ _ _) E4
               (Hext s3 ltac:(congruence))).
    rewrite (kr2_merge_next_frame s2 _ bp nu true s3 a Hwf2 (elem_of_middle _ _ _) E3
               (Hext s2 B2)).
    rewrite Es2. cbn [KR2.heap KR2.with_heap].
    rewrite kr2_rd_insert_ne by (apply not_eq_sym; exact Nb).
    apply Hfrl; assumption. }
  destruct E as (s1 & E & Hwf1 & Hn1 & Hfr1). exists s1.
  destruct (Hsame s1 E) as [A B]. auto 10.
Qed.

(** [morecore] when the arena has room. *)
Lemma kr2_morecore_wf fuel s bs nunits :
  kr2_wf s bs → kr2_node s bs (KR2.freep s) → 1 <= nunits →
  kr2_morecore_units s nunits * 32 < 2 ^ 64 →
  mem_brk (KR2.arena s) + kr2_morecore_units s nunits * 32 <= mem_max_addr (KR2.arena s) →
  (length bs < fuel)%nat →
  ∃ s1,
    KR2.morecore fuel s nunits = Ok (KR2.freep s1, s1)
    ∧ KR2.freep s1 ≠ NULL
    ∧ kr2_wf s1 (free_block bs (mem_brk (KR2.arena s)) (kr2_morecore_units s nunits) [])
    ∧ kr2_node s1 (free_block bs (mem_brk (KR2.arena s)) (kr2_morecore_units s nunits) [])
        (KR2.freep s1)
    ∧ KR2.arena s1 = KR2.arena (kr2_fresh_state s (kr2_morecore_units s nunits))
    ∧ KR2.base s1 = KR2.base s
    ∧ ∀ a, a ≠ mem_brk (KR2.arena s) → ¬ kr2_node s bs a →
           KR2.rd (KR2.heap s1) a = KR2.rd (KR2.heap s) a.
Proof.
  intros Hwf Hfp Hn Hsmall Hroom Hfuel.
  destruct (kr2_morecore_units_range s nunits Hn) as [Hnu _].
  unfold KR2.morecore. cbv zeta. fold (kr2_morecore_units s nunits).
  set (nu := kr2_morecore_units s nunits) in *.
  pose proof (kr2_wf_brk_valid s bs nu Hwf Hnu Hroom) as Hvb.
  assert (Hb : KR2.mm_bytes nu = nu * 32)
    by (unfold KR2.mm_bytes, KR2.sizeof_Header; apply wrap_small; lia).
  rewrite Hb. unfold mem_sbrk. rewrite (proj2 (Z.leb_le _ _) Hroom).
  rewrite (kr2_upd_valid _ (mem_brk (KR2.arena s))) by exact Hvb.
  cbn [mbind result_bind].
  rewrite (kr2_upd_valid _ (mem_brk (KR2.arena s))) by exact Hvb.
  cbn [mbind result_bind].
  rewrite (kr2_upd_valid _ (mem_brk (KR2.arena s))) by exact Hvb.
  cbn [mbind result_bind].
  destruct (kr2_free_fresh fuel s bs nu Hwf Hfp Hnu Hsmall Hroom Hfuel)
    as (s1 & E & Hwf1 & Hn1 & Ha & Hbs & Hfr).
  match goal with
  | |- context [KR2.mm_free fuel ?st ?ap] =>
      change (KR2.mm_free fuel st ap)
        with (KR2.mm_free fuel (kr2_fresh_state s nu)
                (mem_brk (KR2.arena s) + 1 * KR2.sizeof_Header))
  end.
  rewrite E. cbn [mbind result_bind].
  exists s1. split; [reflexivity|]. split; [|auto 10].
  destruct Hn1 as [->|(sx & fx & Hin)].
  - destruct (kr2_wf_layout _ _ Hwf1) as (? & _). unfold NULL. lia.
  - destruct (kr2_wf_block_valid s1 _ _ sx fx Hwf1 Hin) as (_ & ? & _).
    destruct (kr2_wf_layout _ _ Hwf1) as (? & ? & _). unfold NULL, KR2.sizeof_Header in *. lia.
Qed.




(** ** Allocation that extends the heap, [mm_heap_kr2.c] *)

(** The walk over blocks of which none fits. *)
Lemma kr2_scan_none s u B :
  ∀ l1 l3 c c',
    kr2_wf s (l1 ++ B ++ l3) →
    (∀ y sy fy, (y, sy, fy) ∈ B → y ≠ KR2.freep s) →
    (∀ y sy, (y, sy, true) ∈ B → sy < u) →
    tiled 32 1 (mem_start_brk (KR2.arena s)) l1 c → tiled 32 1 c B c' →
    ∀ m, KR2.no_fit s u m (kr2_next_of s c' 0) →
         KR2.no_fit s u (length B + m) (kr2_next_of s c 0).
Proof.
  induction B as [|[[y sy] fy] B IH]; intros l1 l3 c c' Hwf Hfp Hno Ht1 Ht2 m Hm.
  - simpl in Ht2. subst c'. exact Hm.
  - simpl in Ht2. destruct Ht2 as (-> & Hsy & Ht2).
    assert (Hin : (c, sy, fy) ∈ l1 ++ ((c, sy, fy) :: B) ++ l3) by apply elem_of_middle.
    pose proof (kr2_wf_block_valid s _ c sy fy Hwf Hin) as (Hvc & Hc1 & Hc2 & _ & _).
    destruct (kr2_wf_blocks _ _ Hwf c sy fy Hin) as (Hs1 & Hs2 & Hs3 & _).
    assert (Hc0 : kr2_next_of s c 0 = c).
    { unfold kr2_next_of, KR2.sizeof_Header.
      destruct (Z.eqb_spec (c + 0 * 32) (mem_brk (KR2.arena s))); lia. }
    rewrite Hc0. cbn [length Nat.add].
    eapply KR2.no_fit_next; [apply kr2_load_valid; exact Hvc | | eapply Hfp; left |].
    + unfold KR2.fits. rewrite Hs1, Hs2. destruct fy; [|apply andb_false_r].
      rewrite andb_true_r. apply Z.leb_gt. eapply Hno. left.
    + rewrite Hs3, kr2_next_of_start.
      apply (IH (l1 ++ [(c, sy, fy)]) l3 (c + sy * 32) c').
      * rewrite <- app_assoc. exact Hwf.
      * intros y' sy' fy' Hy'. eapply Hfp. right. exact Hy'.
      * intros y' sy' Hy'. eapply Hno. right. exact Hy'.
      * apply tiled_app. exists c. split; [exact Ht1|]. simpl. auto.
      * exact Ht2.
      * exact Hm.
Qed.

(** On a well-formed heap without a free block that is large enough, the
    walk of [mm_malloc] comes back to [freep]. *)
Lemma kr2_no_fit_wf s bs u :
  kr2_wf s bs → kr2_node s bs (KR2.freep s) → 1 <= u →
  (∀ y sy, (y, sy, true) ∈ bs → sy < u) →
  KR2.no_fit s u (length bs) (KR2.next (KR2.rd (KR2.heap s) (KR2.freep s))).
Proof.
  intros Hwf Hfp Hu Hno.
  destruct (kr2_wf_layout _ _ Hwf) as (Hl1 & Hl2 & Hl3 & Hl4).
  pose proof (kr2_wf_tiled _ _ Hwf) as Ht.
  destruct (kr2_wf_base _ _ Hwf) as (Hb1 & Hb2 & Hb3 & _).
  assert (Hbase_nofit : KR2.fits u (KR2.rd (KR2.heap s) (KR2.base s)) = false).
  { unfold KR2.fits. rewrite Hb1, Hb2. apply andb_false_r. }
  assert (Hwrap : kr2_next_of s (mem_brk (KR2.arena s)) 0 = KR2.base s).
  { unfold kr2_next_of, KR2.sizeof_Header.
    replace (mem_brk (KR2.arena s) + 0 * 32) with (mem_brk (KR2.arena s)) by lia.
    rewrite Z.eqb_refl. reflexivity. }
  destruct Hfp as [Hfb|(sf & ff & Hf)].
  - rewrite Hfb, Hb3. replace (length bs) with (length bs + 0)%nat by lia.
    apply (kr2_scan_none s u bs [] [] _ (mem_brk (KR2.arena s))).
    + rewrite app_nil_r. exact Hwf.
    + intros y sy fy Hy. rewrite Hfb.
      destruct (kr2_wf_block_valid s _ y sy fy Hwf Hy) as (_ & ? & _).
      unfold KR2.sizeof_Header in *. lia.
    + exact Hno.
    + reflexivity.
    + exact Ht.
    + rewrite Hwrap. eapply KR2.no_fit_wrapped;
        [apply kr2_load_valid, kr2_valid_base | exact Hbase_nofit | symmetry; exact Hfb].
  - remember (KR2.freep s) as f eqn:Ef.
    pose proof (kr2_wf_block_valid s _ f sf ff Hwf Hf) as (Hvf & Hf1 & Hf2 & Hf3 & _).
    destruct (kr2_wf_blocks _ _ Hwf f sf ff Hf) as (Hfs1 & Hfs2 & Hfs3 & _).
    assert (Hfb : KR2.base s ≠ f) by (unfold KR2.sizeof_Header in *; lia).
    pose proof Hf as Hsplit. apply list_elem_of_split in Hsplit as (A & Bt & E).
    pose proof Ht as Ht'. rewrite E in Ht'. unfold KR2.sizeof_Header in Ht'.
    apply tiled_app in Ht' as (c & HtA & HtB). simpl in HtB.
    destruct HtB as (Ec & _ & HtB). subst c.
    destruct (tiled_bounds 32 1 _ _ _ ltac:(lia) ltac:(lia) HtA) as (_ & _ & HbA).
    destruct (tiled_bounds 32 1 _ _ _ ltac:(lia) ltac:(lia) HtB) as (_ & _ & HbB).
    assert (Hlen : length bs = (length Bt + S (length A + 0))%nat).
    { rewrite E, length_app. simpl. lia. }
    rewrite Hlen, Hfs3, kr2_next_of_start.
    apply (kr2_scan_none s u Bt (A ++ [(f, sf, ff)]) [] (f + sf * 32) (mem_brk (KR2.arena s))).
    + rewrite app_nil_r, <- app_assoc. simpl. rewrite <- E. exact Hwf.
    + intros y sy fy Hy. destruct (HbB _ _ _ Hy) as (? & _). rewrite <- Ef. lia.
    + intros y sy Hy. eapply Hno. rewrite E. apply elem_of_app. right. right. exact Hy.
    + apply tiled_app. exists f. split; [exact HtA|]. simpl. auto.
    + exact HtB.
    + rewrite Hwrap. eapply KR2.no_fit_next;
        [apply kr2_load_valid, kr2_valid_base | exact Hbase_nofit | rewrite <- Ef; exact Hfb |].
      rewrite Hb3.
      apply (kr2_scan_none s u A [] ((f, sf, ff) :: Bt) (mem_start_brk (KR2.arena s)) f).
      * pose proof Hwf as Hwf2. rewrite E in Hwf2. exact Hwf2.
      * intros y sy fy Hy. destruct (HbA _ _ _ Hy) as (_ & ? & ? & _). rewrite <- Ef. lia.
      * intros y sy Hy. eapply Hno. rewrite E. apply elem_of_app. left. exact Hy.
      * reflexivity.
      * exact HtA.
      * assert (Hf0 : kr2_next_of s f 0 = f).
        { unfold kr2_next_of, KR2.sizeof_Header.
          destruct (Z.eqb_spec (f + 0 * 32) (mem_brk (KR2.arena s))); lia. }
        rewrite Hf0. eapply KR2.no_fit_wrapped; [apply kr2_load_valid; exact Hvf | | exact Ef].
        unfold KR2.fits. rewrite Hfs1, Hfs2. destruct ff; [|apply andb_false_r].
        rewrite andb_true_r. apply Z.leb_gt. eapply Hno. exact Hf.
Qed.

(** The walk up to the call of [morecore]. *)
Lemma kr2_walk_to_wrap s nunits n p :
  KR2.no_fit s nunits n p →
  ∀ k prev_p,
    KR2.malloc_loop (n + S k) s nunits prev_p p
    = ('(p1, s1) ← KR2.morecore (S k) s nunits;
       if p1 =? NULL then Ok (NULL, KR2.with_errno ENOMEM s1)
       else hp' ← KR2.load s1 p1; KR2.malloc_loop k s1 nunits p1 (KR2.next hp')).
Proof.
  induction 1 as [p hp Hld Hfit Hp | n p hp Hld Hfit Hp _ IH]; intros k prev_p.
  - cbn [Nat.add KR2.malloc_loop]. rewrite Hld. cbn [mbind result_bind]. rewrite Hfit.
    rewrite Hp, Z.eqb_refl. reflexivity.
  - change (S n + S k)%nat with (S (n + S k)). cbn [KR2.malloc_loop].
    rewrite Hld. cbn [mbind result_bind]. rewrite Hfit.
    rewrite (proj2 (Z.eqb_neq _ _) Hp). apply IH.
Qed.

(** The new memory gives a free block of at least the units asked for. *)
Lemma merge_lower_last_free bs b nu :
  (∀ y sy fy, (y, sy, fy) ∈ bs → 0 <= sy) →
  ∃ x sx, (x, sx, true) ∈ merge_lower bs [(b, nu, true)] ∧ nu <= sx.
Proof.
  intros Hpos. destruct bs as [|[[p sp] fp] l _] using rev_ind.
  - exists b, nu. rewrite merge_lower_nil. split; [left | lia].
  - destruct fp.
    + rewrite merge_lower_snoc_free. exists p, (sp + nu). split; [apply elem_of_middle|].
      specialize (Hpos p sp true ltac:(apply elem_of_middle)). lia.
    + rewrite merge_lower_snoc_busy. exists b, nu. split; [apply elem_of_middle2 | lia].
Qed.

Lemma merge_lower_length l1 rest : (length (merge_lower l1 rest) <= length l1 + length rest)%nat.
Proof.
  induction l1 as [|[[p sp] fp] l1 IH]; [rewrite merge_lower_nil; simpl; lia|].
  destruct l1 as [|b l1].
  - destruct fp, rest as [|[[? ?] ?] r]; simpl; lia.
  - assert (E : merge_lower ((p, sp, fp) :: b :: l1) rest
                = (p, sp, fp) :: merge_lower (b :: l1) rest)
      by (destruct fp; reflexivity).
    apply (f_equal length) in E. cbn [length] in E, IH |- *. unfold Block in *. lia.
Qed.

Lemma kr2_malloc_extends (fuel : nat) (s : KR2.state) (bs : list Block) (nbytes : Z) :
  kr2_wf s bs → kr2_node s bs (KR2.freep s) →
  (∀ y sy, (y, sy, true) ∈ bs → sy < KR2.mm_units nbytes) →
  kr2_morecore_units s (KR2.mm_units nbytes) * 32 < 2 ^ 64 →
  mem_brk (KR2.arena s) + kr2_morecore_units s (KR2.mm_units nbytes) * 32
    <= mem_max_addr (KR2.arena s) →
  (2 * length bs + 3 <= fuel)%nat →
  ∃ ap s' bs',
    KR2.mm_malloc fuel s nbytes = Ok (ap, s') ∧ ap ≠ NULL
    ∧ kr2_wf s' bs' ∧ kr2_node s' bs' (KR2.freep s')
    ∧ (KR2.mm_block ap, KR2.mm_units nbytes, false) ∈ bs'
    ∧ (∀ y sy, (y, sy, false) ∈ bs → (y, sy, false) ∈ bs')
    ∧ mem_brk (KR2.arena s')
      = mem_brk (KR2.arena s) + kr2_morecore_units s (KR2.mm_units nbytes) * 32
    ∧ KR2.base s' = KR2.base s
    ∧ (∀ a, kr2_in_payload bs a → KR2.rd (KR2.heap s') a = KR2.rd (KR2.heap s) a)
    ∧ ∀ y sy, (y, sy, false) ∈ bs → y ≠ KR2.mm_block ap.
Proof.
  intros Hwf Hfp Hno Hsmall Hroom Hfuel.
  pose proof (kr2_mm_units_range nbytes) as [Hu1 _].
  set (u := KR2.mm_units nbytes) in *.
  destruct (kr2_morecore_units_range s u Hu1) as [Hnu1 Hnu2].
  set (nu := kr2_morecore_units s u) in *.
  pose proof (kr2_no_fit_wf s bs u Hwf Hfp Hu1 Hno) as Hnf.
  assert (Hvf : KR2.valid_ptr s (KR2.freep s) = true).
  { destruct Hfp as [->|(sf & ff & Hf)]; [apply kr2_valid_base|].
    destruct (kr2_wf_block_valid s _ _ sf ff Hwf Hf) as (H & _). exact H. }
  assert (Hnz : (KR2.freep s =? NULL) = false).
  { apply Z.eqb_neq. apply kr2_valid_ptr_spec in Hvf.
    destruct (kr2_wf_layout _ _ Hwf) as (? & ? & _).
    unfold NULL, KR2.sizeof_Header in *. lia. }
  unfold KR2.mm_malloc. rewrite Hnz. cbv zeta. fold u.
  rewrite (kr2_load_valid _ _ Hvf). cbn [mbind result_bind].
  remember (fuel - length bs - 1)%nat as k eqn:Ek.
  replace fuel with (length bs + S k)%nat by lia.
  rewrite (kr2_walk_to_wrap _ _ _ _ Hnf).
  destruct (kr2_morecore_wf (S k) s bs u Hwf Hfp Hu1 Hsmall Hroom ltac:(lia))
    as (s1 & E & Hnz1 & Hwf1 & Hn1 & Ha1 & Hb1 & Hfr1).
  fold nu in Hwf1, Hn1, Ha1.
  rewrite E. cbn [mbind result_bind]. rewrite (proj2 (Z.eqb_neq _ _) Hnz1).
  set (bs1 := free_block bs (mem_brk (KR2.arena s)) nu []) in *.
  destruct (merge_lower_last_free bs (mem_brk (KR2.arena s)) nu) as (x & sx & Hx & Hsx).
  { intros y sy fy Hy. destruct (kr2_wf_block_valid s _ y sy fy Hwf Hy) as (_ & _ & _ & ? & _). lia. }
  assert (Hlen1 : (length bs1 <= length bs + 1)%nat).
  { unfold bs1, free_block. simpl merge_upper.
    pose proof (merge_lower_length bs [(mem_brk (KR2.arena s), nu, true)]) as H. exact H. }
  destruct (kr2_malloc_reuses k s1 bs1 x sx nbytes Hwf1 Hn1 Hx ltac:(fold u; lia) ltac:(lia))
    as (l1 & q & sq & l2 & s' & bs' & Ebs1 & Hsq & Em & Ha' & Ebs' & Hwf' & Hn' & Hb' & Hfr').
  fold u in Hsq, Em, Ebs'.
  unfold KR2.mm_malloc in Em. rewrite (proj2 (Z.eqb_neq _ _) Hnz1) in Em. cbv zeta in Em.
  fold u in Em. rewrite Em.
  exists (KR2.mm_payload (q + (sq - u) * KR2.sizeof_Header)), s', bs'.
  destruct (kr2_wf_block_valid s1 _ q sq true Hwf1 ltac:(rewrite Ebs1; apply elem_of_middle))
    as (_ & Hq1 & _).
  destruct (kr2_wf_layout _ _ Hwf1) as (Hl1 & Hl2 & _).
  split; [reflexivity|]. split.
  { unfold KR2.mm_payload, KR2.sizeof_Header, NULL in *. lia. }
  assert (Hbusy1 : ∀ y sy, (y, sy, false) ∈ bs → (y, sy, false) ∈ bs1).
  { intros y sy Hy. unfold bs1, free_block. simpl merge_upper.
    apply merge_lower_busy. exact Hy. }
  split; [exact Hwf'|]. split; [exact Hn'|]. split; [|split; [|split; [|split; [|split]]]].
  - unfold KR2.mm_block, KR2.mm_payload, KR2.sizeof_Header.
    replace (q + (sq - u) * 32 + 1 * 32 - 1 * 32) with (q + (sq - u) * 32) by lia.
    rewrite Ebs'. unfold KR2.sizeof_Header. destruct (Z.eqb_spec sq u) as [He|Hne].
    + rewrite He. replace (q + (u - u) * 32) with q by lia. apply elem_of_middle.
    + apply elem_of_middle2.
  - intros y sy Hy.
    assert (Hy1 : (y, sy, false) ∈ bs1).
    { unfold bs1, free_block. simpl merge_upper. apply merge_lower_busy. exact Hy. }
    rewrite Ebs1 in Hy1. rewrite Ebs'.
    apply elem_of_app in Hy1 as [Hy1|Hy1]; [|apply elem_of_cons in Hy1 as [Hy1|Hy1]].
    + destruct (sq =? u); apply elem_of_app; left; exact Hy1.
    + discriminate Hy1.
    + destruct (sq =? u); apply elem_of_app; right; repeat right; exact Hy1.
  - rewrite Ha', Ha1. reflexivity.
  - rewrite Hb'. exact Hb1.
  - intros a Ha.
    destruct (kr2_payload_apart s bs a Hwf Ha) as (Hnn & Hrg & _).
    rewrite Hfr'.
    + apply Hfr1; [lia | exact Hnn].
    + destruct Ha as (y & sy & Hy & Hya). exists y, sy. split; [apply Hbusy1; exact Hy | exact Hya].
  - intros y sy Hy. unfold KR2.mm_block, KR2.mm_payload, KR2.sizeof_Header.
    replace (q + (sq - u) * 32 + 1 * 32 - 1 * 32) with (q + (sq - u) * 32) by lia.
    apply (kr2_busy_not_in_free s1 bs1 q sq u y sy Hwf1);
      [rewrite Ebs1; apply elem_of_middle | lia | apply Hbusy1; exact Hy].
Qed.

(** X12.  [mm_malloc] of [mm_heap_kr2.c] on a well-formed heap on which
    no free block is large enough, when the arena has room for the units
    that [morecore] asks for: the arena grows by that much and
    [mm_malloc] returns a block of [mm_units nbytes] units in use, not
    null.  The heap stays well formed, [freep] is on the list, and the
    blocks that were in use are in use as before. *)
Theorem X12_kr2_malloc_extends_the_heap :
  ∀ (fuel : nat) (s : KR2.state) (bs : list Block) (nbytes : Z),
    kr2_wf s bs → kr2_node s bs (KR2.freep s) →
    (∀ y sy, (y, sy, true) ∈ bs → sy < KR2.mm_units nbytes) →
    kr2_morecore_units s (KR2.mm_units nbytes) * 32 < 2 ^ 64 →
    mem_brk (KR2.arena s) + kr2_morecore_units s (KR2.mm_units nbytes) * 32
      <= mem_max_addr (KR2.arena s) →
    (2 * length bs + 3 <= fuel)%nat →
    ∃ ap s' bs',
      KR2.mm_malloc fuel s nbytes = Ok (ap, s') ∧ ap ≠ NULL
      ∧ kr2_wf s' bs' ∧ kr2_node s' bs' (KR2.freep s')
      ∧ (KR2.mm_block ap, KR2.mm_units nbytes, false) ∈ bs'
      ∧ (∀ y sy, (y, sy, false) ∈ bs → (y, sy, false) ∈ bs')
      ∧ mem_brk (KR2.arena s')
        = mem_brk (KR2.arena s) + kr2_morecore_units s (KR2.mm_units nbytes) * 32.
Proof.
  intros fuel s bs nbytes Hwf Hfp Hno Hsmall Hroom Hfuel.
  destruct (kr2_malloc_extends fuel s bs nbytes Hwf Hfp Hno Hsmall Hroom Hfuel)
    as (ap & s' & bs' & H1 & H2 & H3 & H4 & H5 & H6 & H7 & _).
  exists ap, s', bs'. auto 10.
Qed.

Lemma X12_kr2_malloc_extends_the_heap_witness :
  ∃ ap s' bs',
    KR2.mm_malloc 12 kr2_gap 4000 = Ok (ap, s') ∧ ap ≠ NULL
    ∧ kr2_wf s' bs' ∧ kr2_node s' bs' (KR2.freep s')
    ∧ (KR2.mm_block ap, KR2.mm_units 4000, false) ∈ bs'
    ∧ (∀ y sy, (y, sy, false)
               ∈ [(65536, 122, true); (69440, 2, false); (69504, 2, true); (69568, 2, false)]
               → (y, sy, false) ∈ bs')
    ∧ mem_brk (KR2.arena s')
      = mem_brk (KR2.arena kr2_gap) + kr2_morecore_units kr2_gap (KR2.mm_units 4000) * 32.
Proof.
  apply (X12_kr2_malloc_extends_the_heap 12 kr2_gap
           [(65536, 122, true); (69440, 2, false); (69504, 2, true); (69568, 2, false)]
           4000 kr2_gap_wf).
  - right. exists 2, false. right. left.
  - intros y sy H. elem_cases H; vm_compute; reflexivity.
  - vm_compute. reflexivity.
  - vm_compute. discriminate.
  - simpl. lia.
Defined.

(** ** [mm_malloc] keeps the heap well formed, [mm_heap_kr2.c] *)

Lemma free_block_large_or_none (bs : list Block) (u : Z) :
  (∃ x sx, (x, sx, true) ∈ bs ∧ u <= sx) ∨ (∀ y sy, (y, sy, true) ∈ bs → sy < u).
Proof.
  induction bs as [|[[x sx] fx] bs IH].
  - right. intros y sy H. inversion H.
  - destruct IH as [(y & sy & Hy & Hsy)|IH]; [left; exists y, sy; split; [right; exact Hy | exact Hsy]|].
    destruct fx; [destruct (Z.le_gt_cases u sx) as [Hle|Hgt]|].
    + left. exists x, sx. split; [left | exact Hle].
    + right. intros y sy H. apply elem_of_cons in H as [H|H]; [|eapply IH; exact H].
      injection H as -> ->. lia.
    + right. intros y sy H. apply elem_of_cons in H as [H|H]; [discriminate H|eapply IH; exact H].
Qed.

Lemma kr2_wf_with_errno s bs e : kr2_wf s bs → kr2_wf (KR2.with_errno e s) bs.
Proof. intros [H1 H2 H3 H4]. constructor; assumption. Qed.

(** [mm_malloc] on a well-formed heap, with what it leaves alone: the
    payload of the blocks in use. *)
Lemma kr2_malloc_total :
  ∀ (fuel : nat) (s : KR2.state) (bs : list Block) (nbytes : Z),
    kr2_wf s bs → kr2_node s bs (KR2.freep s) →
    kr2_morecore_units s (KR2.mm_units nbytes) * 32 < 2 ^ 64 →
    (2 * length bs + 3 <= fuel)%nat →
    ∃ ap s' bs',
      KR2.mm_malloc fuel s nbytes = Ok (ap, s')
      ∧ kr2_wf s' bs' ∧ kr2_node s' bs' (KR2.freep s')
      ∧ (∀ y sy, (y, sy, false) ∈ bs → (y, sy, false) ∈ bs')
      ∧ (ap = NULL ↔
         (∀ y sy, (y, sy, true) ∈ bs → sy < KR2.mm_units nbytes)
         ∧ mem_max_addr (KR2.arena s)
           < mem_brk (KR2.arena s) + kr2_morecore_units s (KR2.mm_units nbytes) * 32)
      ∧ (ap ≠ NULL → (KR2.mm_block ap, KR2.mm_units nbytes, false) ∈ bs')
      ∧ KR2.base s' = KR2.base s
      ∧ (∀ a, kr2_in_payload bs a → KR2.rd (KR2.heap s') a = KR2.rd (KR2.heap s) a)
      ∧ (ap ≠ NULL → ∀ y sy, (y, sy, false) ∈ bs → y ≠ KR2.mm_block ap).
Proof.
  intros fuel s bs nbytes Hwf Hfp Hsmall Hfuel.
  pose proof (kr2_mm_units_range nbytes) as [Hu1 _].
  destruct (free_block_large_or_none bs (KR2.mm_units nbytes)) as [(x & sx & Hx & Hsx)|Hno].
  - destruct (kr2_malloc_reuses fuel s bs x sx nbytes Hwf Hfp Hx Hsx ltac:(lia))
      as (l1 & q & sq & l2 & s' & bs' & Ebs & Hsq & Em & Ha' & Ebs' & Hwf' & Hn' & Hb' & Hfr').
    destruct (kr2_wf_block_valid s _ q sq true Hwf ltac:(rewrite Ebs; apply elem_of_middle))
      as (_ & Hq1 & _).
    destruct (kr2_wf_layout _ _ Hwf) as (Hl1 & Hl2 & _).
    assert (Hnz : KR2.mm_payload (q + (sq - KR2.mm_units nbytes) * KR2.sizeof_Header) ≠ NULL).
    { unfold KR2.mm_payload, KR2.sizeof_Header, NULL in *. lia. }
    exists (KR2.mm_payload (q + (sq - KR2.mm_units nbytes) * KR2.sizeof_Header)), s', bs'.
    split; [exact Em|]. split; [exact Hwf'|]. split; [exact Hn'|].
    split; [|split; [|split; [|split; [exact Hb' | split; [exact Hfr'|]]]]].
    + intros y sy Hy. rewrite Ebs in Hy. rewrite Ebs'.
      apply elem_of_app in Hy as [Hy|Hy]; [|apply elem_of_cons in Hy as [Hy|Hy]].
      * destruct (sq =? _); apply elem_of_app; left; exact Hy.
      * discriminate Hy.
      * destruct (sq =? _); apply elem_of_app; right; repeat right; exact Hy.
    + split; [intros E; contradiction|]. intros [Hno _]. specialize (Hno _ _ Hx). lia.
    + intros _. unfold KR2.mm_block, KR2.mm_payload, KR2.sizeof_Header.
      replace (q + (sq - KR2.mm_units nbytes) * 32 + 1 * 32 - 1 * 32)
        with (q + (sq - KR2.mm_units nbytes) * 32) by lia.
      rewrite Ebs'. unfold KR2.sizeof_Header.
      destruct (Z.eqb_spec sq (KR2.mm_units nbytes)) as [He|Hne].
      * rewrite <- He. replace (q + (sq - sq) * 32) with q by lia. apply elem_of_middle.
      * apply elem_of_middle2.
    + intros _ y sy Hy. unfold KR2.mm_block, KR2.mm_payload, KR2.sizeof_Header.
      replace (q + (sq - KR2.mm_units nbytes) * 32 + 1 * 32 - 1 * 32)
        with (q + (sq - KR2.mm_units nbytes) * 32) by lia.
      apply (kr2_busy_not_in_free s bs q sq _ y sy Hwf);
        [rewrite Ebs; apply elem_of_middle | lia | exact Hy].
  - destruct (Z.le_gt_cases
                (mem_brk (KR2.arena s) + kr2_morecore_units s (KR2.mm_units nbytes) * 32)
                (mem_max_addr (KR2.arena s))) as [Hroom|Hfull].
    + destruct (kr2_malloc_extends fuel s bs nbytes Hwf Hfp Hno Hsmall Hroom Hfuel)
        as (ap & s' & bs' & Em & Hnz & Hwf' & Hn' & Hin & Hbusy & _ & Hb' & Hfr' & Hap').
      exists ap, s', bs'. split; [exact Em|]. split; [exact Hwf'|]. split; [exact Hn'|].
      split; [exact Hbusy|].
      split; [|split; [intros _; exact Hin | split; [exact Hb' | split; [exact Hfr' | intros _; exact Hap']]]].
      split; [intros E; contradiction | intros [_ H]; lia].
    + exists NULL, (KR2.with_errno ENOMEM s), bs.
      pose proof (kr2_no_fit_wf s bs _ Hwf Hfp Hu1 Hno) as Hnf.
      assert (Hvf : KR2.valid_ptr s (KR2.freep s) = true).
      { destruct Hfp as [->|(sf & ff & Hf)]; [apply kr2_valid_base|].
        destruct (kr2_wf_block_valid s _ _ sf ff Hwf Hf) as (H & _). exact H. }
      assert (Hnz : (KR2.freep s =? NULL) = false).
      { apply Z.eqb_neq. apply kr2_valid_ptr_spec in Hvf.
        destruct (kr2_wf_layout _ _ Hwf) as (? & ? & _).
        unfold NULL, KR2.sizeof_Header in *. lia. }
      split.
      * unfold KR2.mm_malloc. rewrite Hnz. cbv zeta.
        rewrite (kr2_load_valid _ _ Hvf). cbn [mbind result_bind].
        apply (kr2_malloc_loop_no_fit _ _ _ _ Hnf); [|lia].
        fold (kr2_morecore_units s (KR2.mm_units nbytes)).
        destruct (kr2_morecore_units_range s _ Hu1) as [Hnu _].
        assert (Hb : KR2.mm_bytes (kr2_morecore_units s (KR2.mm_units nbytes))
                     = kr2_morecore_units s (KR2.mm_units nbytes) * 32)
          by (unfold KR2.mm_bytes, KR2.sizeof_Header; apply wrap_small; lia).
        rewrite Hb. unfold mem_sbrk. rewrite (proj2 (Z.leb_gt _ _) Hfull). reflexivity.
      * split; [apply kr2_wf_with_errno; exact Hwf|]. split; [exact Hfp|].
        split; [auto|]. split; [|split; [intros H; contradiction | split; [reflexivity | split; [reflexivity | intros H; contradiction]]]].
        split; [intros _; split; [exact Hno | exact Hfull] | reflexivity].
Qed.




(** ** A request of no bytes, [mm_heap_dll.c] *)

Lemma dll_null_invalid ex s bs : dll_wf ex s bs → DLL.valid_ptr s NULL = false.
Proof.
  intros Hwf. destruct (dll_wf_layout _ _ _ Hwf) as (H1 & H2 & _).
  unfold DLL.valid_ptr, NULL, DLL.sizeof_Header in *.
  destruct (Z.eqb_spec 0 (DLL.base s)); [lia|].
  destruct (Z.eqb_spec 0 (DLL.base s + 1 * 16)); [lia|].
  destruct (Z.leb_spec (mem_start_brk (DLL.arena s)) 0); [lia|]. reflexivity.
Qed.

(** X14.  [mm_malloc(0)] of [mm_heap_dll.c] on a well-formed heap whose
    free list is empty ([freep] is the sentinel, which links to itself):
    the sentinel has the two units that a request of no bytes asks for,
    so it is taken for a block that fits.  The call returns the address
    of [base[1]], the arena is not extended, and the links of the sentinel
    are null afterwards, so that every later [mm_malloc] reads through a
    null pointer. *)
Theorem X14_dll_malloc_zero_hands_out_the_sentinel :
  ∀ (fuel : nat) (s : DLL.state) (bs : list Block),
    dll_wf 0 s bs → DLL.freep s = DLL.base s →
    DLL.ptr (DLL.rd (DLL.heap s) (DLL.base s)) = DLL.base s →
    ∃ s',
      DLL.mm_malloc (S fuel) s 0 = Ok (DLL.base s + 1 * DLL.sizeof_Header, s')
      ∧ DLL.arena s' = DLL.arena s
      ∧ DLL.freep s' = DLL.base s
      ∧ DLL.ptr (DLL.rd (DLL.heap s') (DLL.base s)) = NULL
      ∧ DLL.ptr (DLL.rd (DLL.heap s') (DLL.base s + 1 * DLL.sizeof_Header)) = NULL
      ∧ ∀ (fuel' : nat) (n : Z), DLL.mm_malloc (S fuel') s' n = Fault.
Proof.
  intros fuel s bs Hwf Hfp Hself.
  pose proof (dll_null_invalid _ _ _ Hwf) as Hnull.
  destruct (dll_wf_layout _ _ _ Hwf) as (Hb0 & _).
  pose proof (dll_wf_base _ _ _ Hwf) as Hsz.
  assert (Hnz : (DLL.base s =? NULL) = false) by (apply Z.eqb_neq; unfold NULL; lia).
  assert (N : DLL.base s + 1 * 16 ≠ DLL.base s) by lia.
  assert (T : DLL.base s + 2 * 16 - 1 * 16 = DLL.base s + 1 * 16) by lia.
  unfold DLL.mm_malloc. rewrite Hfp, Hnz. cbv zeta. rewrite Hfp.
  rewrite (dll_load_valid _ _ (dll_valid_base s)). cbn [mbind result_bind]. rewrite Hself.
  change (DLL.mm_units 0) with 2.
  cbn [DLL.malloc_loop]. rewrite (dll_load_valid _ _ (dll_valid_base s)). cbn [mbind result_bind].
  unfold DLL.fits. rewrite Hsz. cbn [Z.eqb Pos.eqb orb]. rewrite Hself.
  unfold DLL.link_header, DLL.mm_tail, DLL.mm_payload, DLL.sizeof_Header.
  rewrite (dll_upd_valid s (DLL.base s)) by apply dll_valid_base.
  cbn [mbind result_bind DLL.heap DLL.with_heap].
  rewrite (dll_load_valid _ (DLL.base s)) by exact (dll_valid_base s).
  cbn [mbind result_bind DLL.heap DLL.with_heap].
  rewrite dll_size_set_ptr, Hsz, T.
  rewrite (dll_upd_valid _ (DLL.base s + 1 * 16)) by exact (dll_valid_base1 s).
  cbn [mbind result_bind DLL.heap DLL.with_heap].
  rewrite (dll_upd_valid _ (DLL.base s)) by exact (dll_valid_base s).
  cbn [mbind result_bind DLL.heap DLL.with_heap].
  rewrite (dll_load_valid _ (DLL.base s)) by exact (dll_valid_base s).
  cbn [mbind result_bind DLL.heap DLL.with_heap].
  rewrite !dll_size_set_ptr, Hsz, T.
  rewrite (dll_upd_valid _ (DLL.base s + 1 * 16)) by exact (dll_valid_base1 s).
  cbn [mbind result_bind DLL.heap DLL.with_heap].
  eexists. split; [reflexivity|]. split; [reflexivity|]. split; [reflexivity|].
  cbn [DLL.heap DLL.with_heap DLL.with_freep DLL.freep].
  split; [dll_rd_hyp; reflexivity|].
  split; [dll_rd_hyp; reflexivity|].
  intros fuel' n. unfold DLL.mm_malloc.
  cbn [DLL.freep DLL.with_freep DLL.with_heap]. rewrite Hnz. cbv zeta.
  cbn [DLL.freep DLL.with_freep DLL.with_heap].
  rewrite (dll_load_valid _ (DLL.base s)) by exact (dll_valid_base s).
  cbn [mbind result_bind DLL.heap DLL.with_heap DLL.with_freep].
  dll_rd_hyp. cbn [DLL.malloc_loop]. unfold DLL.load.
  match goal with
  | |- context [DLL.valid_ptr ?st NULL] =>
      replace (DLL.valid_ptr st NULL) with (DLL.valid_ptr s NULL) by reflexivity
  end.
  rewrite Hnull. reflexivity.
Qed.

Lemma X14_dll_malloc_zero_hands_out_the_sentinel_witness :
  ∃ s',
    DLL.mm_malloc 1 (DLL.mm_reset dll_s1) 0 = Ok (4112, s')
    ∧ DLL.ptr (DLL.rd (DLL.heap s') 4096) = NULL
    ∧ DLL.mm_malloc 1 s' 16 = Fault.
Proof.
  destruct (X14_dll_malloc_zero_hands_out_the_sentinel 0 (DLL.mm_reset dll_s1) [])
    as (s' & E & _ & _ & Hp & _ & Hf).
  - apply (dll_init_base_wf (DLL.with_arena (mem_reset_brk (DLL.arena dll_s1)) dll_s1));
      vm_compute; first [reflexivity | discriminate].
  - reflexivity.
  - vm_compute. reflexivity.
  - exists s'. split; [exact E|]. split; [exact Hp | apply Hf].
Defined.

(** ** Moving a block with [mm_realloc], [mm_heap_kr2.c] *)

Lemma le_bytes_length n v : length (le_bytes n v) = n.
Proof. revert v. induction n as [|n IH]; intros v; simpl; [reflexivity | rewrite IH; reflexivity]. Qed.

(** Bytes that were read from memory and written back are the same bytes. *)
Lemma le_bytes_value n v : le_bytes n (le_value (le_bytes n v)) = le_bytes n v.
Proof.
  revert v. induction n as [|n IH]; intros v; [reflexivity|].
  cbn [le_bytes le_value].
  pose proof (Z.mod_pos_bound v 256 ltac:(lia)) as Hb.
  set (b := v mod 256) in *. set (V := le_value (le_bytes n (v / 256))).
  assert (E1 : (b + 256 * V) mod 256 = b).
  { rewrite Z.mul_comm, Z.mod_add by lia. apply Z.mod_small. exact Hb. }
  assert (E2 : (b + 256 * V) / 256 = V).
  { rewrite Z.mul_comm, Z.div_add by lia. rewrite Z.div_small by exact Hb. reflexivity. }
  rewrite E1, E2. unfold V. rewrite IH. reflexivity.
Qed.

Lemma kr2_Header_bytes_length h : length (KR2.Header_bytes h) = 32%nat.
Proof. unfold KR2.Header_bytes. rewrite !length_app, !le_bytes_length. reflexivity. Qed.

Lemma kr2_Header_of_bytes_bytes h :
  KR2.Header_of_bytes (KR2.Header_bytes h)
  = KR2.mkHeader (le_value (le_bytes 8 (KR2.prev h))) (le_value (le_bytes 8 (KR2.next h)))
                 (le_value (le_bytes 1 (KR2.isFree h))) (le_value (le_bytes 7 (KR2.pad h)))
                 (le_value (le_bytes 8 (KR2.size h))).
Proof. reflexivity. Qed.

Lemma kr2_Header_bytes_roundtrip h :
  KR2.Header_bytes (KR2.Header_of_bytes (KR2.Header_bytes h)) = KR2.Header_bytes h.
Proof.
  rewrite kr2_Header_of_bytes_bytes. unfold KR2.Header_bytes.
  cbn [KR2.prev KR2.next KR2.isFree KR2.pad KR2.size].
  rewrite !le_bytes_value. reflexivity.
Qed.

Lemma kr2_valid_ptr_with_heap s h p :
  KR2.valid_ptr (KR2.with_heap h s) p = KR2.valid_ptr s p.
Proof. reflexivity. Qed.

(** [memcpy] of whole units between two ranges that do not overlap. *)
Lemma kr2_memcpy_units (k : nat) :
  ∀ (m : nat) (s : KR2.state) (dst src : Z),
    (k <= m)%nat →
    (∀ i, 0 <= i < Z.of_nat k →
          KR2.valid_ptr s (src + i * 32) = true ∧ KR2.valid_ptr s (dst + i * 32) = true) →
    (dst + Z.of_nat k * 32 <= src ∨ src + Z.of_nat k * 32 <= dst) →
    ∃ s', KR2.memcpy m s dst src (Z.of_nat k * 32) = Ok s'
          ∧ KR2.arena s' = KR2.arena s ∧ KR2.base s' = KR2.base s
          ∧ KR2.freep s' = KR2.freep s
          ∧ (∀ i, 0 <= i < Z.of_nat k →
                  KR2.rd (KR2.heap s') (dst + i * 32)
                  = KR2.Header_of_bytes (KR2.Header_bytes (KR2.rd (KR2.heap s) (src + i * 32))))
          ∧ (∀ a, a < dst ∨ dst + Z.of_nat k * 32 <= a →
                  KR2.rd (KR2.heap s') a = KR2.rd (KR2.heap s) a).
Proof.
  induction k as [|k IH]; intros m s dst src Hm Hv Hd.
  - exists s. split; [destruct m; reflexivity|].
    repeat split; try reflexivity. intros i Hi. lia.
  - destruct m as [|m]; [lia|].
    cbn [KR2.memcpy].
    assert (Hn : (Z.of_nat (S k) * 32 <=? 0) = false) by (apply Z.leb_gt; lia).
    rewrite Hn.
    destruct (Hv 0 ltac:(lia)) as [Hvs Hvd].
    replace (src + 0 * 32) with src in Hvs by lia.
    replace (dst + 0 * 32) with dst in Hvd by lia.
    rewrite (kr2_load_valid _ _ Hvs), (kr2_load_valid _ _ Hvd). cbn [mbind result_bind].
    assert (Hk : Z.to_nat (Z.min (Z.of_nat (S k) * 32) KR2.sizeof_Header) = 32%nat).
    { unfold KR2.sizeof_Header. rewrite Z.min_r by lia. reflexivity. }
    rewrite Hk.
    rewrite (take_ge (KR2.Header_bytes _)) by (rewrite kr2_Header_bytes_length; lia).
    rewrite (drop_ge (KR2.Header_bytes _)) by (rewrite kr2_Header_bytes_length; lia).
    rewrite app_nil_r.
    rewrite (kr2_upd_valid _ _ _ Hvd). cbn [mbind result_bind].
    set (s1 := KR2.with_heap _ s).
    unfold KR2.sizeof_Header.
    replace (Z.of_nat (S k) * 32 - 32) with (Z.of_nat k * 32) by lia.
    destruct (IH m s1 (dst + 32) (src + 32) ltac:(lia)) as (s' & E & Ha & Hb & Hf & Hcp & Hfr).
    { intros i Hi. unfold s1. rewrite !kr2_valid_ptr_with_heap.
      destruct (Hv (i + 1) ltac:(lia)) as [A B].
      replace (src + 32 + i * 32) with (src + (i + 1) * 32) by lia.
      replace (dst + 32 + i * 32) with (dst + (i + 1) * 32) by lia. auto. }
    { lia. }
    exists s'. split; [exact E|]. split; [rewrite Ha; reflexivity|].
    split; [rewrite Hb; reflexivity|]. split; [rewrite Hf; reflexivity|]. split.
    + intros i Hi. destruct (Z.eq_dec i 0) as [->|Hi0].
      * replace (dst + 0 * 32) with dst by lia. replace (src + 0 * 32) with src by lia.
        rewrite Hfr by lia. unfold s1. cbn [KR2.heap KR2.with_heap].
        rewrite kr2_rd_insert_eq by reflexivity. reflexivity.
      * replace (dst + i * 32) with (dst + 32 + (i - 1) * 32) by lia.
        rewrite Hcp by lia. unfold s1. cbn [KR2.heap KR2.with_heap].
        rewrite kr2_rd_insert_ne by lia.
        replace (src + 32 + (i - 1) * 32) with (src + i * 32) by lia. reflexivity.
    + intros a Ha'. rewrite Hfr by lia. unfold s1. cbn [KR2.heap KR2.with_heap].
      rewrite kr2_rd_insert_ne by lia. reflexivity.
Qed.

(** Well-formedness speaks of the headers on the list only. *)
Lemma kr2_wf_frame s s' bs :
  kr2_wf s bs → KR2.arena s' = KR2.arena s → KR2.base s' = KR2.base s →
  (∀ a, kr2_node s bs a → KR2.rd (KR2.heap s') a = KR2.rd (KR2.heap s) a) →
  kr2_wf s' bs.
Proof.
  intros Hwf Ha Hb Hfr.
  assert (Hnx : ∀ x sx, kr2_next_of s' x sx = kr2_next_of s x sx).
  { intros x sx. unfold kr2_next_of. rewrite Ha, Hb. reflexivity. }
  assert (Hbn : kr2_node s bs (KR2.base s)) by (left; reflexivity).
  pose proof Hwf as [Hl Ht Hbl Hbase].
  constructor.
  - rewrite Ha, Hb. exact Hl.
  - rewrite Ha. exact Ht.
  - intros x sx fx Hin. destruct (Hbl x sx fx Hin) as (H1 & H2 & H3 & H4).
    pose proof (kr2_next_node s bs x Hwf (kr2_block_node s _ _ _ _ Hin)) as Hn.
    rewrite H3 in Hn.
    rewrite Hnx, (Hfr x (kr2_block_node s _ _ _ _ Hin)), (Hfr _ Hn). auto.
  - destruct Hbase as (H1 & H2 & H3 & H4).
    pose proof (kr2_next_node s bs _ Hwf Hbn) as Hn. rewrite H3 in Hn.
    rewrite Ha, Hb, Hnx, (Hfr _ Hbn), (Hfr _ Hn). auto.
Qed.

(** Every unit of a block of a well-formed heap may be dereferenced. *)
Lemma kr2_unit_valid s bs y sy fy j :
  kr2_wf s bs → (y, sy, fy) ∈ bs → 0 <= j < sy →
  KR2.valid_ptr s (y + j * 32) = true.
Proof.
  intros Hwf Hin Hj.
  pose proof (kr2_wf_tiled _ _ Hwf) as Ht. unfold KR2.sizeof_Header in Ht.
  destruct (kr2_wf_layout _ _ Hwf) as (Hl1 & Hl2 & Hl3 & Hl4).
  destruct (tiled_bounds 32 1 _ _ _ ltac:(lia) ltac:(lia) Ht) as (_ & _ & Hbd).
  destruct (Hbd _ _ _ Hin) as (H1 & H2 & H3 & H4).
  apply kr2_valid_arena; unfold KR2.sizeof_Header; [lia | lia |].
  replace (y + j * 32 - mem_start_brk (KR2.arena s))
    with (y - mem_start_brk (KR2.arena s) + j * 32) by lia.
  rewrite Z.mod_add by lia. exact H4.
Qed.

(** A block that is too small for [newsize] bytes holds fewer bytes. *)
Lemma kr2_grow_bytes sx newsize :
  0 <= newsize < 2 ^ 64 → 1 <= sx → sx < KR2.mm_units newsize →
  (sx - 1) * 32 < newsize.
Proof.
  intros Hn Hsx. unfold KR2.mm_units, KR2.sizeof_Header. rewrite pow_2_64 in Hn.
  destruct (Z.lt_ge_cases (newsize + 32) (2 ^ 64)) as [Hlt|Hge]; rewrite pow_2_64 in *.
  - rewrite (wrap_small (newsize + 32)) by (rewrite pow_2_64; lia).
    rewrite (wrap_small (newsize + 32 - 1)) by (rewrite pow_2_64; lia).
    pose proof (Z.div_mod (newsize + 32 - 1) 32 ltac:(lia)) as Hd.
    pose proof (Z.mod_pos_bound (newsize + 32 - 1) 32 ltac:(lia)) as Hm.
    rewrite wrap_small by (rewrite pow_2_64; lia). lia.
  - assert (E : wrap (newsize + 32) = newsize + 32 - 18446744073709551616).
    { unfold wrap. rewrite pow_2_64. symmetry.
      apply (Z.mod_unique (newsize + 32) _ 1); lia. }
    rewrite E. destruct (Z.eq_dec newsize 18446744073709551584) as [->|Hne].
    + intros H.
      assert (Ev : wrap (wrap (18446744073709551584 + 32 - 18446744073709551616 - 1) / 32 + 1)
                   = 576460752303423488) by reflexivity.
      rewrite Ev in H. lia.
    + rewrite (wrap_small (newsize + 32 - 18446744073709551616 - 1)) by (rewrite pow_2_64; lia).
      rewrite (Z.div_small (newsize + 32 - 18446744073709551616 - 1) 32) by lia.
      rewrite wrap_small by (rewrite pow_2_64; lia). lia.
Qed.

Lemma merge_lower_rest l1 r0 r (z : Block) : z ∈ r → z ∈ merge_lower l1 (r0 :: r).
Proof.
  intros Hz. destruct l1 as [|[[p sp] fp] l _] using rev_ind.
  - rewrite merge_lower_nil. right. exact Hz.
  - destruct r0 as [[x sx] fx]. destruct fp.
    + rewrite merge_lower_snoc_free. apply elem_of_app. right. right. exact Hz.
    + rewrite merge_lower_snoc_busy. apply elem_of_app. right. right. right. exact Hz.
Qed.

(** [mm_free] keeps the other blocks in use in use. *)
Lemma free_block_busy l1 x sx l2 y sy :
  (y, sy, false) ∈ l1 ∨ (y, sy, false) ∈ l2 → (y, sy, false) ∈ free_block l1 x sx l2.
Proof.
  unfold free_block.
  assert (E : ∃ r0 r, merge_upper x sx l2 = r0 :: r
                      ∧ ((y, sy, false) ∈ l2 → (y, sy, false) ∈ r)).
  { destruct l2 as [|[[n sn] [|]] l2]; simpl.
    - exists (x, sx, true), []. auto.
    - exists (x, sx + sn, true), l2. split; [reflexivity|].
      intros H. apply elem_of_cons in H as [H|H]; [discriminate H | exact H].
    - exists (x, sx, true), ((n, sn, false) :: l2). auto. }
  destruct E as (r0 & r & -> & Hr). intros [H|H].
  - apply merge_lower_busy. exact H.
  - apply merge_lower_rest, Hr, H.
Qed.

(** The blocks in use after [mm_free] were in use before. *)
Lemma free_block_busy_inv l1 x sx l2 y sy :
  (y, sy, false) ∈ free_block l1 x sx l2 → (y, sy, false) ∈ l1 ∨ (y, sy, false) ∈ l2.
Proof.
  unfold free_block.
  assert (E : ∃ sx' r, merge_upper x sx l2 = (x, sx', true) :: r
                       ∧ ((y, sy, false) ∈ r → (y, sy, false) ∈ l2)).
  { destruct l2 as [|[[n sn] [|]] l2]; simpl.
    - exists sx, []. auto.
    - exists (sx + sn), l2. split; [reflexivity|]. intros H. right. exact H.
    - exists sx, ((n, sn, false) :: l2). auto. }
  destruct E as (sx' & r & -> & Hr).
  destruct l1 as [|[[p sp] fp] l _] using rev_ind.
  - rewrite merge_lower_nil. intros H.
    apply elem_of_cons in H as [H|H]; [discriminate H | right; apply Hr, H].
  - destruct fp.
    + rewrite merge_lower_snoc_free. intros H.
      apply elem_of_app in H as [H|H]; [left; apply elem_of_app; left; exact H|].
      apply elem_of_cons in H as [H|H]; [discriminate H | right; apply Hr, H].
    + rewrite merge_lower_snoc_busy. intros H.
      apply elem_of_app in H as [H|H]; [left; apply elem_of_app; left; exact H|].
      apply elem_of_cons in H as [H|H];
        [left; apply elem_of_app; right; rewrite H; left|].
      apply elem_of_cons in H as [H|H]; [discriminate H | right; apply Hr, H].
Qed.

(** In a tiling no other block starts where a block starts. *)
Lemma tiled_middle_unique hsz a l1 x sx fx l2 e sy fy :
  0 < hsz → tiled hsz 1 a (l1 ++ (x, sx, fx) :: l2) e →
  ¬ ((x, sy, fy) ∈ l1 ∨ (x, sy, fy) ∈ l2).
Proof.
  intros Hh Ht. apply tiled_app in Ht as (c & Ht1 & Ht2). simpl in Ht2.
  destruct Ht2 as (-> & Hsx & Ht2).
  destruct (tiled_bounds hsz 1 _ _ _ Hh ltac:(lia) Ht1) as (_ & _ & Hb1).
  destruct (tiled_bounds hsz 1 _ _ _ Hh ltac:(lia) Ht2) as (_ & _ & Hb2).
  intros [H|H].
  - destruct (Hb1 _ _ _ H) as (_ & ? & ? & _). nia.
  - destruct (Hb2 _ _ _ H) as (? & _). nia.
Qed.

(** [mm_realloc] of a block in use when [newsize] is zero or the block is
    too small for [newsize] bytes, and [mm_malloc] finds memory. *)
Lemma kr2_realloc_moves (fuel : nat) (s : KR2.state) (bs : list Block) (x sx newsize : Z) :
  kr2_wf s bs → kr2_node s bs (KR2.freep s) → (x, sx, false) ∈ bs →
  0 <= newsize < 2 ^ 64 → newsize = 0 ∨ sx < KR2.mm_units newsize →
  kr2_morecore_units s (KR2.mm_units newsize) * 32 < 2 ^ 64 →
  (∃ y sy, (y, sy, true) ∈ bs ∧ KR2.mm_units newsize <= sy)
  ∨ mem_brk (KR2.arena s) + kr2_morecore_units s (KR2.mm_units newsize) * 32
    <= mem_max_addr (KR2.arena s) →
  (2 * length bs + 3 <= fuel)%nat →
  ∃ newap s' bs',
    KR2.mm_realloc fuel s (KR2.mm_payload x) newsize = Ok (newap, s')
    ∧ newap ≠ NULL
    ∧ kr2_wf s' bs' ∧ kr2_node s' bs' (KR2.freep s')
    ∧ (KR2.mm_block newap, KR2.mm_units newsize, false) ∈ bs'
    ∧ (∀ sy, (x, sy, false) ∉ bs')
    ∧ (∀ y sy, (y, sy, false) ∈ bs → y ≠ x → (y, sy, false) ∈ bs')
    ∧ (∀ i, 0 <= i < sx - 1 → (i + 1) * 32 <= newsize →
            KR2.Header_bytes (KR2.rd (KR2.heap s') (newap + i * 32))
            = KR2.Header_bytes (KR2.rd (KR2.heap s) (KR2.mm_payload x + i * 32)))
    ∧ (∀ a, kr2_in_payload bs a → KR2.rd (KR2.heap s') a = KR2.rd (KR2.heap s) a).
Proof.
  intros Hwf Hfp Hx Hns Hsx Hsmall Hcan Hfuel.
  destruct (kr2_malloc_total fuel s bs newsize Hwf Hfp Hsmall Hfuel)
    as (ap & s1 & bs1 & Em & Hwf1 & Hn1 & Hbusy & Hnull & Hin & Hb1 & Hfr1 & Hap).
  pose proof (kr2_mm_units_range newsize) as [Hu1 _].
  set (u := KR2.mm_units newsize) in *.
  assert (Hnz : ap ≠ NULL).
  { intros E. apply Hnull in E as [Hno Hfull].
    destruct Hcan as [(y & sy & Hy & Hle)|Hroom]; [specialize (Hno _ _ Hy); lia | lia]. }
  specialize (Hin Hnz). specialize (Hap Hnz).
  pose proof (Hbusy _ _ Hx) as Hx1.
  pose proof (Hap _ _ Hx) as Hxnb.
  destruct (kr2_wf_block_valid s _ x sx false Hwf Hx) as (Hvx & Hx_lo & Hx_hi & Hsx1 & _).
  destruct (kr2_wf_blocks _ _ Hwf x sx false Hx) as (Hsz & _).
  destruct (kr2_wf_block_valid s1 _ x sx false Hwf1 Hx1) as (Hvx1 & _).
  destruct (kr2_wf_blocks _ _ Hwf1 x sx false Hx1) as (Hsz1 & _).
  destruct (kr2_wf_layout _ _ Hwf) as (Hl1 & Hl2 & Hl3 & Hl4).
  unfold KR2.sizeof_Header in Hl2. rewrite pow_2_64 in Hl4.
  pose proof (kr2_wf_tiled _ _ Hwf1) as Ht1. unfold KR2.sizeof_Header in Ht1.
  destruct (tiled_bounds 32 1 _ _ _ ltac:(lia) ltac:(lia) Ht1) as (_ & _ & Hbd1).
  destruct (kr2_wf_layout _ _ Hwf1) as (Hk1 & Hk2 & Hk3 & Hk4).
  unfold KR2.sizeof_Header in Hk2.
  set (nb := KR2.mm_block ap) in *.
  assert (Eap : ap = nb + 32) by (unfold nb, KR2.mm_block, KR2.sizeof_Header; lia).
  destruct (Hbd1 _ _ _ Hin) as (Hnb1 & Hnb2 & _ & _).
  assert (Hdisj : x + sx * 32 <= nb ∨ nb + u * 32 <= x).
  { destruct (tiled_disjoint 32 1 _ _ _ ltac:(lia) ltac:(lia) Ht1 _ _ _ _ _ _ Hx1 Hin)
      as [(E & _)|[D|D]]; [contradiction | left; exact D | right; exact D]. }
  (* the run of [mm_realloc] up to [memcpy] *)
  unfold KR2.mm_realloc.
  assert (Hpn : (KR2.mm_payload x =? NULL) = false).
  { apply Z.eqb_neq. unfold KR2.mm_payload, KR2.sizeof_Header, NULL. lia. }
  rewrite Hpn. cbv zeta.
  assert (Ebp : KR2.mm_block (KR2.mm_payload x) = x)
    by (unfold KR2.mm_block, KR2.mm_payload; lia).
  rewrite Ebp, (kr2_load_valid _ _ Hvx). cbn [mbind result_bind]. rewrite Hsz.
  fold u.
  assert (Hchk : (0 <? newsize) && (u <=? sx) = false).
  { destruct Hsx as [->|Hsx]; [reflexivity|].
    rewrite (proj2 (Z.leb_gt u sx) Hsx). apply andb_false_r. }
  rewrite Hchk.
  rewrite Em. cbn [mbind result_bind].
  rewrite (proj2 (Z.eqb_neq _ _) Hnz).
  rewrite (kr2_load_valid _ _ Hvx1). cbn [mbind result_bind]. rewrite Hsz1.
  assert (Eold : KR2.mm_bytes (wrap (sx - 1)) = (sx - 1) * 32).
  { unfold KR2.mm_bytes, KR2.sizeof_Header.
    rewrite (wrap_small (sx - 1)) by (rewrite pow_2_64; lia).
    apply wrap_small. rewrite pow_2_64. lia. }
  rewrite Eold.
  assert (HK : ∃ k : nat,
            (if (sx - 1) * 32 <? newsize then (sx - 1) * 32 else newsize) = Z.of_nat k * 32
            ∧ Z.of_nat k <= sx - 1 ∧ Z.of_nat k <= u - 1
            ∧ ∀ i, 0 <= i < sx - 1 → (i + 1) * 32 <= newsize → i < Z.of_nat k).
  { destruct Hsx as [->|Hsx].
    - exists 0%nat. rewrite (proj2 (Z.ltb_ge _ _)) by lia.
      split; [reflexivity|]. split; [lia|]. split; [lia|]. intros i Hi Hi'. lia.
    - pose proof (kr2_grow_bytes sx newsize Hns Hsx1 Hsx) as Hgrow.
      exists (Z.to_nat (sx - 1)). rewrite (proj2 (Z.ltb_lt _ _) Hgrow).
      rewrite Z2Nat.id by lia. split; [reflexivity|]. split; [lia|]. split; [lia|].
      intros i Hi _. lia. }
  destruct HK as (k & -> & HK1 & HK2 & HK3).
  unfold KR2.sizeof_Header at 1.
  rewrite Z.div_mul by lia. rewrite Nat2Z.id.
  destruct (kr2_memcpy_units k (k + 1) s1 ap (KR2.mm_payload x) ltac:(lia))
    as (s2 & Ec & Ha2 & Hb2 & Hf2 & Hcp & Hfr2).
  { intros i Hi. unfold KR2.mm_payload, KR2.sizeof_Header. rewrite Eap. split.
    - replace (x + 1 * 32 + i * 32) with (x + (i + 1) * 32) by lia.
      apply (kr2_unit_valid s1 bs1 x sx false); [exact Hwf1 | exact Hx1 | lia].
    - replace (nb + 32 + i * 32) with (nb + (i + 1) * 32) by lia.
      apply (kr2_unit_valid s1 bs1 nb u false); [exact Hwf1 | exact Hin | lia]. }
  { unfold KR2.mm_payload, KR2.sizeof_Header. rewrite Eap. lia. }
  rewrite Ec. cbn [mbind result_bind].
  (* the heap after [memcpy] *)
  assert (Hwf2 : kr2_wf s2 bs1).
  { apply (kr2_wf_frame s1); [exact Hwf1 | exact Ha2 | exact Hb2|].
    intros a [->|(sa & fa & Hina)]; apply Hfr2; rewrite Eap.
    - left. lia.
    - destruct (Hbd1 _ _ _ Hina) as (_ & _ & Hsa & _).
      destruct (tiled_disjoint 32 1 _ _ _ ltac:(lia) ltac:(lia) Ht1 _ _ _ _ _ _ Hina Hin)
        as [(E & _)|[D|D]]; lia. }
  pose proof Hx1 as Hsplit. apply list_elem_of_split in Hsplit as (l1 & l2 & Ebs1).
  pose proof Hwf2 as Hwf2'. rewrite Ebs1 in Hwf2'.
  destruct (kr2_free_any_wf fuel s2 l1 x sx false l2 Hwf2')
    as (s3 & Ef & Hwf3 & Hn3 & Hb3 & Ha3 & Hfr3).
  rewrite <- Ebs1 in Hfr3.
  rewrite Ef. cbn [mbind result_bind].
  assert (Huniq : ∀ y sy fy, (y, sy, fy) ∈ bs1 → y ≠ x →
                             (y, sy, fy) ∈ l1 ∨ (y, sy, fy) ∈ l2).
  { intros y sy fy Hy Hne. rewrite Ebs1 in Hy.
    apply elem_of_app in Hy as [Hy|Hy]; [left; exact Hy|].
    apply elem_of_cons in Hy as [Hy|Hy]; [injection Hy as -> _ _; contradiction | right; exact Hy]. }
  assert (Hpay2 : ∀ a, kr2_in_payload bs1 a → KR2.rd (KR2.heap s3) a = KR2.rd (KR2.heap s2) a).
  { intros a Ha. apply Hfr3.
    destruct (kr2_payload_apart s2 bs1 a Hwf2 Ha) as (Hnn & _). exact Hnn. }
  exists ap, s3, (free_block l1 x sx l2).
  split; [reflexivity|]. split; [exact Hnz|]. split; [exact Hwf3|]. split; [exact Hn3|].
  split; [|split; [|split; [|split]]].
  - apply free_block_busy. apply Huniq; [exact Hin | apply not_eq_sym; exact Hxnb].
  - intros sy Hsy. apply free_block_busy_inv in Hsy.
    apply (tiled_middle_unique 32 (mem_start_brk (KR2.arena s1)) l1 x sx false l2
             (mem_brk (KR2.arena s1)) sy false ltac:(lia)); [|exact Hsy].
    rewrite <- Ebs1. exact Ht1.
  - intros y sy Hy Hne. apply free_block_busy. apply Huniq; [apply Hbusy; exact Hy | exact Hne].
  - intros i Hi Hi'. specialize (HK3 i Hi Hi').
    rewrite Hpay2 by (exists nb, u; split; [exact Hin | rewrite Eap; lia]).
    rewrite Hcp by lia. rewrite kr2_Header_bytes_roundtrip.
    rewrite Hfr1; [reflexivity|].
    exists x, sx. split; [exact Hx|]. unfold KR2.mm_payload, KR2.sizeof_Header. lia.
  - intros a Ha.
    assert (Ha1 : kr2_in_payload bs1 a).
    { destruct Ha as (y & sy & Hy & Hya). exists y, sy. split; [apply Hbusy; exact Hy | exact Hya]. }
    rewrite (Hpay2 a Ha1), <- (Hfr1 a Ha). apply Hfr2.
    destruct Ha as (y & sy & Hy & Hya).
    pose proof (Hap _ _ Hy) as Hyn.
    destruct (tiled_disjoint 32 1 _ _ _ ltac:(lia) ltac:(lia) Ht1 _ _ _ _ _ _
                (Hbusy _ _ Hy) Hin) as [(E & _)|[D|D]]; [contradiction | |]; rewrite Eap; lia.
Qed.

(** X15.  [mm_malloc] of [mm_heap_kr2.c] on a well-formed heap leaves the
    memory in use alone: every unit in the payload of a block in use
    holds what it held, and the block handed out lies apart from every
    block that was in use. *)
Theorem X15_kr2_malloc_leaves_blocks_in_use_alone :
  ∀ (fuel : nat) (s : KR2.state) (bs : list Block) (nbytes : Z),
    kr2_wf s bs → kr2_node s bs (KR2.freep s) →
    kr2_morecore_units s (KR2.mm_units nbytes) * 32 < 2 ^ 64 →
    (2 * length bs + 3 <= fuel)%nat →
    ∃ ap s',
      KR2.mm_malloc fuel s nbytes = Ok (ap, s')
      ∧ (∀ a, kr2_in_payload bs a → KR2.rd (KR2.heap s') a = KR2.rd (KR2.heap s) a)
      ∧ (ap ≠ NULL →
         ∀ y sy, (y, sy, false) ∈ bs →
                 y + sy * 32 <= KR2.mm_block ap
                 ∨ KR2.mm_block ap + KR2.mm_units nbytes * 32 <= y).
Proof.
  intros fuel s bs nbytes Hwf Hfp Hsmall Hfuel.
  destruct (kr2_malloc_total fuel s bs nbytes Hwf Hfp Hsmall Hfuel)
    as (ap & s' & bs' & Em & Hwf' & _ & Hbusy & _ & Hin & _ & Hfr & Hap).
  exists ap, s'. split; [exact Em|]. split; [exact Hfr|].
  intros Hnz y sy Hy.
  pose proof (kr2_wf_tiled _ _ Hwf') as Ht. unfold KR2.sizeof_Header in Ht.
  destruct (tiled_disjoint 32 1 _ _ _ ltac:(lia) ltac:(lia) Ht _ _ _ _ _ _
              (Hbusy _ _ Hy) (Hin Hnz)) as [(E & _)|[D|D]];
    [exfalso; exact (Hap Hnz _ _ Hy E) | left; exact D | right; exact D].
Qed.

Lemma X15_kr2_malloc_leaves_blocks_in_use_alone_witness :
  ∃ ap s',
    KR2.mm_malloc 12 kr2_gap 100 = Ok (ap, s')
    ∧ (∀ a, kr2_in_payload
              [(65536, 122, true); (69440, 2, false); (69504, 2, true); (69568, 2, false)] a →
            KR2.rd (KR2.heap s') a = KR2.rd (KR2.heap kr2_gap) a)
    ∧ (ap ≠ NULL →
       ∀ y sy, (y, sy, false)
               ∈ [(65536, 122, true); (69440, 2, false); (69504, 2, true); (69568, 2, false)] →
               y + sy * 32 <= KR2.mm_block ap
               ∨ KR2.mm_block ap + KR2.mm_units 100 * 32 <= y).
Proof.
  apply (X15_kr2_malloc_leaves_blocks_in_use_alone 12 kr2_gap
           [(65536, 122, true); (69440, 2, false); (69504, 2, true); (69568, 2, false)]
           100 kr2_gap_wf).
  - right. exists 2, false. right. left.
  - vm_compute. reflexivity.
  - simpl. lia.
Defined.

(** X16.  [mm_free] of [mm_heap_kr2.c] for a block of a well-formed heap
    writes to headers of the list only: every unit that is not the header
    of a block or the sentinel holds what it held, so the payload of
    every block, that of the freed block included, is as it was. *)
Theorem X16_kr2_free_writes_to_headers_only :
  ∀ (fuel : nat) (s : KR2.state) (l1 : list Block) (x sx : Z) (fx : bool) (l2 : list Block),
    kr2_wf s (l1 ++ (x, sx, fx) :: l2) →
    ∃ s', KR2.mm_free fuel s (KR2.mm_payload x) = Ok s'
          ∧ KR2.arena s' = KR2.arena s
          ∧ ∀ a, ¬ kr2_node s (l1 ++ (x, sx, fx) :: l2) a →
                 KR2.rd (KR2.heap s') a = KR2.rd (KR2.heap s) a.
Proof.
  intros fuel s l1 x sx fx l2 Hwf.
  destruct (kr2_free_any_wf fuel s l1 x sx fx l2 Hwf) as (s' & E & _ & _ & _ & Ha & Hfr).
  exists s'. auto.
Qed.

Lemma X16_kr2_free_writes_to_headers_only_witness :
  ∃ s', KR2.mm_free 8 kr2_gap (KR2.mm_payload 69440) = Ok s'
        ∧ KR2.arena s' = KR2.arena kr2_gap
        ∧ ∀ a, ¬ kr2_node kr2_gap
                   ([(65536, 122, true)] ++ (69440, 2, false)
                      :: [(69504, 2, true); (69568, 2, false)]) a →
               KR2.rd (KR2.heap s') a = KR2.rd (KR2.heap kr2_gap) a.
Proof.
  apply (X16_kr2_free_writes_to_headers_only 8 kr2_gap [(65536, 122, true)] 69440 2 false
           [(69504, 2, true); (69568, 2, false)]).
  exact kr2_gap_wf.
Defined.

(** X17.  [mm_realloc] of [mm_heap_kr2.c] for a block in use of a
    well-formed heap that is too small for [newsize] bytes, when a free
    block is large enough or the arena has room: it returns the payload of
    a block of [mm_units newsize] units in use, not null, whose first
    units hold the bytes of the payload of the old block.  The old block
    is no longer in use, the other blocks in use are in use as before
    with their payload as it was, and the heap is well formed. *)
Theorem X17_kr2_realloc_moves_the_payload :
  ∀ (fuel : nat) (s : KR2.state) (bs : list Block) (x sx newsize : Z),
    kr2_wf s bs → kr2_node s bs (KR2.freep s) → (x, sx, false) ∈ bs →
    0 <= newsize < 2 ^ 64 → sx < KR2.mm_units newsize →
    kr2_morecore_units s (KR2.mm_units newsize) * 32 < 2 ^ 64 →
    (∃ y sy, (y, sy, true) ∈ bs ∧ KR2.mm_units newsize <= sy)
    ∨ mem_brk (KR2.arena s) + kr2_morecore_units s (KR2.mm_units newsize) * 32
      <= mem_max_addr (KR2.arena s) →
    (2 * length bs + 3 <= fuel)%nat →
    ∃ newap s' bs',
      KR2.mm_realloc fuel s (KR2.mm_payload x) newsize = Ok (newap, s')
      ∧ newap ≠ NULL
      ∧ kr2_wf s' bs' ∧ kr2_node s' bs' (KR2.freep s')
      ∧ (KR2.mm_block newap, KR2.mm_units newsize, false) ∈ bs'
      ∧ (∀ sy, (x, sy, false) ∉ bs')
      ∧ (∀ y sy, (y, sy, false) ∈ bs → y ≠ x → (y, sy, false) ∈ bs')
      ∧ (∀ i, 0 <= i < sx - 1 →
              KR2.Header_bytes (KR2.rd (KR2.heap s') (newap + i * 32))
              = KR2.Header_bytes (KR2.rd (KR2.heap s) (KR2.mm_payload x + i * 32)))
      ∧ (∀ a, kr2_in_payload bs a → KR2.rd (KR2.heap s') a = KR2.rd (KR2.heap s) a).
Proof.
  intros fuel s bs x sx newsize Hwf Hfp Hx Hns Hsx Hsmall Hcan Hfuel.
  destruct (kr2_realloc_moves fuel s bs x sx newsize Hwf Hfp Hx Hns (or_intror Hsx)
              Hsmall Hcan Hfuel)
    as (newap & s' & bs' & E & Hnz & Hwf' & Hn' & Hin & Hgone & Hbusy & Hcp & Hfr).
  exists newap, s', bs'. split; [exact E|]. split; [exact Hnz|]. split; [exact Hwf'|].
  split; [exact Hn'|]. split; [exact Hin|]. split; [exact Hgone|]. split; [exact Hbusy|].
  split; [|exact Hfr].
  intros i Hi. apply Hcp; [exact Hi|].
  destruct (kr2_wf_block_valid s _ x sx false Hwf Hx) as (_ & _ & _ & Hsx1 & _).
  pose proof (kr2_grow_bytes sx newsize Hns Hsx1 Hsx). lia.
Qed.

Lemma X17_kr2_realloc_moves_the_payload_witness :
  ∃ newap s' bs',
    KR2.mm_realloc 12 kr2_gap (KR2.mm_payload 69440) 100 = Ok (newap, s')
    ∧ newap ≠ NULL
    ∧ kr2_wf s' bs' ∧ kr2_node s' bs' (KR2.freep s')
    ∧ (KR2.mm_block newap, KR2.mm_units 100, false) ∈ bs'
    ∧ (∀ sy, (69440, sy, false) ∉ bs')
    ∧ (∀ y sy, (y, sy, false)
               ∈ [(65536, 122, true); (69440, 2, false); (69504, 2, true); (69568, 2, false)] →
               y ≠ 69440 → (y, sy, false) ∈ bs')
    ∧ (∀ i, 0 <= i < 2 - 1 →
            KR2.Header_bytes (KR2.rd (KR2.heap s') (newap + i * 32))
            = KR2.Header_bytes (KR2.rd (KR2.heap kr2_gap) (KR2.mm_payload 69440 + i * 32)))
    ∧ (∀ a, kr2_in_payload
              [(65536, 122, true); (69440, 2, false); (69504, 2, true); (69568, 2, false)] a →
            KR2.rd (KR2.heap s') a = KR2.rd (KR2.heap kr2_gap) a).
Proof.
  apply (X17_kr2_realloc_moves_the_payload 12 kr2_gap
           [(65536, 122, true); (69440, 2, false); (69504, 2, true); (69568, 2, false)]
           69440 2 100 kr2_gap_wf).
  - right. exists 2, false. right. left.
  - right. left.
  - vm_compute. split; [discriminate | reflexivity].
  - vm_compute. reflexivity.
  - vm_compute. reflexivity.
  - left. exists 65536, 122. split; [left | vm_compute; discriminate].
  - simpl. lia.
Defined.

(** X18.  [mm_realloc] of [mm_heap_kr2.c] with [newsize] zero for a
    block in use of a well-formed heap, when a free block exists or the
    arena has room: it returns, not null, the payload pointer of a new
    block of one unit, the header alone, and the old block is no longer
    in use.  The other blocks in use are in use as before with their
    payload as it was, and the heap is well formed. *)
Theorem X18_kr2_realloc_to_zero_frees_the_block :
  ∀ (fuel : nat) (s : KR2.state) (bs : list Block) (x sx : Z),
    kr2_wf s bs → kr2_node s bs (KR2.freep s) → (x, sx, false) ∈ bs →
    kr2_morecore_units s (KR2.mm_units 0) * 32 < 2 ^ 64 →
    (∃ y sy, (y, sy, true) ∈ bs)
    ∨ mem_brk (KR2.arena s) + kr2_morecore_units s (KR2.mm_units 0) * 32
      <= mem_max_addr (KR2.arena s) →
    (2 * length bs + 3 <= fuel)%nat →
    ∃ newap s' bs',
      KR2.mm_realloc fuel s (KR2.mm_payload x) 0 = Ok (newap, s')
      ∧ newap ≠ NULL
      ∧ kr2_wf s' bs' ∧ kr2_node s' bs' (KR2.freep s')
      ∧ (KR2.mm_block newap, 1, false) ∈ bs'
      ∧ (∀ sy, (x, sy, false) ∉ bs')
      ∧ (∀ y sy, (y, sy, false) ∈ bs → y ≠ x → (y, sy, false) ∈ bs')
      ∧ (∀ a, kr2_in_payload bs a → KR2.rd (KR2.heap s') a = KR2.rd (KR2.heap s) a).
Proof.
  intros fuel s bs x sx Hwf Hfp Hx Hsmall Hcan Hfuel.
  assert (Hcan' : (∃ y sy, (y, sy, true) ∈ bs ∧ KR2.mm_units 0 <= sy)
                  ∨ mem_brk (KR2.arena s) + kr2_morecore_units s (KR2.mm_units 0) * 32
                    <= mem_max_addr (KR2.arena s)).
  { destruct Hcan as [(y & sy & Hy)|Hroom]; [left | right; exact Hroom].
    exists y, sy. split; [exact Hy|].
    destruct (kr2_wf_block_valid s _ y sy true Hwf Hy) as (_ & _ & _ & Hsy & _).
    exact Hsy. }
  destruct (kr2_realloc_moves fuel s bs x sx 0 Hwf Hfp Hx ltac:(rewrite pow_2_64; lia)
              (or_introl eq_refl) Hsmall Hcan' Hfuel)
    as (newap & s' & bs' & E & Hnz & Hwf' & Hn' & Hin & Hgone & Hbusy & _ & Hfr).
  assert (E1 : KR2.mm_units 0 = 1) by reflexivity.
  rewrite E1 in Hin.
  exists newap, s', bs'. auto 10.
Qed.

Lemma X18_kr2_realloc_to_zero_frees_the_block_witness :
  ∃ newap s' bs',
    KR2.mm_realloc 12 kr2_gap (KR2.mm_payload 69440) 0 = Ok (newap, s')
    ∧ newap ≠ NULL
    ∧ kr2_wf s' bs' ∧ kr2_node s' bs' (KR2.freep s')
    ∧ (KR2.mm_block newap, 1, false) ∈ bs'
    ∧ (∀ sy, (69440, sy, false) ∉ bs')
    ∧ (∀ y sy, (y, sy, false)
               ∈ [(65536, 122, true); (69440, 2, false); (69504, 2, true); (69568, 2, false)] →
               y ≠ 69440 → (y, sy, false) ∈ bs')
    ∧ (∀ a, kr2_in_payload
              [(65536, 122, true); (69440, 2, false); (69504, 2, true); (69568, 2, false)] a →
            KR2.rd (KR2.heap s') a = KR2.rd (KR2.heap kr2_gap) a).
Proof.
  apply (X18_kr2_realloc_to_zero_frees_the_block 12 kr2_gap
           [(65536, 122, true); (69440, 2, false); (69504, 2, true); (69568, 2, false)]
           69440 2 kr2_gap_wf).
  - right. exists 2, false. right. left.
  - right. left.
  - vm_compute. reflexivity.
  - left. exists 65536, 122. left.
  - simpl. lia.
Defined.

(** ** What the allocator of [mm_heap_dll.c] leaves alone *)

(** The chunks do not depend on which blocks are free. *)
Lemma dll_chunk_flag s l1 x sx fx fx' l2 c sc :
  dll_chunk s (l1 ++ (x, sx, fx) :: l2) c sc → dll_chunk s (l1 ++ (x, sx, fx') :: l2) c sc.
Proof.
  intros [H|(fc & H)]; [left; exact H|]. right.
  apply elem_of_app in H as [H|H]; [exists fc; apply elem_of_app; left; exact H|].
  apply elem_of_cons in H as [H|H].
  - injection H as -> -> _. exists fx'. apply elem_of_middle.
  - exists fc. apply elem_of_app. right. right. exact H.
Qed.

Lemma dll_edge_flag s s' l1 x sx fx fx' l2 a :
  DLL.base s' = DLL.base s →
  dll_edge s' (l1 ++ (x, sx, fx) :: l2) a → dll_edge s (l1 ++ (x, sx, fx') :: l2) a.
Proof.
  intros Hb (c & sc & Hc & Ha). exists c, sc. split; [|exact Ha].
  apply (dll_chunk_flag s l1 x sx fx fx' l2).
  unfold dll_chunk in *. rewrite <- Hb. exact Hc.
Qed.

(** Merging two blocks leaves no new first or last unit. *)
Lemma dll_edge_merged s s' l1 a sa fa b sb fb fm l2 c :
  DLL.base s' = DLL.base s → b = a + sa * 16 →
  dll_edge s' (l1 ++ (a, sa + sb, fm) :: l2) c →
  dll_edge s (l1 ++ (a, sa, fa) :: (b, sb, fb) :: l2) c.
Proof.
  intros Hb Hab (y & sy & Hy & Hc).
  destruct Hy as [[E1 E2]|(fy & Hy)].
  - exists y, sy. split; [left; rewrite <- Hb; auto | exact Hc].
  - apply elem_of_app in Hy as [Hy|Hy];
      [exists y, sy; split; [right; exists fy; apply elem_of_app; left; exact Hy | exact Hc]|].
    apply elem_of_cons in Hy as [Hy|Hy].
    + injection Hy as -> -> _. destruct Hc as [->| ->].
      * exists a, sa. split; [right; exists fa; apply elem_of_middle | left; reflexivity].
      * exists b, sb. split; [right; exists fb; apply elem_of_middle2|].
        right. unfold dll_tail, DLL.sizeof_Header. lia.
    + exists y, sy. split; [|exact Hc]. right. exists fy.
      apply elem_of_app. right. right. right. exact Hy.
Qed.

(** [link_header] writes to the first unit of [a] and the last of [b]. *)
Lemma dll_link_frame s a b s' :
  DLL.link_header s a b = Ok s' →
  DLL.base s' = DLL.base s ∧ DLL.arena s' = DLL.arena s
  ∧ ∀ c, c ≠ a → c ≠ b + DLL.size (DLL.rd (DLL.heap s) b) * 16 - 1 * 16 →
         DLL.rd (DLL.heap s') c = DLL.rd (DLL.heap s) c.
Proof.
  intros H. unfold DLL.link_header, DLL.mm_tail, DLL.sizeof_Header in H. dll_inv.
  cbn [DLL.heap DLL.base DLL.arena DLL.with_heap].
  split; [reflexivity|]. split; [reflexivity|].
  intros c Hca Hcb. rewrite dll_size_set_ptr in *.
  rewrite !dll_rd_insert_ne by (apply not_eq_sym; assumption). reflexivity.
Qed.

(** The two calls of [link_header] at the head of [mm_free] write to first
    and last units only. *)
Lemma dll_insert_frame s l1 x sx l2 p sp s1 s2 :
  dll_wf x s (l1 ++ (x, sx, false) :: l2) →
  dll_node s (l1 ++ (x, sx, false) :: l2) p sp →
  DLL.link_header s x (DLL.ptr (DLL.rd (DLL.heap s) p)) = Ok s1 →
  DLL.link_header s1 p x = Ok s2 →
  ∀ a, ¬ dll_edge s (l1 ++ (x, sx, false) :: l2) a →
       DLL.rd (DLL.heap s2) a = DLL.rd (DLL.heap s) a.
Proof.
  intros Hwf Hp E1 E2 a Ha.
  set (bs := l1 ++ (x, sx, false) :: l2) in *.
  assert (Hx : (x, sx, false) ∈ bs) by apply elem_of_middle.
  destruct (dll_wf_block _ _ _ _ _ _ Hwf Hx) as (_ & _ & _ & _ & _ & Hx4).
  pose proof (dll_wf_links _ _ _ Hwf p sp Hp) as [(X & sX & HX & HpX & HXp) _].
  destruct (dll_wf_node _ _ _ _ _ Hwf HX) as (_ & _ & _ & _ & HX3 & _).
  pose proof (dll_block_chunk s _ _ _ _ Hx) as Cx.
  pose proof (dll_node_chunk _ _ _ _ Hp) as Cp.
  pose proof (dll_node_chunk _ _ _ _ HX) as CX.
  pose proof (dll_edge_head _ _ _ _ _ Cx Ha) as N1.
  pose proof (dll_edge_tail _ _ _ _ _ Cx Ha) as N2.
  pose proof (dll_edge_head _ _ _ _ _ Cp Ha) as N3.
  pose proof (dll_edge_tail _ _ _ _ _ CX Ha) as N4.
  destruct (dll_link_frame _ _ _ _ E1) as (_ & _ & F1).
  destruct (dll_link_frame _ _ _ _ E2) as (_ & _ & F2).
  rewrite HpX, HX3 in F1.
  assert (Hsz : DLL.size (DLL.rd (DLL.heap s1) x) = sx).
  { rewrite (dll_link_size_frame _ _ _ _ E1). exact Hx4. }
  rewrite Hsz in F2.
  rewrite F2 by assumption. apply F1; assumption.
Qed.

(** [coalesce] of two free neighbours writes to first and last units only. *)
Lemma dll_coalesce_frame s l1 a sa b sb l2 s' :
  dll_wf 0 s (l1 ++ (a, sa, true) :: (b, sb, true) :: l2) →
  DLL.coalesce s a b = Ok s' →
  DLL.base s' = DLL.base s
  ∧ ∀ c, ¬ dll_edge s (l1 ++ (a, sa, true) :: (b, sb, true) :: l2) c →
         DLL.rd (DLL.heap s') c = DLL.rd (DLL.heap s) c.
Proof.
  intros Hwf H.
  set (bs := l1 ++ (a, sa, true) :: (b, sb, true) :: l2) in *.
  assert (Ha : dll_node s bs a sa) by (right; apply elem_of_middle).
  assert (Hb : dll_node s bs b sb) by (right; apply elem_of_middle2).
  pose proof Hwf as [Hl Ht Hs Hbusy Hbase Hlinks].
  destruct (Hlinks b sb Hb) as [(N & sN & HN & HbN & HNb) (P & sP & HP & HbP & HPb)].
  destruct (dll_wf_node _ _ _ _ _ Hwf Ha) as (Hva & Hvta & Ha1 & Ha2 & Ha3 & Ha4).
  destruct (dll_wf_node _ _ _ _ _ Hwf Hb) as (Hvb & Hvtb & Hb1 & Hb2 & Hb3 & Hb4).
  destruct (dll_wf_node _ _ _ _ _ Hwf HN) as (HvN & HvtN & _ & _ & HN3 & _).
  destruct (dll_wf_node _ _ _ _ _ Hwf HP) as (HvP & HvtP & _ & _ & HP3 & _).
  assert (Hab : b = a + sa * 16).
  { unfold bs in Ht. apply tiled_app in Ht as (c & _ & Ht2). simpl in Ht2.
    destruct Ht2 as (Hac & _ & Hab & _). unfold DLL.sizeof_Header in *. clear - Hac Hab. lia. }
  assert (Hr : 0 <= sa + sb < 2 ^ 64).
  { pose proof (dll_base_ne_block _ _ _ _ _ _ Hwf
                  (elem_of_middle2 l1 l2 (a, sa, true) (b, sb, true))) as Nb.
    destruct Hb4 as [[Hb4 _]|Hb4]; [congruence|].
    destruct Hl as (? & ? & ? & ?).
    unfold DLL.sizeof_Header in *. pow2. lia. }
  pose proof (dll_node_chunk _ _ _ _ Ha) as Ca.
  pose proof (dll_node_chunk _ _ _ _ Hb) as Cb.
  pose proof (dll_node_chunk _ _ _ _ HN) as CN.
  pose proof (dll_node_chunk _ _ _ _ HP) as CP.
  pose proof (dll_head_ne_tail _ _ _ _ _ _ _ Hwf Ca Cb) as Natb.
  unfold dll_tail, DLL.sizeof_Header in *.
  assert (E : DLL.coalesce s a b = Ok (DLL.with_heap (coalesce_heap (DLL.heap s) a sa b sb) s)).
  { pose proof (dll_coalesce_exec s a sa b sb) as E. cbv zeta in E.
    rewrite HbN, HbP, HN3 in E. apply E; assumption. }
  rewrite E in H. injection H as <-. split; [reflexivity|].
  intros c Hc. cbn [DLL.heap DLL.with_heap]. unfold coalesce_heap.
  rewrite HbN, HbP, HN3.
  pose proof (dll_edge_head _ _ _ _ _ Ca Hc) as N1.
  pose proof (dll_edge_tail _ _ _ _ _ Cb Hc) as N2.
  pose proof (dll_edge_head _ _ _ _ _ CP Hc) as N3.
  pose proof (dll_edge_tail _ _ _ _ _ CN Hc) as N4.
  rewrite !dll_rd_insert_ne by (apply not_eq_sym; assumption). reflexivity.
Qed.

(** The first [if] block at the end of [mm_free] writes to first and last
    units only. *)
Lemma dll_coalesce_upper_frame s l1 x sx l2 s' :
  dll_wf 0 s (l1 ++ (x, sx, true) :: l2) →
  DLL.coalesce_upper s x = Ok s' →
  DLL.base s' = DLL.base s
  ∧ ∀ c, ¬ dll_edge s (l1 ++ (x, sx, true) :: l2) c →
         DLL.rd (DLL.heap s') c = DLL.rd (DLL.heap s) c.
Proof.
  intros Hwf H.
  assert (Hx : dll_node s (l1 ++ (x, sx, true) :: l2) x sx) by apply dll_node_merged_lower.
  destruct (dll_wf_node _ _ _ _ _ Hwf Hx) as (Hvx & _ & _ & _ & Hs & _).
  unfold DLL.coalesce_upper in H. rewrite (dll_load_valid s x) in H by exact Hvx.
  cbn [mbind result_bind] in H. rewrite Hs in H.
  pose proof (dll_wf_tiled _ _ _ Hwf) as Ht.
  pose proof (dll_wf_layout _ _ _ Hwf) as Hl.
  apply tiled_app in Ht as (c & Ht1 & Ht2). simpl in Ht2. destruct Ht2 as (Hxc & Hsx & Ht2).
  unfold mem_heap_hi in H.
  destruct l2 as [|[[n sn] fn] r].
  - simpl in Ht2. rewrite (proj2 (Z.ltb_ge _ _)) in H by (unfold DLL.sizeof_Header in *; lia).
    injection H as <-. auto.
  - assert (Hn : (n, sn, fn) ∈ l1 ++ (x, sx, true) :: (n, sn, fn) :: r) by apply elem_of_middle2.
    destruct (dll_wf_block _ _ _ _ _ _ Hwf Hn) as (Hvn & _ & Hn1 & Hn2 & Hn3 & _).
    simpl in Ht2. destruct Ht2 as (Hnx & _).
    assert (En : x + sx * DLL.sizeof_Header = n) by (unfold DLL.sizeof_Header in *; lia).
    rewrite En in H.
    rewrite (proj2 (Z.ltb_lt _ _)) in H by (unfold DLL.sizeof_Header in *; lia).
    rewrite (dll_load_valid s n) in H by exact Hvn. cbn [mbind result_bind] in H.
    destruct fn.
    + destruct (dll_wf_links _ _ _ Hwf n sn ltac:(right; exact Hn)) as [(m & sm & Hm & Hnm & _) _].
      rewrite Hnm, (dll_node_nonzero _ _ _ _ _ Hwf Hm) in H. cbn [negb] in H.
      inv_bind H. destruct (dll_coalesce_frame _ _ _ _ _ _ _ _ Hwf E) as [Hb Hfr].
      dll_inv. cbn [DLL.base DLL.heap DLL.with_freep]. auto.
    + destruct (dll_wf_busy _ _ _ Hwf n sn Hn ltac:(unfold DLL.sizeof_Header in *; lia)) as [Hb _].
      rewrite Hb in H. cbn [negb Z.eqb NULL] in H. injection H as <-. auto.
Qed.

(** The second [if] block at the end of [mm_free] writes to first and
    last units only. *)
Lemma dll_coalesce_lower_frame s l1 x sx r s' :
  dll_wf 0 s (l1 ++ (x, sx, true) :: r) →
  DLL.coalesce_lower s x = Ok s' →
  DLL.base s' = DLL.base s
  ∧ ∀ c, ¬ dll_edge s (l1 ++ (x, sx, true) :: r) c →
         DLL.rd (DLL.heap s') c = DLL.rd (DLL.heap s) c.
Proof.
  intros Hwf H.
  pose proof (dll_wf_tiled _ _ _ Hwf) as Ht.
  pose proof (dll_wf_layout _ _ _ Hwf) as Hl.
  apply tiled_app in Ht as (c & Ht1 & Ht2). simpl in Ht2. destruct Ht2 as (Hxc & Hsx & Ht2).
  unfold DLL.coalesce_lower, mem_heap_lo in H.
  destruct l1 as [|[[p sp] fp] l _] using rev_ind.
  - simpl in Ht1. rewrite (proj2 (Z.ltb_ge _ _)) in H by (unfold DLL.sizeof_Header; lia).
    injection H as <-. auto.
  - rewrite <- app_assoc in Hwf |- *. simpl in Hwf |- *.
    assert (Hp : (p, sp, fp) ∈ l ++ (p, sp, fp) :: (x, sx, true) :: r) by apply elem_of_middle.
    destruct (dll_wf_block _ _ _ _ _ _ Hwf Hp) as (Hvp & Hvtp & Hp1 & Hp2 & Hp3 & _).
    apply tiled_app in Ht1 as (d & _ & Ht1). simpl in Ht1. destruct Ht1 as (Hpd & _ & Hpc).
    assert (Et : x - 1 * DLL.sizeof_Header = dll_tail p sp)
      by (unfold dll_tail, DLL.sizeof_Header in *; lia).
    rewrite Et in H.
    rewrite (proj2 (Z.ltb_lt _ _)) in H by (unfold dll_tail, DLL.sizeof_Header in *; lia).
    rewrite (dll_load_valid s _) in H by exact Hvtp. cbn [mbind result_bind] in H.
    destruct fp.
    + destruct (dll_wf_links _ _ _ Hwf p sp ltac:(right; exact Hp)) as [_ (q & sq & Hq & Hpq & Hqp)].
      rewrite Hpq, (dll_node_nonzero _ _ _ _ _ Hwf Hq) in H. cbn [negb] in H.
      destruct (dll_wf_node _ _ _ _ _ Hwf Hq) as (Hvq & _).
      rewrite (dll_load_valid s q) in H by exact Hvq. cbn [mbind result_bind] in H.
      rewrite Hqp in H.
      inv_bind H. destruct (dll_coalesce_frame _ _ _ _ _ _ _ _ Hwf E) as [Hb Hfr].
      dll_inv. cbn [DLL.base DLL.heap DLL.with_freep]. auto.
    + destruct (dll_wf_busy _ _ _ Hwf p sp Hp ltac:(unfold DLL.sizeof_Header in *; lia)) as [_ Hb].
      rewrite Hb in H. cbn [negb Z.eqb NULL] in H. injection H as <-. auto.
Qed.

(** [mm_free] on a block in use of a well-formed heap, with what it
    leaves alone. *)
Lemma dll_free_frame s l1 x sx l2 sf :
  dll_wf x s (l1 ++ (x, sx, false) :: l2) →
  dll_node s (l1 ++ (x, sx, false) :: l2) (DLL.freep s) sf →
  ∃ s', DLL.mm_free s (DLL.mm_payload x) = Ok s'
        ∧ dll_wf 0 s' (free_block l1 x sx l2)
        ∧ (∃ sf', dll_node s' (free_block l1 x sx l2) (DLL.freep s') sf')
        ∧ DLL.arena s' = DLL.arena s ∧ DLL.base s' = DLL.base s
        ∧ ∀ a, ¬ dll_edge s (l1 ++ (x, sx, false) :: l2) a →
               DLL.rd (DLL.heap s') a = DLL.rd (DLL.heap s) a.
Proof.
  intros Hwf Hf.
  destruct (dll_free_wf s l1 x sx l2 sf Hwf Hf) as (s' & E & Hwf' & Hn' & Ha').
  exists s'. split; [exact E|]. split; [exact Hwf'|]. split; [exact Hn'|].
  split; [exact Ha'|].
  assert (Hx : (x, sx, false) ∈ l1 ++ (x, sx, false) :: l2) by apply elem_of_middle.
  destruct (dll_wf_block _ _ _ _ _ _ Hwf Hx) as (Hvx & _ & Hx1 & Hx2 & Hx3 & Hx4).
  destruct (dll_wf_node _ _ _ _ _ Hwf Hf) as (Hvf & _).
  pose proof (dll_wf_layout _ _ _ Hwf) as Hl.
  unfold DLL.mm_free, DLL.mm_payload, DLL.mm_block in E.
  rewrite (proj2 (Z.eqb_neq _ _)) in E by (unfold NULL, DLL.sizeof_Header in *; lia).
  cbv zeta in E.
  replace (x + 1 * DLL.sizeof_Header - 1 * DLL.sizeof_Header) with x in E by lia.
  rewrite (dll_load_valid s x) in E by exact Hvx. cbn [mbind result_bind] in E.
  rewrite Hx4 in E.
  assert (Hb : DLL.mm_bytes sx = sx * 16).
  { unfold DLL.mm_bytes, DLL.sizeof_Header in *. apply wrap_small. pow2. lia. }
  rewrite Hb in E. unfold mem_heapsize in E.
  rewrite (proj2 (Z.ltb_lt _ _)) in E by lia.
  rewrite (proj2 (Z.leb_le _ _)) in E by lia. cbn [andb negb] in E.
  rewrite (dll_load_valid s _) in E by exact Hvf. cbn [mbind result_bind] in E.
  destruct (dll_insert _ _ _ _ _ _ _ Hwf Hf) as (s1 & s2 & E1 & E2 & Hwf2 & Hf2 & Ha2 & Hb2).
  pose proof (dll_insert_frame _ _ _ _ _ _ _ _ _ Hwf Hf E1 E2) as F2.
  rewrite E1 in E. cbn [mbind result_bind] in E. rewrite E2 in E. cbn [mbind result_bind] in E.
  assert (Hn2 : ∃ sf2, dll_node s2 (l1 ++ (x, sx, true) :: l2) (DLL.freep s2) sf2).
  { exists sf. rewrite Hf2. apply dll_node_mono.
    unfold dll_node in *. rewrite Hb2. exact Hf. }
  destruct (dll_coalesce_upper_spec _ _ _ _ _ Hwf2 Hn2) as (s3 & E3 & Hwf3 & Hn3 & Ha3).
  destruct (dll_coalesce_upper_frame _ _ _ _ _ _ Hwf2 E3) as [Hb3 F3].
  rewrite E3 in E. cbn [mbind result_bind] in E.
  pose proof (dll_wf_tiled _ _ _ Hwf2) as Ht2.
  apply tiled_app in Ht2 as (c & _ & Ht2). simpl in Ht2. destruct Ht2 as (Hxc & _ & Ht2).
  assert (Hm : ∃ sx' r, merge_upper x sx l2 = (x, sx', true) :: r
                        ∧ ∀ a, dll_edge s3 (l1 ++ (x, sx', true) :: r) a →
                               dll_edge s2 (l1 ++ (x, sx, true) :: l2) a).
  { destruct l2 as [|[[n sn] [|]] r]; simpl.
    - exists sx, []. split; [reflexivity|]. intros a. apply dll_edge_flag. exact Hb3.
    - exists (sx + sn), r. split; [reflexivity|]. intros a.
      apply dll_edge_merged; [exact Hb3|]. simpl in Ht2. destruct Ht2 as (-> & _).
      unfold DLL.sizeof_Header. lia.
    - exists sx, ((n, sn, false) :: r). split; [reflexivity|]. intros a.
      apply dll_edge_flag. exact Hb3. }
  destruct Hm as (sx' & r & Hm & Hedge). rewrite Hm in Hwf3, Hn3.
  destruct (dll_coalesce_lower_frame _ _ _ _ _ _ Hwf3 E) as [Hb4 F4].
  split; [congruence|].
  intros a Ha.
  assert (Ha2' : ¬ dll_edge s2 (l1 ++ (x, sx, true) :: l2) a).
  { intros H. apply Ha. revert H. apply dll_edge_flag. exact Hb2. }
  rewrite F4 by (intros H; apply Ha2'; apply Hedge; exact H).
  rewrite F3 by exact Ha2'. apply F2. exact Ha.
Qed.

(** X19.  [mm_free] of [mm_heap_dll.c] for a block in use of a
    well-formed heap writes to first and last units of blocks and of the
    sentinel only: every other unit holds what it held, so the payload of
    every block, that of the freed block included, is as it was. *)
Theorem X19_dll_free_writes_to_first_and_last_units_only :
  ∀ (s : DLL.state) (l1 : list Block) (x sx : Z) (l2 : list Block) (sf : Z),
    dll_wf 0 s (l1 ++ (x, sx, false) :: l2) →
    dll_node s (l1 ++ (x, sx, false) :: l2) (DLL.freep s) sf →
    ∃ s', DLL.mm_free s (DLL.mm_payload x) = Ok s'
          ∧ DLL.arena s' = DLL.arena s
          ∧ (∀ a, ¬ dll_edge s (l1 ++ (x, sx, false) :: l2) a →
                  DLL.rd (DLL.heap s') a = DLL.rd (DLL.heap s) a)
          ∧ (∀ a, dll_in_payload (l1 ++ (x, sx, false) :: l2) a →
                  DLL.rd (DLL.heap s') a = DLL.rd (DLL.heap s) a).
Proof.
  intros s l1 x sx l2 sf Hwf Hf.
  destruct (dll_free_frame s l1 x sx l2 sf (dll_wf_exempt x _ _ Hwf) Hf)
    as (s' & E & _ & _ & Ha & _ & Hfr).
  exists s'. split; [exact E|]. split; [exact Ha|]. split; [exact Hfr|].
  intros a Hpa. apply Hfr.
  destruct (dll_payload_apart _ _ _ _ Hwf Hpa) as [Hnn _]. exact Hnn.
Qed.

Lemma X19_dll_free_writes_to_first_and_last_units_only_witness :
  ∃ s', DLL.mm_free dll_gap (DLL.mm_payload 69488) = Ok s'
        ∧ DLL.arena s' = DLL.arena dll_gap
        ∧ (∀ a, ¬ dll_edge dll_gap
                    ([(65536, 247, true)] ++ (69488, 3, false)
                       :: [(69536, 3, true); (69584, 3, false)]) a →
                DLL.rd (DLL.heap s') a = DLL.rd (DLL.heap dll_gap) a)
        ∧ (∀ a, dll_in_payload
                  ([(65536, 247, true)] ++ (69488, 3, false)
                     :: [(69536, 3, true); (69584, 3, false)]) a →
                DLL.rd (DLL.heap s') a = DLL.rd (DLL.heap dll_gap) a).
Proof.
  apply (X19_dll_free_writes_to_first_and_last_units_only dll_gap [(65536, 247, true)]
           69488 3 [(69536, 3, true); (69584, 3, false)] 2).
  - exact dll_gap_wf.
  - left. split; reflexivity.
Defined.

(** X20.  [mm_malloc] of [mm_heap_dll.c] on a well-formed heap, when the
    walk comes to a block of the arena that fits: every unit between the
    first and the last unit of a block in use holds what it held, and the
    block handed out lies apart from every block that was in use. *)
Theorem X20_dll_malloc_leaves_blocks_in_use_alone :
  ∀ (fuel n : nat) (s : DLL.state) (l1 l2 : list Block) (q sq q' nbytes sf : Z),
    dll_wf 0 s (l1 ++ (q, sq, true) :: l2) →
    dll_node s (l1 ++ (q, sq, true) :: l2) (DLL.freep s) sf →
    DLL.first_fit s (DLL.mm_units nbytes) n (DLL.freep s)
      (DLL.ptr (DLL.rd (DLL.heap s) (DLL.freep s))) q' q →
    (n < fuel)%nat →
    ∃ ap s',
      DLL.mm_malloc fuel s nbytes = Ok (ap, s') ∧ ap ≠ NULL
      ∧ (∀ a, dll_in_payload (l1 ++ (q, sq, true) :: l2) a →
              DLL.rd (DLL.heap s') a = DLL.rd (DLL.heap s) a)
      ∧ (∀ y sy, (y, sy, false) ∈ l1 ++ (q, sq, true) :: l2 →
                 y + sy * 16 <= DLL.mm_block ap
                 ∨ DLL.mm_block ap + DLL.mm_units nbytes * 16 <= y).
Proof.
  intros fuel n s l1 l2 q sq q' nbytes sf Hwf Hfp Hff Hfuel.
  destruct (dll_malloc_first_fit fuel n s l1 l2 q sq q' nbytes sf Hwf Hfp Hff Hfuel)
    as (s' & bs' & E & _ & Hsz & _ & _ & _ & _ & _ & Hfr).
  pose proof (dll_mm_units_range nbytes) as [Hu1 _].
  pose proof (dll_wf_tiled _ _ _ Hwf) as Ht. unfold DLL.sizeof_Header in Ht.
  destruct (tiled_bounds 16 2 _ _ _ ltac:(lia) ltac:(lia) Ht) as (_ & _ & Hbd).
  destruct (Hbd _ _ _ (elem_of_middle l1 l2 (q, sq, true))) as (Hq1 & _).
  destruct (dll_wf_layout _ _ _ Hwf) as (Hl1 & Hl2 & _).
  eexists _, s'. split; [exact E|]. split.
  { unfold DLL.mm_payload, DLL.sizeof_Header, NULL in *. lia. }
  split; [exact Hfr|].
  intros y sy Hy. unfold DLL.mm_block, DLL.mm_payload, DLL.sizeof_Header.
  destruct (tiled_disjoint 16 2 _ _ _ ltac:(lia) ltac:(lia) Ht _ _ _ _ _ _ Hy
              (elem_of_middle l1 l2 (q, sq, true))) as [(_ & _ & ?)|[D|D]];
    [discriminate | left; lia | right; lia].
Qed.

Lemma X20_dll_malloc_leaves_blocks_in_use_alone_witness :
  ∃ ap s',
    DLL.mm_malloc 8 dll_gap 1000 = Ok (ap, s') ∧ ap ≠ NULL
    ∧ (∀ a, dll_in_payload
              ([] ++ (65536, 247, true)
                 :: [(69488, 3, false); (69536, 3, true); (69584, 3, false)]) a →
            DLL.rd (DLL.heap s') a = DLL.rd (DLL.heap dll_gap) a)
    ∧ (∀ y sy, (y, sy, false)
               ∈ [] ++ (65536, 247, true)
                    :: [(69488, 3, false); (69536, 3, true); (69584, 3, false)] →
               y + sy * 16 <= DLL.mm_block ap
               ∨ DLL.mm_block ap + DLL.mm_units 1000 * 16 <= y).
Proof.
  apply (X20_dll_malloc_leaves_blocks_in_use_alone 8 1 dll_gap
           [] [(69488, 3, false); (69536, 3, true); (69584, 3, false)]
           65536 247 69536 1000 2 dll_gap_wf).
  - left. split; reflexivity.
  - eapply DLL.first_fit_next; [vm_compute; reflexivity | vm_compute; reflexivity
                                | vm_compute; discriminate |].
    eapply DLL.first_fit_here; vm_compute; reflexivity.
  - lia.
Defined.

(** ** Moving a block with [mm_realloc], [mm_heap_dll.c] *)

Lemma dll_Header_bytes_length h : length (DLL.Header_bytes h) = 16%nat.
Proof. unfold DLL.Header_bytes. rewrite !length_app, !le_bytes_length. reflexivity. Qed.

Lemma dll_Header_of_bytes_bytes h :
  DLL.Header_of_bytes (DLL.Header_bytes h)
  = DLL.mkHeader (le_value (le_bytes 8 (DLL.ptr h))) (le_value (le_bytes 8 (DLL.size h))).
Proof. reflexivity. Qed.

Lemma dll_Header_bytes_roundtrip h :
  DLL.Header_bytes (DLL.Header_of_bytes (DLL.Header_bytes h)) = DLL.Header_bytes h.
Proof.
  rewrite dll_Header_of_bytes_bytes. unfold DLL.Header_bytes.
  cbn [DLL.ptr DLL.size]. rewrite !le_bytes_value. reflexivity.
Qed.

Lemma dll_valid_ptr_with_heap s h p :
  DLL.valid_ptr (DLL.with_heap h s) p = DLL.valid_ptr s p.
Proof. reflexivity. Qed.

(** [memcpy] of [n] bytes, which lie in [K] units, between two ranges
    that do not overlap: the units that [n] covers whole are copied, and
    nothing outside the [K] units of the destination is written. *)
Lemma dll_memcpy_units (K : nat) :
  ∀ (m : nat) (s : DLL.state) (dst src n : Z),
    (K <= m)%nat →
    Z.of_nat K * 16 - 16 < n <= Z.of_nat K * 16 →
    (∀ i, 0 <= i < Z.of_nat K →
          DLL.valid_ptr s (src + i * 16) = true ∧ DLL.valid_ptr s (dst + i * 16) = true) →
    (dst + Z.of_nat K * 16 <= src ∨ src + Z.of_nat K * 16 <= dst) →
    ∃ s', DLL.memcpy m s dst src n = Ok s'
          ∧ DLL.arena s' = DLL.arena s ∧ DLL.base s' = DLL.base s
          ∧ DLL.freep s' = DLL.freep s
          ∧ (∀ i, 0 <= i → (i + 1) * 16 <= n →
                  DLL.rd (DLL.heap s') (dst + i * 16)
                  = DLL.Header_of_bytes (DLL.Header_bytes (DLL.rd (DLL.heap s) (src + i * 16))))
          ∧ (∀ a, a < dst ∨ dst + Z.of_nat K * 16 <= a →
                  DLL.rd (DLL.heap s') a = DLL.rd (DLL.heap s) a).
Proof.
  induction K as [|K IH]; intros m s dst src n Hm Hn Hv Hd.
  - exists s. split.
    { destruct m; [reflexivity|]. cbn [DLL.memcpy].
      rewrite (proj2 (Z.leb_le n 0)) by lia. reflexivity. }
    repeat split; try reflexivity. intros i Hi Hi'. lia.
  - destruct m as [|m]; [lia|].
    cbn [DLL.memcpy].
    rewrite (proj2 (Z.leb_gt n 0)) by lia.
    destruct (Hv 0 ltac:(lia)) as [Hvs Hvd].
    replace (src + 0 * 16) with src in Hvs by lia.
    replace (dst + 0 * 16) with dst in Hvd by lia.
    rewrite (dll_load_valid _ _ Hvs), (dll_load_valid _ _ Hvd). cbn [mbind result_bind].
    rewrite (dll_upd_valid _ _ _ Hvd). cbn [mbind result_bind].
    set (W := DLL.Header_of_bytes _).
    set (s1 := DLL.with_heap _ s).
    unfold DLL.sizeof_Header.
    destruct (IH m s1 (dst + 16) (src + 16) (n - 16) ltac:(lia) ltac:(lia))
      as (s' & E & Ha & Hb & Hf & Hcp & Hfr).
    { intros i Hi. unfold s1. rewrite !dll_valid_ptr_with_heap.
      destruct (Hv (i + 1) ltac:(lia)) as [A B].
      replace (src + 16 + i * 16) with (src + (i + 1) * 16) by lia.
      replace (dst + 16 + i * 16) with (dst + (i + 1) * 16) by lia. auto. }
    { lia. }
    exists s'. split; [exact E|]. split; [rewrite Ha; reflexivity|].
    split; [rewrite Hb; reflexivity|]. split; [rewrite Hf; reflexivity|]. split.
    + intros i Hi Hin. destruct (Z.eq_dec i 0) as [->|Hi0].
      * replace (dst + 0 * 16) with dst by lia. replace (src + 0 * 16) with src by lia.
        rewrite Hfr by lia. unfold s1. cbn [DLL.heap DLL.with_heap].
        rewrite dll_rd_insert_eq by reflexivity. unfold W, DLL.sizeof_Header.
        rewrite Z.min_r by lia.
        rewrite (take_ge (DLL.Header_bytes _)) by (rewrite dll_Header_bytes_length; lia).
        rewrite (drop_ge (DLL.Header_bytes _)) by (rewrite dll_Header_bytes_length; lia).
        rewrite app_nil_r. reflexivity.
      * replace (dst + i * 16) with (dst + 16 + (i - 1) * 16) by lia.
        rewrite Hcp by lia. unfold s1. cbn [DLL.heap DLL.with_heap].
        rewrite dll_rd_insert_ne by lia.
        replace (src + 16 + (i - 1) * 16) with (src + i * 16) by lia. reflexivity.
    + intros a Ha'. rewrite Hfr by lia. unfold s1. cbn [DLL.heap DLL.with_heap].
      rewrite dll_rd_insert_ne by lia. reflexivity.
Qed.

(** Well-formedness speaks of the first and last units of the blocks
    only. *)
Lemma dll_wf_frame ex s s' bs :
  dll_wf ex s bs → DLL.arena s' = DLL.arena s → DLL.base s' = DLL.base s →
  (∀ a, dll_edge s bs a → DLL.rd (DLL.heap s') a = DLL.rd (DLL.heap s) a) →
  dll_wf ex s' bs.
Proof.
  intros Hwf Ha Hb Hfr.
  pose proof Hwf as [Hl Ht Hs Hbusy Hbase Hlinks].
  assert (Hhead : ∀ c sc, dll_chunk s bs c sc →
            DLL.rd (DLL.heap s') c = DLL.rd (DLL.heap s) c).
  { intros c sc Hc. apply Hfr. exists c, sc. auto. }
  assert (Htail : ∀ c sc, dll_chunk s bs c sc →
            DLL.rd (DLL.heap s') (dll_tail c sc) = DLL.rd (DLL.heap s) (dll_tail c sc)).
  { intros c sc Hc. apply Hfr. exists c, sc. auto. }
  assert (Hnode : ∀ y sy, dll_node s' bs y sy ↔ dll_node s bs y sy).
  { intros y sy. unfold dll_node. rewrite Hb. reflexivity. }
  constructor.
  - rewrite Ha, Hb. exact Hl.
  - rewrite Ha. exact Ht.
  - intros x sx fx Hin. rewrite (Hhead x sx (dll_block_chunk s _ _ _ _ Hin)). eauto.
  - intros x sx Hin Hne. pose proof (dll_block_chunk s _ _ _ _ Hin) as Cx.
    rewrite (Hhead x sx Cx), (Htail x sx Cx). auto.
  - rewrite Hb, (Hhead (DLL.base s) 2); [exact Hbase | left; auto].
  - intros x sx Hx. apply Hnode in Hx.
    pose proof (dll_node_chunk _ _ _ _ Hx) as Cx.
    destruct (Hlinks x sx Hx) as [(n & sn & Hn & Hxn & Hnx) (p & sp & Hp & Hxp & Hpx)].
    pose proof (dll_node_chunk _ _ _ _ Hn) as Cn.
    pose proof (dll_node_chunk _ _ _ _ Hp) as Cp.
    split.
    + exists n, sn. split; [apply Hnode; exact Hn|].
      rewrite (Hhead x sx Cx), (Htail n sn Cn). auto.
    + exists p, sp. split; [apply Hnode; exact Hp|].
      rewrite (Htail x sx Cx), (Hhead p sp Cp). auto.
Qed.

(** Every unit of a block of a well-formed heap may be dereferenced. *)
Lemma dll_unit_valid ex s bs y sy fy j :
  dll_wf ex s bs → (y, sy, fy) ∈ bs → 0 <= j < sy →
  DLL.valid_ptr s (y + j * 16) = true.
Proof.
  intros Hwf Hin Hj.
  pose proof (dll_wf_tiled _ _ _ Hwf) as Ht. unfold DLL.sizeof_Header in Ht.
  destruct (dll_wf_layout _ _ _ Hwf) as (Hl1 & Hl2 & Hl3 & Hl4).
  destruct (tiled_bounds 16 2 _ _ _ ltac:(lia) ltac:(lia) Ht) as (_ & _ & Hbd).
  destruct (Hbd _ _ _ Hin) as (H1 & H2 & H3 & H4).
  apply dll_valid_arena; unfold DLL.sizeof_Header; [lia | lia |].
  replace (y + j * 16 - mem_start_brk (DLL.arena s))
    with (y - mem_start_brk (DLL.arena s) + j * 16) by lia.
  rewrite Z.mod_add by lia. exact H4.
Qed.

(** A block that is too small for [newsize] bytes has a payload of fewer
    bytes. *)
Lemma dll_grow_bytes sx newsize :
  0 <= newsize < 2 ^ 64 → 2 <= sx → sx < DLL.mm_units newsize →
  (sx - 2) * 16 < newsize.
Proof.
  intros Hn Hsx. unfold DLL.mm_units, DLL.sizeof_Header. rewrite pow_2_64 in Hn.
  destruct (Z.lt_ge_cases (newsize + 16) (2 ^ 64)) as [Hlt|Hge]; rewrite pow_2_64 in *.
  - rewrite (wrap_small (newsize + 16)) by (rewrite pow_2_64; lia).
    rewrite (wrap_small (newsize + 16 - 1)) by (rewrite pow_2_64; lia).
    pose proof (Z.div_mod (newsize + 16 - 1) 16 ltac:(lia)) as Hd.
    pose proof (Z.mod_pos_bound (newsize + 16 - 1) 16 ltac:(lia)) as Hm.
    rewrite wrap_small by (rewrite pow_2_64; lia). lia.
  - assert (E : wrap (newsize + 16) = newsize + 16 - 18446744073709551616).
    { unfold wrap. rewrite pow_2_64. symmetry.
      apply (Z.mod_unique (newsize + 16) _ 1); lia. }
    rewrite E. destruct (Z.eq_dec newsize 18446744073709551600) as [->|Hne].
    + intros H.
      assert (Ev : wrap (wrap (18446744073709551600 + 16 - 18446744073709551616 - 1) / 16 + 2)
                   = 1152921504606846977) by reflexivity.
      rewrite Ev in H. lia.
    + rewrite (wrap_small (newsize + 16 - 18446744073709551616 - 1)) by (rewrite pow_2_64; lia).
      rewrite (Z.div_small (newsize + 16 - 18446744073709551616 - 1) 16) by lia.
      rewrite wrap_small by (rewrite pow_2_64; lia). lia.
Qed.

(** [mm_realloc] of a block in use that is too small for [newsize] bytes,
    when the walk of [mm_malloc] comes to a block that fits. *)
Lemma dll_realloc_moves (fuel n : nat) (s : DLL.state) (l1 l2 : list Block)
    (q sq q' x sx newsize sf : Z) :
  dll_wf 0 s (l1 ++ (q, sq, true) :: l2) →
  dll_node s (l1 ++ (q, sq, true) :: l2) (DLL.freep s) sf →
  DLL.ptr (DLL.rd (DLL.heap s) (DLL.freep s)) ≠ DLL.freep s →
  DLL.first_fit s (DLL.mm_units newsize) n (DLL.freep s)
    (DLL.ptr (DLL.rd (DLL.heap s) (DLL.freep s))) q' q →
  (n < fuel)%nat →
  (x, sx, false) ∈ l1 ++ (q, sq, true) :: l2 →
  0 <= newsize < 2 ^ 64 → sx < DLL.mm_units newsize →
  ∃ s' bs',
    DLL.mm_realloc fuel s (DLL.mm_payload x) newsize
    = Ok (DLL.mm_payload (q + (sq - DLL.mm_units newsize) * DLL.sizeof_Header), s')
    ∧ dll_wf 0 s' bs' ∧ (∃ sf', dll_node s' bs' (DLL.freep s') sf')
    ∧ (q + (sq - DLL.mm_units newsize) * DLL.sizeof_Header, DLL.mm_units newsize, false) ∈ bs'
    ∧ (∀ sy, (x, sy, false) ∉ bs')
    ∧ (∀ y sy, (y, sy, false) ∈ l1 ++ (q, sq, true) :: l2 → y ≠ x → (y, sy, false) ∈ bs')
    ∧ (∀ i, 0 <= i < sx - 2 →
            DLL.Header_bytes
              (DLL.rd (DLL.heap s')
                 (DLL.mm_payload (q + (sq - DLL.mm_units newsize) * DLL.sizeof_Header) + i * 16))
            = DLL.Header_bytes (DLL.rd (DLL.heap s) (DLL.mm_payload x + i * 16)))
    ∧ (∀ a, dll_in_payload (l1 ++ (q, sq, true) :: l2) a →
            DLL.rd (DLL.heap s') a = DLL.rd (DLL.heap s) a).
Proof.
  intros Hwf Hfp Hself Hff Hfuel Hx Hns Hsx.
  pose proof (dll_first_fit_prev_differs _ _ _ _ _ _ _ Hff (not_eq_sym Hself)) as Hne.
  destruct (dll_malloc_first_fit fuel n s l1 l2 q sq q' newsize sf Hwf Hfp Hff Hfuel)
    as (s1 & bs1 & Em & Hf1 & Hsz & Ha1 & Hb1 & Ebs1 & Hwf1 & Hn1 & Hfr1).
  destruct (Hn1 Hne) as (sf1 & Hnode1). rewrite <- Hf1 in Hnode1.
  pose proof (dll_mm_units_range newsize) as [Hu1 _].
  set (u := DLL.mm_units newsize) in *.
  set (bs := l1 ++ (q, sq, true) :: l2) in *.
  unfold DLL.sizeof_Header in *.
  set (nb := q + (sq - u) * 16) in *.
  assert (Hq : (q, sq, true) ∈ bs) by apply elem_of_middle.
  pose proof (dll_wf_tiled _ _ _ Hwf) as Ht. unfold DLL.sizeof_Header in Ht.
  destruct (tiled_bounds 16 2 _ _ _ ltac:(lia) ltac:(lia) Ht) as (_ & _ & Hbd).
  destruct (Hbd _ _ _ Hq) as (Hq1 & Hq2 & Hq3 & _).
  destruct (Hbd _ _ _ Hx) as (Hx_lo & Hx_hi & Hsx2 & _).
  destruct (dll_wf_layout _ _ _ Hwf) as (Hl1 & Hl2 & Hl3 & Hl4).
  unfold DLL.sizeof_Header in Hl2. rewrite pow_2_64 in Hl4.
  assert (Hxq : x + sx * 16 <= q ∨ q + sq * 16 <= x).
  { destruct (tiled_disjoint 16 2 _ _ _ ltac:(lia) ltac:(lia) Ht _ _ _ _ _ _ Hx Hq)
      as [(_ & _ & ?)|D]; [discriminate | exact D]. }
  assert (Hnb : (nb, u, false) ∈ bs1).
  { rewrite Ebs1. unfold nb. destruct (Z.eqb_spec sq u) as [He|_].
    - rewrite He. replace (q + (u - u) * 16) with q by lia. apply elem_of_middle.
    - apply elem_of_middle2. }
  assert (Hbusy : ∀ y sy, (y, sy, false) ∈ bs → (y, sy, false) ∈ bs1).
  { intros y sy Hy. unfold bs in Hy. rewrite Ebs1.
    apply elem_of_app in Hy as [Hy|Hy]; [|apply elem_of_cons in Hy as [Hy|Hy]].
    - destruct (sq =? u); apply elem_of_app; left; exact Hy.
    - discriminate Hy.
    - destruct (sq =? u); apply elem_of_app; right; repeat right; exact Hy. }
  pose proof (Hbusy _ _ Hx) as Hx1.
  destruct (dll_wf_block _ _ _ _ _ _ Hwf Hx) as (Hvx & _ & _ & _ & _ & Hszx).
  destruct (dll_wf_block _ _ _ _ _ _ Hwf1 Hx1) as (Hvx1 & _ & _ & _ & _ & Hszx1).
  pose proof (dll_wf_tiled _ _ _ Hwf1) as Ht1. unfold DLL.sizeof_Header in Ht1.
  (* the run of [mm_realloc] up to [memcpy] *)
  unfold DLL.mm_realloc.
  assert (Hpn : (DLL.mm_payload x =? NULL) = false).
  { apply Z.eqb_neq. unfold DLL.mm_payload, DLL.sizeof_Header, NULL. lia. }
  rewrite Hpn. cbv zeta.
  assert (Ebp : DLL.mm_block (DLL.mm_payload x) = x)
    by (unfold DLL.mm_block, DLL.mm_payload; lia).
  rewrite Ebp, (dll_load_valid _ _ Hvx). cbn [mbind result_bind]. rewrite Hszx.
  fold u. rewrite (proj2 (Z.leb_gt u sx) Hsx), andb_false_r.
  rewrite Em. cbn [mbind result_bind].
  assert (Hnz : (DLL.mm_payload nb =? NULL) = false).
  { apply Z.eqb_neq. unfold DLL.mm_payload, DLL.sizeof_Header, NULL, nb. lia. }
  rewrite Hnz.
  rewrite (dll_load_valid _ _ Hvx1). cbn [mbind result_bind]. rewrite Hszx1.
  assert (Eold : DLL.mm_bytes (wrap (sx - 1)) = (sx - 1) * 16).
  { unfold DLL.mm_bytes, DLL.sizeof_Header.
    rewrite (wrap_small (sx - 1)) by (rewrite pow_2_64; lia).
    apply wrap_small. rewrite pow_2_64. lia. }
  rewrite Eold.
  pose proof (dll_grow_bytes sx newsize Hns Hsx2 Hsx) as Hgrow.
  set (nn := if (sx - 1) * 16 <? newsize then (sx - 1) * 16 else newsize).
  assert (Hnn : (sx - 2) * 16 < nn <= (sx - 1) * 16).
  { unfold nn. destruct (Z.ltb_spec ((sx - 1) * 16) newsize); lia. }
  clearbody nn.
  remember (Z.to_nat (sx - 1)) as K eqn:EK.
  assert (EKz : Z.of_nat K = sx - 1) by lia.
  assert (Hm : (K <= Z.to_nat (nn / DLL.sizeof_Header) + 1)%nat).
  { unfold DLL.sizeof_Header.
    assert (sx - 2 <= nn / 16) by (apply Z.div_le_lower_bound; lia). lia. }
  destruct (dll_memcpy_units K _ s1 (DLL.mm_payload nb) (DLL.mm_payload x) nn Hm)
    as (s2 & Ec & Ha2 & Hb2 & Hf2 & Hcp & Hfr2).
  { lia. }
  { intros i Hi. unfold DLL.mm_payload, DLL.sizeof_Header. split.
    - replace (x + 1 * 16 + i * 16) with (x + (i + 1) * 16) by lia.
      apply (dll_unit_valid 0 s1 bs1 x sx false); [exact Hwf1 | exact Hx1 | lia].
    - replace (nb + 1 * 16 + i * 16) with (nb + (i + 1) * 16) by lia.
      apply (dll_unit_valid 0 s1 bs1 nb u false); [exact Hwf1 | exact Hnb | lia]. }
  { unfold DLL.mm_payload, DLL.sizeof_Header, nb. lia. }
  rewrite Ec. cbn [mbind result_bind].
  (* the heap after [memcpy] *)
  assert (Hin2 : ∀ a, nb < a < nb + (u - 1) * 16 → dll_in_payload bs1 a).
  { intros a Ha. exists nb, u. split; [exact Hnb|]. unfold dll_tail, DLL.sizeof_Header. lia. }
  assert (Hwf2 : dll_wf 0 s2 bs1).
  { apply (dll_wf_frame 0 s1); [exact Hwf1 | exact Ha2 | exact Hb2|].
    intros a Hedge. apply Hfr2. unfold DLL.mm_payload, DLL.sizeof_Header.
    destruct (Z.lt_ge_cases a (nb + 1 * 16)) as [Hlt|Hge]; [left; exact Hlt|].
    right. destruct (Z.lt_ge_cases a (nb + 1 * 16 + Z.of_nat K * 16)) as [Hlt'|Hge']; [|exact Hge'].
    exfalso. destruct (dll_payload_apart 0 s1 bs1 a Hwf1 (Hin2 a ltac:(lia))) as [Hnn' _].
    exact (Hnn' Hedge). }
  assert (Hnode2 : dll_node s2 bs1 (DLL.freep s2) sf1).
  { rewrite Hf2. apply (dll_node_same_base s1); [exact Hb2 | exact Hnode1]. }
  pose proof Hx1 as Hsplit. apply list_elem_of_split in Hsplit as (k1 & k2 & Ek).
  pose proof Hwf2 as Hwf2'. rewrite Ek in Hwf2'. apply (dll_wf_exempt x) in Hwf2'.
  pose proof Hnode2 as Hnode2'. rewrite Ek in Hnode2'.
  destruct (dll_free_frame s2 k1 x sx k2 sf1 Hwf2' Hnode2')
    as (s3 & Ef & Hwf3 & Hn3 & Ha3 & Hb3 & Hfr3).
  rewrite <- Ek in Hfr3.
  rewrite Ef. cbn [mbind result_bind].
  assert (Huniq : ∀ y sy fy, (y, sy, fy) ∈ bs1 → y ≠ x →
                             (y, sy, fy) ∈ k1 ∨ (y, sy, fy) ∈ k2).
  { intros y sy fy Hy Hney. rewrite Ek in Hy.
    apply elem_of_app in Hy as [Hy|Hy]; [left; exact Hy|].
    apply elem_of_cons in Hy as [Hy|Hy]; [injection Hy as -> _ _; contradiction | right; exact Hy]. }
  assert (Hpay2 : ∀ a, dll_in_payload bs1 a → DLL.rd (DLL.heap s3) a = DLL.rd (DLL.heap s2) a).
  { intros a Ha. apply Hfr3.
    assert (Hwf2x : dll_wf x s2 bs1) by (apply dll_wf_exempt; exact Hwf2).
    destruct (dll_payload_apart x s2 bs1 a Hwf2x Ha) as (Hnn' & _). exact Hnn'. }
  exists s3, (free_block k1 x sx k2).
  split; [reflexivity|]. split; [exact Hwf3|]. split; [exact Hn3|].
  split; [|split; [|split; [|split]]].
  - apply free_block_busy. apply Huniq; [exact Hnb | unfold nb; lia].
  - intros sy Hsy. apply free_block_busy_inv in Hsy.
    apply (tiled_middle_unique 16 (mem_start_brk (DLL.arena s1)) k1 x sx false k2
             (mem_brk (DLL.arena s1)) sy false ltac:(lia)); [|exact Hsy].
    rewrite <- Ek.
    clear - Ht1. revert Ht1. generalize (mem_start_brk (DLL.arena s1)).
    induction bs1 as [|[[y sy] fy] r IH]; intros a0; simpl; [auto|].
    intros (E & Hsy & Hr). split; [exact E|]. split; [lia|]. apply IH. exact Hr.
  - intros y sy Hy Hney. apply free_block_busy. apply Huniq; [apply Hbusy; exact Hy | exact Hney].
  - intros i Hi.
    rewrite Hpay2 by (apply Hin2; unfold DLL.mm_payload, DLL.sizeof_Header; lia).
    rewrite Hcp by lia. rewrite dll_Header_bytes_roundtrip.
    rewrite Hfr1; [reflexivity|].
    exists x, sx. split; [exact Hx|].
    unfold DLL.mm_payload, dll_tail, DLL.sizeof_Header. lia.
  - intros a Ha.
    assert (Ha1' : dll_in_payload bs1 a).
    { destruct Ha as (y & sy & Hy & Hya). exists y, sy. split; [apply Hbusy; exact Hy | exact Hya]. }
    rewrite (Hpay2 a Ha1'), <- (Hfr1 a Ha). apply Hfr2.
    destruct (dll_payload_apart 0 s bs a Hwf Ha) as [_ Hfree].
    specialize (Hfree q sq Hq).
    unfold DLL.mm_payload, DLL.sizeof_Header, nb. lia.
Qed.

(** X21.  [mm_realloc] of [mm_heap_dll.c] for a block in use of a
    well-formed heap that is too small for [newsize] bytes, when the free
    list holds more than [freep] and the walk of [mm_malloc] comes to a
    block [q] of the arena that fits: it returns the payload of the upper
    [mm_units newsize] units of [q], now a block in use, whose first
    units hold the bytes of the payload of the old block.  The old block
    is no longer in use, the other blocks in use are in use as before
    with their payload as it was, and the heap is well formed. *)
Theorem X21_dll_realloc_moves_the_payload :
  ∀ (fuel n : nat) (s : DLL.state) (l1 l2 : list Block) (q sq q' x sx newsize sf : Z),
    dll_wf 0 s (l1 ++ (q, sq, true) :: l2) →
    dll_node s (l1 ++ (q, sq, true) :: l2) (DLL.freep s) sf →
    DLL.ptr (DLL.rd (DLL.heap s) (DLL.freep s)) ≠ DLL.freep s →
    DLL.first_fit s (DLL.mm_units newsize) n (DLL.freep s)
      (DLL.ptr (DLL.rd (DLL.heap s) (DLL.freep s))) q' q →
    (n < fuel)%nat →
    (x, sx, false) ∈ l1 ++ (q, sq, true) :: l2 →
    0 <= newsize < 2 ^ 64 → sx < DLL.mm_units newsize →
    ∃ s' bs',
      DLL.mm_realloc fuel s (DLL.mm_payload x) newsize
      = Ok (DLL.mm_payload (q + (sq - DLL.mm_units newsize) * DLL.sizeof_Header), s')
      ∧ dll_wf 0 s' bs' ∧ (∃ sf', dll_node s' bs' (DLL.freep s') sf')
      ∧ (q + (sq - DLL.mm_units newsize) * DLL.sizeof_Header, DLL.mm_units newsize, false)
        ∈ bs'
      ∧ (∀ sy, (x, sy, false) ∉ bs')
      ∧ (∀ y sy, (y, sy, false) ∈ l1 ++ (q, sq, true) :: l2 → y ≠ x → (y, sy, false) ∈ bs')
      ∧ (∀ i, 0 <= i < sx - 2 →
              DLL.Header_bytes
                (DLL.rd (DLL.heap s')
                   (DLL.mm_payload (q + (sq - DLL.mm_units newsize) * DLL.sizeof_Header)
                    + i * 16))
              = DLL.Header_bytes (DLL.rd (DLL.heap s) (DLL.mm_payload x + i * 16)))
      ∧ (∀ a, dll_in_payload (l1 ++ (q, sq, true) :: l2) a →
              DLL.rd (DLL.heap s') a = DLL.rd (DLL.heap s) a).
Proof.
  intros fuel n s l1 l2 q sq q' x sx newsize sf Hwf Hfp Hself Hff Hfuel Hx Hns Hsx.
  exact (dll_realloc_moves fuel n s l1 l2 q sq q' x sx newsize sf
           Hwf Hfp Hself Hff Hfuel Hx Hns Hsx).
Qed.

Lemma X21_dll_realloc_moves_the_payload_witness :
  ∃ s' bs',
    DLL.mm_realloc 8 dll_gap (DLL.mm_payload 69488) 1000
    = Ok (DLL.mm_payload (65536 + (247 - DLL.mm_units 1000) * DLL.sizeof_Header), s')
    ∧ dll_wf 0 s' bs' ∧ (∃ sf', dll_node s' bs' (DLL.freep s') sf')
    ∧ (65536 + (247 - DLL.mm_units 1000) * DLL.sizeof_Header, DLL.mm_units 1000, false) ∈ bs'
    ∧ (∀ sy, (69488, sy, false) ∉ bs')
    ∧ (∀ y sy, (y, sy, false)
               ∈ [] ++ (65536, 247, true)
                    :: [(69488, 3, false); (69536, 3, true); (69584, 3, false)] →
               y ≠ 69488 → (y, sy, false) ∈ bs')
    ∧ (∀ i, 0 <= i < 3 - 2 →
            DLL.Header_bytes
              (DLL.rd (DLL.heap s')
                 (DLL.mm_payload (65536 + (247 - DLL.mm_units 1000) * DLL.sizeof_Header)
                  + i * 16))
            = DLL.Header_bytes (DLL.rd (DLL.heap dll_gap) (DLL.mm_payload 69488 + i * 16)))
    ∧ (∀ a, dll_in_payload
              ([] ++ (65536, 247, true)
                 :: [(69488, 3, false); (69536, 3, true); (69584, 3, false)]) a →
            DLL.rd (DLL.heap s') a = DLL.rd (DLL.heap dll_gap) a).
Proof.
  apply (X21_dll_realloc_moves_the_payload 8 1 dll_gap
           [] [(69488, 3, false); (69536, 3, true); (69584, 3, false)]
           65536 247 69536 69488 3 1000 2 dll_gap_wf).
  - left. split; reflexivity.
  - vm_compute. discriminate.
  - eapply DLL.first_fit_next; [vm_compute; reflexivity | vm_compute; reflexivity
                                | vm_compute; discriminate |].
    eapply DLL.first_fit_here; vm_compute; reflexivity.
  - lia.
  - right. left.
  - vm_compute. split; [discriminate | reflexivity].
  - vm_compute. reflexivity.
Defined.

(** ** The first call of [mm_malloc], [mm_heap_kr2.c] *)



(** ** Freed memory is handed out again, [mm_heap_kr2.c] *)

Lemma merge_lower_free l1 b nu r :
  (∀ y sy fy, (y, sy, fy) ∈ l1 → 0 <= sy) →
  ∃ x sx, (x, sx, true) ∈ merge_lower l1 ((b, nu, true) :: r) ∧ nu <= sx.
Proof.
  intros Hpos. destruct l1 as [|[[p sp] fp] l _] using rev_ind.
  - exists b, nu. rewrite merge_lower_nil. split; [left | lia].
  - destruct fp.
    + rewrite merge_lower_snoc_free. exists p, (sp + nu). split; [apply elem_of_middle|].
      specialize (Hpos p sp true ltac:(apply elem_of_middle)). lia.
    + rewrite merge_lower_snoc_busy. exists b, nu. split; [apply elem_of_middle2 | lia].
Qed.

(** After [mm_free] the list has a free block that holds the freed one. *)
Lemma free_block_free l1 x sx l2 :
  (∀ y sy fy, (y, sy, fy) ∈ l1 ++ (x, sx, false) :: l2 → 0 <= sy) →
  ∃ y sy, (y, sy, true) ∈ free_block l1 x sx l2 ∧ sx <= sy.
Proof.
  intros Hpos. unfold free_block.
  assert (E : ∃ sx' r, merge_upper x sx l2 = (x, sx', true) :: r ∧ sx <= sx').
  { destruct l2 as [|[[n sn] [|]] l2]; simpl.
    - exists sx, []. split; [reflexivity | lia].
    - exists (sx + sn), l2. split; [reflexivity|].
      specialize (Hpos n sn true ltac:(apply elem_of_middle2)). lia.
    - exists sx, ((n, sn, false) :: l2). split; [reflexivity | lia]. }
  destruct E as (sx' & r & -> & Hle).
  destruct (merge_lower_free l1 x sx' r) as (y & sy & Hy & Hsy).
  { intros y sy fy Hy. apply (Hpos y sy fy). apply elem_of_app. left. exact Hy. }
  exists y, sy. split; [exact Hy | lia].
Qed.

Lemma free_block_length l1 x sx l2 :
  (length (free_block l1 x sx l2) <= length (l1 ++ (x, sx, false) :: l2))%nat.
Proof.
  unfold free_block.
  pose proof (merge_lower_length l1 (merge_upper x sx l2)) as H.
  assert (H2 : (length (merge_upper x sx l2) <= S (length l2))%nat).
  { destruct l2 as [|[[n sn] [|]] l2]; simpl; lia. }
  rewrite length_app. cbn [length]. unfold Block in *. lia.
Qed.

(** X23.  [mm_free] and then [mm_malloc] in [mm_heap_kr2.c]: once a
    block of a well-formed heap is freed, a request that the freed block
    is large enough for is served from the free memory; both calls
    return, the result is not null, the arena is not extended and the
    heap is well formed. *)
Theorem X23_kr2_freed_memory_is_reused :
  ∀ (fuel : nat) (s : KR2.state) (l1 : list Block) (x sx : Z) (l2 : list Block)
    (nbytes : Z),
    kr2_wf s (l1 ++ (x, sx, false) :: l2) →
    KR2.mm_units nbytes <= sx →
    (length (l1 ++ (x, sx, false) :: l2) < fuel)%nat →
    ∃ s1 ap s2 bs2,
      KR2.mm_free fuel s (KR2.mm_payload x) = Ok s1
      ∧ KR2.mm_malloc fuel s1 nbytes = Ok (ap, s2)
      ∧ ap ≠ NULL
      ∧ KR2.arena s2 = KR2.arena s
      ∧ kr2_wf s2 bs2 ∧ (KR2.mm_block ap, KR2.mm_units nbytes, false) ∈ bs2.
Proof.
  intros fuel s l1 x sx l2 nbytes Hwf Hu Hfuel.
  destruct (kr2_free_any_wf fuel s l1 x sx false l2 Hwf)
    as (s1 & Ef & Hwf1 & Hn1 & Hb1 & Ha1 & _).
  destruct (free_block_free l1 x sx l2) as (y & sy & Hy & Hsy).
  { intros y sy fy Hy.
    destruct (kr2_wf_block_valid s _ y sy fy Hwf Hy) as (_ & _ & _ & H & _). lia. }
  pose proof (free_block_length l1 x sx l2) as Hlen.
  destruct (kr2_malloc_reuses fuel s1 _ y sy nbytes Hwf1 Hn1 Hy ltac:(lia) ltac:(lia))
    as (k1 & q & sq & k2 & s2 & bs2 & Ebs & Hsq & Em & Ha2 & Ebs2 & Hwf2 & _).
  destruct (kr2_wf_block_valid s1 _ q sq true Hwf1 ltac:(rewrite Ebs; apply elem_of_middle))
    as (_ & Hq1 & _).
  destruct (kr2_wf_layout _ _ Hwf1) as (Hl1 & Hl2 & _).
  exists s1, (KR2.mm_payload (q + (sq - KR2.mm_units nbytes) * KR2.sizeof_Header)), s2, bs2.
  split; [exact Ef|]. split; [exact Em|]. split.
  { unfold KR2.mm_payload, KR2.sizeof_Header, NULL in *. lia. }
  split; [congruence|]. split; [exact Hwf2|].
  unfold KR2.mm_block, KR2.mm_payload, KR2.sizeof_Header.
  replace (q + (sq - KR2.mm_units nbytes) * 32 + 1 * 32 - 1 * 32)
    with (q + (sq - KR2.mm_units nbytes) * 32) by lia.
  rewrite Ebs2. unfold KR2.sizeof_Header.
  destruct (Z.eqb_spec sq (KR2.mm_units nbytes)) as [He|Hne].
  - rewrite <- He. replace (q + (sq - sq) * 32) with q by lia. apply elem_of_middle.
  - apply elem_of_middle2.
Qed.

Lemma X23_kr2_freed_memory_is_reused_witness :
  ∃ s1 ap s2 bs2,
    KR2.mm_free 8 kr2_gap (KR2.mm_payload 69440) = Ok s1
    ∧ KR2.mm_malloc 8 s1 20 = Ok (ap, s2)
    ∧ ap ≠ NULL
    ∧ KR2.arena s2 = KR2.arena kr2_gap
    ∧ kr2_wf s2 bs2 ∧ (KR2.mm_block ap, KR2.mm_units 20, false) ∈ bs2.
Proof.
  apply (X23_kr2_freed_memory_is_reused 8 kr2_gap [(65536, 122, true)] 69440 2
           [(69504, 2, true); (69568, 2, false)] 20).
  - exact kr2_gap_wf.
  - vm_compute. discriminate.
  - simpl. lia.
Defined.
